(* ===== verification/_CoqProject ===== *)
-Q . S2P
Prelude.v
JsString.v
NodePath.v
PathGuard.v
Diff.v
Edit.v
Json.v
Host.v
Pool.v
FlatHost.v
Server.v
Tools.v
Main.v
Behaviour.v
JsonParse.v
TreeHost.v
TreeFacts.v
Sandbox.v
Search.v
Effects.v
Failures.v
Answers.v
Concurrent.v
Disjoint.v
