(* ===== verification/Prelude.v ===== *)
(** * Verification of the filesystem server ([src/filesystem/src/index.ts])

    The program is a sandboxed filesystem server: a client calls named tools
    ([read_file], [write_file], [edit_file], ...) and the server runs them on
    the host filesystem, but only on paths that pass a containment check
    against the directories given on the command line.  This development
    models the program in Rocq, definition by definition from the TypeScript
    source, and proves what each part does.

    ** The program's parts and the files that model them

    - _JavaScript and Node built-ins the source calls_ (not code of the
      repository; modelled from the language and library semantics).
      [JsString.v]: [startsWith], [indexOf], [includes], [replace] with its
      [$]-patterns ([getSubstitution], [jsReplace]), [split] and [join]
      ([jsSplit], [jsJoin]), [truthy], [toString(8)] and [slice(-3)]
      ([toOctal], [sliceLast]).
      [NodePath.v]: POSIX [path.resolve] read at the level of path segments
      ([normStep], [normalizeSegments], [resolve]) and [path.dirname].
      [Json.v]: the values handed to [JSON.stringify] ([json]) and the class
      [JsonText] of renderings the handlers are written against; [render] is
      the text for a gap of two spaces.  [JsonParse.v]: a reader of JSON
      texts ([parse]), a reference definition against which [render] is
      checked, not code of the server.
    - _Configuration_ (index.ts 30-51) and _Path Guard_ (index.ts 56-59).
      [PathGuard.v]: [allowedDirectories] (the command-line arguments, each
      resolved), [startup] (the process refuses to start on no argument or on
      an argument that is not a directory) and [isPathAllowed], the check
      [allowedDirectories.some(dir => resolvedPath.startsWith(dir))].  The
      guard of the specification ([isPathInside], by whole segments) is
      defined beside it.
    - _Diff Generator_ (index.ts 592-615).  [Diff.v]: [generateDiff] is the
      source's index loop ([diffLoop], one iteration is [diffStep]);
      [diffEntries] with [renderEntry] is the structured reading the
      specification calls a DiffRecord.
    - _Edit Applicator_ (index.ts 394-418, inside the [edit_file] handler).
      [Edit.v]: [applyEdit] is one iteration of the loop over [edits],
      [applyEdits] the loop, [editContent] the loop followed by the diff.
    - _Host_ (Node [fs/promises], [existsSync], [glob]; not code of the
      repository).  [Host.v]: the calls the handlers make ([call]) and the
      type of what each replies ([reply]); a handler is a tree of calls
      ([io], with exceptions [prog]) in the order of the source.  A host is
      an instance of the class [Host], a state with a function [exec];
      [run] and [trace] execute a handler on it.  The predicates [AllCalls],
      [AllRets], [ThrowsOnly] and [Yields] with their rules are the program
      logic the handlers are verified with.  [FlatHost.v] is one small host,
      a store of file contents by path, on which the examples run.
      [TreeHost.v] is a host with directories: the state is a tree, a finite
      map from keys (the names from the root to an entry) to [node]s ([File]
      with its content, or [Dir]).  The system resolves a path by walking its
      components through directories ([pathComponents], [walkStep], [walk],
      [locate]); [treeExec] is what each call does on the tree, with the
      error codes of the system ([errno]): [mkdirp] is [mkdir] with
      [recursive], [renameKeys] and [moveTree] are [rename], [children] is
      [readdir], [nodeStats] is [stat]; [sysError], [fdError] and
      [renameError] are the messages of the system, [mkdirError] the code
      [mkdir] with [recursive] reports for a file in its way.
      [TreeFacts.v] holds the lemmas about these calls; [Sandbox.v],
      [Search.v], [Effects.v], [Failures.v] and [Answers.v] run the
      handlers of [Server.v] on that host.
    - _Operation Dispatcher_ (index.ts 306-587).  [Server.v]: one definition
      per [case] of the [switch] ([read_file], [read_multiple_files],
      [write_file], [edit_file], [create_directory], [list_directory],
      [move_file], [search_files], [get_file_info],
      [list_allowed_directories]); [dispatch] is the [switch], [catchAll]
      the [catch], [callTool] the handler.  [Behaviour.v] states what the
      handlers do on a host, in terms of the host's replies; [Effects.v]
      states what they do to the tree of directories when they succeed,
      [Answers.v] what they answer and leave on every branch, the refusals
      of the system included, [Failures.v] what a request that fails has
      done, and [Search.v] what the filter of [search_files] keeps.
    - _Server description, resources and tool list_ (index.ts 64-301).
      [Tools.v]: [server], [listResources], [readResource] and the ten tool
      descriptions [tools] with their input schemas.
    - _The process_ (index.ts 30-51 and 617-630).  [Main.v]: [main] with
      its [catch], and [process], the module from its first statement: the
      start-up of [PathGuard.v], then [main]; the result is the [status] of
      the process and the arguments of its [console.error] calls.
    - _Requests in flight_ (index.ts 306: the protocol layer calls the
      [async] handler for every request).  [Pool.v]: the handlers in flight
      and the state of the host form a configuration; a [step] executes the
      awaited call of one handler and resumes it; [schedule] is the same as
      a function of the list of handlers picked.  [Concurrent.v]: [serve]
      is the list of the handlers of a list of requests, [serveAll] their
      service one at a time.  [Disjoint.v]: the requests of the file tools
      for different files.

    ** How state and effects are modelled

    JavaScript strings are Rocq [string]s (sequences of 8-bit characters; the
    operations used are substring search and concatenation, which agree on
    the UTF-8 and UTF-16 encodings of a text).  A thrown exception is a value:
    [McpError code message] or [OtherError message] in a [prog], and in the
    [response] of the handler either [Thrown] (an [McpError], which the
    [catch] rethrows) or a [Returned] result with [isError] (any other
    error).  An argument the client left out is [None] in the record [args],
    and the handlers do with it what the source does with [undefined].
    [await]ed host calls are the nodes of an [io] tree.  [process.cwd()] is
    a parameter [cwd] of every definition that calls [path.resolve], and the
    module-level [allowedDirectories] a parameter of the handlers.  On the
    tree of [TreeHost.v] the system reads a path component by component
    from the root, [..] leading to the parent, and a name it passes must be
    a directory; [mkdir] with [recursive] is modelled by its effect, the
    same walk in which a missing name is created.

    ** What the theorems show

    - [JsString.v], [NodePath.v]: specifications of the built-ins (first
      occurrence, join/split round trip, [resolve] yields a normal form and
      is idempotent, [dirname] of a normal path drops its last segment),
      used by every other file.
    - [PathGuard.v]: [isPathAllowed] is exactly "the resolved path has a
      textual prefix among the roots"; it is fail-closed on no roots, stable
      under [resolve] (so [..] cannot be used to escape), true of every path
      the specification's guard accepts, and - against the specification -
      also true of a sibling directory whose name extends a root's name;
      [isPathAllowed_text] is the exact difference.
    - [Diff.v]: the loop equals the structural reference definition, a text
      against itself yields only unchanged lines, the output is never empty,
      a trailing newline does not show, and the number of reported lines is
      bounded by the line counts.
    - [Edit.v]: the loop equals its reference definition; one result per edit
      in order, an absent [oldText] leaves the content alone, a matched edit
      replaces the first occurrence literally when [newText] holds no [$],
      and not literally when it does.
    - [Server.v]: every host call of every handler names only paths that
      passed the guard ([callTool_guarded], with the two exceptions its
      statement names); the errors thrown to the protocol layer are exactly
      three kinds ([callTool_throws]); a refused path, an unknown tool and a
      missing [path] are answered as stated, before any call; the reading
      tools and a dry run write nothing; the permissions of [get_file_info]
      are three octal digits that denote the mode modulo 512
      ([fileInfo_permissions], against the reference reader [parseOctal]
      of [JsString.v]).
    - [Tools.v]: the tool list and the dispatcher agree on the names, a
      listed tool is never [MethodNotFound], and a request that carries what
      its schema requires succeeds on a host that cooperates.
    - [Behaviour.v]: what [read_file], [write_file], [edit_file],
      [create_directory], [list_directory], [move_file], [search_files]
      and [get_file_info] return and leave behind on any host, call by call
      ([search_files] reports only matches that pass the guard); the batch
      read answers per path and never fails as a whole
      ([read_multiple_files_total]), and where reads leave the state alone
      its answer is the list of the entries [readEntry] of the paths
      ([read_multiple_files_run]); the scenario of the specification on the
      flat host.
    - [JsonParse.v]: every text [render] writes is read back as the value
      it was written from ([parse_render]), so no two values have the same
      text ([render_inj]); on any host an answer of [read_multiple_files],
      [edit_file], [search_files], [get_file_info] or
      [list_allowed_directories] that is not marked as an error is such a
      text, and the client recovers the value ([callTool_json]).
    - [TreeHost.v]: where the walk of the system arrives, [path.resolve]
      arrives lexically ([locate_lexical], [resolve_pathComponents]); every
      call keeps the tree well formed ([wf]: the root is a directory, every
      entry lies in a directory; [treeExec_wf]); the lookup of a tree after
      a move ([lookup_moveTree]).
    - [TreeFacts.v]: what [mkdir] and [rename] leave alone
      ([mkdirp_grows], [mkdirp_names], [mkdirp_made], [renameKeys_frame]);
      what a call that succeeded has done ([renameKeys_Ok],
      [moveTree_destination], [moveTree_source], [treeExec_Rename_Ok]);
      when a call succeeds ([noFileAbove]: no file is in the way;
      [mkdirp_Ok], [mkdirp_lookup], [locate_parent_Dir], [renameKeys_free])
      and how the walk fails ([walk_Err]); a file in the way stops the
      walk and [mkdir] with [ENOTDIR] before anything is made
      ([walk_file], [mkdirp_file], [locate_file], [noFileAbove_false]);
      [mkdir] with [recursive] a second time changes nothing
      ([mkdirp_again], [mkdirp_existing]); what [readdir] lists
      ([elem_of_children]).
    - [Sandbox.v]: on the host with directories, an entry outside the
      allowed directories is after any request what it was before, or is a
      directory that was not there ([callTool_confined]): no file outside
      is created, written, moved or removed.  The exception is real:
      [mkdir] with [recursive] on a path with [..] creates directories
      outside the allowed ones ([write_file_excursion]).  It needs such a
      path: when the path arguments are in normal form and the allowed
      directories are in the tree, nothing outside changes at all
      ([callTool_normal]).  Every request
      keeps the tree well formed ([callTool_wf]); the guard has decided
      about the node a path is found at ([isPathAllowed_located]).
    - [Effects.v]: what each handler does to the tree.  For a path in
      normal form on a well-formed tree, under conditions on the tree
      alone, the answer and the tree afterwards: [read_file_reads],
      [read_file_missing] (the error of the system as a result),
      [write_file_writes], [edit_file_edits], [create_directory_creates],
      [list_directory_lists], [move_file_succeeds], [get_file_info_stats].
      For any path, from the answer: what [write_file] wrote, [read_file]
      reads ([write_read]); what [edit_file] applied, [read_file] reads
      ([edit_read]); after a [move_file] to a normal path that reported
      success the destination holds what the source held and the source is
      gone ([move_file_moves]); [create_directory] is idempotent
      ([create_directory_idempotent]).  The scenario of the specification
      on the tree ([sandbox_scenario_tree]): the directory [/sandbox/a] is
      created, which the flat host cannot say.
    - [Answers.v]: the same handlers on every branch.  [entryAt] is what
      the system finds at a key (the entry, [ENOENT], or [ENOTDIR] below a
      file); each call of the host is stated against it
      ([onNode_entryAt], [treeExec_Mkdir_answers],
      [treeExec_WriteFile_answers], [treeExec_Rename_answers]) and each
      handler against the calls, with no condition on the tree but that it
      is well formed: [read_file_answers], [list_directory_answers],
      [get_file_info_answers], [edit_file_answers], [write_file_answers],
      [create_directory_answers], [move_file_answers].  The messages are
      those of Node, character by character ([aliceTree_refusals]).
    - [Failures.v]: a handler makes calls that change nothing but for
      [mkdir], and its one call that replaces content is its last
      ([Settles], shown of all ten handlers: [dispatch_settles]).  So a
      request that is refused or fails, whatever the tool, the arguments
      and the tree, has at most created directories
      ([callTool_failure_grows]), and nothing at all unless the tool is one
      of the three that call [mkdir] ([callTool_failure_unchanged]).  That
      the three can fail and leave a directory is shown by
      [mkdirTools_leftover].
    - [Search.v]: the filter [search_files] applies to the matches of
      [glob] is the lexical guard again: a match that is the searched
      directory followed by names passes it ([isPathAllowed_below]), so
      when [glob] reports entries below the directory the answer is all of
      them ([search_files_below]), a match reached through a link included
      ([search_files_link]); an empty [path] searches from the root of the
      file system ([search_files_empty_path]).

    - [Main.v]: the process serves exactly when a directory was given, all
      given are directories and the server connected ([process_serving]);
      the only exit code is 1.
    - [Pool.v]: the step relation and the schedules agree
      ([schedule_steps], [steps_schedule]); a run to the end is an
      interleaving ([steps_run]); what holds of the calls, the state and
      the answers of the handlers holds of every interleaving
      ([steps_AllCalls], [steps_rel], [steps_invariant], [steps_AllRets]);
      no interleaving is infinite ([step_sn]) and every one can be brought
      to an end ([steps_finish]).
    - [Concurrent.v]: under any interleaving of any requests the calls are
      guarded ([serve_guarded]), the tree stays well formed ([serve_wf]),
      nothing that exists outside the allowed directories changes
      ([serve_confined], [serve_normal]) and only the errors of the
      specification are thrown ([serve_throws]); one request at a time is
      one of the interleavings ([serve_sequential]), and none goes on for
      ever ([serve_terminates]).  What is lost for want of a lock:
      [move_file] overwrites a destination created after its test
      ([move_file_race]), one of two edits of a file can be lost
      ([edit_file_lost_update]), and the directory made for a file is seen
      before the file ([write_file_intermediate]).
    - [Pool.v], [Disjoint.v]: when nothing is lost.  Handlers whose calls
      are independent of the calls of the others ([indep], [apart]) are
      served by every interleaving as they are served in order
      ([steps_runAll]); the handlers of [read_file], [write_file] and
      [edit_file] for different files whose directories exist are such
      handlers ([fileRequest_onFile], [onFile_indep]), so that every
      interleaving of such requests gives the answers and the tree of
      serving them one after the other ([serve_disjoint]).

    ** Bounds and fuel

    The loops of the source run over finite lists and are structurally
    recursive, with two exceptions.  [diffLoop] counts [i] upwards and takes
    as fuel the number of iterations, [max (length oldLines) (length
    newLines)]: [diffLoop_fuel] shows that any fuel of at least the remaining
    iterations gives the same result.  [toOctalGo] divides by eight with
    fuel [log2 n + 1], more than the number of octal digits of [n]:
    [parseOctal_toOctal] shows that the digits produced denote [n].
    The reader of [JsonParse.v] takes as fuel the length of the text; one
    unit is spent per value and per member of a block, and a value has at
    most as many nodes as its text has characters ([jsize_length]), so
    that [parse_render] holds with no condition on the fuel.

    The interleaving of [Pool.v] takes a host call as atomic: its effect
    happens in the one step that executes it.  [writeFile] and [mkdir]
    with [recursive] are several system calls in Node; what another
    request can see between those is not modelled.  [existsSync] is a
    step like the awaited calls: it runs in the turn that starts the
    handler, and no call of another handler is lost by letting that turn
    come later.

    ** Not modelled

    The JSON-RPC framing of the SDK, its validation of messages and the
    stdio transport ([server.connect] is a parameter of [main]); symbolic
    links, permissions
    and times of the file system (the tree of [TreeHost.v] has none: [stat]
    reads the epoch and fixed modes) and which files a [glob] pattern
    matches, which is a parameter of the host; arguments of the wrong JSON
    type; Windows path semantics ([path.win32]).  Why these are left out:
    every line of [index.ts] that is code has its definition here, and what
    remains belongs to the libraries the program calls.  The pattern
    language of [glob] is that of a package whose version the repository
    does not pin, so the matcher is a parameter and the theorems hold for
    every matcher.  The tree has no symbolic links because the guard of the
    source is lexical and the specification names containment that is aware
    of links a non-goal: what the program does about a link is what it does
    about the path as written, which [Search.v] and [PathGuard.v] state.
    The handlers read their arguments through [as string] casts that check
    nothing at run time; what a value of another JSON type does in a
    template literal or in [path.resolve] is the semantics of JavaScript
    coercions and of Node's argument validation, not of this program, and
    the record [args] holds the arguments at the types the schemas of
    [Tools.v] declare. *)

From Stdlib Require Import Ascii String List Lia.
From stdpp Require Import base tactics option list strings.

(** * Results

    A host call or a handler either returns a value or throws.  [result E A]
    is the outcome; it is a monad in stdpp's sense, so the [x ← e; k]
    notation sequences fallible steps the way consecutive statements do. *)

Inductive result (E A : Type) : Type :=
| Ok (a : A)
| Err (e : E).
Arguments Ok {E A} a.
Arguments Err {E A} e.

#[export] Instance result_ret {E} : MRet (result E) := fun A a => Ok a.
#[export] Instance result_bind {E} : MBind (result E) := fun A B f r =>
  match r with Ok a => f a | Err e => Err e end.
#[export] Instance result_fmap {E} : FMap (result E) := fun A B f r =>
  match r with Ok a => Ok (f a) | Err e => Err e end.

#[export] Instance result_eq_dec {E A} `{EqDecision E, EqDecision A} :
  EqDecision (result E A).
Proof. solve_decision. Defined.

Definition is_Ok {E A} (r : result E A) : bool :=
  match r with Ok _ => true | Err _ => false end.

(** * Scope for string notations of the development *)

Declare Scope js_scope.
Delimit Scope js_scope with js.
Notation "s ++ t" := (String.append s t) (only parsing) : js_scope.

(** * Strings: the lemmas on append and length every component uses *)

Section Strings.
Implicit Types (s t u : string) (c d : ascii).

Lemma str_app_cons c s t : String c s +:+ t = String c (s +:+ t).
Proof. reflexivity. Qed.

Lemma str_app_nil_l s : "" +:+ s = s.
Proof. reflexivity. Qed.

Lemma str_app_nil_r s : s +:+ "" = s.
Proof. induction s as [|c s IH]; [done|]. by rewrite str_app_cons, IH. Qed.

Lemma str_app_assoc s t u : (s +:+ t) +:+ u = s +:+ (t +:+ u).
Proof. induction s as [|c s IH]; [done|]. by rewrite !str_app_cons, IH. Qed.

Lemma str_length_app s t :
  String.length (s +:+ t) = String.length s + String.length t.
Proof. induction s as [|c s IH]; [done|]. rewrite str_app_cons. simpl. lia. Qed.

Lemma str_app_eq_nil s t : s +:+ t = "" ↔ s = "" ∧ t = "".
Proof. destruct s; split; [done|by intros [_ ->]|done|by intros [? _]]. Qed.

Lemma str_length_zero s : String.length s = 0 ↔ s = "".
Proof. by destruct s. Qed.

Lemma str_app_inv_tail s t u : s +:+ u = t +:+ u → s = t.
Proof.
  revert t; induction s as [|c s IH]; intros [|d t] H; [done| | |].
  - apply (f_equal String.length) in H.
    rewrite str_app_nil_l, str_length_app in H; simpl in H. lia.
  - apply (f_equal String.length) in H.
    rewrite str_app_nil_l, str_length_app in H; simpl in H. lia.
  - rewrite !str_app_cons in H. injection H as -> H. f_equal. by apply IH.
Qed.

Lemma str_eqb_eq s t : String.eqb s t = bool_decide (s = t).
Proof.
  destruct (String.eqb_spec s t); symmetry;
    [by apply bool_decide_eq_true_2 | by apply bool_decide_eq_false_2].
Qed.

End Strings.

(** Rewriting database for string normalisation, and the tactics built on it. *)

Create Rewrite HintDb str.
#[export] Hint Rewrite str_app_cons str_app_nil_l str_app_nil_r str_app_assoc
  str_length_app : str.

(** [str_norm] pushes appends to the right and removes empty strings. *)
Ltac str_norm := autorewrite with str in *.

(** [case_ascii c d] splits on whether two characters are equal, rewriting
    the boolean test away in both branches. *)
Ltac case_ascii c d :=
  let E := fresh "E" in
  destruct (Ascii.eqb_spec c d) as [E|E]; [try subst|].

(** [case_str s t] does the same for the string comparison [s =? t]. *)
Ltac case_str s t :=
  let E := fresh "E" in
  destruct (String.eqb_spec s t) as [E|E]; [try subst|].

(** [invert H] inverts [H] and substitutes. *)
Ltac invert H := inversion H; subst; clear H.

(** * Lists: the shared lemmas on lookups with a default and on folds *)

Section Lists.
Context {A B : Type}.
Implicit Types (l k : list A) (x d : A).

(** [nth_or d l i] is the expression [i < l.length ? l[i] : d]. *)
Definition nth_or d l (i : nat) : A := default d (l !! i).

Lemma nth_or_lt d l i x : l !! i = Some x → nth_or d l i = x.
Proof. unfold nth_or. by intros ->. Qed.

Lemma nth_or_ge d l i : length l ≤ i → nth_or d l i = d.
Proof. unfold nth_or. intros H. by rewrite lookup_ge_None_2. Qed.

Lemma nth_or_cons_0 d x l : nth_or d (x :: l) 0 = x.
Proof. reflexivity. Qed.

Lemma nth_or_cons_S d x l i : nth_or d (x :: l) (S i) = nth_or d l i.
Proof. reflexivity. Qed.

Lemma nth_or_nil d i : nth_or d [] i = d.
Proof. reflexivity. Qed.

(** Reading a list index by index gives the list back. *)
Lemma map_nth_or_seq d l (f : A → B) :
  map (λ i, f (nth_or d l i)) (seq 0 (length l)) = map f l.
Proof.
  induction l as [|x l IH]; [done|]. simpl.
  by rewrite <-seq_shift, map_map, <-IH.
Qed.

Lemma flat_map_map {C} (f : B → list C) (g : A → B) l :
  flat_map f (map g l) = flat_map (λ x, f (g x)) l.
Proof. induction l as [|x l IH]; [done|]. simpl. by rewrite IH. Qed.

(** A [flat_map] whose pieces have between [lo] and [hi] elements. *)
Lemma flat_map_length_bounds (f : A → list B) l lo hi :
  (∀ x, lo ≤ length (f x) ≤ hi) →
  lo * length l ≤ length (flat_map f l) ≤ hi * length l.
Proof.
  intros Hf. induction l as [|x l IH]; simpl; [lia|].
  rewrite length_app. specialize (Hf x). lia.
Qed.

Lemma forallb_flat_map (p : B → bool) (f : A → list B) l :
  forallb p (flat_map f l) = forallb (λ x, forallb p (f x)) l.
Proof.
  induction l as [|x l IH]; [done|]. simpl. by rewrite forallb_app, IH.
Qed.

Lemma existsb_True (f : A → bool) l :
  existsb f l = true ↔ ∃ x, x ∈ l ∧ f x = true.
Proof.
  rewrite existsb_exists. split; intros (x & H1 & H2); exists x; split; try done.
  - by apply list_elem_of_In.
  - by apply list_elem_of_In.
Qed.

Lemma fold_left_app_pair (f : B → A → B) l k b :
  fold_left f (l ++ k) b = fold_left f k (fold_left f l b).
Proof. apply fold_left_app. Qed.

(** A filter keeps a list on which a stronger test holds throughout. *)
Lemma filter_forallb (f g : A → bool) l :
  (∀ x, g x = true → f x = true) → forallb g l = true → List.filter f l = l.
Proof.
  intros Hfg. induction l as [|x l IH]; simpl; [done|].
  intros [Hx Hl]%andb_true_iff. by rewrite (Hfg x Hx), IH.
Qed.

Lemma forallb_prefix (f : A → bool) l k :
  l `prefix_of` k → forallb f k = true → forallb f l = true.
Proof. intros [r ->]. rewrite forallb_app. by intros [? _]%andb_true_iff. Qed.

Lemma prefix_removelast l : removelast l `prefix_of` l.
Proof.
  destruct l as [|x l _] using rev_ind; [done|].
  rewrite removelast_last. by apply prefix_app_r.
Qed.

Lemma prefix_removelast_nil l : l `prefix_of` removelast l → l = [].
Proof.
  destruct l as [|x l _] using rev_ind; [done|]. rewrite removelast_last.
  intros [r Hr]. apply (f_equal length) in Hr. rewrite !length_app in Hr.
  simpl in Hr. lia.
Qed.

(** A prefix of a list with one more element is the list or a prefix of
    the shorter one. *)
Lemma prefix_snoc_inv k l x :
  k `prefix_of` l ++ [x] → k = l ++ [x] ∨ k `prefix_of` l.
Proof.
  intros [r E]. destruct r as [|y r _] using rev_ind.
  - left. by rewrite app_nil_r in E.
  - right. rewrite app_assoc in E. apply app_inj_tail in E as [-> _].
    by apply prefix_app_r.
Qed.

Lemma prefix_removelast_inv k l :
  k `prefix_of` l → k = l ∨ k `prefix_of` removelast l.
Proof.
  destruct l as [|x l _] using rev_ind.
  - intros ->%prefix_nil_inv. by left.
  - rewrite removelast_last. apply prefix_snoc_inv.
Qed.

(** A test that fails on a list fails on one of its elements. *)
Lemma forallb_false (f : A → bool) l :
  forallb f l = false → ∃ x, x ∈ l ∧ f x = false.
Proof.
  induction l as [|x l IH]; [done|]. simpl. intros [Hx|Hl]%andb_false_iff.
  - exists x. split; [left|done].
  - destruct (IH Hl) as (y & Hy & Hf). exists y. split; [by right|done].
Qed.

End Lists.

Create HintDb fsguard discriminated.
#[export] Hint Rewrite @nth_or_cons_0 @nth_or_cons_S @nth_or_nil : str.
#[export] Hint Resolve str_app_nil_r str_app_assoc : fsguard.
