(* ===== verification/JsString.v ===== *)
(** * JavaScript string built-ins used by the server

    [index.ts] calls [String.prototype.startsWith], [includes], [replace]
    (with a string pattern) and [split], and [Array.prototype.join].  They
    are not code of the repository; this file models them from the
    ECMAScript specification and proves the facts the components rely on:
    a prefix test is an append equation, [indexOf] finds the first
    occurrence, [jsReplace] rewrites exactly that occurrence and expands the
    [$]-patterns of the replacement text, and [jsJoin]/[jsSplit] are
    inverse. *)

From Stdlib Require Import Ascii String List Lia.
From stdpp Require Import base tactics option list strings.
From S2P Require Import Prelude.

(** ** Slices

    [str_take n s] is [s.substring(0, n)] and [str_drop n s] is
    [s.slice(n)] for [0 <= n]. *)

Fixpoint str_take (n : nat) (s : string) : string :=
  match n, s with
  | S n', String c s' => String c (str_take n' s')
  | _, _ => ""
  end.

Fixpoint str_drop (n : nat) (s : string) : string :=
  match n, s with
  | S n', String _ s' => str_drop n' s'
  | _, _ => s
  end.

(** ** Prefix test: [s.startsWith(p)] *)

Fixpoint startsWith (s p : string) {struct p} : bool :=
  match p with
  | "" => true
  | String c p' =>
      match s with
      | "" => false
      | String d s' => if Ascii.eqb c d then startsWith s' p' else false
      end
  end.

(** ** Search: [s.indexOf(p)] ([None] for -1) and [s.includes(p)] *)

Fixpoint indexOf (s p : string) : option nat :=
  if startsWith s p then Some 0
  else match s with
       | "" => None
       | String _ s' => S <$> indexOf s' p
       end.

Definition includes (s p : string) : bool :=
  match indexOf s p with Some _ => true | None => false end.

(** ** Truthiness of a string in a condition: [if (s)] *)

Definition truthy (s : string) : bool :=
  match s with "" => false | String _ _ => true end.

(** ** Replacement text: the abstract operation GetSubstitution

    For a string pattern there are no captures, so the only patterns that
    expand are [$$] (a dollar), [$&] (the matched text), [$`] (the text
    before the match) and [$'] (the text after it); a [$] followed by
    anything else stands for itself. *)

Fixpoint getSubstitution (matched before after templ : string) : string :=
  match templ with
  | "" => ""
  | String c r =>
      if Ascii.eqb c "$" then
        match r with
        | String d r' =>
            if Ascii.eqb d "$" then
              String "$" (getSubstitution matched before after r')
            else if Ascii.eqb d "&" then
              matched +:+ getSubstitution matched before after r'
            else if Ascii.eqb d "`" then
              before +:+ getSubstitution matched before after r'
            else if Ascii.eqb d "'" then
              after +:+ getSubstitution matched before after r'
            else String c (getSubstitution matched before after r)
        | "" => String c ""
        end
      else String c (getSubstitution matched before after r)
  end.

(** ** [s.replace(pat, repl)] with a string pattern: the first occurrence
    only, the replacement text expanded. *)

Definition jsReplace (s pat repl : string) : string :=
  match indexOf s pat with
  | None => s
  | Some pos =>
      let before := str_take pos s in
      let after := str_drop (pos + String.length pat) s in
      before +:+ getSubstitution pat before after repl +:+ after
  end.

(** ** [s.split(sep)] for a one-character separator, and [l.join(sep)] *)

Fixpoint jsSplit (sep : ascii) (s : string) : list string :=
  match s with
  | "" => [""]
  | String c s' =>
      if Ascii.eqb c sep then "" :: jsSplit sep s'
      else match jsSplit sep s' with
           | [] => [String c ""]
           | w :: ws => String c w :: ws
           end
  end.

Fixpoint jsJoin (sep : string) (l : list string) : string :=
  match l with
  | [] => ""
  | [x] => x
  | x :: l' => x +:+ sep +:+ jsJoin sep l'
  end.

(** [has_char c s]: the character occurs in the string. *)
Fixpoint has_char (c : ascii) (s : string) : bool :=
  match s with
  | "" => false
  | String d s' => Ascii.eqb d c || has_char c s'
  end.

(** ** Slices *)

Section Slices.
Implicit Types (s t p : string) (n : nat).

Lemma str_take_drop n s : str_take n s +:+ str_drop n s = s.
Proof.
  revert s; induction n as [|n IH]; intros [|c s]; simpl; try done.
  by rewrite str_app_cons, IH.
Qed.

Lemma str_take_app s t : str_take (String.length s) (s +:+ t) = s.
Proof. induction s as [|c s IH]; simpl; [by destruct t|]. by rewrite IH. Qed.

Lemma str_drop_app s t : str_drop (String.length s) (s +:+ t) = t.
Proof. induction s as [|c s IH]; simpl; [by destruct t|done]. Qed.

Lemma str_drop_app2 s p t :
  str_drop (String.length s + String.length p) (s +:+ p +:+ t) = t.
Proof.
  rewrite <-str_length_app, <-(str_app_assoc s p t). apply str_drop_app.
Qed.

Lemma str_drop_drop n m s : str_drop n (str_drop m s) = str_drop (m + n) s.
Proof.
  revert s; induction m as [|m IH]; intros s; [done|].
  destruct s as [|c s]; simpl; [by destruct n|]. apply IH.
Qed.

Lemma str_take_0 s : str_take 0 s = "".
Proof. by destruct s. Qed.

Lemma str_drop_0 s : str_drop 0 s = s.
Proof. by destruct s. Qed.

Lemma str_length_take n s : String.length (str_take n s) = n `min` String.length s.
Proof.
  revert s; induction n as [|n IH]; intros [|c s]; simpl; try done.
  by rewrite IH.
Qed.

End Slices.

#[export] Hint Rewrite str_take_drop str_take_app str_drop_app str_take_0
  str_drop_0 : str.

(** ** The prefix test *)

Section Prefix.
Implicit Types (s t p r : string).

Lemma startsWith_nil s : startsWith s "" = true.
Proof. by destruct s. Qed.

Lemma startsWith_app p r : startsWith (p +:+ r) p = true.
Proof.
  induction p as [|c p IH]; [reflexivity|].
  rewrite str_app_cons; simpl. by rewrite Ascii.eqb_refl.
Qed.

Lemma startsWith_refl s : startsWith s s = true.
Proof. rewrite <-(str_app_nil_r s) at 1. apply startsWith_app. Qed.

(** A prefix test succeeds exactly when the string is the prefix followed
    by a rest. *)
Lemma startsWith_spec s p : startsWith s p = true ↔ ∃ r, s = p +:+ r.
Proof.
  split; [|intros [r ->]; apply startsWith_app].
  revert s; induction p as [|c p IH]; intros s H; [by exists s|].
  destruct s as [|d s]; simpl in H; [done|].
  case_ascii c d; [|done]. destruct (IH _ H) as [r ->]. by exists r.
Qed.

Lemma startsWith_drop s p :
  startsWith s p = true → s = p +:+ str_drop (String.length p) s.
Proof.
  intros [r ->]%startsWith_spec. by rewrite str_drop_app.
Qed.

Lemma startsWith_length s p :
  startsWith s p = true → String.length p ≤ String.length s.
Proof. intros [r ->]%startsWith_spec. rewrite str_length_app. lia. Qed.

Lemma startsWith_trans s p q :
  startsWith s p = true → startsWith p q = true → startsWith s q = true.
Proof.
  intros [r ->]%startsWith_spec [r' ->]%startsWith_spec.
  rewrite str_app_assoc. apply startsWith_app.
Qed.

Lemma startsWith_app_l s p r :
  startsWith s p = true → startsWith (s +:+ r) p = true.
Proof.
  intros [r' ->]%startsWith_spec. rewrite str_app_assoc. apply startsWith_app.
Qed.

Lemma startsWith_false s p :
  startsWith s p = false ↔ ∀ r, s ≠ p +:+ r.
Proof.
  rewrite <-not_true_iff_false, startsWith_spec. split.
  - intros H r Hr. apply H. by exists r.
  - intros H [r Hr]. by apply (H r).
Qed.

End Prefix.

#[export] Hint Rewrite startsWith_nil startsWith_app startsWith_refl : str.
#[export] Hint Resolve startsWith_app startsWith_refl startsWith_nil : fsguard.

(** ** Search *)

(** [first_occurrence s p b a]: [p] occurs in [s] between [b] and [a], and
    no occurrence starts earlier. *)
Definition first_occurrence (s p b a : string) : Prop :=
  s = b +:+ p +:+ a ∧
  ∀ b' a', s = b' +:+ p +:+ a' → String.length b ≤ String.length b'.

Section Search.
Implicit Types (s t p b a : string) (i : nat).

Lemma indexOf_unfold s p :
  indexOf s p =
    if startsWith s p then Some 0
    else match s with "" => None | String _ s' => S <$> indexOf s' p end.
Proof. by destruct s. Qed.

Lemma indexOf_here s p : startsWith s p = true → indexOf s p = Some 0.
Proof. intros H. by rewrite indexOf_unfold, H. Qed.

Lemma indexOf_later c s p :
  startsWith (String c s) p = false →
  indexOf (String c s) p = S <$> indexOf s p.
Proof. intros H. by rewrite indexOf_unfold, H. Qed.

(** The index [indexOf] returns is the position of an occurrence. *)
Lemma indexOf_Some_occ s p i :
  indexOf s p = Some i →
  s = str_take i s +:+ p +:+ str_drop (i + String.length p) s.
Proof.
  revert i; induction s as [|c s IH]; intros i; rewrite indexOf_unfold;
    destruct (startsWith _ p) eqn:Hp; intros Hi; simplify_eq/=.
  - by apply startsWith_drop.
  - rewrite str_app_nil_l. by apply startsWith_drop.
  - destruct (indexOf s p) as [j|] eqn:Hj; simplify_eq/=.
    rewrite str_app_cons. f_equal. by apply IH.
Qed.

Lemma indexOf_Some_le s p i :
  indexOf s p = Some i → i + String.length p ≤ String.length s.
Proof.
  revert i; induction s as [|c s IH]; intros i; rewrite indexOf_unfold;
    destruct (startsWith _ p) eqn:Hp; intros Hi; simplify_eq/=.
  - by apply startsWith_length in Hp.
  - by apply startsWith_length in Hp.
  - destruct (indexOf s p) as [j|] eqn:Hj; simplify_eq/=.
    specialize (IH _ eq_refl). lia.
Qed.

(** No occurrence starts before the index [indexOf] returns. *)
Lemma indexOf_Some_first s p i b a :
  indexOf s p = Some i → s = b +:+ p +:+ a → i ≤ String.length b.
Proof.
  revert i b; induction s as [|c s IH]; intros i b; rewrite indexOf_unfold;
    destruct (startsWith _ p) eqn:Hp; intros Hi Hs; simplify_eq/=; try lia.
  destruct (indexOf s p) as [j|] eqn:Hj; simplify_eq/=.
  destruct b as [|d b]; simpl.
  - rewrite str_app_nil_l in Hs. rewrite Hs, startsWith_app in Hp. done.
  - rewrite str_app_cons in Hs. simplify_eq. specialize (IH j b eq_refl eq_refl). lia.
Qed.

(** Every occurrence is found. *)
Lemma indexOf_complete s p b a :
  s = b +:+ p +:+ a → ∃ i, indexOf s p = Some i ∧ i ≤ String.length b.
Proof.
  revert s; induction b as [|d b IH]; intros s ->.
  - exists 0. split; [|done]. apply indexOf_here. rewrite str_app_nil_l.
    apply startsWith_app.
  - rewrite str_app_cons, indexOf_unfold.
    destruct (startsWith _ p); [exists 0; split; [done|lia]|].
    destruct (IH _ eq_refl) as (i & -> & Hi). exists (S i). split; [done|simpl; lia].
Qed.

Lemma indexOf_None s p : indexOf s p = None ↔ ∀ b a, s ≠ b +:+ p +:+ a.
Proof.
  split.
  - intros H b a Hs. destruct (indexOf_complete _ _ _ _ Hs) as (i & Hi & _).
    congruence.
  - intros H. destruct (indexOf s p) as [i|] eqn:Hi; [|done].
    by destruct (H _ _ (indexOf_Some_occ _ _ _ Hi)).
Qed.

Lemma str_length_take_index s p i :
  indexOf s p = Some i → String.length (str_take i s) = i.
Proof. intros H%indexOf_Some_le. rewrite str_length_take. lia. Qed.

(** [indexOf] returns the first occurrence, and only that. *)
Lemma indexOf_first_occurrence s p b a :
  first_occurrence s p b a ↔
  indexOf s p = Some (String.length b) ∧ s = b +:+ p +:+ a.
Proof.
  split.
  - intros [Hs Hmin]. split; [|done].
    destruct (indexOf_complete _ _ _ _ Hs) as (i & Hi & Hle).
    pose proof (indexOf_Some_occ _ _ _ Hi) as Hocc.
    apply Hmin in Hocc. rewrite (str_length_take_index _ _ _ Hi) in Hocc.
    rewrite Hi. f_equal. lia.
  - intros [Hi Hs]. split; [done|]. intros b' a' Hs'.
    by apply (indexOf_Some_first _ _ _ _ _ Hi Hs').
Qed.

(** [includes] decides whether the pattern occurs. *)
Lemma includes_spec s p : includes s p = true ↔ ∃ b a, s = b +:+ p +:+ a.
Proof.
  unfold includes. split.
  - destruct (indexOf s p) as [i|] eqn:Hi; [|done]. intros _.
    eexists _, _. by apply indexOf_Some_occ.
  - intros (b & a & Hs). by destruct (indexOf_complete _ _ _ _ Hs) as (i & -> & _).
Qed.

Lemma includes_false s p : includes s p = false ↔ indexOf s p = None.
Proof. unfold includes. by destruct (indexOf s p). Qed.

Lemma includes_nil s : includes s "" = true.
Proof. apply includes_spec. by exists "", s. Qed.

Lemma includes_refl s : includes s s = true.
Proof. apply includes_spec. exists "", "". by rewrite str_app_nil_r. Qed.

Lemma includes_length s p :
  includes s p = true → String.length p ≤ String.length s.
Proof.
  intros (b & a & ->)%includes_spec. rewrite !str_length_app. lia.
Qed.

End Search.

#[export] Hint Rewrite includes_nil includes_refl : str.
#[export] Hint Resolve includes_nil includes_refl : fsguard.

(** ** Replacement *)

Section Replace.
Implicit Types (s t p r b a m : string).

Lemma has_char_app c s t : has_char c (s +:+ t) = has_char c s || has_char c t.
Proof.
  induction s as [|d s IH]; [done|].
  rewrite str_app_cons; simpl. by rewrite IH, orb_assoc.
Qed.

Lemma has_char_spec c s :
  has_char c s = true ↔ ∃ b a, s = b +:+ String c a.
Proof.
  split.
  - induction s as [|d s IH]; [done|]. simpl. intros [H|H]%orb_true_iff.
    + apply Ascii.eqb_eq in H as ->. by exists "", s.
    + destruct (IH H) as (b & a & ->). by exists (String d b), a.
  - intros (b & a & ->). rewrite has_char_app. simpl.
    by rewrite Ascii.eqb_refl, orb_true_r.
Qed.

(** A replacement text without [$] stands for itself. *)
Lemma getSubstitution_literal m b a r :
  has_char "$" r = false → getSubstitution m b a r = r.
Proof.
  induction r as [|c r IH]; [done|]. simpl.
  intros [Hc Hr]%orb_false_iff. rewrite Hc. by rewrite IH.
Qed.

Lemma getSubstitution_nil m b a : getSubstitution m b a "" = "".
Proof. done. Qed.

(** The four patterns that expand. *)
Lemma getSubstitution_dollar m b a r :
  getSubstitution m b a (String "$" (String "$" r)) =
  String "$" (getSubstitution m b a r).
Proof. done. Qed.

Lemma getSubstitution_matched m b a r :
  getSubstitution m b a (String "$" (String "&" r)) =
  m +:+ getSubstitution m b a r.
Proof. done. Qed.

Lemma getSubstitution_before m b a r :
  getSubstitution m b a (String "$" (String "`" r)) =
  b +:+ getSubstitution m b a r.
Proof. done. Qed.

Lemma getSubstitution_after m b a r :
  getSubstitution m b a (String "$" (String "'" r)) =
  a +:+ getSubstitution m b a r.
Proof. done. Qed.

(** A pattern that does not occur: the string is returned as it is. *)
Lemma jsReplace_absent s p r : includes s p = false → jsReplace s p r = s.
Proof. intros H%includes_false. unfold jsReplace. by rewrite H. Qed.

(** A pattern that occurs: its first occurrence is replaced by the expanded
    replacement text, the text before and after it is kept. *)
Lemma jsReplace_first s p r b a :
  first_occurrence s p b a →
  jsReplace s p r = b +:+ getSubstitution p b a r +:+ a.
Proof.
  intros [Hi ->]%indexOf_first_occurrence. unfold jsReplace. rewrite Hi.
  cbv zeta. by rewrite str_take_app, str_drop_app2.
Qed.

Lemma jsReplace_literal s p r b a :
  first_occurrence s p b a → has_char "$" r = false →
  jsReplace s p r = b +:+ r +:+ a.
Proof.
  intros Hocc Hr. rewrite (jsReplace_first _ _ _ _ _ Hocc).
  by rewrite getSubstitution_literal.
Qed.

(** Every occurring pattern has a first occurrence. *)
Lemma includes_first_occurrence s p :
  includes s p = true → ∃ b a, first_occurrence s p b a.
Proof.
  unfold includes. destruct (indexOf s p) as [i|] eqn:Hi; [intros _|done].
  exists (str_take i s), (str_drop (i + String.length p) s).
  apply indexOf_first_occurrence.
  rewrite (str_length_take_index _ _ _ Hi). split; [done|].
  by apply indexOf_Some_occ.
Qed.

(** The empty pattern occurs at position 0: the replacement is put in
    front. *)
Lemma jsReplace_nil_pattern s r :
  jsReplace s "" r = getSubstitution "" "" s r +:+ s.
Proof.
  unfold jsReplace. rewrite indexOf_here by apply startsWith_nil.
  cbv zeta. change (0 + String.length "") with 0.
  by rewrite str_take_0, str_drop_0.
Qed.

End Replace.

(** ** Split and join *)

Section SplitJoin.
Implicit Types (s w : string) (c : ascii) (l : list string).

Lemma jsJoin_singleton sep w : jsJoin sep [w] = w.
Proof. done. Qed.

Lemma jsJoin_cons sep w w' l :
  jsJoin sep (w :: w' :: l) = w +:+ sep +:+ jsJoin sep (w' :: l).
Proof. done. Qed.

Lemma jsSplit_nonempty c s : jsSplit c s ≠ [].
Proof.
  destruct s as [|d s]; [done|]. simpl.
  destruct (Ascii.eqb d c); [done|]. by destruct (jsSplit c s).
Qed.

Lemma jsSplit_cons_sep c s : jsSplit c (String c s) = "" :: jsSplit c s.
Proof. simpl. by rewrite Ascii.eqb_refl. Qed.

Lemma jsSplit_cons_other c d s :
  d ≠ c →
  jsSplit c (String d s) =
    String d (hd "" (jsSplit c s)) :: tl (jsSplit c s).
Proof.
  intros Hd. simpl. rewrite (proj2 (Ascii.eqb_neq d c) Hd).
  pose proof (jsSplit_nonempty c s). by destruct (jsSplit c s).
Qed.

(** A string without the separator is one piece. *)
Lemma jsSplit_no_sep c w : has_char c w = false → jsSplit c w = [w].
Proof.
  induction w as [|d w IH]; [done|]. simpl.
  intros [Hd Hw]%orb_false_iff. by rewrite Hd, IH.
Qed.

(** A piece followed by the separator and a rest splits off the piece. *)
Lemma jsSplit_app_sep c w s :
  has_char c w = false →
  jsSplit c (w +:+ String c s) = w :: jsSplit c s.
Proof.
  induction w as [|d w IH]; [intros _; apply jsSplit_cons_sep|].
  simpl. intros [Hd Hw]%orb_false_iff. by rewrite Hd, IH.
Qed.

(** Joining the pieces with the separator gives the string back. *)
Lemma jsJoin_jsSplit c s : jsJoin (String c "") (jsSplit c s) = s.
Proof.
  induction s as [|d s IH]; [done|].
  pose proof (jsSplit_nonempty c s) as Hne.
  case_ascii d c.
  - rewrite jsSplit_cons_sep.
    destruct (jsSplit c s) as [|w ws]; [done|]. by rewrite jsJoin_cons, IH.
  - rewrite jsSplit_cons_other by done.
    destruct (jsSplit c s) as [|w [|w' ws]]; [done|by rewrite <-IH|].
    rewrite jsJoin_cons in IH. cbn [hd tl]. by rewrite jsJoin_cons, str_app_cons, IH.
Qed.

(** No piece holds the separator. *)
Lemma jsSplit_pieces c s : Forall (λ w, has_char c w = false) (jsSplit c s).
Proof.
  induction s as [|d s IH]; [by repeat constructor|]. simpl.
  destruct (Ascii.eqb d c) eqn:Hd; [by constructor|].
  destruct (jsSplit c s) as [|w ws]; [by repeat constructor; simpl; rewrite Hd|].
  inversion IH; subst. constructor; [|done]. simpl. by rewrite Hd.
Qed.

(** Splitting a join of separator-free pieces gives the pieces back. *)
Lemma jsSplit_jsJoin c l :
  l ≠ [] → Forall (λ w, has_char c w = false) l →
  jsSplit c (jsJoin (String c "") l) = l.
Proof.
  induction l as [|w l IH]; [done|]. intros _ Hl. inversion Hl; subst.
  destruct l as [|w' l]; [by apply jsSplit_no_sep|].
  change (jsJoin ?x (w :: w' :: l)) with (w +:+ x +:+ jsJoin x (w' :: l)).
  rewrite str_app_cons, str_app_nil_l, jsSplit_app_sep by done.
  f_equal. by apply IH.
Qed.

(** Splitting distributes over a separator in the middle. *)
Lemma jsSplit_app c (a b : string) :
  jsSplit c (a +:+ String c b) = jsSplit c a ++ jsSplit c b.
Proof.
  induction a as [|d a IH]; [apply jsSplit_cons_sep|].
  rewrite str_app_cons. case_ascii d c.
  - by rewrite !jsSplit_cons_sep, IH.
  - rewrite !jsSplit_cons_other, IH by done.
    pose proof (jsSplit_nonempty c a). by destruct (jsSplit c a).
Qed.

Lemma jsSplit_trailing c (a : string) :
  jsSplit c (a +:+ String c "") = jsSplit c a ++ [""].
Proof. apply jsSplit_app. Qed.

Lemma jsJoin_cons' sep w l :
  l ≠ [] → jsJoin sep (w :: l) = w +:+ sep +:+ jsJoin sep l.
Proof. by destruct l. Qed.

Lemma jsJoin_app sep l (k : list string) :
  l ≠ [] → k ≠ [] →
  jsJoin sep (l ++ k) = jsJoin sep l +:+ sep +:+ jsJoin sep k.
Proof.
  intros Hl Hk. induction l as [|w l IH]; [done|].
  destruct l as [|w' l].
  - destruct k as [|x k]; [done|]. by rewrite jsJoin_singleton.
  - rewrite <-app_comm_cons, (jsJoin_cons' _ w ((w' :: l) ++ k)) by done.
    rewrite IH, (jsJoin_cons' _ w (w' :: l)) by done.
    by rewrite !str_app_assoc.
Qed.

(** Text appended to a joined list extends its last element. *)
Lemma jsJoin_snoc_app sep l w s :
  jsJoin sep (l ++ [w]) +:+ s = jsJoin sep (l ++ [w +:+ s]).
Proof.
  induction l as [|x l IH]; [done|]. rewrite <-!app_comm_cons.
  rewrite !(jsJoin_cons' _ x) by (by destruct l).
  by rewrite <-IH, !str_app_assoc.
Qed.

Lemma length_jsSplit_pos c s : 0 < length (jsSplit c s).
Proof. pose proof (jsSplit_nonempty c s). destruct (jsSplit c s); simpl; [done|lia]. Qed.

End SplitJoin.

#[export] Hint Rewrite jsJoin_jsSplit jsSplit_cons_sep jsJoin_cons
  jsJoin_singleton : str.
#[export] Hint Resolve jsSplit_nonempty jsSplit_pieces : fsguard.

(** ** Numbers as text

    [n.toString(8)] for a non-negative integer, and [s.slice(-k)]. *)

Definition octalDigit (n : N) : ascii := ascii_of_N (48 + n).

(** The digits of [n], least significant first, put in front of [acc].
    [fuel] bounds the number of digits. *)
Fixpoint toOctalGo (fuel : nat) (n : N) (acc : string) : string :=
  match fuel with
  | 0 => acc
  | S fuel' =>
      let acc' := String (octalDigit (n `mod` 8)) acc in
      if N.eqb (n `div` 8) 0 then acc' else toOctalGo fuel' (n `div` 8) acc'
  end.

Definition toOctal (n : N) : string :=
  toOctalGo (S (N.to_nat (N.log2 n))) n "".

Definition sliceLast (k : nat) (s : string) : string :=
  str_drop (String.length s - k) s.

Lemma sliceLast_length k s :
  String.length (sliceLast k s) = k `min` String.length s.
Proof.
  unfold sliceLast. pose proof (str_take_drop (String.length s - k) s) as H.
  apply (f_equal String.length) in H.
  rewrite str_length_app, str_length_take in H. lia.
Qed.

(** Two prefixes of a string: the shorter is a prefix of the longer. *)
Lemma startsWith_comparable s p q :
  startsWith s p = true → startsWith s q = true →
  String.length q ≤ String.length p → startsWith p q = true.
Proof.
  intros [r ->]%startsWith_spec Hq. revert p Hq.
  induction q as [|c q IH]; intros p Hq Hlen; [apply startsWith_nil|].
  destruct p as [|d p]; simpl in *; [lia|].
  destruct (Ascii.eqb c d); [|done]. apply IH; [done|lia].
Qed.

Lemma list_ascii_of_string_app s x :
  list_ascii_of_string (s +:+ x) =
  list_ascii_of_string s ++ list_ascii_of_string x.
Proof.
  induction s as [|c s IH]; [done|]. rewrite str_app_cons. simpl.
  by rewrite IH.
Qed.

(** ** Reading octal digits back

    A reference reader of octal digits, against which [toOctal] and the
    slice of its last digits are checked. *)

Section Octal.
Local Open Scope N_scope.

(** The number a text of octal digits denotes, after the digits [acc]. *)
Fixpoint parseOctalGo (acc : N) (s : string) : N :=
  match s with
  | "" => acc
  | String c s' => parseOctalGo (acc * 8 + (N_of_ascii c - 48)) s'
  end.

Definition parseOctal (s : string) : N := parseOctalGo 0 s.

Fixpoint isOctal (s : string) : bool :=
  match s with
  | "" => true
  | String c s' => (N_of_ascii c - 48 <? 8) && (48 <=? N_of_ascii c) && isOctal s'
  end.

Lemma N_of_octalDigit d : d < 8 → N_of_ascii (octalDigit d) = 48 + d.
Proof.
  intros Hd. unfold octalDigit. apply N_ascii_embedding. lia.
Qed.

Lemma parseOctalGo_toOctalGo fuel n acc :
  n < 8 ^ N.of_nat fuel →
  parseOctalGo 0 (toOctalGo fuel n acc) = parseOctalGo n acc.
Proof.
  revert n acc; induction fuel as [|fuel IH]; intros n acc Hn.
  { simpl in *. by replace n with 0 by lia. }
  rewrite Nat2N.inj_succ, N.pow_succ_r' in Hn.
  pose proof (N.mod_lt n 8 ltac:(done)) as Hm.
  pose proof (N.div_mod n 8 ltac:(done)) as Hdm.
  cbn [toOctalGo]. cbv zeta. destruct (N.eqb_spec (n `div` 8) 0) as [Hz|Hz].
  - cbn [parseOctalGo]. rewrite N_of_octalDigit by done. f_equal. lia.
  - rewrite IH by (apply N.Div0.div_lt_upper_bound; lia).
    cbn [parseOctalGo]. rewrite N_of_octalDigit by done. f_equal. rewrite Hdm at 3. generalize (n `div` 8) (n `mod` 8). clear. intros q r. lia.
Qed.

Lemma toOctal_fuel n : n < 8 ^ N.of_nat (S (N.to_nat (N.log2 n))).
Proof.
  rewrite Nat2N.inj_succ, N2Nat.id.
  destruct (N.eq_dec n 0) as [->|Hn]; [done|].
  pose proof (N.log2_spec n ltac:(lia)) as [_ Hlt].
  eapply N.lt_le_trans; [exact Hlt|].
  apply N.pow_le_mono_l. lia.
Qed.

(** Reading the digits of [toString(8)] gives the number back. *)
Lemma parseOctal_toOctal n : parseOctal (toOctal n) = n.
Proof.
  unfold parseOctal, toOctal. by rewrite parseOctalGo_toOctalGo by apply toOctal_fuel.
Qed.

Lemma parseOctalGo_app acc s1 s2 :
  parseOctalGo acc (s1 +:+ s2) = parseOctalGo (parseOctalGo acc s1) s2.
Proof. revert acc; induction s1 as [|c s1 IH]; intros acc; [done|]. apply IH. Qed.

(** Digits in front shift by their number of places; the digits read stay
    below the power of their length. *)
Lemma parseOctalGo_octal acc s :
  isOctal s = true →
  parseOctalGo acc s = acc * 8 ^ N.of_nat (String.length s) + parseOctal s ∧
  parseOctal s < 8 ^ N.of_nat (String.length s).
Proof.
  revert acc; induction s as [|c s IH]; intros acc;
    [unfold parseOctal; simpl; lia|].
  cbn [isOctal]. intros [[Hc _]%andb_true_iff Hs]%andb_true_iff.
  apply N.ltb_lt in Hc. unfold parseOctal. cbn [parseOctalGo String.length].
  rewrite Nat2N.inj_succ, N.pow_succ_r'.
  destruct (IH (acc * 8 + (N_of_ascii c - 48)) Hs) as [-> _].
  destruct (IH (0 * 8 + (N_of_ascii c - 48)) Hs) as [-> Hlt].
  revert Hc Hlt. generalize (N_of_ascii c - 48), (parseOctal s),
    (8 ^ N.of_nat (String.length s)). intros d r p Hd Hr. nia.
Qed.

Lemma isOctal_digit d acc :
  d < 8 → isOctal acc = true → isOctal (String (octalDigit d) acc) = true.
Proof.
  intros Hd Hacc. cbn [isOctal]. rewrite N_of_octalDigit, Hacc by done.
  rewrite !andb_true_iff, N.ltb_lt, N.leb_le. repeat split; try done; lia.
Qed.

Lemma isOctal_toOctalGo fuel n acc :
  isOctal acc = true → isOctal (toOctalGo fuel n acc) = true.
Proof.
  revert n acc; induction fuel as [|fuel IH]; intros n acc Hacc; [done|].
  pose proof (N.mod_lt n 8 ltac:(done)) as Hm.
  pose proof (isOctal_digit _ acc Hm Hacc) as Hd.
  cbn [toOctalGo]. cbv zeta. destruct (N.eqb _ 0); auto.
Qed.

Lemma isOctal_drop k s : isOctal s = true → isOctal (str_drop k s) = true.
Proof.
  revert s; induction k as [|k IH]; intros [|c s]; simpl; try done.
  intros [_ Hs]%andb_true_iff. auto.
Qed.

(** The last [k] digits denote the number modulo [8 ^ k]. *)
Lemma parseOctal_sliceLast k s :
  isOctal s = true →
  parseOctal (sliceLast k s) = parseOctal s `mod` 8 ^ N.of_nat k.
Proof.
  intros Hs. unfold sliceLast. set (i := (String.length s - k)%nat).
  pose proof (str_take_drop i s) as Hsplit.
  pose proof (f_equal String.length Hsplit) as Hlen.
  rewrite str_length_app, str_length_take in Hlen.
  destruct (parseOctalGo_octal (parseOctal (str_take i s)) (str_drop i s))
    as [Happ Hlt]; [by apply isOctal_drop|].
  unfold parseOctal at 2. rewrite <-Hsplit at 2. rewrite parseOctalGo_app.
  fold (parseOctal (str_take i s)). rewrite Happ.
  destruct (decide (k ≤ String.length s)%nat) as [Hk|Hk].
  - assert (String.length (str_drop i s) = k) as Ek by lia.
    rewrite Ek in Hlt |- *.
    rewrite N.add_comm, N.Div0.mod_add. symmetry. by apply N.mod_small.
  - assert (i = 0%nat) as Ei by lia. clearbody i. subst i. simpl str_take.
    change (parseOctal "") with 0. rewrite N.mul_0_l, N.add_0_l.
    symmetry. apply N.mod_small. eapply N.lt_le_trans; [exact Hlt|].
    apply N.pow_le_mono_r; lia.
Qed.

Lemma isOctal_toOctal n : isOctal (toOctal n) = true.
Proof. by apply isOctal_toOctalGo. Qed.

Lemma isOctal_sliceLast k s : isOctal s = true → isOctal (sliceLast k s) = true.
Proof. apply isOctal_drop. Qed.

End Octal.
(* end of JsString *)
