(* ===== verification/NodePath.v ===== *)
(** * Node's [path.resolve] and [path.dirname] (POSIX)

    The server calls [path.resolve] on every path it checks and
    [path.dirname] before it creates a file.  Both belong to Node, not to the
    repository.  [resolve] is modelled at the level of path segments: the
    argument (made absolute with the working directory when it is relative)
    is cut at every [/], the segments are pushed on a stack where an empty
    segment and [.] do nothing and [..] pops, and the stack is joined again.
    This file proves that the result is a normal form (absolute, no empty,
    [.] or [..] segment, no trailing [/]), that normal forms are fixed
    points, and hence that [resolve] is idempotent. *)

From Stdlib Require Import Ascii String List Lia.
From stdpp Require Import base tactics option list strings.
From S2P Require Import Prelude JsString.

(** ** Definitions *)

(** One segment of Node's [normalizeString]: [stack] holds the segments kept
    so far, the last one first. *)
Definition normStep (allowAboveRoot : bool) (stack : list string)
    (seg : string) : list string :=
  if String.eqb seg "" || String.eqb seg "." then stack
  else if String.eqb seg ".." then
    match stack with
    | top :: rest =>
        if String.eqb top ".." then
          if allowAboveRoot then ".." :: stack else stack
        else rest
    | [] => if allowAboveRoot then [".."] else []
    end
  else seg :: stack.

Definition normalizeSegments (allowAboveRoot : bool) (segs : list string)
    : list string :=
  rev (fold_left (normStep allowAboveRoot) segs []).

(** [normalizeString(path, allowAboveRoot, '/', isPosixPathSeparator)] *)
Definition normalizeString (path : string) (allowAboveRoot : bool) : string :=
  jsJoin "/" (normalizeSegments allowAboveRoot (jsSplit "/" path)).

(** [path.resolve(p)] in a process whose working directory is [cwd]: the
    loop over the arguments from the right, then the working directory,
    until the path is absolute; then normalisation. *)
Definition resolve (cwd p : string) : string :=
  let '(resolvedPath, resolvedAbsolute) :=
    if String.eqb p "" then ("", false)
    else (p +:+ "/", startsWith p "/") in
  let '(resolvedPath, resolvedAbsolute) :=
    if resolvedAbsolute then (resolvedPath, true)
    else if String.eqb cwd "" then (resolvedPath, false)
    else (cwd +:+ "/" +:+ resolvedPath, startsWith cwd "/") in
  let res := normalizeString resolvedPath (negb resolvedAbsolute) in
  if resolvedAbsolute then "/" +:+ res
  else if String.eqb res "" then "." else res.

(** The backward scan of [path.dirname]: [rev_tail] holds the characters at
    the indices [i], [i-1], ..., 1, the one at [i] first.  The result is the
    index [end] of the [/] before the last name, if there is one. *)
Fixpoint dirnameScan (rev_tail : list ascii) (i : nat) (matchedSlash : bool)
    : option nat :=
  match rev_tail with
  | [] => None
  | c :: rest =>
      if Ascii.eqb c "/" then
        if negb matchedSlash then Some i
        else dirnameScan rest (i - 1) matchedSlash
      else dirnameScan rest (i - 1) false
  end.

(** [path.dirname(path)] *)
Definition dirname (path : string) : string :=
  match path with
  | "" => "."
  | String c0 tail =>
      let hasRoot := Ascii.eqb c0 "/" in
      match dirnameScan (rev (list_ascii_of_string tail))
                        (String.length tail) true with
      | None => if hasRoot then "/" else "."
      | Some end_ =>
          if hasRoot && Nat.eqb end_ 1 then "//" else str_take end_ path
      end
  end.

(** A segment of a normal path: not empty, not [.] or [..], no [/]. *)
Definition proper_segment (seg : string) : bool :=
  negb (String.eqb seg "") && negb (String.eqb seg ".") &&
  negb (String.eqb seg "..") && negb (has_char "/" seg).

(** [normal_path p]: an absolute path in normal form, that is [/] followed
    by proper segments separated by single [/]. *)
Definition normal_path (p : string) : Prop :=
  ∃ segs, forallb proper_segment segs = true ∧ p = "/" +:+ jsJoin "/" segs.

(** A decision procedure for [normal_path]. *)
Definition normal_pathb (p : string) : bool :=
  match p with
  | String c r =>
      Ascii.eqb c "/" &&
      (String.eqb r "" || forallb proper_segment (jsSplit "/" r))
  | "" => false
  end.

(** ** Normalisation of segments *)

Section Normalize.
Implicit Types (seg : string) (segs stack : list string) (allow : bool).

Lemma proper_segment_spec seg :
  proper_segment seg = true ↔
  seg ≠ "" ∧ seg ≠ "." ∧ seg ≠ ".." ∧ has_char "/" seg = false.
Proof.
  unfold proper_segment. rewrite !andb_true_iff, !negb_true_iff.
  rewrite !String.eqb_neq. tauto.
Qed.

Lemma normStep_proper allow stack seg :
  proper_segment seg = true → normStep allow stack seg = seg :: stack.
Proof.
  intros (H1 & H2 & H3 & _)%proper_segment_spec. unfold normStep.
  apply String.eqb_neq in H1, H2, H3. by rewrite H1, H2, H3.
Qed.

Lemma normStep_empty allow stack : normStep allow stack "" = stack.
Proof. done. Qed.

Lemma normStep_dot allow stack : normStep allow stack "." = stack.
Proof. done. Qed.

(** Below the root, [..] removes the last segment, and nothing at the
    root. *)
Lemma normStep_dotdot stack :
  forallb proper_segment stack = true →
  normStep false stack ".." = tl stack.
Proof.
  destruct stack as [|top rest]; [done|]. simpl.
  intros [(_ & _ & H & _)%proper_segment_spec _]%andb_true_iff.
  apply String.eqb_neq in H. unfold normStep. simpl. by rewrite H.
Qed.

(** Proper segments are pushed one after the other. *)
Lemma fold_normStep_proper allow segs stack :
  forallb proper_segment segs = true →
  fold_left (normStep allow) segs stack = rev segs ++ stack.
Proof.
  revert stack; induction segs as [|seg segs IH]; intros stack; [done|].
  simpl. intros [Hs Hsegs]%andb_true_iff.
  rewrite normStep_proper, IH by done. by rewrite <-app_assoc.
Qed.

(** With [allowAboveRoot = false] the stack only ever holds proper segments,
    provided the segments read hold no [/]. *)
Lemma normStep_invariant stack seg :
  forallb proper_segment stack = true → has_char "/" seg = false →
  forallb proper_segment (normStep false stack seg) = true.
Proof.
  intros Hst Hseg. unfold normStep.
  case_str seg ""; [done|]. case_str seg "."; [done|]. simpl.
  case_str seg "..".
  - destruct stack as [|top rest]; [done|]. simpl in Hst.
    apply andb_true_iff in Hst as [Ht Hr].
    destruct (String.eqb top ".."); simpl; [by rewrite Ht, Hr|done].
  - simpl. rewrite Hst, andb_true_r. apply proper_segment_spec. done.
Qed.

Lemma fold_normStep_invariant segs stack :
  forallb proper_segment stack = true →
  Forall (λ seg, has_char "/" seg = false) segs →
  forallb proper_segment (fold_left (normStep false) segs stack) = true.
Proof.
  revert stack; induction segs as [|seg segs IH]; intros stack Hst Hsegs;
    [done|].
  inversion Hsegs; subst. simpl. apply IH; [|done].
  by apply normStep_invariant.
Qed.

Lemma forallb_rev (f : string → bool) l : forallb f (rev l) = forallb f l.
Proof.
  induction l as [|x l IH]; [done|]. simpl.
  rewrite forallb_app, IH. simpl. by rewrite andb_true_r, andb_comm.
Qed.

(** Normalising the segments of any string yields proper segments. *)
Lemma normalizeSegments_proper s :
  forallb proper_segment (normalizeSegments false (jsSplit "/" s)) = true.
Proof.
  unfold normalizeSegments. rewrite forallb_rev.
  apply fold_normStep_invariant; [done|apply jsSplit_pieces].
Qed.

(** Proper segments, with empty segments around them, normalise to
    themselves. *)
Lemma normalizeSegments_id segs :
  forallb proper_segment segs = true →
  normalizeSegments false ("" :: segs ++ [""]) = segs.
Proof.
  intros H. unfold normalizeSegments. simpl.
  rewrite normStep_empty, fold_left_app, (fold_normStep_proper _ segs) by done.
  simpl. by rewrite normStep_empty, app_nil_r, rev_involutive.
Qed.

Lemma normalizeSegments_cons_empty allow segs :
  normalizeSegments allow ("" :: segs) = normalizeSegments allow segs.
Proof. done. Qed.

Lemma normalizeSegments_proper_id allow segs :
  forallb proper_segment segs = true → normalizeSegments allow segs = segs.
Proof.
  intros H. unfold normalizeSegments.
  by rewrite fold_normStep_proper, app_nil_r, rev_involutive.
Qed.

Lemma proper_segments_no_sep segs :
  forallb proper_segment segs = true →
  Forall (λ w, has_char "/" w = false) segs.
Proof.
  rewrite forallb_forall, Forall_forall. intros H seg Hseg%list_elem_of_In.
  by apply H, proper_segment_spec in Hseg as (_ & _ & _ & ?).
Qed.

Lemma jsSplit_join_proper segs :
  forallb proper_segment segs = true → segs ≠ [] →
  jsSplit "/" (jsJoin "/" segs) = segs.
Proof.
  intros H Hne. by apply jsSplit_jsJoin, proper_segments_no_sep.
Qed.

(** The segments of a normal path, read back from its text. *)
Lemma normalizeSegments_join segs :
  forallb proper_segment segs = true →
  normalizeSegments false ("" :: jsSplit "/" (jsJoin "/" segs) ++ [""]) = segs.
Proof.
  intros H. destruct segs as [|seg segs]; [done|].
  rewrite jsSplit_jsJoin; [by apply normalizeSegments_id|done|].
  by apply proper_segments_no_sep.
Qed.

End Normalize.

(** ** [resolve] *)

Section Resolve.
Implicit Types (cwd p : string).

(** The three ways through [resolve] when the working directory is absolute
    (it always is: it is what [process.cwd()] returns). *)
Lemma resolve_absolute_arg cwd p :
  startsWith p "/" = true →
  resolve cwd p = "/" +:+ normalizeString (p +:+ "/") false.
Proof.
  intros Hp. unfold resolve. destruct p as [|c p]; [done|]. simpl String.eqb.
  cbv iota. by rewrite Hp.
Qed.

Lemma resolve_relative_arg cwd p :
  startsWith cwd "/" = true → p ≠ "" → startsWith p "/" = false →
  resolve cwd p = "/" +:+ normalizeString (cwd +:+ "/" +:+ p +:+ "/") false.
Proof.
  intros Hcwd Hne Hp. unfold resolve.
  destruct p as [|c p]; [done|]. destruct cwd as [|d cwd]; [done|].
  simpl String.eqb. cbv iota. by rewrite Hp, Hcwd.
Qed.

Lemma resolve_empty_arg cwd :
  startsWith cwd "/" = true →
  resolve cwd "" = "/" +:+ normalizeString (cwd +:+ "/") false.
Proof.
  intros Hcwd. unfold resolve. destruct cwd as [|d cwd]; [done|].
  simpl String.eqb. cbv iota. by rewrite Hcwd.
Qed.

Lemma resolve_form cwd p :
  startsWith cwd "/" = true →
  ∃ path, resolve cwd p = "/" +:+ normalizeString path false.
Proof.
  intros Hcwd. destruct (startsWith p "/") eqn:Hp.
  - eexists. by apply resolve_absolute_arg.
  - destruct (decide (p = "")) as [->|Hne].
    + eexists. by apply resolve_empty_arg.
    + eexists. by apply resolve_relative_arg.
Qed.

(** [resolve] returns an absolute path in normal form. *)
Lemma resolve_normal cwd p :
  startsWith cwd "/" = true → normal_path (resolve cwd p).
Proof.
  intros [path ->]%(resolve_form _ p). eexists. split; [|done].
  apply normalizeSegments_proper.
Qed.

(** A normal path resolves to itself, whatever the working directory. *)
Lemma resolve_normal_id cwd p : normal_path p → resolve cwd p = p.
Proof.
  intros (segs & Hsegs & ->). rewrite resolve_absolute_arg by done.
  unfold normalizeString. rewrite ?str_app_cons, ?str_app_nil_l.
  by rewrite jsSplit_cons_sep, jsSplit_trailing, normalizeSegments_join.
Qed.

(** Resolving twice is resolving once. *)
Lemma resolve_idem cwd p :
  startsWith cwd "/" = true → resolve cwd (resolve cwd p) = resolve cwd p.
Proof. intros Hcwd. by apply resolve_normal_id, resolve_normal. Qed.

Lemma resolve_absolute cwd p :
  startsWith cwd "/" = true → startsWith (resolve cwd p) "/" = true.
Proof. by intros [path ->]%(resolve_form _ p). Qed.

Lemma normal_pathb_spec p : normal_pathb p = true ↔ normal_path p.
Proof.
  split.
  - destruct p as [|c r]; [done|]. simpl.
    intros [->%Ascii.eqb_eq [Hr|Hr]%orb_true_iff]%andb_true_iff.
    + apply String.eqb_eq in Hr as ->. by exists [].
    + exists (jsSplit "/" r). split; [done|].
      by rewrite jsJoin_jsSplit.
  - intros (segs & Hsegs & ->). rewrite str_app_cons, str_app_nil_l. simpl.
    destruct segs as [|seg segs]; [done|]. apply orb_true_iff. right.
    rewrite jsSplit_jsJoin; [done|done|]. by apply proper_segments_no_sep.
Qed.

#[export] Instance normal_path_dec p : Decision (normal_path p).
Proof.
  refine (cast_if (decide (normal_pathb p = true)));
    abstract (by rewrite <-normal_pathb_spec).
Defined.

End Resolve.

#[export] Hint Resolve resolve_normal resolve_absolute : fsguard.

(** ** [dirname] of a normal path *)

Section Dirname.
Implicit Types (x : string) (segs : list string) (rest : list ascii).

(** The scan passes over a name, and has then seen a character that is not
    a separator. *)
Lemma dirnameScan_name x rest i b :
  has_char "/" x = false →
  dirnameScan (rev (list_ascii_of_string x) ++ rest) i b =
  dirnameScan rest (i - String.length x)
    (if String.eqb x "" then b else false).
Proof.
  revert rest; induction x as [|c x IH]; intros rest.
  { intros _. simpl. by rewrite Nat.sub_0_r. }
  simpl. intros [Hc Hx]%orb_false_iff. rewrite <-app_assoc, IH by done.
  simpl. rewrite Hc. destruct (String.eqb x ""); f_equal; lia.
Qed.

(** The directory of a normal path is the path of all its segments but the
    last. *)
Lemma dirname_normal segs x :
  forallb proper_segment (segs ++ [x]) = true →
  dirname ("/" +:+ jsJoin "/" (segs ++ [x])) = "/" +:+ jsJoin "/" segs.
Proof.
  rewrite forallb_app. simpl.
  intros [Hsegs [(Hx & _ & _ & Hs)%proper_segment_spec _]%andb_true_iff]
    %andb_true_iff.
  rewrite str_app_cons, str_app_nil_l. unfold dirname. simpl Ascii.eqb.
  cbv iota. destruct segs as [|seg segs].
  { simpl jsJoin. by rewrite <-(app_nil_r (rev _)), dirnameScan_name. }
  rewrite jsJoin_app by done. set (J := jsJoin "/" (seg :: segs)).
  assert (String.length J ≠ 0) as Hlen.
  { simpl in Hsegs.
    apply andb_true_iff in Hsegs as [(Hne & _)%proper_segment_spec _].
    subst J. destruct seg; [done|]. destruct segs; simpl; lia. }
  clearbody J. change ("/" +:+ jsJoin "/" [x]) with (String "/" x).
  rewrite list_ascii_of_string_app. simpl list_ascii_of_string.
  rewrite rev_app_distr. simpl rev. rewrite <-app_assoc. simpl app.
  rewrite dirnameScan_name by done.
  rewrite (proj2 (String.eqb_neq x "")) by done. simpl dirnameScan.
  rewrite str_length_app. simpl String.length.
  replace (String.length J + S (String.length x) - String.length x)
    with (S (String.length J)) by lia.
  rewrite (proj2 (Nat.eqb_neq (S (String.length J)) 1)) by lia.
  change (str_take (S (String.length J)) (String "/" (J +:+ String "/" x)))
    with (String "/" (str_take (String.length J) (J +:+ String "/" x))).
  by rewrite str_take_app.
Qed.

End Dirname.
(* end of NodePath *)
