(* ===== verification/PathGuard.v ===== *)
(** * Configuration and Path Guard ([index.ts] lines 30-59)

    [allowedDirectories] is the list of roots the process was started with,
    [startup] the checks that make the process exit before it serves
    anything, and [isPathAllowed] the containment check every handler runs
    before it touches the host filesystem.

    The specification asks for a match on whole path segments
    ([isPathInside] below).  The source compares texts
    ([resolvedPath.startsWith(dir)]).  The theorems say how the two relate:
    the source allows everything the specification allows, and more. *)

From Stdlib Require Import Ascii String List Lia.
From stdpp Require Import base tactics option list strings.
From S2P Require Import Prelude JsString NodePath.

(** ** Configuration *)

(** [process.argv.slice(2).map(dir => path.resolve(dir))] *)
Definition allowedDirectories (cwd : string) (argv : list string)
    : list string :=
  map (resolve cwd) (drop 2 argv).

(** What [fs.stat(dir)] tells the start-up loop: the call throws ([None])
    or returns a value whose [isDirectory()] is the boolean. *)
Definition stat_oracle : Type := string → option bool.

(** The start-up loop over [allowedDirectories].  [Err msg]: the process
    wrote [msg] to the error stream and exited with code 1. *)
Fixpoint validateDirectories (stat : stat_oracle) (dirs : list string)
    : result string unit :=
  match dirs with
  | [] => Ok ()
  | dir :: rest =>
      match stat dir with
      | Some true => validateDirectories stat rest
      | Some false => Err ("Error: " +:+ dir +:+ " is not a directory")
      | None => Err ("Error: Directory " +:+ dir +:+ " does not exist")
      end
  end.

(** The whole of the start-up: the roots, or the message and exit code 1. *)
Definition startup (cwd : string) (stat : stat_oracle) (argv : list string)
    : result string (list string) :=
  let dirs := allowedDirectories cwd argv in
  if Nat.eqb (length dirs) 0 then
    Err "Error: No allowed directories specified"
  else
    match validateDirectories stat dirs with
    | Ok _ => Ok dirs
    | Err msg => Err msg
    end.

(** ** The guard *)

(** [isPathAllowed(filePath)], with the module-level [allowedDirectories]
    and the working directory as parameters. *)
Definition isPathAllowed (allowedDirectories : list string) (cwd : string)
    (filePath : string) : bool :=
  let resolvedPath := resolve cwd filePath in
  existsb (λ dir, startsWith resolvedPath dir) allowedDirectories.

(** ** The specification's guard *)

(** The segments of a path, after normalisation. *)
Definition path_segments (p : string) : list string :=
  normalizeSegments false (jsSplit "/" p).

(** [isPathInside dir p]: the segments of [dir] are the first segments of
    [p], the "full-path-segment prefix match" of the specification. *)
Definition isPathInside (dir p : string) : bool :=
  bool_decide (path_segments dir `prefix_of` path_segments p).

Definition isPathAllowedSpec (allowedDirectories : list string)
    (cwd filePath : string) : bool :=
  existsb (λ dir, isPathInside dir (resolve cwd filePath)) allowedDirectories.

(** ** What [isPathAllowed] decides *)

Section Guard.
Implicit Types (dirs : list string) (cwd p dir : string).

(** The guard accepts a path when some root is a prefix of its resolution. *)
Lemma isPathAllowed_exists dirs cwd p :
  isPathAllowed dirs cwd p = true ↔
  ∃ dir rest, dir ∈ dirs ∧ resolve cwd p = dir +:+ rest.
Proof.
  unfold isPathAllowed. rewrite existsb_True. split.
  - intros (dir & Hin & [rest Hr]%startsWith_spec). by exists dir, rest.
  - intros (dir & rest & Hin & Hr). exists dir. split; [done|].
    rewrite Hr. apply startsWith_app.
Qed.

(** The guard holds exactly when some root is a textual prefix of the
    resolved path. *)
Lemma isPathAllowed_spec dirs cwd p :
  isPathAllowed dirs cwd p = true ↔
  ∃ dir rest, dir ∈ dirs ∧ resolve cwd p = dir +:+ rest.
Proof. apply isPathAllowed_exists. Qed.

Lemma isPathAllowed_false dirs cwd p :
  isPathAllowed dirs cwd p = false ↔
  ∀ dir, dir ∈ dirs → startsWith (resolve cwd p) dir = false.
Proof.
  rewrite <-not_true_iff_false, isPathAllowed_exists. split.
  - intros H dir Hin. apply not_true_iff_false.
    intros [rest Hr]%startsWith_spec. apply H. by exists dir, rest.
  - intros H (dir & rest & Hin & Hr). specialize (H _ Hin).
    rewrite Hr, startsWith_app in H. done.
Qed.

(** With no root, nothing is allowed. *)
Lemma isPathAllowed_no_roots cwd p : isPathAllowed [] cwd p = false.
Proof. done. Qed.

Lemma isPathAllowed_cons dir dirs cwd p :
  isPathAllowed (dir :: dirs) cwd p =
  startsWith (resolve cwd p) dir || isPathAllowed dirs cwd p.
Proof. done. Qed.

Lemma isPathAllowed_app dirs dirs' cwd p :
  isPathAllowed (dirs ++ dirs') cwd p =
  isPathAllowed dirs cwd p || isPathAllowed dirs' cwd p.
Proof. unfold isPathAllowed. apply existsb_app. Qed.

(** More roots allow more paths, never fewer. *)
Lemma isPathAllowed_mono dirs dirs' cwd p :
  dirs ⊆ dirs' →
  isPathAllowed dirs cwd p = true → isPathAllowed dirs' cwd p = true.
Proof.
  intros Hsub (dir & rest & Hin & Hr)%isPathAllowed_exists.
  apply isPathAllowed_exists. exists dir, rest. split; [by apply Hsub|done].
Qed.

(** The guard looks at the resolved path only: a path and its resolution
    are allowed together, so [.] and [..] segments cannot be used to get
    past it. *)
Lemma isPathAllowed_resolve dirs cwd p :
  startsWith cwd "/" = true →
  isPathAllowed dirs cwd (resolve cwd p) = isPathAllowed dirs cwd p.
Proof. intros Hcwd. unfold isPathAllowed. by rewrite resolve_idem. Qed.

(** Two paths with the same resolution are allowed together. *)
Lemma isPathAllowed_same_resolution dirs cwd p q :
  resolve cwd p = resolve cwd q →
  isPathAllowed dirs cwd p = isPathAllowed dirs cwd q.
Proof. unfold isPathAllowed. by intros ->. Qed.

(** The root directory as a root allows every path. *)
Lemma isPathAllowed_root dirs cwd p :
  startsWith cwd "/" = true → "/" ∈ dirs → isPathAllowed dirs cwd p = true.
Proof.
  intros Hcwd Hin. apply existsb_True. exists "/". split; [done|].
  by apply resolve_absolute.
Qed.

End Guard.

(** ** The source's guard against the specification's *)

Section AgainstSpec.
Implicit Types (dirs segs : list string) (cwd p dir r suffix : string).

(** The segments of a normal path are the ones it was joined from. *)
Lemma path_segments_normal segs :
  forallb proper_segment segs = true →
  path_segments ("/" +:+ jsJoin "/" segs) = segs.
Proof.
  intros H. unfold path_segments.
  rewrite str_app_cons, str_app_nil_l, jsSplit_cons_sep.
  rewrite normalizeSegments_cons_empty.
  destruct segs as [|seg segs]; [done|].
  rewrite jsSplit_jsJoin; [by apply normalizeSegments_proper_id|done|].
  by apply proper_segments_no_sep.
Qed.

(** Containment by segments implies containment by text. *)
Lemma isPathInside_startsWith dir r :
  normal_path dir → normal_path r →
  isPathInside dir r = true → startsWith r dir = true.
Proof.
  intros (sd & Hsd & ->) (sr & Hsr & ->). unfold isPathInside.
  rewrite bool_decide_eq_true, !path_segments_normal by done.
  intros [k ->]. apply startsWith_spec.
  destruct sd as [|x sd]; [by eexists|].
  destruct k as [|y k]; [exists ""; by rewrite app_nil_r, str_app_nil_r|].
  exists ("/" +:+ jsJoin "/" (y :: k)).
  rewrite jsJoin_app by done. by rewrite !str_app_assoc.
Qed.

(** Containment by segments, read on the text of normal paths: the path is
    the root itself, or the root followed by [/] and more, or the root is
    the root directory. *)
Lemma isPathInside_text dir r :
  normal_path dir → normal_path r →
  isPathInside dir r = true ↔
  r = dir ∨ startsWith r (dir +:+ "/") = true ∨ dir = "/".
Proof.
  intros (sd & Hsd & ->) (sr & Hsr & ->). unfold isPathInside.
  rewrite bool_decide_eq_true, !path_segments_normal by done. split.
  - intros [k ->]. destruct sd as [|x sd]; [by right; right|].
    destruct k as [|y k]; [left; by rewrite app_nil_r|]. right; left.
    rewrite jsJoin_app by done. rewrite <-!str_app_assoc.
    apply startsWith_app.
  - intros [H|[H|H]].
    + apply (f_equal path_segments) in H.
      rewrite !path_segments_normal in H by done. by subst.
    + apply startsWith_spec in H as [rest H]. rewrite !str_app_assoc in H.
      apply (inj (String.append "/")) in H.
      destruct sd as [|x sd]; [apply prefix_nil|].
      destruct sr as [|y sr]; [by apply eq_sym, str_app_eq_nil in H as [_ ?]|].
      apply (f_equal (jsSplit "/")) in H.
      rewrite (str_app_cons _ "" rest), str_app_nil_l in H.
      rewrite jsSplit_app, !jsSplit_join_proper in H by done.
      rewrite H. by apply prefix_app_r.
    + apply (f_equal path_segments) in H.
      rewrite path_segments_normal in H by done. subst. apply prefix_nil.
Qed.

(** C30: what the specification allows, the source allows. *)
Theorem isPathAllowedSpec_isPathAllowed dirs cwd p :
  Forall normal_path dirs → startsWith cwd "/" = true →
  isPathAllowedSpec dirs cwd p = true → isPathAllowed dirs cwd p = true.
Proof.
  intros Hdirs Hcwd (dir & Hin & Hinside)%existsb_True.
  apply existsb_True. exists dir. split; [done|].
  apply isPathInside_startsWith; [|by apply resolve_normal|done].
  by apply (proj1 (Forall_forall _ _) Hdirs).
Qed.

(** A proper segment stays proper when text without [/] is appended. *)
Lemma proper_segment_app seg suffix :
  proper_segment seg = true → suffix ≠ "" → has_char "/" suffix = false →
  proper_segment (seg +:+ suffix) = true.
Proof.
  intros (H1 & H2 & H3 & H4)%proper_segment_spec Hne Hsuf.
  apply proper_segment_spec. rewrite has_char_app, H4, Hsuf.
  destruct seg as [|c [|c' seg]], suffix as [|d suffix]; try done;
    rewrite ?str_app_cons, ?str_app_nil_l; repeat split; try done.
  - intros [= -> -> ->]. done.
  - by intros [= _ _ [_ ?]%str_app_eq_nil].
Qed.

(** A path that extends the text of a root other than [/] by characters
    other than [/] is a normal path: the name of a sibling of the root. *)
Lemma sibling_normal dir suffix :
  normal_path dir → dir ≠ "/" → suffix ≠ "" → has_char "/" suffix = false →
  ∃ segs seg,
    path_segments dir = segs ++ [seg] ∧
    path_segments (dir +:+ suffix) = segs ++ [seg +:+ suffix] ∧
    normal_path (dir +:+ suffix).
Proof.
  intros (sd & Hsd & ->) Hroot Hne Hsuf.
  destruct sd as [|seg sd _] using rev_ind; [done|]. exists sd, seg.
  rewrite path_segments_normal by done.
  rewrite forallb_app in Hsd. apply andb_true_iff in Hsd as [Hsd Hseg].
  simpl in Hseg. rewrite andb_true_r in Hseg.
  assert (forallb proper_segment (sd ++ [seg +:+ suffix]) = true) as Hp.
  { rewrite forallb_app, Hsd. simpl. by rewrite proper_segment_app. }
  rewrite str_app_assoc, jsJoin_snoc_app, path_segments_normal by done.
  repeat split. by eexists.
Qed.

(** C8: the source allows the siblings of a root whose names extend the
    root's name, which the specification's guard rejects. *)
Theorem isPathAllowed_sibling dirs cwd dir suffix :
  dir ∈ dirs → normal_path dir → dir ≠ "/" →
  suffix ≠ "" → has_char "/" suffix = false →
  isPathAllowed dirs cwd (dir +:+ suffix) = true ∧
  isPathInside dir (resolve cwd (dir +:+ suffix)) = false.
Proof.
  intros Hin Hdir Hroot Hne Hsuf.
  destruct (sibling_normal _ _ Hdir Hroot Hne Hsuf) as (segs & seg & Hd & Hs & Hn).
  rewrite (resolve_normal_id _ _ Hn). split.
  - apply isPathAllowed_exists. exists dir, suffix.
    by rewrite (resolve_normal_id _ _ Hn).
  - unfold isPathInside. apply bool_decide_eq_false. rewrite Hd, Hs.
    intros H%prefix_app_inv%prefix_cons_inv_1%(f_equal String.length).
    rewrite str_length_app in H. destruct suffix; simpl in *; [done|lia].
Qed.

(** C7: the whole of the difference.  A path passes the source's guard
    exactly when it is inside a root by segments, or when its resolution is
    the text of a root followed by more text that does not start a new
    segment. *)
Theorem isPathAllowed_text dirs cwd p :
  Forall normal_path dirs → startsWith cwd "/" = true →
  isPathAllowed dirs cwd p = true ↔
  ∃ dir, dir ∈ dirs ∧
    (isPathInside dir (resolve cwd p) = true ∨
     ∃ suffix, resolve cwd p = dir +:+ suffix ∧ suffix ≠ "" ∧
       startsWith suffix "/" = false).
Proof.
  intros Hdirs Hcwd. rewrite isPathAllowed_exists. split.
  - intros (dir & rest & Hin & Hr). exists dir. split; [done|].
    pose proof (proj1 (Forall_forall _ _) Hdirs _ Hin) as Hdir.
    pose proof (resolve_normal cwd p Hcwd) as Hn.
    destruct (startsWith rest "/") eqn:Hrest.
    + left. apply isPathInside_text; [done..|]. right; left.
      apply startsWith_spec in Hrest as [rest' ->].
      rewrite Hr, <-str_app_assoc. apply startsWith_app.
    + destruct rest as [|c rest]; [|right; by exists (String c rest)].
      left. apply isPathInside_text; [done..|]. left.
      by rewrite Hr, str_app_nil_r.
  - intros (dir & Hin & [Hinside|(suffix & Hr & _)]); exists dir.
    + pose proof (proj1 (Forall_forall _ _) Hdirs _ Hin) as Hdir.
      apply isPathInside_startsWith, startsWith_spec in Hinside as [rest Hr];
        [by exists rest|done|by apply resolve_normal].
    + by exists suffix.
Qed.

End AgainstSpec.

(** ** Start-up *)

Section Startup.
Implicit Types (dirs argv : list string) (cwd : string) (stat : stat_oracle).

(** Every root is a resolved path: absolute and in normal form. *)
Lemma allowedDirectories_normal cwd argv :
  startsWith cwd "/" = true → Forall normal_path (allowedDirectories cwd argv).
Proof.
  intros Hcwd. apply Forall_forall. intros dir Hin.
  apply list_elem_of_fmap in Hin as (arg & -> & _). by apply resolve_normal.
Qed.

Lemma validateDirectories_Ok stat dirs :
  validateDirectories stat dirs = Ok () ↔
  Forall (λ dir, stat dir = Some true) dirs.
Proof.
  induction dirs as [|dir dirs IH]; simpl; [done|].
  rewrite Forall_cons, <-IH. destruct (stat dir) as [[]|]; intuition congruence.
Qed.

(** Roots that pass are skipped. *)
Lemma validateDirectories_skip stat pre dirs :
  Forall (λ dir, stat dir = Some true) pre →
  validateDirectories stat (pre ++ dirs) = validateDirectories stat dirs.
Proof. induction 1 as [|dir pre Hd _ IH]; simpl; [done|]. by rewrite Hd. Qed.

(** The loop stops at the first root that is missing or not a directory. *)
Lemma validateDirectories_Err stat dirs msg :
  validateDirectories stat dirs = Err msg ↔
  ∃ pre dir post, dirs = pre ++ dir :: post ∧
    Forall (λ d, stat d = Some true) pre ∧
    (stat dir = Some false ∧ msg = "Error: " +:+ dir +:+ " is not a directory" ∨
     stat dir = None ∧ msg = "Error: Directory " +:+ dir +:+ " does not exist").
Proof.
  split.
  - induction dirs as [|dir dirs IH]; simpl; [done|].
    destruct (stat dir) as [[]|] eqn:Hs.
    + intros (pre & d & post & -> & Hpre & Hd)%IH.
      exists (dir :: pre), d, post. by repeat split; [constructor|].
    + intros [= <-]. exists [], dir, dirs. repeat split; [constructor|by left].
    + intros [= <-]. exists [], dir, dirs. repeat split; [constructor|by right].
  - intros (pre & dir & post & -> & Hpre & Hd).
    rewrite validateDirectories_skip by done. simpl.
    by destruct Hd as [[-> ->]|[-> ->]].
Qed.

(** The process starts exactly when at least one root is given and every
    root is an existing directory; the roots are then the resolved
    arguments. *)
Lemma startup_Ok cwd stat argv dirs :
  startup cwd stat argv = Ok dirs ↔
  dirs = allowedDirectories cwd argv ∧ dirs ≠ [] ∧
  Forall (λ dir, stat dir = Some true) dirs.
Proof.
  unfold startup. destruct (allowedDirectories cwd argv) as [|d ds] eqn:E.
  - simpl. split; [done|by intros (-> & ? & _)].
  - simpl Nat.eqb. cbv iota. rewrite <-validateDirectories_Ok.
    destruct (validateDirectories stat (d :: ds)) as [[]|msg] eqn:Ev.
    + split; [by intros [= <-]|by intros (-> & _)].
    + split; [done|]. intros (-> & _ & Hv). congruence.
Qed.

(** The roots of a process that started are the resolved arguments. *)
Lemma startup_roots cwd stat argv dirs :
  startup cwd stat argv = Ok dirs → dirs = allowedDirectories cwd argv.
Proof. unfold startup. repeat case_match; congruence. Qed.

(** With no root on the command line the process exits. *)
Lemma startup_no_roots cwd stat argv :
  length argv ≤ 2 →
  startup cwd stat argv = Err "Error: No allowed directories specified".
Proof.
  intros H. unfold startup, allowedDirectories.
  by rewrite drop_ge by done.
Qed.

(** C29: after a successful start every allowed directory is a resolved
    path: absolute, in normal form, its segments proper names.  The guard
    and its theorems assume roots of this form. *)
Theorem startup_roots_normal cwd stat argv dirs :
  startsWith cwd "/" = true → startup cwd stat argv = Ok dirs →
  Forall normal_path dirs.
Proof.
  intros Hcwd ->%startup_roots. by apply allowedDirectories_normal.
Qed.

End Startup.

(** ** The theorems at concrete paths *)

Lemma normal_home_alice : Forall normal_path ["/home/alice"].
Proof. repeat constructor. by apply normal_pathb_spec. Qed.

Lemma isPathAllowedSpec_isPathAllowed_witness :
  isPathAllowed ["/home/alice"] "/" "/home/alice/../alice/notes.txt" = true.
Proof.
  apply isPathAllowedSpec_isPathAllowed;
    [apply normal_home_alice | reflexivity | reflexivity].
Defined.

Lemma isPathAllowed_sibling_witness :
  isPathAllowed ["/home/alice"] "/" ("/home/alice" +:+ "-evil") = true ∧
  isPathInside "/home/alice" (resolve "/" ("/home/alice" +:+ "-evil")) = false.
Proof.
  apply isPathAllowed_sibling;
    [by left | by apply normal_pathb_spec | done | done | reflexivity].
Defined.

Lemma isPathAllowed_text_witness :
  isPathAllowed ["/home/alice"] "/srv" "/home/alice2/x" = true ↔
  ∃ dir, dir ∈ ["/home/alice"] ∧
    (isPathInside dir (resolve "/srv" "/home/alice2/x") = true ∨
     ∃ suffix, resolve "/srv" "/home/alice2/x" = dir +:+ suffix ∧
       suffix ≠ "" ∧ startsWith suffix "/" = false).
Proof.
  apply isPathAllowed_text; [apply normal_home_alice | reflexivity].
Defined.

Lemma startup_roots_normal_witness : Forall normal_path ["/home/alice"].
Proof.
  apply (startup_roots_normal "/" (λ _, Some true)
           ["node"; "index.js"; "/home/alice"]); reflexivity.
Defined.
(* end of PathGuard *)
