(* ===== verification/Diff.v ===== *)
(** * Diff Generator ([index.ts] lines 592-615)

    [generateDiff] compares two texts line by line, position by position.
    The model follows the source: both texts are split at newlines, an index
    runs up to the larger line count, a line past the end of a text reads as
    the empty string, and each iteration appends to the accumulated [diff].

    [lineEntries], [alignLines] and [diffEntries] are the structural
    reading of the same computation (the specification's DiffRecord); the
    theorems prove the loop equal to it and derive the properties of the
    output from it. *)

From Stdlib Require Import Ascii String List Lia.
From stdpp Require Import base tactics option list strings.
From S2P Require Import Prelude JsString.

(** ** The source *)

(** The newline character and the one-character string ['\n']. *)
Definition LFc : ascii := "010".
Definition LF : string := String LFc "".

(** The body of the [for] loop at index [i]. *)
Definition diffStep (oldLines newLines : list string) (i : nat)
    (diff : string) : string :=
  let oldLine := nth_or "" oldLines i in
  let newLine := nth_or "" newLines i in
  if negb (String.eqb oldLine newLine) then
    let diff :=
      if truthy oldLine then diff +:+ "- " +:+ oldLine +:+ LF else diff in
    let diff :=
      if truthy newLine then diff +:+ "+ " +:+ newLine +:+ LF else diff in
    diff
  else diff +:+ "  " +:+ oldLine +:+ LF.

(** [for (let i = ...; i < Math.max(oldLines.length, newLines.length); i++)]
    from index [i] on.  [fuel] bounds the number of iterations. *)
Fixpoint diffLoop (oldLines newLines : list string) (fuel i : nat)
    (diff : string) : string :=
  if i <? length oldLines `max` length newLines then
    match fuel with
    | 0 => diff
    | S fuel' =>
        diffLoop oldLines newLines fuel' (S i)
          (diffStep oldLines newLines i diff)
    end
  else diff.

Definition generateDiff (oldText newText : string) : string :=
  let oldLines := jsSplit LFc oldText in
  let newLines := jsSplit LFc newText in
  diffLoop oldLines newLines (length oldLines `max` length newLines) 0 "".

(** ** The structural reading *)

(** One line of a diff. *)
Inductive diffEntry : Type :=
| Removed (line : string)
| Added (line : string)
| Unchanged (line : string).

#[export] Instance diffEntry_eq_dec : EqDecision diffEntry.
Proof. solve_decision. Defined.

Definition renderEntry (e : diffEntry) : string :=
  match e with
  | Removed line => "- " +:+ line +:+ LF
  | Added line => "+ " +:+ line +:+ LF
  | Unchanged line => "  " +:+ line +:+ LF
  end.

Fixpoint renderEntries (es : list diffEntry) : string :=
  match es with
  | [] => ""
  | e :: es' => renderEntry e +:+ renderEntries es'
  end.

(** The entries for one position. *)
Definition lineEntries (oldLine newLine : string) : list diffEntry :=
  if String.eqb oldLine newLine then [Unchanged oldLine]
  else (if truthy oldLine then [Removed oldLine] else []) ++
       (if truthy newLine then [Added newLine] else []).

(** The two line lists side by side, the shorter one padded with empty
    lines. *)
Fixpoint alignLines (oldLines newLines : list string)
    : list (string * string) :=
  match oldLines with
  | [] => map (λ n, ("", n)) newLines
  | o :: os =>
      match newLines with
      | [] => (o, "") :: alignLines os []
      | n :: ns => (o, n) :: alignLines os ns
      end
  end.

Definition diffEntries (oldLines newLines : list string) : list diffEntry :=
  flat_map (λ '(o, n), lineEntries o n) (alignLines oldLines newLines).

Definition isUnchanged (e : diffEntry) : bool :=
  match e with Unchanged _ => true | _ => false end.

(** ** Rendering *)

Section Render.
Implicit Types (es : list diffEntry) (e : diffEntry).

Lemma renderEntries_app es es' :
  renderEntries (es ++ es') = renderEntries es +:+ renderEntries es'.
Proof.
  induction es as [|e es IH]; [done|]. simpl.
  by rewrite IH, str_app_assoc.
Qed.

Lemma renderEntry_nonempty e : renderEntry e ≠ "".
Proof. by destruct e. Qed.

Lemma renderEntries_nonempty es : es ≠ [] → renderEntries es ≠ "".
Proof. destruct es as [|[] es]; done. Qed.

Lemma renderEntries_singleton e : renderEntries [e] = renderEntry e.
Proof. simpl. apply str_app_nil_r. Qed.

End Render.

#[export] Hint Rewrite renderEntries_app renderEntries_singleton : str.

(** ** The loop computes the structural reading *)

Section Loop.
Context (oldLines newLines : list string).
Implicit Types (i fuel : nat) (diff : string).

Let bound := length oldLines `max` length newLines.
Let entriesAt i := lineEntries (nth_or "" oldLines i) (nth_or "" newLines i).

(** One iteration appends the entries of its position. *)
Lemma diffStep_entries i diff :
  diffStep oldLines newLines i diff = diff +:+ renderEntries (entriesAt i).
Proof.
  unfold diffStep, entriesAt, lineEntries.
  destruct (String.eqb _ _); simpl negb; cbv iota zeta.
  - by rewrite renderEntries_singleton.
  - destruct (truthy (nth_or "" oldLines i)), (truthy (nth_or "" newLines i));
      simpl; by rewrite ?str_app_nil_r, ?str_app_assoc.
Qed.

(** With enough fuel the loop from [i] appends the entries of the positions
    [i], [i+1], ... below the bound. *)
Lemma diffLoop_entries fuel i diff :
  bound - i ≤ fuel →
  diffLoop oldLines newLines fuel i diff =
  diff +:+ renderEntries (flat_map entriesAt (seq i (bound - i))).
Proof.
  revert i diff; induction fuel as [|fuel IH]; intros i diff Hfuel; simpl;
    fold bound; destruct (Nat.ltb_spec i bound) as [Hi|Hi].
  - lia.
  - replace (bound - i) with 0 by lia. by rewrite str_app_nil_r.
  - rewrite IH, diffStep_entries by lia.
    replace (bound - i) with (S (bound - S i)) by lia. simpl.
    by rewrite renderEntries_app, str_app_assoc.
  - replace (bound - i) with 0 by lia. by rewrite str_app_nil_r.
Qed.

(** C28: the loop ends within its bound: from the index [i] it has
    finished after [bound - i] iterations, the longer line count less [i],
    so any fuel from there on gives the same result, the one [generateDiff]
    computes with fuel [bound]. *)
Theorem diffLoop_fuel fuel fuel' i diff :
  bound - i ≤ fuel → bound - i ≤ fuel' →
  diffLoop oldLines newLines fuel i diff =
  diffLoop oldLines newLines fuel' i diff.
Proof. intros H H'. by rewrite !diffLoop_entries. Qed.

End Loop.

Section Align.
Implicit Types (oldLines newLines l : list string).

(** Aligning is reading both lists index by index up to the larger length. *)
Lemma alignLines_seq oldLines newLines :
  alignLines oldLines newLines =
  map (λ i, (nth_or "" oldLines i, nth_or "" newLines i))
      (seq 0 (length oldLines `max` length newLines)).
Proof.
  revert newLines; induction oldLines as [|o os IH]; intros newLines.
  - simpl. by rewrite <-(map_nth_or_seq "" newLines (λ n, ("", n))).
  - destruct newLines as [|n ns]; simpl; rewrite IH, <-seq_shift, map_map;
      by rewrite ?Nat.max_0_r.
Qed.

Lemma length_alignLines oldLines newLines :
  length (alignLines oldLines newLines) =
  length oldLines `max` length newLines.
Proof. by rewrite alignLines_seq, length_map, length_seq. Qed.

Lemma alignLines_same l : alignLines l l = map (λ x, (x, x)) l.
Proof. induction l as [|x l IH]; [done|]. simpl. by rewrite IH. Qed.

(** An empty line appended to the new text is aligned with the padding of
    the old one. *)
Lemma alignLines_trailing l :
  alignLines l (l ++ [""]) = alignLines (l ++ [""]) (l ++ [""]).
Proof. induction l as [|x l IH]; [done|]. simpl. by rewrite IH. Qed.

End Align.

(** The index loop renders the entries of the structural reading. *)
Lemma generateDiff_entries oldText newText :
  generateDiff oldText newText =
  renderEntries (diffEntries (jsSplit LFc oldText) (jsSplit LFc newText)).
Proof.
  unfold generateDiff, diffEntries. cbv zeta.
  rewrite diffLoop_entries, Nat.sub_0_r, str_app_nil_l by lia.
  by rewrite alignLines_seq, flat_map_map.
Qed.

(** C11: [generateDiff] is the rendering of the structural diff of the two
    line lists: the index loop and the definition by recursion on the lists
    agree. *)
Theorem generateDiff_reference oldText newText :
  generateDiff oldText newText =
  renderEntries (diffEntries (jsSplit LFc oldText) (jsSplit LFc newText)).
Proof. apply generateDiff_entries. Qed.

(** ** Properties of the entries *)

Section Entries.
Implicit Types (o n x : string) (oldLines newLines l : list string).

Lemma lineEntries_same x : lineEntries x x = [Unchanged x].
Proof. unfold lineEntries. by rewrite String.eqb_refl. Qed.

(** Every position yields one or two entries: two lines that differ are not
    both empty. *)
Lemma lineEntries_length o n : 1 ≤ length (lineEntries o n) ≤ 2.
Proof.
  unfold lineEntries. case_str o n; [simpl; lia|].
  destruct o, n; simpl; (done || lia).
Qed.

(** A position is reported as unchanged exactly when its lines are equal. *)
Lemma lineEntries_unchanged o n :
  forallb isUnchanged (lineEntries o n) = String.eqb o n.
Proof. unfold lineEntries. case_str o n; [done|]. by destruct o, n. Qed.

Lemma diffEntries_same l : diffEntries l l = map Unchanged l.
Proof.
  unfold diffEntries. rewrite alignLines_same, flat_map_map.
  induction l as [|x l IH]; [done|]. simpl. by rewrite lineEntries_same, IH.
Qed.

(** The number of entries, against the numbers of lines. *)
Lemma diffEntries_bounds oldLines newLines :
  length oldLines `max` length newLines
    ≤ length (diffEntries oldLines newLines)
    ≤ 2 * (length oldLines `max` length newLines).
Proof.
  rewrite <-length_alignLines. unfold diffEntries.
  pose proof (flat_map_length_bounds (λ '(o, n), lineEntries o n)
    (alignLines oldLines newLines) 1 2) as H.
  rewrite Nat.mul_1_l in H. apply H. intros [o n]. apply lineEntries_length.
Qed.

(** the diff has at least as many entries as the longer text has lines,
    and at most twice as many. *)
Theorem diffEntries_length oldLines newLines :
  length oldLines `max` length newLines
    ≤ length (diffEntries oldLines newLines)
    ≤ 2 * (length oldLines `max` length newLines).
Proof. apply diffEntries_bounds. Qed.

(** All entries are unchanged exactly when the texts agree line by line,
    a missing line counting as an empty one. *)
Lemma diffEntries_unchanged oldLines newLines :
  forallb isUnchanged (diffEntries oldLines newLines) =
  forallb (λ '(o, n), String.eqb o n) (alignLines oldLines newLines).
Proof.
  unfold diffEntries. rewrite forallb_flat_map.
  induction (alignLines oldLines newLines) as [|[o n] l IH]; [done|].
  simpl. by rewrite lineEntries_unchanged, IH.
Qed.

End Entries.

(** ** Properties of [generateDiff] *)

(** A text compared with itself yields one unchanged entry per line and
    nothing else. *)
Lemma generateDiff_same text :
  generateDiff text text =
  renderEntries (map Unchanged (jsSplit LFc text)).
Proof. by rewrite generateDiff_entries, diffEntries_same. Qed.

(** C36: the diff is never the empty string, not even for two empty texts:
    a text has at least one line, and every line position is reported. *)
Theorem generateDiff_nonempty oldText newText :
  generateDiff oldText newText ≠ "".
Proof.
  rewrite generateDiff_entries. apply renderEntries_nonempty.
  intros H%(f_equal length). simpl in H.
  pose proof (diffEntries_bounds (jsSplit LFc oldText) (jsSplit LFc newText)).
  pose proof (length_jsSplit_pos LFc oldText). lia.
Qed.

(** A newline appended at the end of the text does not show: the diff
    against the longer text is the diff of the longer text against itself,
    all lines unchanged. *)
Lemma generateDiff_trailing_newline text :
  generateDiff text (text +:+ LF) =
  renderEntries (map Unchanged (jsSplit LFc (text +:+ LF))).
Proof.
  rewrite generateDiff_entries. unfold LF, diffEntries.
  rewrite jsSplit_trailing, alignLines_trailing.
  apply (f_equal renderEntries), diffEntries_same.
Qed.

(** The examples of the specification. *)
Example generateDiff_added :
  generateDiff "" ("a" +:+ LF +:+ "b") = "+ a" +:+ LF +:+ "+ b" +:+ LF.
Proof. reflexivity. Qed.

Example generateDiff_replaced :
  generateDiff "hi" "bye" = "- hi" +:+ LF +:+ "+ bye" +:+ LF.
Proof. reflexivity. Qed.

Example generateDiff_empty : generateDiff "" "" = "  " +:+ LF.
Proof. reflexivity. Qed.

Lemma diffLoop_fuel_witness :
  diffLoop ["a"; "b"] ["a"] 2 0 "" = diffLoop ["a"; "b"] ["a"] 7 0 "".
Proof. apply diffLoop_fuel; simpl; lia. Defined.
(* end of Diff *)
