(* ===== verification/Edit.v ===== *)
(** * Edit Applicator ([index.ts] lines 394-418, in the [edit_file] case)

    The handler of [edit_file] reads the file, runs a loop over the edits
    that rewrites [newContent] and pushes one result per edit, and then
    computes the diff of the original against the final content.  [applyEdit]
    is the loop body, [applyEdits] the loop, [editContent] the loop followed
    by [generateDiff].  [applyEditsSpec] is the same computation by recursion
    on the list of edits, the form in which the properties are proved. *)

From Stdlib Require Import Ascii String List Lia.
From stdpp Require Import base tactics option list strings.
From S2P Require Import Prelude JsString Diff.

(** ** The source *)

(** An element of [edits]: [{ oldText, newText }]. *)
Record edit : Type := Edit { oldText : string; newText : string }.

(** An element of [results]: [{ match: false, oldText, message }] or
    [{ match: true, oldText, newText }]. *)
Inductive editResult : Type :=
| NoMatch (oldText message : string)
| Match (oldText newText : string).

#[export] Instance edit_eq_dec : EqDecision edit.
Proof. solve_decision. Defined.
#[export] Instance editResult_eq_dec : EqDecision editResult.
Proof. solve_decision. Defined.

(** The body of [for (const edit of edits)]: the state is [newContent] and
    [results]. *)
Definition applyEdit (st : string * list editResult) (e : edit)
    : string * list editResult :=
  let '(newContent, results) := st in
  if negb (includes newContent (oldText e)) then
    (newContent, results ++ [NoMatch (oldText e) "Text not found in file"])
  else
    (jsReplace newContent (oldText e) (newText e),
     results ++ [Match (oldText e) (newText e)]).

(** The loop, from [newContent = originalContent] and [results = []]. *)
Definition applyEdits (originalContent : string) (edits : list edit)
    : string * list editResult :=
  fold_left applyEdit edits (originalContent, []).

(** The loop and the diff that follows it: final content, results, diff. *)
Definition editContent (originalContent : string) (edits : list edit)
    : string * list editResult * string :=
  let '(newContent, results) := applyEdits originalContent edits in
  (newContent, results, generateDiff originalContent newContent).

(** ** The reference definition *)

(** The outcome of one edit on a content: the new content and the result. *)
Definition editOutcome (content : string) (e : edit) : string * editResult :=
  if includes content (oldText e)
  then (jsReplace content (oldText e) (newText e),
        Match (oldText e) (newText e))
  else (content, NoMatch (oldText e) "Text not found in file").

Fixpoint applyEditsSpec (content : string) (edits : list edit)
    : string * list editResult :=
  match edits with
  | [] => (content, [])
  | e :: es =>
      let '(content', r) := editOutcome content e in
      let '(final, rs) := applyEditsSpec content' es in
      (final, r :: rs)
  end.

Definition isMatch (r : editResult) : bool :=
  match r with Match _ _ => true | NoMatch _ _ => false end.

Definition resultOldText (r : editResult) : string :=
  match r with Match o _ => o | NoMatch o _ => o end.

(** ** The loop against the reference *)

Section Loop.
Implicit Types (content : string) (e : edit) (edits : list edit)
  (results : list editResult).

Lemma applyEdit_outcome content results e :
  applyEdit (content, results) e =
  ((editOutcome content e).1, results ++ [(editOutcome content e).2]).
Proof. unfold applyEdit, editOutcome. by destruct (includes _ _). Qed.

(** The loop from any state: the results pushed so far stay in front. *)
Lemma fold_applyEdit content results edits :
  fold_left applyEdit edits (content, results) =
  ((applyEditsSpec content edits).1,
   results ++ (applyEditsSpec content edits).2).
Proof.
  revert content results; induction edits as [|e es IH];
    intros content results; cbn [fold_left applyEditsSpec].
  - by rewrite app_nil_r.
  - rewrite applyEdit_outcome, IH. destruct (editOutcome content e) as [c' r].
    cbn [fst snd]. destruct (applyEditsSpec c' es) as [final rs].
    by rewrite <-app_assoc.
Qed.

(** The loop computes the reference definition. *)
Lemma applyEdits_applyEditsSpec content edits :
  applyEdits content edits = applyEditsSpec content edits.
Proof.
  unfold applyEdits. rewrite fold_applyEdit.
  by destruct (applyEditsSpec content edits).
Qed.

(** C10: the loop with its accumulated [results] computes the reference
    definition: one result per edit, in the order of the edits, each edit
    applied to the content the edits before it produced. *)
Theorem applyEdits_spec content edits :
  applyEdits content edits = applyEditsSpec content edits.
Proof. apply applyEdits_applyEditsSpec. Qed.

End Loop.

(** ** One edit *)

Section OneEdit.
Implicit Types (content old new b a : string) (e : edit).

(** An [oldText] that does not occur: the content is kept and the result
    says so. *)
Lemma editOutcome_absent content e :
  includes content (oldText e) = false →
  editOutcome content e =
  (content, NoMatch (oldText e) "Text not found in file").
Proof. unfold editOutcome. by intros ->. Qed.

(** An [oldText] that occurs: its first occurrence is replaced by the
    expansion of [newText]. *)
Lemma editOutcome_first content old new b a :
  first_occurrence content old b a →
  editOutcome content (Edit old new) =
  (b +:+ getSubstitution old b a new +:+ a, Match old new).
Proof.
  intros Hocc. unfold editOutcome. simpl.
  rewrite (jsReplace_first _ _ _ _ _ Hocc).
  destruct Hocc as [-> _]. rewrite (proj2 (includes_spec _ _)); [done|].
  by exists b, a.
Qed.

(** The result of an edit is a match exactly when [oldText] occurs. *)
Lemma editOutcome_isMatch content e :
  isMatch (editOutcome content e).2 = includes content (oldText e).
Proof. unfold editOutcome. by destruct (includes _ _). Qed.

Lemma editOutcome_oldText content e :
  resultOldText (editOutcome content e).2 = oldText e.
Proof. unfold editOutcome. by destruct (includes _ _). Qed.

End OneEdit.

(** ** The list of edits *)

Section Edits.
Implicit Types (content old new b a : string) (e : edit)
  (edits : list edit).

(** With no edit the content is returned as it is, with no result. *)
Lemma applyEdits_nil content : applyEdits content [] = (content, []).
Proof. done. Qed.

Lemma applyEdits_cons content e edits :
  applyEdits content (e :: edits) =
  ((applyEdits (editOutcome content e).1 edits).1,
   (editOutcome content e).2 :: (applyEdits (editOutcome content e).1 edits).2).
Proof.
  rewrite !applyEdits_applyEditsSpec. simpl. destruct (editOutcome content e) as [c r].
  cbn [fst snd]. by destruct (applyEditsSpec c edits).
Qed.

(** Edits compose: a list of edits followed by another is the second
    list applied to the content the first one produced, the results in
    sequence. *)
Lemma applyEdits_app content edits edits' :
  applyEdits content (edits ++ edits') =
  ((applyEdits (applyEdits content edits).1 edits').1,
   (applyEdits content edits).2 ++
   (applyEdits (applyEdits content edits).1 edits').2).
Proof.
  unfold applyEdits at 1. rewrite fold_left_app. fold (applyEdits content edits).
  destruct (applyEdits content edits) as [c rs]. rewrite fold_applyEdit.
  by rewrite <-applyEdits_applyEditsSpec.
Qed.

(** One result per edit, naming the edits' [oldText]s in order. *)
Lemma applyEdits_results content edits :
  map resultOldText (applyEdits content edits).2 = map oldText edits.
Proof.
  revert content; induction edits as [|e edits IH]; intros content; [done|].
  rewrite applyEdits_cons. simpl. by rewrite editOutcome_oldText, IH.
Qed.

Lemma applyEdits_results_length content edits :
  length (applyEdits content edits).2 = length edits.
Proof.
  by rewrite <-(length_map resultOldText), applyEdits_results, length_map.
Qed.

(** When no result is a match the content is unchanged. *)
Lemma applyEdits_no_match content edits :
  existsb isMatch (applyEdits content edits).2 = false →
  (applyEdits content edits).1 = content.
Proof.
  revert content; induction edits as [|e edits IH]; intros content; [done|].
  rewrite applyEdits_cons. simpl. rewrite editOutcome_isMatch.
  intros [Hinc H]%orb_false_iff. rewrite editOutcome_absent in * by done.
  by apply IH.
Qed.

(** Edits whose [oldText]s all are absent from the content change nothing
    and report no match. *)
Lemma applyEdits_absent content edits :
  Forall (λ e, includes content (oldText e) = false) edits →
  applyEdits content edits =
  (content, map (λ e, NoMatch (oldText e) "Text not found in file") edits).
Proof.
  induction 1 as [|e edits He _ IH]; [done|].
  rewrite applyEdits_cons, editOutcome_absent by done. cbn [fst snd].
  by rewrite IH.
Qed.

(** C34: a matched edit whose [newText] holds no [$] replaces the first
    occurrence of [oldText] by [newText], literally. *)
Theorem applyEdits_literal content old new b a :
  first_occurrence content old b a → has_char "$" new = false →
  applyEdits content [Edit old new] = (b +:+ new +:+ a, [Match old new]).
Proof.
  intros Hocc Hnew. rewrite applyEdits_cons, (editOutcome_first _ _ _ b a) by done.
  by rewrite getSubstitution_literal.
Qed.

(** C35: a [newText] is not taken literally when it holds a [$]-pattern:
    the edit that replaces an occurring [oldText] by the two characters
    [$&] leaves the content as it is, and reports a match. *)
Theorem applyEdits_dollar_ampersand content old :
  includes content old = true →
  applyEdits content [Edit old "$&"] = (content, [Match old "$&"]).
Proof.
  intros (b & a & Hocc)%includes_first_occurrence.
  rewrite applyEdits_cons, (editOutcome_first _ _ _ b a) by done.
  destruct Hocc as [-> _]. simpl. by rewrite str_app_nil_r.
Qed.

(** An empty [oldText] matches every content, at its start. *)
Lemma applyEdits_empty_oldText content new :
  has_char "$" new = false →
  applyEdits content [Edit "" new] = (new +:+ content, [Match "" new]).
Proof.
  intros Hnew. rewrite applyEdits_cons. unfold editOutcome. simpl.
  by rewrite includes_nil, jsReplace_nil_pattern, getSubstitution_literal.
Qed.

(** The diff reported for edits that match nothing shows every line of the
    file as unchanged. *)
Lemma editContent_absent content edits :
  Forall (λ e, includes content (oldText e) = false) edits →
  editContent content edits =
  (content, map (λ e, NoMatch (oldText e) "Text not found in file") edits,
   renderEntries (map Unchanged (jsSplit LFc content))).
Proof.
  intros H. unfold editContent. by rewrite applyEdits_absent, generateDiff_same.
Qed.

End Edits.

(** ** Examples *)

(** The scenario of the specification: [hi] to [bye]. *)
Example editContent_hi_bye :
  editContent "hi" [Edit "hi" "bye"] =
  ("bye", [Match "hi" "bye"], "- hi" +:+ LF +:+ "+ bye" +:+ LF).
Proof. reflexivity. Qed.

(** Later edits see the effect of earlier ones. *)
Example applyEdits_sequential :
  applyEdits "a" [Edit "a" "b"; Edit "b" "c"] =
  ("c", [Match "a" "b"; Match "b" "c"]).
Proof. reflexivity. Qed.

(** Only the first occurrence is replaced. *)
Example applyEdits_first_only :
  applyEdits "x.x.x" [Edit "x" "y"] = ("y.x.x", [Match "x" "y"]).
Proof. reflexivity. Qed.

(** The [$]-patterns of the replacement text. *)
Example applyEdits_dollar_patterns :
  applyEdits "price: N" [Edit "N" "$$5 ($`$&$')"] =
  ("price: $5 (price: N)", [Match "N" "$$5 ($`$&$')"]).
Proof. reflexivity. Qed.

(** ** The theorems at concrete edits *)

Lemma applyEdits_no_match_witness :
  (applyEdits "hello" [Edit "x" "y"; Edit "z" "w"]).1 = "hello".
Proof. apply applyEdits_no_match. reflexivity. Defined.

Lemma applyEdits_literal_witness :
  applyEdits "a-b-a" [Edit "a" "c"] = ("" +:+ "c" +:+ "-b-a", [Match "a" "c"]).
Proof.
  apply applyEdits_literal; [|reflexivity].
  apply indexOf_first_occurrence. by split.
Defined.

Lemma applyEdits_dollar_ampersand_witness :
  applyEdits "cost: N" [Edit "N" "$&"] = ("cost: N", [Match "N" "$&"]).
Proof. apply applyEdits_dollar_ampersand. reflexivity. Defined.
(* end of Edit *)
