(* ===== verification/Json.v ===== *)
(** * JSON values

    Several handlers answer with [JSON.stringify(value, null, 2)].  The
    values they build are modelled as [json] trees, field by field in the
    order of the source's object literals.  The text [JSON.stringify]
    produces is the method [stringify] of the class [JsonText], which the
    handlers are written against: what is proved of a handler holds for
    every rendering. *)

From Stdlib Require Import Ascii String List Lia NArith DecimalString.
From stdpp Require Import base tactics option list strings.
From S2P Require Import Prelude JsString.

#[local] Set Warnings "-register-all".

Inductive json : Type :=
| JNull
| JBool (b : bool)
| JNum (n : N)
| JStr (s : string)
| JArr (items : list json)
| JObj (fields : list (string * json)).

(** [JSON.stringify(value, null, 2)] *)
Class JsonText : Type := stringify : json → string.

(** The value of a field of an object, when it has the field. *)
Fixpoint assoc (key : string) (fields : list (string * json)) : option json :=
  match fields with
  | [] => None
  | (k, v) :: rest => if String.eqb k key then Some v else assoc key rest
  end.

Definition field (key : string) (j : json) : option json :=
  match j with JObj fields => assoc key fields | _ => None end.

(** The elements of an array. *)
Definition items_of (j : json) : list json :=
  match j with JArr items => items | _ => [] end.

Lemma assoc_cons_eq key v rest : assoc key ((key, v) :: rest) = Some v.
Proof. simpl. by rewrite String.eqb_refl. Qed.

Lemma assoc_cons_ne key k v rest :
  k ≠ key → assoc key ((k, v) :: rest) = assoc key rest.
Proof. intros Hk. simpl. by rewrite (proj2 (String.eqb_neq k key) Hk). Qed.

(** ** The text of [JSON.stringify(value, null, 2)]

    The rendering of ECMAScript's [SerializeJSONProperty] with a gap of two
    spaces, for the values above.  Strings are sequences of code units below
    256; numbers are naturals, printed in decimal as JavaScript prints them
    below [10^21]. *)

Definition quoteChar : ascii := "034".
Definition newline : string := String "010" "".

Definition hexDigit (n : N) : ascii :=
  nth_or "0"%char (list_ascii_of_string "0123456789abcdef") (N.to_nat n).

(** The escape of one code unit in [QuoteJSONString]. *)
Definition escapeChar (c : ascii) : string :=
  let n := N_of_ascii c in
  if Ascii.eqb c quoteChar then String "\" (String quoteChar "")
  else if Ascii.eqb c "\" then "\\"
  else if N.eqb n 8 then "\b"
  else if N.eqb n 9 then "\t"
  else if N.eqb n 10 then "\n"
  else if N.eqb n 12 then "\f"
  else if N.eqb n 13 then "\r"
  else if N.ltb n 32 then
    "\u00" +:+ String (hexDigit (n / 16)) (String (hexDigit (n mod 16)) "")
  else String c "".

Fixpoint escape (s : string) : string :=
  match s with
  | EmptyString => ""
  | String c rest => escapeChar c +:+ escape rest
  end.

Definition quote (s : string) : string :=
  String quoteChar (escape s +:+ String quoteChar "").

Definition decimal (n : N) : string :=
  DecimalString.NilZero.string_of_uint (N.to_uint n).

(** [[ a, b ]] between brackets, one element per line at the inner indent. *)
Definition block (opening closing indent : string) (members : list string)
    : string :=
  match members with
  | [] => opening +:+ closing
  | _ =>
      opening +:+ newline +:+
      jsJoin ("," +:+ newline) (map (λ m, indent +:+ "  " +:+ m) members) +:+
      newline +:+ indent +:+ closing
  end.

Fixpoint render (indent : string) (j : json) {struct j} : string :=
  match j with
  | JNull => "null"
  | JBool b => if b then "true" else "false"
  | JNum n => decimal n
  | JStr s => quote s
  | JArr items =>
      block "[" "]" indent (map (render (indent +:+ "  ")) items)
  | JObj fields =>
      block "{" "}" indent
        (map (λ '(k, v), quote k +:+ ": " +:+ render (indent +:+ "  ") v)
             fields)
  end.

(** [JSON.stringify(value, null, 2)] as Node renders it. *)
Definition nodeJsonText : JsonText := render "".

Lemma escape_app s t : escape (s +:+ t) = escape s +:+ escape t.
Proof.
  induction s as [|c s IH]; [done|]. rewrite str_app_cons. simpl.
  by rewrite IH, str_app_assoc.
Qed.

(** The text of a string starts and ends with a quote. *)
Lemma quote_shape s :
  ∃ body, quote s = String quoteChar (body +:+ String quoteChar "").
Proof. by eexists. Qed.

Example render_results :
  render "" (JArr [JObj [("path", JStr "a"); ("size", JNum 12)]; JArr []]) =
  "[" +:+ newline +:+
  "  {" +:+ newline +:+
  "    " +:+ quote "path" +:+ ": " +:+ quote "a" +:+ "," +:+ newline +:+
  "    " +:+ quote "size" +:+ ": 12" +:+ newline +:+
  "  }," +:+ newline +:+
  "  []" +:+ newline +:+
  "]".
Proof. reflexivity. Qed.
(* end of Json *)
