(* ===== verification/Host.v ===== *)
(** * The host interface: calls, exceptions and handler programs

    The handlers of [index.ts] are [async] functions that [await] calls of
    Node's [fs] module ([readFile], [writeFile], [mkdir], [readdir],
    [rename], [stat]), [existsSync] and [glob], and that throw.  This file
    fixes the vocabulary in which they are modelled:

    - [call] names a host call with its arguments and [reply] gives the type
      of what it returns ([Err msg] for a rejected promise, [msg] being the
      [message] of the error);
    - [io A] is a program that makes host calls and returns an [A]: a tree
      with a node per call, so the calls made, their order and their
      arguments can be stated and proved;
    - [prog A] is [io] with exceptions: what a [try] block computes.  [exn]
      separates an [McpError], which the handler rethrows, from any other
      error, which it reports in the result;
    - [AllCalls P t] says that every call [t] can make satisfies [P],
      whatever the host replies, and [NoCalls t] that it makes none;
    - a [Host] is a state with an [exec] function; [run] executes a program
      on it and [trace] lists the calls made. *)

From Stdlib Require Import Ascii String List Lia.
From stdpp Require Import base tactics option list strings.
From S2P Require Import Prelude.

(** ** Exceptions *)

(** The [ErrorCode]s the source names. *)
Inductive errorCode : Type :=
| PermissionDenied
| InvalidRequest
| MethodNotFound
| ResourceNotFound.

(** What can be thrown inside a handler: [new McpError(code, message)], or
    any other [Error] with its [message]. *)
Inductive exn : Type :=
| McpError (code : errorCode) (message : string)
| OtherError (message : string).

#[export] Instance errorCode_eq_dec : EqDecision errorCode.
Proof. solve_decision. Defined.
#[export] Instance exn_eq_dec : EqDecision exn.
Proof. solve_decision. Defined.

(** ** Host calls *)

(** A [Dirent] as the handler reads it: [entry.name], [entry.isDirectory()]. *)
Record dirent : Type := Dirent { d_name : string; d_isDirectory : bool }.

(** A [Stats] as the handler reads it.  Times are kept as the text
    [JSON.stringify] gives them. *)
Record stats : Type := Stats {
  st_size : N;
  st_isDirectory : bool;
  st_isFile : bool;
  st_birthtime : string;
  st_mtime : string;
  st_atime : string;
  st_mode : N
}.

#[export] Instance dirent_eq_dec : EqDecision dirent.
Proof. solve_decision. Defined.
#[export] Instance stats_eq_dec : EqDecision stats.
Proof. solve_decision. Defined.

Inductive call : Type :=
| ReadFile (path : string)               (* fs.readFile(path, 'utf8') *)
| WriteFile (path content : string)      (* fs.writeFile(path, content) *)
| Mkdir (path : string)                  (* fs.mkdir(path, {recursive: true}) *)
| Readdir (path : string)                (* fs.readdir(path, {withFileTypes: true}) *)
| Rename (source destination : string)   (* fs.rename(source, destination) *)
| Stat (path : string)                   (* fs.stat(path) *)
| ExistsSync (path : string)             (* existsSync(path) *)
| Glob (pattern : string) (ignore : list string).
                                         (* glob(pattern, {ignore, nocase: true}) *)

#[export] Instance call_eq_dec : EqDecision call.
Proof. solve_decision. Defined.

Definition reply (c : call) : Type :=
  match c with
  | ReadFile _ => result string string
  | WriteFile _ _ => result string unit
  | Mkdir _ => result string unit
  | Readdir _ => result string (list dirent)
  | Rename _ _ => result string unit
  | Stat _ => result string stats
  | ExistsSync _ => bool
  | Glob _ _ => result string (list string)
  end.

(** The paths a call names, the ones the host is asked to touch. *)
Definition call_paths (c : call) : list string :=
  match c with
  | ReadFile p | WriteFile p _ | Mkdir p | Readdir p | Stat p
  | ExistsSync p => [p]
  | Rename s d => [s; d]
  | Glob _ _ => []
  end.

(** Calls that can change the host's state. *)
Definition is_write (c : call) : bool :=
  match c with
  | WriteFile _ _ | Mkdir _ | Rename _ _ => true
  | _ => false
  end.

(** ** Programs *)

Inductive io (A : Type) : Type :=
| Ret (a : A)
| Do (c : call) (k : reply c → io A).
Arguments Ret {A} a.
Arguments Do {A} c k.

Fixpoint io_bind {A B} (m : io A) (f : A → io B) : io B :=
  match m with
  | Ret a => f a
  | Do c k => Do c (λ r, io_bind (k r) f)
  end.

(** A program that can throw. *)
Definition prog (A : Type) : Type := io (result exn A).

Definition ret {A} (a : A) : prog A := Ret (Ok a).
Definition throw {A} (e : exn) : prog A := Ret (Err e).

Definition bind {A B} (m : prog A) (f : A → prog B) : prog B :=
  io_bind m (λ r, match r with Ok a => f a | Err e => Ret (Err e) end).

(** [try { m } catch (error) { h error }] *)
Definition catch {A} (m : prog A) (h : exn → prog A) : prog A :=
  io_bind m (λ r, match r with Ok a => Ret (Ok a) | Err e => h e end).

Declare Scope prog_scope.
Delimit Scope prog_scope with prog.
Notation "x <- m ;; k" := (bind m (λ x, k))
  (at level 100, m at next level, right associativity) : prog_scope.
Notation "m ;; k" := (bind m (λ _, k))
  (at level 100, right associativity) : prog_scope.

(** [await c] for a call whose promise can be rejected: the rejection is
    thrown as an ordinary error. *)
Definition lift {A} (r : result string A) : prog A :=
  match r with Ok a => ret a | Err msg => throw (OtherError msg) end.

Definition readFile (path : string) : prog string :=
  Do (ReadFile path) lift.
Definition writeFile (path content : string) : prog unit :=
  Do (WriteFile path content) lift.
Definition mkdir (path : string) : prog unit :=
  Do (Mkdir path) lift.
Definition readdir (path : string) : prog (list dirent) :=
  Do (Readdir path) lift.
Definition rename (source destination : string) : prog unit :=
  Do (Rename source destination) lift.
Definition stat (path : string) : prog stats :=
  Do (Stat path) lift.
Definition existsSync (path : string) : prog bool :=
  Do (ExistsSync path) ret.
Definition glob (pattern : string) (ignore : list string)
    : prog (list string) :=
  Do (Glob pattern ignore) lift.

(** ** What a program can call *)

(** [AllCalls P t]: every call on every path through [t] satisfies [P]. *)
Inductive AllCalls {A} (P : call → Prop) : io A → Prop :=
| AllCalls_Ret a : AllCalls P (Ret a)
| AllCalls_Do c k : P c → (∀ r, AllCalls P (k r)) → AllCalls P (Do c k).

(** [AllRets Q t]: whatever the host replies, what [t] returns satisfies
    [Q]. *)
Inductive AllRets {A} (Q : A → Prop) : io A → Prop :=
| AllRets_Ret a : Q a → AllRets Q (Ret a)
| AllRets_Do c k : (∀ r, AllRets Q (k r)) → AllRets Q (Do c k).

(** [NoCalls t]: the program returns without calling the host. *)
Definition NoCalls {A} (t : io A) : Prop := ∃ a, t = Ret a.

(** [Returns t a]: the program returns [a] without calling the host. *)
Definition Returns {A} (t : io A) (a : A) : Prop := t = Ret a.

(** ** Hosts *)

(** A host: a state on which calls execute. *)
Class Host (St : Type) : Type := exec : ∀ c : call, St → reply c * St.

Section Run.
Context {St : Type} `{Host St}.

(** The result and the final state of a program run from a state. *)
Fixpoint run {A} (t : io A) (s : St) : A * St :=
  match t with
  | Ret a => (a, s)
  | Do c k => let '(r, s') := exec c s in run (k r) s'
  end.

(** The calls made, in order. *)
Fixpoint trace {A} (t : io A) (s : St) : list call :=
  match t with
  | Ret _ => []
  | Do c k => let '(r, s') := exec c s in c :: trace (k r) s'
  end.

End Run.

(** ** Proof rules *)

Section Rules.
Context {A B : Type}.
Implicit Types (P Q : call → Prop) (t : io A) (m : prog A).

Lemma AllCalls_mono P Q t :
  (∀ c, P c → Q c) → AllCalls P t → AllCalls Q t.
Proof. intros HPQ. induction 1; constructor; auto. Qed.

Lemma AllCalls_io_bind P t (f : A → io B) :
  AllCalls P t → (∀ a, AllCalls P (f a)) → AllCalls P (io_bind t f).
Proof. intros Ht Hf. induction Ht; simpl; [done|]. constructor; auto. Qed.

Lemma NoCalls_AllCalls P t : NoCalls t → AllCalls P t.
Proof. intros [a ->]. constructor. Qed.

(** A program that makes no call leaves every host as it is. *)
Lemma NoCalls_run {St} `{Host St} t (s : St) :
  NoCalls t → (run t s).2 = s ∧ trace t s = [].
Proof. by intros [a ->]. Qed.

(** The calls of a run are among the calls the program can make. *)
Lemma AllCalls_trace {St} `{Host St} P t (s : St) :
  AllCalls P t → Forall P (trace t s).
Proof.
  intros Ht. revert s. induction Ht as [|c k Hc _ IH]; intros s; simpl.
  - constructor.
  - destruct (exec c s) as [r s']. constructor; auto.
Qed.

(** A program whose calls are all reads leaves the state of a host on which
    reads change nothing. *)
Lemma AllCalls_run_readonly {St} `{Host St} t (s : St) :
  (∀ c s, is_write c = false → (exec c s).2 = s) →
  AllCalls (λ c, is_write c = false) t → (run t s).2 = s.
Proof.
  intros Hro Ht. revert s. induction Ht as [|c k Hc _ IH]; intros s; simpl.
  - done.
  - specialize (Hro c s Hc). destruct (exec c s) as [r s']. simpl in Hro.
    subst s'. apply IH.
Qed.

(** A relation between states that is reflexive and transitive, and that
    every call of a kind [P] respects, relates the state before a run to the
    state after, for a program whose calls are all of that kind. *)
Lemma AllCalls_run_rel {St} `{Host St} (P : call → Prop)
    (R : St → St → Prop) t (s : St) :
  Reflexive R → Transitive R →
  (∀ c s, P c → R s (exec c s).2) →
  AllCalls P t → R s (run t s).2.
Proof.
  intros Hrefl Htrans Hexec Ht. revert s.
  induction Ht as [|c k Hc _ IH]; intros s; simpl; [done|].
  specialize (Hexec c s Hc). destruct (exec c s) as [r s']. by etrans.
Qed.

Lemma AllRets_mono (Q Q' : A → Prop) t :
  (∀ a, Q a → Q' a) → AllRets Q t → AllRets Q' t.
Proof. intros HQ. induction 1; constructor; auto. Qed.

Lemma AllRets_io_bind (Q : A → Prop) (Q' : B → Prop) t (f : A → io B) :
  AllRets Q t → (∀ a, Q a → AllRets Q' (f a)) → AllRets Q' (io_bind t f).
Proof. intros Ht Hf. induction Ht; simpl; [auto|]. constructor; auto. Qed.

(** A property of the state that every call keeps is kept by every run. *)
Lemma run_invariant {St} `{Host St} (Inv : St → Prop) t (s : St) :
  (∀ c s, Inv s → Inv (exec c s).2) → Inv s → Inv (run t s).2.
Proof.
  intros Hexec. revert s. induction t as [a|c k IH]; intros s Hs; simpl.
  - done.
  - specialize (Hexec c s Hs). destruct (exec c s) as [r s']. by apply IH.
Qed.

(** What a run returns satisfies what every return satisfies. *)
Lemma AllRets_run {St} `{Host St} (Q : A → Prop) t (s : St) :
  AllRets Q t → Q (run t s).1.
Proof.
  intros Ht. revert s. induction Ht as [|c k _ IH]; intros s; simpl; [done|].
  destruct (exec c s) as [r s']. apply IH.
Qed.

End Rules.

(** [ThrowsOnly E m]: every [McpError] that [m] can throw satisfies [E]. *)
Definition ThrowsOnly {A} (E : errorCode → string → Prop) (m : prog A)
    : Prop :=
  AllRets (λ r, match r with Err (McpError c msg) => E c msg | _ => True end)
          m.

Section ProgRules.
Context {A B : Type}.
Implicit Types (P : call → Prop) (m : prog A).

Lemma AllCalls_bind P m (f : A → prog B) :
  AllCalls P m → (∀ a, AllCalls P (f a)) → AllCalls P (bind m f).
Proof.
  intros Hm Hf. apply AllCalls_io_bind; [done|]. intros [a|e]; [done|].
  constructor.
Qed.

Lemma AllCalls_catch P m (h : exn → prog A) :
  AllCalls P m → (∀ e, AllCalls P (h e)) → AllCalls P (catch m h).
Proof.
  intros Hm Hh. apply AllCalls_io_bind; [done|]. intros [a|e]; [|done].
  constructor.
Qed.

Lemma AllCalls_ret P (a : A) : AllCalls P (ret a).
Proof. constructor. Qed.

Lemma AllCalls_throw P e : AllCalls P (@throw A e).
Proof. constructor. Qed.

Lemma AllCalls_lift P (r : result string A) : AllCalls P (lift r).
Proof. destruct r; constructor. Qed.

(** The rule of sequencing for return values: [Q] is what [m] returns when it
    does not throw, [E] what it throws. *)
Lemma AllRets_bind (Q : A → Prop) (E : exn → Prop)
    (Q' : result exn B → Prop) m (f : A → prog B) :
  AllRets (λ r, match r with Ok a => Q a | Err e => E e end) m →
  (∀ a, Q a → AllRets Q' (f a)) → (∀ e, E e → Q' (Err e)) →
  AllRets Q' (bind m f).
Proof.
  intros Hm Hf He. eapply AllRets_io_bind; [exact Hm|].
  intros [a|e] Hr; [by apply Hf|]. constructor. by apply He.
Qed.

Lemma ThrowsOnly_ret E (a : A) : ThrowsOnly E (ret a).
Proof. by constructor. Qed.

Lemma ThrowsOnly_throw_other E msg :
  ThrowsOnly E (@throw A (OtherError msg)).
Proof. by constructor. Qed.

Lemma ThrowsOnly_throw E c msg :
  E c msg → ThrowsOnly E (@throw A (McpError c msg)).
Proof. by constructor. Qed.

Lemma ThrowsOnly_lift E (r : result string A) : ThrowsOnly E (lift r).
Proof. destruct r; by constructor. Qed.

Lemma ThrowsOnly_Do E c (k : reply c → prog A) :
  (∀ r, ThrowsOnly E (k r)) → ThrowsOnly E (Do c k).
Proof. by constructor. Qed.

(** A host call followed by [lift]: the one call must satisfy [P]. *)
Lemma AllCalls_await P c (k : reply c → prog A) :
  P c → (∀ r, AllCalls P (k r)) → AllCalls P (Do c k).
Proof. by constructor. Qed.

Lemma ThrowsOnly_bind E m (f : A → prog B) :
  ThrowsOnly E m → (∀ a, ThrowsOnly E (f a)) → ThrowsOnly E (bind m f).
Proof.
  intros Hm Hf. eapply AllRets_io_bind; [exact Hm|].
  intros [a|e] He; [apply Hf|by constructor].
Qed.

(** A [catch] whose handler does not throw lets nothing through. *)
Lemma ThrowsOnly_catch E m (h : exn → prog A) :
  (∀ e, ThrowsOnly E (h e)) → ThrowsOnly E (catch m h).
Proof.
  intros Hh. unfold catch. induction m as [[a|e]|c k IH]; simpl.
  - by constructor.
  - apply Hh.
  - constructor. intros r. apply IH.
Qed.

End ProgRules.

(** The monad laws of [prog] used to simplify handlers. *)
Section Laws.
Context {A B C : Type}.

Lemma bind_ret (a : A) (f : A → prog B) : bind (ret a) f = f a.
Proof. done. Qed.

Lemma bind_throw e (f : A → prog B) : bind (throw e) f = throw e.
Proof. done. Qed.

Lemma catch_ret (a : A) h : catch (ret a) h = ret a.
Proof. done. Qed.

Lemma catch_throw e (h : exn → prog A) : catch (throw e) h = h e.
Proof. done. Qed.

Lemma run_io_bind {St} `{Host St} (t : io A) (f : A → io B) (s : St) :
  run (io_bind t f) s = run (f (run t s).1) (run t s).2.
Proof.
  revert s; induction t as [a|c k IH]; intros s; simpl; [done|].
  destruct (exec c s) as [r s']. apply IH.
Qed.

Lemma trace_io_bind {St} `{Host St} (t : io A) (f : A → io B) (s : St) :
  trace (io_bind t f) s = trace t s ++ trace (f (run t s).1) (run t s).2.
Proof.
  revert s; induction t as [a|c k IH]; intros s; simpl; [done|].
  destruct (exec c s) as [r s']. by rewrite IH.
Qed.

End Laws.

(** ** Runs on which the host cooperates *)

(** A reply that reports success: a promise that resolves, and for
    [existsSync] the answer that nothing is there. *)
Definition succeeds (c : call) : reply c → Prop :=
  match c with
  | ExistsSync _ => λ b, b = false
  | ReadFile _ | Readdir _ | Stat _ | Glob _ _ | WriteFile _ _ | Mkdir _
  | Rename _ _ => λ r, is_Ok r = true
  end.

(** [AllRetsIf R Q t]: on every path on which the replies satisfy [R], what
    [t] returns satisfies [Q]. *)
Inductive AllRetsIf {A} (R : ∀ c, reply c → Prop) (Q : A → Prop)
    : io A → Prop :=
| AllRetsIf_Ret a : Q a → AllRetsIf R Q (Ret a)
| AllRetsIf_Do c k :
    (∀ r, R c r → AllRetsIf R Q (k r)) → AllRetsIf R Q (Do c k).

(** [Yields R Q m]: on those paths [m] does not throw, and returns a value
    that satisfies [Q]. *)
Definition Yields {A} (R : ∀ c, reply c → Prop) (Q : A → Prop) (m : prog A)
    : Prop :=
  AllRetsIf R (λ r, ∃ a, r = Ok a ∧ Q a) m.

Section IfRules.
Context {A B : Type} (R : ∀ c, reply c → Prop).

Lemma AllRetsIf_io_bind (Q : A → Prop) (Q' : B → Prop) t (f : A → io B) :
  AllRetsIf R Q t → (∀ a, Q a → AllRetsIf R Q' (f a)) →
  AllRetsIf R Q' (io_bind t f).
Proof. intros Ht Hf. induction Ht; simpl; [auto|]. constructor; auto. Qed.

(** On a host whose every reply satisfies [R], a run returns what the
    cooperative paths return. *)
Lemma AllRetsIf_run {St} `{Host St} (Q : A → Prop) t (s : St) :
  (∀ c s, R c (exec c s).1) → AllRetsIf R Q t → Q (run t s).1.
Proof.
  intros HR Ht. revert s. induction Ht as [|c k _ IH]; intros s; simpl.
  - done.
  - specialize (HR c s). destruct (exec c s) as [r s']. by apply IH.
Qed.

End IfRules.

Section YieldRules.
Context {A B : Type} (R : ∀ c, reply c → Prop).

Lemma Yields_ret (Q : A → Prop) a : Q a → Yields R Q (ret a).
Proof. intros Ha. constructor. eauto. Qed.

Lemma Yields_bind (Q : A → Prop) (Q' : B → Prop) m (f : A → prog B) :
  Yields R Q m → (∀ a, Q a → Yields R Q' (f a)) → Yields R Q' (bind m f).
Proof.
  intros Hm Hf. eapply AllRetsIf_io_bind; [exact Hm|].
  intros r (a & -> & Ha). by apply Hf.
Qed.

Lemma Yields_mono (Q Q' : A → Prop) m :
  (∀ a, Q a → Q' a) → Yields R Q m → Yields R Q' m.
Proof.
  intros HQ. induction 1 as [r (a & -> & Ha)|]; constructor; eauto.
Qed.

(** A [try] whose body does not throw returns what the body returns. *)
Lemma Yields_catch (Q : A → Prop) m (h : exn → prog A) :
  Yields R Q m → Yields R Q (catch m h).
Proof.
  intros Hm. eapply AllRetsIf_io_bind; [exact Hm|].
  intros r (a & -> & Ha). by apply Yields_ret.
Qed.

End YieldRules.

(** An awaited call yields on the paths on which it succeeds. *)
Lemma Yields_await {A} c (k : reply c → prog A) (Q : A → Prop) :
  (∀ r, succeeds c r → Yields succeeds Q (k r)) → Yields succeeds Q (Do c k).
Proof. by constructor. Qed.

Lemma Yields_lift {A} (r : result string A) :
  is_Ok r = true → Yields succeeds (λ _, True) (lift r).
Proof. destruct r; [|done]. intros _. by apply Yields_ret. Qed.

#[export] Hint Resolve AllCalls_ret AllCalls_throw AllCalls_lift : fsguard.
#[export] Hint Constructors AllCalls : fsguard.
(* end of Host *)
