(* ===== verification/Pool.v ===== *)
(** * Handlers in flight: the interleaving of requests

    The handlers of the server are [async] functions: at every [await] of a
    host call a handler gives way, and the event loop resumes whichever
    pending handler has its reply.  Several requests are therefore served
    at once, their host calls interleaved in any order.

    This file gives that semantics for the programs of [Host.v], over any
    host.  A configuration is the list of the handlers in flight and the
    state of the host; a [step] executes the next call of one of them.  A
    host call is atomic: its effect on the state happens in one step.

    - [step], [steps]: the step relation, labelled with the call made, and
      its sequences.
    - [resume], [schedule]: the same as functions of a schedule, the list
      of the handlers picked in turn; [schedule_steps] and [steps_schedule]
      show that the two agree.
    - [steps_run]: serving one request to its end, as [run] does, is one
      of the interleavings.
    - [steps_AllCalls], [steps_rel], [steps_invariant], [steps_AllRets]:
      what holds of every call, of the state and of every answer carries
      over from the handlers to every interleaving.
    - [step_sn], [steps_finish]: no interleaving goes on for ever, and
      every configuration can be brought to an end.
    - [indep], [apart], [steps_runAll]: handlers whose calls commute with
      the calls of the others are served by every interleaving as by
      [runAll], one after the other. *)

From Stdlib Require Import List Lia.
From stdpp Require Import base tactics option list.
From S2P Require Import Prelude Host.

Section Pool.
Context {St : Type} `{Host St} {A : Type}.
Implicit Types (t : io A) (ts : list (io A)) (s : St) (c : call)
  (cs : list call) (cfg : list (io A) * St) (i : nat) (sched : list nat).

(** One turn of the event loop: the call a pending handler waits for is
    executed, and the handler goes on with the reply. *)
Inductive step : list (io A) * St → call → list (io A) * St → Prop :=
| step_call ts1 c k ts2 s :
    step (ts1 ++ Do c k :: ts2, s) c
         (ts1 ++ k (exec c s).1 :: ts2, (exec c s).2).

(** Turns in sequence, with the calls made. *)
Inductive steps
    : list (io A) * St → list call → list (io A) * St → Prop :=
| steps_refl cfg : steps cfg [] cfg
| steps_l cfg1 c cfg2 cs cfg3 :
    step cfg1 c cfg2 → steps cfg2 cs cfg3 → steps cfg1 (c :: cs) cfg3.

(** The handler [i] takes its turn, if it waits for a call. *)
Definition resume i cfg : option (call * (list (io A) * St)) :=
  match cfg.1 !! i with
  | Some (Do c k) =>
      Some (c, (<[i := k (exec c cfg.2).1]> cfg.1, (exec c cfg.2).2))
  | _ => None
  end.

(** The handlers of [sched] take their turns in order; a handler that has
    returned, or is not there, is passed over. *)
Fixpoint schedule sched cfg : list call * (list (io A) * St) :=
  match sched with
  | [] => ([], cfg)
  | i :: sched' =>
      match resume i cfg with
      | Some (c, cfg') =>
          let '(cs, cfg'') := schedule sched' cfg' in (c :: cs, cfg'')
      | None => schedule sched' cfg
      end
  end.

(** A handler that has returned. *)
Definition settled t : bool :=
  match t with Ret _ => true | Do _ _ => false end.

Definition finished ts : bool := forallb settled ts.

(** The answers of the handlers that have returned. *)
Definition results ts : list A :=
  omap (λ t, match t with Ret a => Some a | Do _ _ => None end) ts.

(** How a handler goes on, whatever the reply. *)
Definition next t t' : Prop :=
  match t with Ret _ => False | Do c k => ∃ r, t' = k r end.

(** The handlers after a turn, whatever the state of the host. *)
Definition resumes ts ts' : Prop :=
  ∃ ts1 t t' ts2, ts = ts1 ++ t :: ts2 ∧ ts' = ts1 ++ t' :: ts2 ∧ next t t'.

(** ** The relation and the schedules *)

Lemma steps_once cfg c cfg' : step cfg c cfg' → steps cfg [c] cfg'.
Proof. eauto using steps. Qed.

Lemma steps_app cfg1 cs cfg2 cs' cfg3 :
  steps cfg1 cs cfg2 → steps cfg2 cs' cfg3 → steps cfg1 (cs ++ cs') cfg3.
Proof. induction 1; simpl; eauto using steps. Qed.

Lemma steps_r cfg1 cs cfg2 c cfg3 :
  steps cfg1 cs cfg2 → step cfg2 c cfg3 → steps cfg1 (cs ++ [c]) cfg3.
Proof. eauto using steps_app, steps_once. Qed.

Lemma step_state cfg c cfg' : step cfg c cfg' → cfg'.2 = (exec c cfg.2).2.
Proof. by destruct 1. Qed.

Lemma step_resumes cfg c cfg' : step cfg c cfg' → resumes cfg.1 cfg'.1.
Proof.
  destruct 1 as [ts1 c k ts2 s].
  exists ts1, (Do c k), (k (exec c s).1), ts2. simpl. eauto.
Qed.

Lemma step_length cfg c cfg' : step cfg c cfg' → length cfg'.1 = length cfg.1.
Proof. destruct 1. simpl. by rewrite !length_app. Qed.

(** A turn is the turn of some handler. *)
Lemma step_resume cfg c cfg' :
  step cfg c cfg' ↔ ∃ i, resume i cfg = Some (c, cfg').
Proof.
  split.
  - destruct 1 as [ts1 c k ts2 s]. exists (length ts1). unfold resume. simpl.
    rewrite list_lookup_middle by done.
    by rewrite <-(Nat.add_0_r (length ts1)), insert_app_r.
  - intros [i Hi]. destruct cfg as [ts s]. unfold resume in Hi. simpl in Hi.
    destruct (ts !! i) as [[a|c' k]|] eqn:Hl; simplify_eq.
    rewrite insert_take_drop by eauto using lookup_lt_Some.
    rewrite <-(take_drop_middle ts i (Do c k)) at 1 by done. constructor.
Qed.

(** Every schedule is a sequence of turns. *)
Lemma schedule_steps sched cfg :
  steps cfg (schedule sched cfg).1 (schedule sched cfg).2.
Proof.
  revert cfg; induction sched as [|i sched IH]; intros cfg; simpl;
    [constructor|].
  destruct (resume i cfg) as [[c cfg']|] eqn:Hi; [|done].
  specialize (IH cfg'). destruct (schedule sched cfg') as [cs cfg''].
  econstructor; [|done]. apply step_resume. eauto.
Qed.

(** Every sequence of turns is a schedule. *)
Lemma steps_schedule cfg cs cfg' :
  steps cfg cs cfg' → ∃ sched, schedule sched cfg = (cs, cfg').
Proof.
  induction 1 as [cfg|cfg1 c cfg2 cs cfg3 Hstep _ [sched IH]];
    [by exists []|].
  apply step_resume in Hstep as [i Hi]. exists (i :: sched). simpl.
  by rewrite Hi, IH.
Qed.

(** ** One request at a time *)

(** Serving a handler to its end is a sequence of turns, all its own. *)
Lemma steps_run ts1 t ts2 s :
  steps (ts1 ++ t :: ts2, s) (trace t s)
        (ts1 ++ Ret (run t s).1 :: ts2, (run t s).2).
Proof.
  revert s; induction t as [a|c k IH]; intros s; simpl; [constructor|].
  pose proof (step_call ts1 c k ts2 s) as Hstep.
  destruct (exec c s) as [r s']. by econstructor.
Qed.

(** ** What carries over to every interleaving *)

Lemma AllCalls_Do_inv (P : call → Prop) c (k : reply c → io A) :
  AllCalls P (Do c k) → P c ∧ ∀ r, AllCalls P (k r).
Proof.
  intros Ht.
  refine (match Ht in AllCalls _ t
                return match t with
                       | Do c k => P c ∧ ∀ r, AllCalls P (k r)
                       | Ret _ => True
                       end
          with
          | AllCalls_Ret _ _ => I
          | AllCalls_Do _ _ _ Hc Hk => conj Hc Hk
          end).
Qed.

Lemma AllRets_Do_inv (Q : A → Prop) c (k : reply c → io A) :
  AllRets Q (Do c k) → ∀ r, AllRets Q (k r).
Proof.
  intros Ht.
  refine (match Ht in AllRets _ t
                return match t with
                       | Do c k => ∀ r, AllRets Q (k r)
                       | Ret _ => True
                       end
          with
          | AllRets_Ret _ _ _ => I
          | AllRets_Do _ _ _ Hk => Hk
          end).
Qed.

Lemma step_AllCalls (P : call → Prop) cfg c cfg' :
  Forall (AllCalls P) cfg.1 → step cfg c cfg' →
  P c ∧ Forall (AllCalls P) cfg'.1.
Proof.
  intros Hts Hstep. destruct Hstep as [ts1 c k ts2 s]. simpl in *.
  apply Forall_app in Hts as [H1 [Ht H2]%Forall_cons].
  apply AllCalls_Do_inv in Ht as [Hc Hk].
  split; [done|]. apply Forall_app. split; [done|]. by constructor.
Qed.

(** The calls of every interleaving are calls the handlers can make. *)
Lemma steps_AllCalls (P : call → Prop) cfg cs cfg' :
  Forall (AllCalls P) cfg.1 → steps cfg cs cfg' →
  Forall P cs ∧ Forall (AllCalls P) cfg'.1.
Proof.
  intros Hts Hsteps. induction Hsteps as [|cfg1 c cfg2 cs cfg3 Hstep _ IH];
    [by split|].
  destruct (step_AllCalls P _ _ _ Hts Hstep) as [Hc Hts'].
  destruct (IH Hts'). split; [by constructor|done].
Qed.

(** A relation between states that the calls of a kind respect relates the
    state before to the state after every interleaving of handlers that
    make only such calls. *)
Lemma steps_rel (P : call → Prop) (R : St → St → Prop) cfg cs cfg' :
  Reflexive R → Transitive R →
  (∀ c s, P c → R s (exec c s).2) →
  Forall (AllCalls P) cfg.1 → steps cfg cs cfg' → R cfg.2 cfg'.2.
Proof.
  intros Hrefl Htrans Hexec Hts Hsteps.
  induction Hsteps as [|cfg1 c cfg2 cs cfg3 Hstep _ IH]; [done|].
  destruct (step_AllCalls P _ _ _ Hts Hstep) as [Hc Hts'].
  etrans; [|by apply IH]. rewrite (step_state _ _ _ Hstep). by apply Hexec.
Qed.

(** A property of the state that every call keeps holds after every
    interleaving. *)
Lemma steps_invariant (Inv : St → Prop) cfg cs cfg' :
  (∀ c s, Inv s → Inv (exec c s).2) →
  Inv cfg.2 → steps cfg cs cfg' → Inv cfg'.2.
Proof.
  intros Hexec Hs Hsteps. induction Hsteps as [|???? ? Hstep _ IH]; [done|].
  apply IH. rewrite (step_state _ _ _ Hstep). by apply Hexec.
Qed.

Lemma step_AllRets (Q : A → Prop) cfg c cfg' :
  Forall (AllRets Q) cfg.1 → step cfg c cfg' → Forall (AllRets Q) cfg'.1.
Proof.
  intros Hts Hstep. destruct Hstep as [ts1 c k ts2 s]. simpl in *.
  apply Forall_app in Hts as [H1 [Ht H2]%Forall_cons].
  pose proof (AllRets_Do_inv _ _ _ Ht) as Hk.
  apply Forall_app. split; [done|]. by constructor.
Qed.

Lemma Forall_results (Q : A → Prop) ts :
  Forall (AllRets Q) ts → Forall Q (results ts).
Proof.
  induction 1 as [|t ts Ht _ IH]; [constructor|].
  unfold results. destruct Ht; simpl; [by constructor|done].
Qed.

(** What every handler answers whatever the host replies, it answers in
    every interleaving. *)
Lemma steps_AllRets (Q : A → Prop) cfg cs cfg' :
  Forall (AllRets Q) cfg.1 → steps cfg cs cfg' → Forall Q (results cfg'.1).
Proof.
  intros Hts Hsteps. apply Forall_results.
  induction Hsteps; eauto using step_AllRets.
Qed.

Lemma steps_length cfg cs cfg' :
  steps cfg cs cfg' → length cfg'.1 = length cfg.1.
Proof.
  induction 1 as [|???? ? Hstep _ IH]; [done|].
  by rewrite IH, (step_length _ _ _ Hstep).
Qed.

(** ** Readers do not disturb each other *)

(** On a host whose reads change nothing, handlers that only read go
    through every interleaving in the state they started in, and each
    still has the answer it would give alone. *)
Lemma step_readonly cfg c cfg' :
  (exec c cfg.2).2 = cfg.2 → step cfg c cfg' →
  cfg'.2 = cfg.2 ∧
  map (λ t, (run t cfg.2).1) cfg'.1 = map (λ t, (run t cfg.2).1) cfg.1.
Proof.
  intros Hro Hstep. destruct Hstep as [ts1 c k ts2 s]. simpl in *.
  split; [done|]. rewrite !map_app. simpl.
  destruct (exec c s) as [r s1]. simpl in *. by subst s1.
Qed.

Lemma steps_readonly cfg cs cfg' :
  (∀ c s, is_write c = false → (exec c s).2 = s) →
  Forall (AllCalls (λ c, is_write c = false)) cfg.1 →
  steps cfg cs cfg' →
  cfg'.2 = cfg.2 ∧
  map (λ t, (run t cfg.2).1) cfg'.1 = map (λ t, (run t cfg.2).1) cfg.1.
Proof.
  intros Hro Hts Hsteps.
  induction Hsteps as [cfg|cfg1 c cfg2 cs cfg3 Hstep _ IH]; [done|].
  destruct (step_AllCalls _ _ _ _ Hts Hstep) as [Hc Hts'].
  destruct (step_readonly _ _ _ (Hro c _ Hc) Hstep) as [E2 Em2].
  destruct (IH Hts') as [E3 Em3]. rewrite E2 in *. split; congruence.
Qed.

(** At the end the answers are those of the handlers run alone. *)
Lemma finished_run ts s :
  finished ts = true → map (λ t, (run t s).1) ts = results ts.
Proof.
  induction ts as [|[a|c k] ts IH]; simpl; [done| |done].
  intros Hts. unfold results in *. simpl. by rewrite IH.
Qed.

(** ** The end of every interleaving *)

Lemma finished_results ts : finished ts = true → length (results ts) = length ts.
Proof.
  induction ts as [|[a|c k] ts IH]; simpl; [done| |done].
  intros Hts. unfold results in *. simpl. by rewrite IH.
Qed.

Lemma finished_map_Ret (rs : list A) : finished (map Ret rs) = true.
Proof. by induction rs. Qed.

(** When every handler has returned no turn is left. *)
Lemma finished_stuck ts s c cfg' : finished ts = true → ¬ step (ts, s) c cfg'.
Proof.
  intros Hts Hstep. inversion Hstep as [ts1 c' k ts2 s' Hcfg]; subst.
  unfold finished in Hts. rewrite forallb_app in Hts.
  by apply andb_true_iff in Hts as [_ Hts].
Qed.

(** Until then there is one. *)
Lemma pending_step ts s :
  finished ts = false → ∃ c cfg', step (ts, s) c cfg'.
Proof.
  induction ts as [|[a|c k] ts IH]; simpl; [done| |].
  - intros (c & cfg' & Hstep)%IH.
    inversion Hstep as [ts1 c' k ts2 s' E]; subst.
    exists c. eexists. apply (step_call (Ret a :: ts1)).
  - intros _. exists c. eexists. apply (step_call [] c k ts s).
Qed.

(** An interleaving that cannot go on has served every handler. *)
Lemma stuck_finished ts s :
  (∀ c cfg', ¬ step (ts, s) c cfg') → finished ts = true.
Proof.
  intros Hstuck. destruct (finished ts) eqn:E; [done|].
  apply (pending_step _ s) in E as (c & cfg' & Hstep).
  by destruct (Hstuck c cfg').
Qed.

Lemma resumes_cons t ts ts' :
  resumes (t :: ts) ts' →
  (∃ t', ts' = t' :: ts ∧ next t t') ∨
  (∃ ts'', ts' = t :: ts'' ∧ resumes ts ts'').
Proof.
  intros ([|t0 ts1] & u & u' & ts2 & E & -> & Hn); simplify_eq/=.
  - left. eauto.
  - right. eexists. split; [done|]. by eexists _, _, _, _.
Qed.

Lemma resumes_acc_cons t ts :
  Acc (flip resumes) ts → Acc (flip resumes) (t :: ts).
Proof.
  revert ts. induction t as [a|c k IHt]; intros ts Hts;
    induction Hts as [ts Hts IH]; constructor;
    intros ts' [(t' & -> & Hn)|(ts'' & -> & Hr)]%resumes_cons.
  - destruct Hn.
  - apply IH, Hr.
  - destruct Hn as [r ->]. apply IHt. exact (Acc_intro _ Hts).
  - apply IH, Hr.
Qed.

(** The handlers in flight cannot go on for ever. *)
Lemma resumes_sn ts : Acc (flip resumes) ts.
Proof.
  induction ts as [|t ts IH]; [|by apply resumes_acc_cons].
  constructor. intros ts' ([|??] & ? & ? & ? & ? & _); simplify_eq.
Qed.

(** No interleaving goes on for ever. *)
Lemma step_sn cfg : Acc (λ cfg2 cfg1, ∃ c, step cfg1 c cfg2) cfg.
Proof.
  destruct cfg as [ts s]. revert s.
  induction (resumes_sn ts) as [ts _ IH]. intros s. constructor.
  intros [ts' s'] [c Hstep]. apply IH. apply (step_resumes _ _ _ Hstep).
Qed.

(** Every configuration can be brought to its end: one handler after the
    other. *)
Lemma steps_finish ts s :
  ∃ cs cfg', steps (ts, s) cs cfg' ∧ finished cfg'.1 = true.
Proof.
  assert (∀ served, finished served = true →
    ∃ cs cfg', steps (served ++ ts, s) cs cfg' ∧ finished cfg'.1 = true)
    as Hgen; [|apply (Hgen [] eq_refl)].
  revert s; induction ts as [|t ts IH]; intros s served Hserved.
  { exists [], (served, s). rewrite app_nil_r. split; [constructor|done]. }
  destruct (IH (run t s).2 (served ++ [Ret (run t s).1]))
    as (cs & cfg' & Hsteps & Hfin).
  { unfold finished in *. rewrite forallb_app. simpl. by rewrite Hserved. }
  rewrite <-app_assoc in Hsteps. eexists _, cfg'. split; [|done].
  eapply steps_app; [apply steps_run|done].
Qed.

End Pool.

(** ** Handlers that do not see each other

    Two calls are independent when, in the states of an invariant, each
    replies the same before and after the other and the two orders leave
    the same state.  Handlers all of whose calls are independent of the
    calls of the others are served by every interleaving as they are
    served one after the other. *)

Section Commute.
Context {St : Type} `{Host St} {A : Type}.
Context (Inv : St → Prop).
Implicit Types (t : io A) (ts : list (io A)) (s : St) (c : call).

(** The handlers one after the other, each to its end. *)
Fixpoint runAll ts s : list A * St :=
  match ts with
  | [] => ([], s)
  | t :: ts' =>
      let '(a, s') := run t s in
      let '(rs, s'') := runAll ts' s' in (a :: rs, s'')
  end.

(** Two calls that do not see each other: in a state of [Inv] each replies
    the same before and after the other, and the two orders leave the
    same state. *)
Definition indep c1 c2 : Prop :=
  ∀ s, Inv s →
    (exec c1 (exec c2 s).2).1 = (exec c1 s).1 ∧
    (exec c2 (exec c1 s).2).1 = (exec c2 s).1 ∧
    (exec c1 (exec c2 s).2).2 = (exec c2 (exec c1 s).2).2.

(** The calls of a handler keep [Inv]. *)
Definition keepsInv t : Prop :=
  AllCalls (λ c, ∀ s, Inv s → Inv (exec c s).2) t.

(** Two handlers no call of which sees a call of the other. *)
Definition apart t1 t2 : Prop :=
  AllCalls (λ c1, AllCalls (λ c2, indep c1 c2) t2) t1.

Fixpoint allApart ts : Prop :=
  match ts with
  | [] => True
  | t :: ts' => Forall (apart t) ts' ∧ allApart ts'
  end.

Lemma runAll_app ts1 ts2 s :
  runAll (ts1 ++ ts2) s =
  ((runAll ts1 s).1 ++ (runAll ts2 (runAll ts1 s).2).1,
   (runAll ts2 (runAll ts1 s).2).2).
Proof.
  revert s; induction ts1 as [|t ts1 IH]; intros s; simpl.
  - by destruct (runAll ts2 s).
  - destruct (run t s) as [a s']. rewrite IH.
    by destruct (runAll ts1 s') as [rs s''].
Qed.

Lemma run_keepsInv t s : keepsInv t → Inv s → Inv (run t s).2.
Proof.
  intros Ht. revert s. induction Ht as [a|c k Hc _ IH]; intros s Hs; [done|].
  simpl. specialize (Hc s Hs). destruct (exec c s) as [r s']. by apply IH.
Qed.

(** A call moves over a handler it is independent of. *)
Lemma run_commute t c s :
  AllCalls (λ c1, indep c1 c) t → keepsInv t → Inv s →
  run t (exec c s).2 = ((run t s).1, (exec c (run t s).2).2) ∧
  (exec c (run t s).2).1 = (exec c s).1.
Proof.
  intros Ht. revert s.
  induction Ht as [a|c1 k Hc _ IH]; intros s Hk Hs; [done|].
  apply AllCalls_Do_inv in Hk as [Hc1 Hk].
  destruct (Hc s Hs) as (E1 & E2 & E3). simpl.
  destruct (exec c1 (exec c s).2) as [r1 s1] eqn:E. simpl in *. subst r1 s1.
  specialize (Hc1 s Hs). destruct (exec c1 s) as [r s']. simpl in *.
  destruct (IH r s' (Hk r) Hc1) as [-> ->]. by rewrite E2.
Qed.

Lemma runAll_keepsInv ts s : Forall keepsInv ts → Inv s → Inv (runAll ts s).2.
Proof.
  intros Hts. revert s. induction Hts as [|t ts Ht _ IH]; intros s Hs; [done|].
  simpl. pose proof (run_keepsInv t s Ht Hs) as Hs'.
  destruct (run t s) as [a s']. specialize (IH s' Hs').
  by destruct (runAll ts s').
Qed.

Lemma runAll_commute ts c s :
  Forall (AllCalls (λ c1, indep c1 c)) ts → Forall keepsInv ts → Inv s →
  runAll ts (exec c s).2 = ((runAll ts s).1, (exec c (runAll ts s).2).2) ∧
  (exec c (runAll ts s).2).1 = (exec c s).1.
Proof.
  intros Hts. revert s.
  induction Hts as [|t ts Ht _ IH]; intros s Hk Hs; [done|].
  apply Forall_cons in Hk as [Hk Hks]. simpl.
  destruct (run_commute t c s Ht Hk Hs) as [-> E].
  pose proof (run_keepsInv t s Hk Hs) as Hs'.
  destruct (run t s) as [a s']. simpl in *.
  destruct (IH s' Hks Hs') as [-> E'].
  destruct (runAll ts s') as [rs s'']. simpl in *. split; [done|congruence].
Qed.

Lemma runAll_finished ts s : finished ts = true → runAll ts s = (results ts, s).
Proof.
  revert s; induction ts as [|[a|c k] ts IH]; intros s; simpl; [done| |done].
  intros Hts. by rewrite (IH _ Hts).
Qed.

Lemma apart_Do_l c k r t : apart (Do c k) t → apart (k r) t.
Proof. intros [_ Hk]%AllCalls_Do_inv. apply Hk. Qed.

Lemma apart_Do_r c k r t :
  apart t (Do c k) → apart t (k r) ∧ AllCalls (λ c1, indep c1 c) t.
Proof.
  intros Ht. split; (eapply AllCalls_mono; [|exact Ht]);
    by intros c1 [? ?]%AllCalls_Do_inv.
Qed.

(** A turn keeps the handlers apart; the handlers before the one that took
    it are independent of the call made. *)
Lemma allApart_step ts1 c k ts2 r :
  allApart (ts1 ++ Do c k :: ts2) →
  allApart (ts1 ++ k r :: ts2) ∧ Forall (AllCalls (λ c1, indep c1 c)) ts1.
Proof.
  induction ts1 as [|t ts1 IH]; simpl.
  - intros [Hk Hts]. repeat split; [|done..].
    eapply Forall_impl; [exact Hk|]. intros t. apply apart_Do_l.
  - intros [Ht Hts]. destruct (IH Hts) as [IH1 IH2].
    apply Forall_app in Ht as [Ht1 [Ht Ht2]%Forall_cons].
    apply (apart_Do_r c k r) in Ht as [Ht Hc].
    repeat split; [|done|by constructor].
    apply Forall_app. split; [done|by constructor].
Qed.

(** A turn of one handler, then all handlers in order, is all handlers in
    order. *)
Lemma runAll_step ts1 c k ts2 s :
  Forall (AllCalls (λ c1, indep c1 c)) ts1 → Forall keepsInv ts1 → Inv s →
  runAll (ts1 ++ k (exec c s).1 :: ts2) (exec c s).2 =
  runAll (ts1 ++ Do c k :: ts2) s.
Proof.
  intros Hc Hk Hs. rewrite !runAll_app.
  destruct (runAll_commute ts1 c s Hc Hk Hs) as [-> E].
  cbn [runAll run fst snd]. rewrite <-E.
  by destruct (exec c (runAll ts1 s).2) as [r s'].
Qed.

(** Handlers that are apart are served by every interleaving as they are
    served in order. *)
Lemma steps_runAll ts s cs cfg :
  allApart ts → Forall keepsInv ts → Inv s →
  steps (ts, s) cs cfg → finished cfg.1 = true →
  (results cfg.1, cfg.2) = runAll ts s.
Proof.
  intros Ha Hk Hs Hsteps. remember (ts, s) as cfg1 eqn:E.
  revert ts s Ha Hk Hs E.
  induction Hsteps as [cfg|cfg1 c cfg2 cs cfg3 Hstep _ IH];
    intros ts s Ha Hk Hs -> Hfin.
  { by rewrite runAll_finished. }
  inversion Hstep as [ts1 c' k ts2 s' E1 E2 E3]; subst.
  apply allApart_step with (r := (exec c s).1) in Ha as [Ha Hc].
  apply Forall_app in Hk as [Hk1 [[Hinv Hk]%AllCalls_Do_inv Hk2]%Forall_cons].
  assert (Forall keepsInv (ts1 ++ k (exec c s).1 :: ts2)) as Hk'.
  { apply Forall_app. split; [done|]. constructor; [apply Hk|done]. }
  rewrite (IH _ _ Ha Hk' (Hinv s Hs) eq_refl Hfin). by apply runAll_step.
Qed.

End Commute.
(* end of Pool *)
