(* ===== verification/FlatHost.v ===== *)
(** * A host for examples

    The theorems on runs hold for every host.  To apply them to concrete
    requests a host is needed: [flatHost] is the smallest one that answers
    every call, a store of file contents by path.  It has no directories:
    [mkdir] succeeds and changes nothing, a directory lists as empty, a glob
    matches nothing.  It is a means of running examples, not a model of the
    operating system's file system. *)

From Stdlib Require Import Ascii String List Lia NArith.
From stdpp Require Import base tactics option list strings.
From S2P Require Import Prelude JsString Host.

Definition store : Type := list (string * string).

Fixpoint fileAt (p : string) (s : store) : option string :=
  match s with
  | [] => None
  | (q, content) :: rest => if String.eqb q p then Some content else fileAt p rest
  end.

Definition without (p : string) (s : store) : store :=
  List.filter (λ entry, negb (String.eqb entry.1 p)) s.

Definition put (p content : string) (s : store) : store :=
  (p, content) :: without p s.

Definition noEntry (syscall p : string) : string :=
  "ENOENT: no such file or directory, " +:+ syscall +:+ " '" +:+ p +:+ "'".

Definition fileStats (content : string) : stats :=
  {| st_size := N.of_nat (String.length content);
     st_isDirectory := false;
     st_isFile := true;
     st_birthtime := "1970-01-01T00:00:00.000Z";
     st_mtime := "1970-01-01T00:00:00.000Z";
     st_atime := "1970-01-01T00:00:00.000Z";
     st_mode := 33188 |}.

Definition flatExec (c : call) (s : store) : reply c * store :=
  match c as c' return reply c' * store with
  | ReadFile p =>
      (match fileAt p s with
       | Some content => Ok content
       | None => Err (noEntry "open" p)
       end, s)
  | WriteFile p content => (Ok (), put p content s)
  | Mkdir _ => (Ok (), s)
  | Readdir _ => (Ok [], s)
  | Rename source destination =>
      match fileAt source s with
      | Some content => (Ok (), put destination content (without source s))
      | None => (Err (noEntry "rename" source), s)
      end
  | Stat p =>
      (match fileAt p s with
       | Some content => Ok (fileStats content)
       | None => Err (noEntry "stat" p)
       end, s)
  | ExistsSync p => (bool_decide (is_Some (fileAt p s)), s)
  | Glob _ _ => (Ok [], s)
  end.

#[export] Instance flatHost : Host store := flatExec.

Lemma fileAt_put p content s : fileAt p (put p content s) = Some content.
Proof. unfold put. simpl. by rewrite String.eqb_refl. Qed.

Lemma fileAt_without p q s : p ≠ q → fileAt p (without q s) = fileAt p s.
Proof.
  intros Hne. induction s as [|[r c] s IH]; simpl; [done|].
  destruct (String.eqb_spec r q) as [->|Hrq]; simpl.
  - by rewrite (proj2 (String.eqb_neq q p)).
  - by rewrite IH.
Qed.

Lemma fileAt_put_ne p q content s :
  p ≠ q → fileAt p (put q content s) = fileAt p s.
Proof.
  intros Hne. unfold put. simpl.
  rewrite (proj2 (String.eqb_neq q p)) by done. by apply fileAt_without.
Qed.

(** On the flat host a call that does not write leaves the store as it is. *)
Lemma flatExec_readonly c s : is_write c = false → (exec c s).2 = s.
Proof. by destruct c. Qed.
(* end of FlatHost *)
