(* ===== verification/Server.v ===== *)
(** * Operation Dispatcher ([index.ts] lines 306-587)

    The handler of [CallToolRequestSchema]: a [switch] on the tool's name
    inside a [try] whose [catch] rethrows an [McpError] and turns any other
    error into a result marked [isError].  Each [case] is one definition
    ([read_file], [write_file], ...), written as a [prog] that makes the host
    calls of the source in the source's order; [dispatch] is the [switch] and
    [callTool] the handler with its [catch].

    The arguments of a request are a record of optional fields: a field the
    client left out reads as [undefined] in the source, and what the source
    then does (a [TypeError] from [path.resolve], from destructuring or from
    iterating, caught as an ordinary error) is part of the model. *)

From Stdlib Require Import Ascii String List Lia.
From stdpp Require Import base tactics option list strings.
From S2P Require Import Prelude JsString NodePath PathGuard Diff Edit Json Host.

(** ** Requests and responses *)

(** [request.params.arguments], as far as the handlers read it. *)
Record args : Type := Args {
  arg_path : option string;
  arg_paths : option (list string);
  arg_content : option string;
  arg_edits : option (list edit);
  arg_dryRun : option bool;
  arg_source : option string;
  arg_destination : option string;
  arg_pattern : option string;
  arg_excludePatterns : option (list string)
}.

Definition noArgs : args := Args None None None None None None None None None.

(** [request.params]: [{ name, arguments }]. *)
Record request : Type := Request {
  name : string;
  arguments : option args
}.

(** What a handler returns: [{ content: [{ type: "text", text }] }], with
    [isError: true] when the [catch] built it. *)
Record toolResult : Type := ToolResult { text : string; isError : bool }.

(** What the client gets: a result, or the [McpError] the handler threw. *)
Inductive response : Type :=
| Returned (r : toolResult)
| Thrown (code : errorCode) (message : string).

#[export] Instance toolResult_eq_dec : EqDecision toolResult.
Proof. solve_decision. Defined.
#[export] Instance response_eq_dec : EqDecision response.
Proof. solve_decision. Defined.

(** An element of [results] in [read_multiple_files]:
    [{ path, content }] or [{ path, error }]. *)
Inductive fileResult : Type :=
| FileContent (path content : string)
| FileError (path error : string).

(** ** The errors JavaScript raises on a missing argument *)

Definition dq : string := String "034" "".

(** [path.resolve(undefined)] *)
Definition resolveTypeError : string :=
  "The " +:+ dq +:+ "paths[0]" +:+ dq +:+
  " argument must be of type string. Received undefined".

(** [fs.writeFile(path, undefined)] *)
Definition dataTypeError : string :=
  "The " +:+ dq +:+ "data" +:+ dq +:+
  " argument must be of type string or an instance of Buffer, " +:+
  "TypedArray, or DataView. Received undefined".

(** [for (const x of undefined)] *)
Definition notIterable (what : string) : string := what +:+ " is not iterable".

(** [const { prop } = undefined] *)
Definition destructureTypeError (prop : string) : string :=
  "Cannot destructure property '" +:+ prop +:+
  "' of 'args' as it is undefined.".

(** [(error as Error).message] *)
Definition exn_message (e : exn) : string :=
  match e with McpError _ m => m | OtherError m => m end.

(** ** JSON payloads *)

Definition editResult_json (r : editResult) : json :=
  match r with
  | NoMatch o m =>
      JObj [("match", JBool false); ("oldText", JStr o); ("message", JStr m)]
  | Match o n =>
      JObj [("match", JBool true); ("oldText", JStr o); ("newText", JStr n)]
  end.

Definition fileResult_json (r : fileResult) : json :=
  match r with
  | FileContent p c => JObj [("path", JStr p); ("content", JStr c)]
  | FileError p e => JObj [("path", JStr p); ("error", JStr e)]
  end.

(** ** The handlers *)

Section Handlers.
Context `{JsonText}.
Context (allowedDirectories : list string) (cwd : string).

Local Open Scope prog_scope.

(** [{ content: [{ type: "text", text }] }] *)
Definition textResult (text : string) : prog string := ret text.

(** A [case] starts by destructuring [args]. *)
Definition withArgs {A} (prop : string) (a : option args)
    (body : args → prog A) : prog A :=
  match a with
  | None => throw (OtherError (destructureTypeError prop))
  | Some a => body a
  end.

(** [if (!isPathAllowed(p)) throw new McpError(PermissionDenied, ...)], for
    a [p] that may be [undefined]. *)
Definition checkPath (p : option string) : prog string :=
  match p with
  | None => throw (OtherError resolveTypeError)
  | Some filePath =>
      if negb (isPathAllowed allowedDirectories cwd filePath) then
        throw (McpError PermissionDenied
                 ("Access to " +:+ filePath +:+ " is not allowed"))
      else ret filePath
  end.

(** [case "read_file"] (lines 311-326) *)
Definition read_file (a : option args) : prog string :=
  withArgs "path" a (λ a,
    filePath <- checkPath (arg_path a) ;;
    content <- readFile filePath ;;
    textResult content).

(** The body of the loop of [read_multiple_files] (lines 332-350). *)
Definition readOne (results : list fileResult) (filePath : string)
    : prog (list fileResult) :=
  if negb (isPathAllowed allowedDirectories cwd filePath) then
    ret (results ++
      [FileError filePath ("Access to " +:+ filePath +:+ " is not allowed")])
  else
    catch
      (content <- readFile filePath ;;
       ret (results ++ [FileContent filePath content]))
      (λ error,
       ret (results ++
         [FileError filePath ("Error reading file: " +:+ exn_message error)])).

(** [for (const x of l) { state = body(state, x) }] *)
Fixpoint forEach {A St} (body : St → A → prog St) (l : list A) (s : St)
    : prog St :=
  match l with
  | [] => ret s
  | x :: l' => s' <- body s x ;; forEach body l' s'
  end.

(** [case "read_multiple_files"] (lines 328-358) *)
Definition read_multiple_files (a : option args) : prog string :=
  withArgs "paths" a (λ a,
    match arg_paths a with
    | None => throw (OtherError (notIterable "paths"))
    | Some paths =>
        results <- forEach readOne paths [] ;;
        textResult (stringify (JArr (map fileResult_json results)))
    end).

(** [case "write_file"] (lines 360-379) *)
Definition write_file (a : option args) : prog string :=
  withArgs "path" a (λ a,
    filePath <- checkPath (arg_path a) ;;
    let dirPath := dirname filePath in
    mkdir dirPath ;;
    match arg_content a with
    | None => throw (OtherError dataTypeError)
    | Some content => writeFile filePath content
    end ;;
    textResult ("Successfully wrote to " +:+ filePath)).

(** [case "edit_file"] (lines 381-436) *)
Definition edit_file (a : option args) : prog string :=
  withArgs "path" a (λ a,
    let dryRun := default false (arg_dryRun a) in
    filePath <- checkPath (arg_path a) ;;
    originalContent <- readFile filePath ;;
    match arg_edits a with
    | None => throw (OtherError (notIterable "edits"))
    | Some edits =>
        let '(newContent, results, diff) := editContent originalContent edits in
        (if negb dryRun then writeFile filePath newContent else ret ()) ;;
        textResult (stringify (JObj [
          ("dryRun", JBool dryRun);
          ("path", JStr filePath);
          ("results", JArr (map editResult_json results));
          ("diff", JStr diff);
          ("applied", JBool (negb dryRun))]))
    end).

(** [case "create_directory"] (lines 438-453) *)
Definition create_directory (a : option args) : prog string :=
  withArgs "path" a (λ a,
    dirPath <- checkPath (arg_path a) ;;
    mkdir dirPath ;;
    textResult ("Directory " +:+ dirPath +:+ " created or already exists")).

(** [entries.map(entry => prefix + entry.name)] (lines 463-466) *)
Definition formatEntry (entry : dirent) : string :=
  let prefix := if d_isDirectory entry then "[DIR] " else "[FILE] " in
  prefix +:+ d_name entry.

(** [case "list_directory"] (lines 455-474) *)
Definition list_directory (a : option args) : prog string :=
  withArgs "path" a (λ a,
    dirPath <- checkPath (arg_path a) ;;
    entries <- readdir dirPath ;;
    let formattedEntries := map formatEntry entries in
    textResult (jsJoin LF formattedEntries)).

(** [case "move_file"] (lines 476-504) *)
Definition move_file (a : option args) : prog string :=
  withArgs "source" a (λ a,
    source <- checkPath (arg_source a) ;;
    destination <- checkPath (arg_destination a) ;;
    exists_ <- existsSync destination ;;
    (if exists_ : bool then
       throw (McpError InvalidRequest
                ("Destination " +:+ destination +:+ " already exists"))
     else ret ()) ;;
    let destDir := dirname destination in
    mkdir destDir ;;
    rename source destination ;;
    textResult
      ("Successfully moved " +:+ source +:+ " to " +:+ destination)).

(** [case "search_files"] (lines 506-532).  A missing [pattern] is
    interpolated into the glob as the text [undefined]. *)
Definition search_files (a : option args) : prog string :=
  withArgs "path" a (λ a,
    let pattern := default "undefined" (arg_pattern a) in
    let excludePatterns := default [] (arg_excludePatterns a) in
    dirPath <- checkPath (arg_path a) ;;
    matches <- glob (dirPath +:+ "/**/" +:+ pattern) excludePatterns ;;
    let allowedMatches :=
      List.filter (isPathAllowed allowedDirectories cwd) matches in
    textResult (stringify (JArr (map JStr allowedMatches)))).

(** The object [info] of [get_file_info] (lines 543-552). *)
Definition fileInfo (filePath : string) (st : stats) : json :=
  JObj [
    ("path", JStr filePath);
    ("size", JNum (st_size st));
    ("isDirectory", JBool (st_isDirectory st));
    ("isFile", JBool (st_isFile st));
    ("created", JStr (st_birthtime st));
    ("modified", JStr (st_mtime st));
    ("accessed", JStr (st_atime st));
    ("permissions", JStr (sliceLast 3 (toOctal (st_mode st))))].

(** [case "get_file_info"] (lines 534-560) *)
Definition get_file_info (a : option args) : prog string :=
  withArgs "path" a (λ a,
    filePath <- checkPath (arg_path a) ;;
    st <- stat filePath ;;
    textResult (stringify (fileInfo filePath st))).

(** [case "list_allowed_directories"] (lines 562-569) *)
Definition list_allowed_directories : prog string :=
  textResult (stringify (JArr (map JStr allowedDirectories))).

(** The [switch] (lines 310-573). *)
Definition dispatch (req : request) : prog string :=
  let a := arguments req in
  if String.eqb (name req) "read_file" then read_file a
  else if String.eqb (name req) "read_multiple_files" then
    read_multiple_files a
  else if String.eqb (name req) "write_file" then write_file a
  else if String.eqb (name req) "edit_file" then edit_file a
  else if String.eqb (name req) "create_directory" then create_directory a
  else if String.eqb (name req) "list_directory" then list_directory a
  else if String.eqb (name req) "move_file" then move_file a
  else if String.eqb (name req) "search_files" then search_files a
  else if String.eqb (name req) "get_file_info" then get_file_info a
  else if String.eqb (name req) "list_allowed_directories" then
    list_allowed_directories
  else throw (McpError MethodNotFound ("Unknown tool: " +:+ name req)).

(** The [catch] (lines 574-586): an [McpError] is rethrown, any other error
    becomes a result with [isError: true]. *)
Definition catchAll (r : result exn string) : io response :=
  match r with
  | Ok text => Ret (Returned (ToolResult text false))
  | Err (McpError code message) => Ret (Thrown code message)
  | Err (OtherError message) =>
      Ret (Returned (ToolResult ("Error: " +:+ message) true))
  end.

(** The handler of [CallToolRequestSchema] (lines 306-587). *)
Definition callTool (req : request) : io response :=
  io_bind (dispatch req) catchAll.

End Handlers.

(** ** Proof rules for the handlers' building blocks *)

Section HandlerRules.
Context `{JsonText}.
Context (dirs : list string) (cwd : string).
Implicit Types (P : call → Prop) (p : option string) (a : option args).

(** After [checkPath] the path is present and allowed. *)
Lemma AllCalls_checkPath {A} P p (k : string → prog A) :
  (∀ filePath, p = Some filePath →
     isPathAllowed dirs cwd filePath = true → AllCalls P (k filePath)) →
  AllCalls P (bind (checkPath dirs cwd p) k).
Proof.
  intros Hk. destruct p as [filePath|]; simpl; [|constructor].
  destruct (isPathAllowed dirs cwd filePath) eqn:Hp; simpl; [|constructor].
  by apply Hk.
Qed.

Lemma AllCalls_withArgs {A} P prop a (body : args → prog A) :
  (∀ x, a = Some x → AllCalls P (body x)) →
  AllCalls P (withArgs prop a body).
Proof. intros Hb. destruct a; simpl; [by apply Hb|constructor]. Qed.

Lemma AllCalls_forEach {A St} P (body : St → A → prog St) l s :
  (∀ s x, x ∈ l → AllCalls P (body s x)) → AllCalls P (forEach body l s).
Proof.
  revert s; induction l as [|x l IH]; intros s Hb; simpl; [constructor|].
  apply AllCalls_bind; [apply Hb; left|]. intros s'. apply IH.
  intros s'' y Hy. apply Hb. by right.
Qed.

(** A denied path: the guard throws, and nothing has been called. *)
Lemma checkPath_denied filePath :
  isPathAllowed dirs cwd filePath = false →
  checkPath dirs cwd (Some filePath) =
  throw (McpError PermissionDenied
           ("Access to " +:+ filePath +:+ " is not allowed")).
Proof. intros Hp. unfold checkPath. by rewrite Hp. Qed.

Lemma checkPath_allowed filePath :
  isPathAllowed dirs cwd filePath = true →
  checkPath dirs cwd (Some filePath) = ret filePath.
Proof. intros Hp. unfold checkPath. by rewrite Hp. Qed.

Lemma AllCalls_catchAll P (t : prog string) :
  AllCalls P t → AllCalls P (io_bind t catchAll).
Proof.
  intros Ht. apply AllCalls_io_bind; [done|].
  intros [text|[code msg|msg]]; constructor.
Qed.

End HandlerRules.

(** [calls] reduces a goal [AllCalls P handler] to the conditions on the
    host calls the handler makes, with the facts the guards established in
    the context. *)
Ltac calls_step :=
  lazymatch goal with
  | |- AllCalls _ (withArgs _ _ _) =>
      apply AllCalls_withArgs; intros ? ?
  | |- AllCalls _ (bind (checkPath _ _ _) _) =>
      apply AllCalls_checkPath; intros ? ? ?
  | |- AllCalls _ (bind _ _) => apply AllCalls_bind; [|intros ?]
  | |- AllCalls _ (catch _ _) => apply AllCalls_catch; [|intros ?]
  | |- AllCalls _ (io_bind _ catchAll) => apply AllCalls_catchAll
  | |- AllCalls _ (Do _ _) => apply AllCalls_Do; [|intros ?]
  | |- AllCalls _ (lift _) => apply AllCalls_lift
  | |- AllCalls _ (ret _) => apply AllCalls_ret
  | |- AllCalls _ (throw _) => apply AllCalls_throw
  | |- AllCalls _ (Ret _) => apply AllCalls_Ret
  | |- AllCalls _ (textResult _) => apply AllCalls_ret
  | |- AllCalls _ (match ?x with _ => _ end) => destruct x eqn:?
  | |- AllCalls _ (let '(_, _) := ?x in _) => destruct x eqn:?
  end.

Ltac calls :=
  unfold readFile, writeFile, mkdir, readdir, rename, stat, existsSync, glob;
  repeat (calls_step; cbv zeta).

(** ** Safety: what the handlers ask of the host *)

Section Safety.
Context `{JsonText}.
Context (dirs : list string) (cwd : string).
Implicit Types (a : option args) (req : request) (c : call).

(** [guarded c]: the call [c] is one the guard has let through.  Every
    path it names has passed [isPathAllowed]; the two exceptions are the
    directory created for a file, which is the [dirname] of a path that
    passed, and the glob, which starts with a path that passed. *)
Definition guarded c : Prop :=
  match c with
  | Mkdir p =>
      isPathAllowed dirs cwd p = true ∨
      ∃ q, isPathAllowed dirs cwd q = true ∧ p = dirname q
  | Glob pat _ =>
      ∃ dir rest,
        isPathAllowed dirs cwd dir = true ∧ pat = dir +:+ "/**/" +:+ rest
  | _ => Forall (λ p, isPathAllowed dirs cwd p = true) (call_paths c)
  end.

Ltac guarded_calls :=
  calls; simpl;
  first [ by repeat constructor | by left | by right; eexists
        | by eexists _, _ ].

Lemma read_file_guarded a : AllCalls guarded (read_file dirs cwd a).
Proof. unfold read_file. guarded_calls. Qed.

Lemma readOne_guarded results filePath :
  AllCalls guarded (readOne dirs cwd results filePath).
Proof.
  unfold readOne. destruct (isPathAllowed _ _ _) eqn:Hp; guarded_calls.
Qed.

Lemma read_multiple_files_guarded a :
  AllCalls guarded (read_multiple_files dirs cwd a).
Proof.
  unfold read_multiple_files. calls. apply AllCalls_forEach. intros.
  apply readOne_guarded.
Qed.

Lemma write_file_guarded a : AllCalls guarded (write_file dirs cwd a).
Proof. unfold write_file. guarded_calls. Qed.

Lemma edit_file_guarded a : AllCalls guarded (edit_file dirs cwd a).
Proof. unfold edit_file. guarded_calls. Qed.

Lemma create_directory_guarded a :
  AllCalls guarded (create_directory dirs cwd a).
Proof. unfold create_directory. guarded_calls. Qed.

Lemma list_directory_guarded a : AllCalls guarded (list_directory dirs cwd a).
Proof. unfold list_directory. guarded_calls. Qed.

Lemma move_file_guarded a : AllCalls guarded (move_file dirs cwd a).
Proof. unfold move_file. guarded_calls. Qed.

Lemma search_files_guarded a : AllCalls guarded (search_files dirs cwd a).
Proof. unfold search_files. guarded_calls. Qed.

Lemma get_file_info_guarded a : AllCalls guarded (get_file_info dirs cwd a).
Proof. unfold get_file_info. guarded_calls. Qed.

Lemma dispatch_guarded req : AllCalls guarded (dispatch dirs cwd req).
Proof.
  unfold dispatch. repeat case_match;
    eauto using read_file_guarded, read_multiple_files_guarded,
      write_file_guarded, edit_file_guarded, create_directory_guarded,
      list_directory_guarded, move_file_guarded, search_files_guarded,
      get_file_info_guarded; constructor.
Qed.

(** C1: whatever the request and whatever the host replies, every call the
    handler makes on the host names only paths that passed
    [isPathAllowed] (for [mkdir], the [dirname] of one; for [glob], a
    pattern under one). *)
Theorem callTool_guarded req : AllCalls guarded (callTool dirs cwd req).
Proof. apply AllCalls_catchAll, dispatch_guarded. Qed.

End Safety.

(** ** Errors: what the handler throws, and when *)

(** The names the [switch] has a [case] for. *)
Definition toolNames : list string :=
  ["read_file"; "read_multiple_files"; "write_file"; "edit_file";
   "create_directory"; "list_directory"; "move_file"; "search_files";
   "get_file_info"; "list_allowed_directories"].

(** The tools whose one path argument is [path]. *)
Definition pathTools : list string :=
  ["read_file"; "write_file"; "edit_file"; "create_directory";
   "list_directory"; "search_files"; "get_file_info"].

(** The path arguments a request carries. *)
Definition requestPaths (req : request) : list string :=
  match arguments req with
  | None => []
  | Some a => omap id [arg_path a; arg_source a; arg_destination a]
  end.

Section ThrowRules.
Context (dirs : list string) (cwd : string).
Implicit Types (E : errorCode → string → Prop).

Lemma ThrowsOnly_checkPath {A} E p (k : string → prog A) :
  (∀ filePath, p = Some filePath →
     isPathAllowed dirs cwd filePath = false →
     E PermissionDenied ("Access to " +:+ filePath +:+ " is not allowed")) →
  (∀ filePath, p = Some filePath →
     isPathAllowed dirs cwd filePath = true → ThrowsOnly E (k filePath)) →
  ThrowsOnly E (bind (checkPath dirs cwd p) k).
Proof.
  intros Hd Hk. destruct p as [filePath|]; simpl; [|by constructor].
  destruct (isPathAllowed dirs cwd filePath) eqn:Hp; simpl.
  - by apply Hk.
  - constructor. by apply Hd.
Qed.

Lemma ThrowsOnly_withArgs {A} E prop a (body : args → prog A) :
  (∀ x, a = Some x → ThrowsOnly E (body x)) →
  ThrowsOnly E (withArgs prop a body).
Proof. intros Hb. destruct a; simpl; [by apply Hb|by constructor]. Qed.

Lemma ThrowsOnly_forEach {A St} E (body : St → A → prog St) l s :
  (∀ s x, ThrowsOnly E (body s x)) → ThrowsOnly E (forEach body l s).
Proof.
  intros Hb. revert s; induction l as [|x l IH]; intros s; simpl.
  - by constructor.
  - apply ThrowsOnly_bind; [apply Hb|apply IH].
Qed.

(** The loop body of [read_multiple_files] catches what it throws. *)
Lemma readOne_throws E results filePath :
  ThrowsOnly E (readOne dirs cwd results filePath).
Proof.
  unfold readOne. destruct (isPathAllowed _ _ _); simpl.
  - apply ThrowsOnly_catch. intros e. apply ThrowsOnly_ret.
  - apply ThrowsOnly_ret.
Qed.

End ThrowRules.

(** [throws] reduces a goal [ThrowsOnly E handler] to the conditions on the
    [McpError]s the handler throws itself. *)
Ltac throws_step :=
  lazymatch goal with
  | |- ThrowsOnly _ (withArgs _ _ _) =>
      apply ThrowsOnly_withArgs; intros ? ?
  | |- ThrowsOnly _ (bind (checkPath _ _ _) _) =>
      apply ThrowsOnly_checkPath; [intros ? ? ?|intros ? ? ?]
  | |- ThrowsOnly _ (bind _ _) => apply ThrowsOnly_bind; [|intros ?]
  | |- ThrowsOnly _ (forEach (readOne _ _) _ _) =>
      apply ThrowsOnly_forEach; intros; apply readOne_throws
  | |- ThrowsOnly _ (Do _ _) => apply ThrowsOnly_Do; intros ?
  | |- ThrowsOnly _ (lift _) => apply ThrowsOnly_lift
  | |- ThrowsOnly _ (ret _) => apply ThrowsOnly_ret
  | |- ThrowsOnly _ (textResult _) => apply ThrowsOnly_ret
  | |- ThrowsOnly _ (throw (OtherError _)) => apply ThrowsOnly_throw_other
  | |- ThrowsOnly _ (throw (McpError _ _)) => apply ThrowsOnly_throw
  | |- ThrowsOnly _ (match ?x with _ => _ end) => destruct x eqn:?
  | |- ThrowsOnly _ (let '(_, _) := ?x in _) => destruct x eqn:?
  end.

Ltac throws :=
  unfold readFile, writeFile, mkdir, readdir, rename, stat, existsSync, glob;
  repeat (throws_step; cbv zeta).

Section Outcomes.
Context `{JsonText}.
Context (dirs : list string) (cwd : string).
Implicit Types (a : option args) (req : request).

(** What an [McpError] thrown for a request can be. *)
Definition thrownSpec req (code : errorCode) (msg : string) : Prop :=
  match code with
  | PermissionDenied =>
      ∃ p, p ∈ requestPaths req ∧ isPathAllowed dirs cwd p = false ∧
        msg = "Access to " +:+ p +:+ " is not allowed"
  | InvalidRequest =>
      name req = "move_file" ∧
      ∃ d, d ∈ requestPaths req ∧ isPathAllowed dirs cwd d = true ∧
        msg = "Destination " +:+ d +:+ " already exists"
  | MethodNotFound =>
      (name req ∉ toolNames) ∧ msg = "Unknown tool: " +:+ name req
  | ResourceNotFound => False
  end.

Lemma requestPaths_path req x p :
  arguments req = Some x → arg_path x = Some p → p ∈ requestPaths req.
Proof. unfold requestPaths. intros -> Hp. simpl. rewrite Hp. by left. Qed.

Lemma requestPaths_source req x p :
  arguments req = Some x → arg_source x = Some p → p ∈ requestPaths req.
Proof.
  unfold requestPaths. intros -> Hp. simpl. rewrite Hp.
  destruct (arg_path x); simpl; [right|]; by left.
Qed.

Lemma requestPaths_destination req x p :
  arguments req = Some x → arg_destination x = Some p → p ∈ requestPaths req.
Proof.
  unfold requestPaths. intros -> Hp. simpl. rewrite Hp.
  destruct (arg_path x), (arg_source x); simpl; repeat constructor.
Qed.

Ltac thrown_known :=
  throws; simpl;
  eauto 8 using requestPaths_path, requestPaths_source,
    requestPaths_destination.

Lemma dispatch_throws req :
  ThrowsOnly (thrownSpec req) (dispatch dirs cwd req).
Proof.
  unfold dispatch.
  repeat match goal with
  | |- context [String.eqb (name req) ?t] =>
      destruct (String.eqb_spec (name req) t)
  end;
  unfold read_file, read_multiple_files, write_file, edit_file,
    create_directory, list_directory, move_file, search_files, get_file_info,
    list_allowed_directories; thrown_known.
  split; [|done]. intros Hin%list_elem_of_In. simpl in Hin.
  destruct_or!; congruence.
Qed.

(** C9: the only errors the handler throws to the protocol layer are
    [PermissionDenied] for a path argument that fails the guard,
    [InvalidRequest] for the destination of [move_file], and
    [MethodNotFound] for a name the [switch] has no [case] for. *)
Theorem callTool_throws req :
  AllRets (λ r, match r with
                | Thrown code msg => thrownSpec req code msg
                | Returned _ => True
                end) (callTool dirs cwd req).
Proof.
  eapply AllRets_io_bind; [apply dispatch_throws|].
  intros [text|[code msg|msg]] Hr; by constructor.
Qed.

End Outcomes.

(** ** What each refusal looks like *)

(** The tools that only read. *)
Definition readOnlyTools : list string :=
  ["read_file"; "read_multiple_files"; "list_directory"; "search_files";
   "get_file_info"; "list_allowed_directories"].

(** The result the [catch] builds from an ordinary error. *)
Definition errorResult (message : string) : response :=
  Returned (ToolResult ("Error: " +:+ message) true).

Definition okResult (text : string) : response :=
  Returned (ToolResult text false).

(** [in_cases Hin] splits a hypothesis [x ∈ [a; b; ...]] into its cases. *)
Ltac in_cases H :=
  apply list_elem_of_In in H; simpl in H; destruct_or!; subst; try done.

Ltac unfold_handlers :=
  unfold callTool, dispatch; simpl;
  unfold read_file, read_multiple_files, write_file, edit_file,
    create_directory, list_directory, move_file, search_files, get_file_info,
    list_allowed_directories; simpl.

Section Refusals.
Context `{JsonText}.
Context (dirs : list string) (cwd : string).
Implicit Types (a : args) (req : request).

(** C14: a tool that takes [path] refuses a path outside the allowed
    directories with [PermissionDenied], before it calls the host. *)
Theorem callTool_denied toolName a filePath :
  toolName ∈ pathTools →
  arg_path a = Some filePath →
  isPathAllowed dirs cwd filePath = false →
  callTool dirs cwd (Request toolName (Some a)) =
  Ret (Thrown PermissionDenied
         ("Access to " +:+ filePath +:+ " is not allowed")).
Proof.
  intros Hin Ha Hp. in_cases Hin; unfold_handlers;
    rewrite Ha, checkPath_denied by done; reflexivity.
Qed.

(** [move_file] checks the source, then the destination, and refuses
    the first that is outside the allowed directories; nothing is called. *)
Lemma move_file_denied a source destination :
  arg_source a = Some source →
  arg_destination a = Some destination →
  isPathAllowed dirs cwd source && isPathAllowed dirs cwd destination
    = false →
  callTool dirs cwd (Request "move_file" (Some a)) =
  Ret (Thrown PermissionDenied
         ("Access to " +:+
          (if isPathAllowed dirs cwd source then destination else source)
          +:+ " is not allowed")).
Proof.
  intros Hs Hd Hp. unfold_handlers. rewrite Hs, Hd. unfold checkPath.
  destruct (isPathAllowed dirs cwd source); simpl in *; [|done].
  by rewrite Hp.
Qed.

(** A name the [switch] has no [case] for is answered with
    [MethodNotFound], whatever the arguments. *)
Theorem callTool_unknown req :
  name req ∉ toolNames →
  callTool dirs cwd req =
  Ret (Thrown MethodNotFound ("Unknown tool: " +:+ name req)).
Proof.
  intros Hn. unfold callTool, dispatch.
  repeat match goal with
  | |- context [String.eqb (name req) ?t] =>
      rewrite (proj2 (String.eqb_neq (name req) t))
        by (intros E; apply Hn; rewrite E; apply list_elem_of_In; simpl; tauto)
  end. reflexivity.
Qed.

(** C37: a request that leaves [path] out is not rejected as an invalid
    argument: [path.resolve(undefined)] raises a [TypeError], which the
    [catch] returns as an ordinary result with [isError]. *)
Theorem callTool_missing_path toolName a :
  toolName ∈ pathTools →
  arg_path a = None →
  callTool dirs cwd (Request toolName (Some a)) = Ret (errorResult resolveTypeError).
Proof.
  intros Hin Ha. in_cases Hin; unfold_handlers; by rewrite Ha.
Qed.

Lemma readOne_readonly results filePath :
  AllCalls (λ c, is_write c = false) (readOne dirs cwd results filePath).
Proof. unfold readOne. calls; done. Qed.

Lemma dispatch_readonly req :
  name req ∈ readOnlyTools →
  AllCalls (λ c, is_write c = false) (dispatch dirs cwd req).
Proof.
  intros Hin. destruct req as [toolName a].
  simpl in Hin. in_cases Hin; unfold dispatch; simpl;
    unfold read_file, read_multiple_files, list_directory, search_files,
      get_file_info, list_allowed_directories; calls; try done.
  apply AllCalls_forEach; intros; apply readOne_readonly.
Qed.

(** The tools that only read make no call that writes. *)
Theorem callTool_readonly req :
  name req ∈ readOnlyTools →
  AllCalls (λ c, is_write c = false) (callTool dirs cwd req).
Proof. intros Hin. by apply AllCalls_catchAll, dispatch_readonly. Qed.

(** C38: with [dryRun] set, [edit_file] reads the file and writes nothing. *)
Theorem edit_file_dryRun a :
  arg_dryRun a = Some true →
  AllCalls (λ c, is_write c = false)
    (callTool dirs cwd (Request "edit_file" (Some a))).
Proof.
  intros Hd. apply AllCalls_catchAll. unfold dispatch; simpl.
  unfold edit_file. rewrite Hd. simpl. calls; done.
Qed.

End Refusals.

(** ** The theorems at concrete requests *)

(** A request with [path] and nothing else. *)
Definition pathArgs (p : string) : args :=
  Args (Some p) None None None None None None None None.

(** A request with [source] and [destination]. *)
Definition moveArgs (source destination : string) : args :=
  Args None None None None None (Some source) (Some destination) None None.

Lemma callTool_denied_witness :
  callTool (H := nodeJsonText) ["/home/alice"] "/"
    (Request "read_file" (Some (pathArgs "/etc/passwd"))) =
  Ret (Thrown PermissionDenied
         ("Access to " +:+ "/etc/passwd" +:+ " is not allowed")).
Proof.
  apply callTool_denied; [by left | reflexivity | reflexivity].
Defined.

Lemma move_file_denied_witness :
  callTool (H := nodeJsonText) ["/home/alice"] "/"
    (Request "move_file"
       (Some (moveArgs "/home/alice/a.txt" "/tmp/a.txt"))) =
  Ret (Thrown PermissionDenied
         ("Access to " +:+
          (if isPathAllowed ["/home/alice"] "/" "/home/alice/a.txt"
           then "/tmp/a.txt" else "/home/alice/a.txt")
          +:+ " is not allowed")).
Proof. by apply move_file_denied. Defined.

Lemma callTool_unknown_witness :
  callTool (H := nodeJsonText) ["/home/alice"] "/"
    (Request "delete_file" (Some (pathArgs "/home/alice/a.txt"))) =
  Ret (Thrown MethodNotFound
         ("Unknown tool: " +:+
          name (Request "delete_file" (Some (pathArgs "/home/alice/a.txt"))))).
Proof.
  apply callTool_unknown. apply (bool_decide_unpack _). by vm_compute.
Defined.

Lemma callTool_missing_path_witness :
  callTool (H := nodeJsonText) ["/home/alice"] "/"
    (Request "write_file" (Some noArgs)) =
  Ret (errorResult resolveTypeError).
Proof.
  apply callTool_missing_path; [by right; left | reflexivity].
Defined.

Lemma callTool_readonly_witness :
  AllCalls (λ c, is_write c = false)
    (callTool (H := nodeJsonText) ["/home/alice"] "/"
       (Request "search_files" (Some (pathArgs "/home/alice")))).
Proof. apply callTool_readonly. by do 3 right; left. Defined.

Lemma edit_file_dryRun_witness :
  AllCalls (λ c, is_write c = false)
    (callTool (H := nodeJsonText) ["/home/alice"] "/"
       (Request "edit_file"
          (Some (Args (Some "/home/alice/a.txt") None None
                   (Some [Edit "a" "b"]) (Some true) None None None None)))).
Proof. by apply edit_file_dryRun. Defined.

(** ** The permissions of [get_file_info] *)

(** C33: the [permissions] that [get_file_info] reports are the last three
    octal digits of the mode: a text of at most three octal digits that
    denotes the mode modulo 512, its permission bits, whatever the file type
    bits above them. *)
Theorem fileInfo_permissions filePath st :
  ∃ permissions,
    field "permissions" (fileInfo filePath st) = Some (JStr permissions) ∧
    String.length permissions ≤ 3 ∧ isOctal permissions = true ∧
    parseOctal permissions = (st_mode st `mod` 512)%N.
Proof.
  eexists. split; [reflexivity|]. split; [rewrite sliceLast_length; lia|].
  split; [apply isOctal_sliceLast, isOctal_toOctal|].
  by rewrite parseOctal_sliceLast, parseOctal_toOctal
    by apply isOctal_toOctal.
Qed.

(** A regular file with mode [0o100644]. *)
Example fileInfo_permissions_644 :
  field "permissions"
    (fileInfo "/home/alice/a.txt" (Stats 2 false true "" "" "" 33188)) =
  Some (JStr "644").
Proof. reflexivity. Qed.
(* end of Server *)
