(* ===== verification/Tools.v ===== *)
(** * Server description, resources and the tool list ([index.ts] lines 64-301)

    The data the server answers discovery requests with: its name and
    version, the one resource it lists, the handler that reads it, and the
    ten tool descriptions with their input schemas.  The theorems relate the
    tool list to the dispatcher of [Server]: the names listed are the names
    the [switch] handles, in the same order, and every property a schema
    requires is one the schema declares. *)

From Stdlib Require Import Ascii String List Lia.
From stdpp Require Import base tactics option list strings.
From S2P Require Import Prelude JsString PathGuard Edit Json Host Server.

(** ** The server object (lines 64-75) *)

Record serverInfo : Type := ServerInfo {
  server_name : string;
  server_version : string;
  server_capabilities : list string
}.

Definition server : serverInfo :=
  {| server_name := "filesystem-server";
     server_version := "0.1.0";
     server_capabilities := ["resources"; "tools"] |}.

(** ** Resources (lines 81-113) *)

Record resource : Type := Resource {
  uri : string;
  mimeType : string;
  resource_name : string;
  resource_description : string
}.

(** The handler of [ListResourcesRequestSchema]. *)
Definition listResources : list resource :=
  [ {| uri := "file://system";
       mimeType := "application/json";
       resource_name := "File System Operations Interface";
       resource_description :=
         "Interface for performing file system operations" |} ].

(** An element of [contents] in the answer to a read. *)
Record resourceContents : Type := ResourceContents {
  contents_uri : string;
  contents_mimeType : string;
  contents_text : string
}.

(** The handler of [ReadResourceRequestSchema]. *)
Definition readResource `{JsonText} (allowedDirectories : list string)
    (request_uri : string) : result exn (list resourceContents) :=
  if negb (String.eqb request_uri "file://system") then
    Err (McpError ResourceNotFound
           ("Resource " +:+ request_uri +:+ " not found"))
  else
    Ok [ {| contents_uri := request_uri;
            contents_mimeType := "application/json";
            contents_text := stringify (JObj [
              ("message",
               JStr "Use the filesystem tools to perform operations");
              ("allowedDirectories",
               JArr (map JStr allowedDirectories))]) |} ].

(** ** Tool descriptions (lines 118-301) *)

(** A JSON schema, as far as the tool list uses the notation: the [type],
    and beside it the [description], the [items] of an array, the
    [properties] and the [required] names of an object, each where the
    source writes it. *)
#[local] Set Warnings "-register-all".

Inductive schema : Type :=
| SString (description : option string)
| SBoolean (description : option string)
| SArray (items : schema) (description : option string)
| SObject (properties : list (string * schema))
          (required : option (list string))
          (description : option string).

Record tool : Type := Tool {
  tool_name : string;
  tool_description : string;
  inputSchema : schema
}.

(** [{ type: "string", description }] *)
Definition str (description : string) : schema := SString (Some description).

(** [{ type: "object", properties: { path: ... }, required: ["path"] }] *)
Definition pathSchema (description : string) : schema :=
  SObject [("path", str description)] (Some ["path"]) None.

(** The schema of an element of [edits]. *)
Definition editSchema : schema :=
  SObject [("oldText", str "Text to search for");
           ("newText", str "Text to replace with")]
          (Some ["oldText"; "newText"]) None.

(** The ten elements of the list of tools, in the order of the source. *)
Definition read_file_tool : tool :=
  Tool "read_file" "Read complete contents of a file"
    (pathSchema "Path to the file").

Definition read_multiple_files_tool : tool :=
  Tool "read_multiple_files" "Read multiple files simultaneously"
    (SObject
       [("paths", SArray (SString None) (Some "Array of file paths to read"))]
       (Some ["paths"]) None).

Definition write_file_tool : tool :=
  Tool "write_file" "Create new file or overwrite existing"
    (SObject
       [("path", str "Path to the file");
        ("content", str "Content to write to the file")]
       (Some ["path"; "content"]) None).

Definition edit_file_tool : tool :=
  Tool "edit_file" "Make selective edits using pattern matching"
    (SObject
       [("path", str "Path to the file");
        ("edits", SArray editSchema (Some "List of edit operations"));
        ("dryRun", SBoolean (Some "Preview changes without applying"))]
       (Some ["path"; "edits"]) None).

Definition create_directory_tool : tool :=
  Tool "create_directory" "Create new directory or ensure it exists"
    (pathSchema "Path to the directory").

Definition list_directory_tool : tool :=
  Tool "list_directory" "List directory contents"
    (pathSchema "Path to the directory").

Definition move_file_tool : tool :=
  Tool "move_file" "Move or rename files and directories"
    (SObject
       [("source", str "Source path");
        ("destination", str "Destination path")]
       (Some ["source"; "destination"]) None).

Definition search_files_tool : tool :=
  Tool "search_files" "Recursively search for files/directories"
    (SObject
       [("path", str "Starting directory");
        ("pattern", str "Search pattern");
        ("excludePatterns",
         SArray (SString None) (Some "Patterns to exclude"))]
       (Some ["path"; "pattern"]) None).

Definition get_file_info_tool : tool :=
  Tool "get_file_info" "Get detailed file/directory metadata"
    (pathSchema "Path to the file or directory").

Definition list_allowed_directories_tool : tool :=
  Tool "list_allowed_directories"
    "List all directories the server is allowed to access"
    (SObject [] None None).

(** The handler of [ListToolsRequestSchema]. *)
Definition tools : list tool :=
  [ read_file_tool; read_multiple_files_tool; write_file_tool;
    edit_file_tool; create_directory_tool; list_directory_tool;
    move_file_tool; search_files_tool; get_file_info_tool;
    list_allowed_directories_tool ].

(** ** Reading a schema *)

Definition propertyNames (s : schema) : list string :=
  match s with SObject properties _ _ => map fst properties | _ => [] end.

Definition requiredNames (s : schema) : list string :=
  match s with SObject _ (Some required) _ => required | _ => [] end.

(** The tool a name stands for. *)
Definition findTool (toolName : string) : option tool :=
  List.find (λ t, String.eqb (tool_name t) toolName) tools.

(** [x !== undefined] *)
Definition isDefined {A} (x : option A) : bool :=
  match x with Some _ => true | None => false end.

(** Whether the arguments of a request carry a property. *)
Definition hasProperty (a : args) (prop : string) : bool :=
  if String.eqb prop "path" then isDefined (arg_path a)
  else if String.eqb prop "paths" then isDefined (arg_paths a)
  else if String.eqb prop "content" then isDefined (arg_content a)
  else if String.eqb prop "edits" then isDefined (arg_edits a)
  else if String.eqb prop "dryRun" then isDefined (arg_dryRun a)
  else if String.eqb prop "source" then isDefined (arg_source a)
  else if String.eqb prop "destination" then
    isDefined (arg_destination a)
  else if String.eqb prop "pattern" then isDefined (arg_pattern a)
  else if String.eqb prop "excludePatterns" then
    isDefined (arg_excludePatterns a)
  else false.

(** A request carries what the schema of its tool requires. *)
Definition wellFormed (req : request) : bool :=
  match findTool (name req) with
  | None => false
  | Some t =>
      match arguments req with
      | None =>
          match requiredNames (inputSchema t) with [] => true | _ => false end
      | Some a => forallb (hasProperty a) (requiredNames (inputSchema t))
      end
  end.

(** ** The tool list and the dispatcher *)

(** The names of the tool list are the names the [switch] of the
    dispatcher has a [case] for, in the order of the source. *)
Lemma tools_names : map tool_name tools = toolNames.
Proof. reflexivity. Qed.

Lemma tools_NoDup : NoDup (map tool_name tools).
Proof. apply (bool_decide_unpack (NoDup _)). by vm_compute. Qed.

(** Every property a schema requires is a property it declares. *)
Lemma tools_required_declared :
  Forall (λ t, requiredNames (inputSchema t) ⊆ propertyNames (inputSchema t))
         tools.
Proof.
  apply Forall_forall. intros t Ht. in_cases Ht; intros x Hx; in_cases Hx;
    apply list_elem_of_In; simpl; tauto.
Qed.

Lemma findTool_name toolName t :
  findTool toolName = Some t → tool_name t = toolName.
Proof.
  unfold findTool. intros [_ Ht]%find_some. by apply String.eqb_eq.
Qed.

Lemma findTool_listed toolName :
  is_Some (findTool toolName) ↔ toolName ∈ toolNames.
Proof.
  split.
  - intros [t Ht]. pose proof (findTool_name _ _ Ht) as <-.
    apply find_some in Ht as [Ht _]. change toolNames with (map tool_name tools).
    apply list_elem_of_In, in_map, Ht.
  - intros Hin. in_cases Hin; by eexists.
Qed.

Section Listed.
Context `{JsonText}.
Context (dirs : list string) (cwd : string).

(** A call of a listed tool is never answered with [MethodNotFound]. *)
Lemma callTool_listed req :
  name req ∈ map tool_name tools →
  AllRets (λ r, ∀ message, r ≠ Thrown MethodNotFound message)
          (callTool dirs cwd req).
Proof.
  intros Hin. eapply AllRets_io_bind; [apply dispatch_throws|].
  intros [text|[code msg|msg]] Hr; constructor; try done.
  intros message [= -> _]. by destruct Hr as [Hn _].
Qed.

(** ** Resources *)

(** the read handler answers exactly the URIs the list handler
    lists; any other URI is [ResourceNotFound]. *)
Theorem readResource_listed request_uri :
  is_Ok (readResource dirs request_uri) = true ↔
  request_uri ∈ map uri listResources.
Proof.
  unfold readResource. simpl. rewrite list_elem_of_singleton.
  destruct (String.eqb_spec request_uri "file://system"); simpl; naive_solver.
Qed.

Lemma readResource_unknown request_uri :
  request_uri ≠ "file://system" →
  readResource dirs request_uri =
  Err (McpError ResourceNotFound
         ("Resource " +:+ request_uri +:+ " not found")).
Proof.
  intros Hne. unfold readResource.
  by rewrite (proj2 (String.eqb_neq _ _) Hne).
Qed.

(** The text of the resource lists the allowed directories. *)
Lemma readResource_system :
  readResource dirs "file://system" =
  Ok [ResourceContents "file://system" "application/json"
        (stringify (JObj [
           ("message", JStr "Use the filesystem tools to perform operations");
           ("allowedDirectories", JArr (map JStr dirs))]))].
Proof. reflexivity. Qed.

End Listed.

(** ** Well-formed requests succeed on a cooperating host *)

Section Success.
Context `{JsonText}.
Context (dirs : list string) (cwd : string).

Lemma Yields_forEach {A St} (body : St → A → prog St) l s :
  (∀ s x, Yields succeeds (λ _, True) (body s x)) →
  Yields succeeds (λ _, True) (forEach body l s).
Proof.
  intros Hb. revert s; induction l as [|x l IH]; intros s; simpl.
  - by apply Yields_ret.
  - eapply Yields_bind; [apply Hb|]. intros s' _. apply IH.
Qed.

(** A file that cannot be read is an entry of the answer, not a failure. *)
Lemma readOne_yields results filePath :
  Yields succeeds (λ _, True) (readOne dirs cwd results filePath).
Proof.
  unfold readOne. destruct (isPathAllowed _ _ _); simpl.
  - apply Yields_catch. apply Yields_await. intros [c|m] Hr; [|done].
    by apply Yields_ret.
  - by apply Yields_ret.
Qed.

Lemma Yields_existsSync {A} p (Q : A → Prop) (k : bool → prog A) :
  Yields succeeds Q (k false) → Yields succeeds Q (bind (existsSync p) k).
Proof.
  intros Hk. unfold existsSync, bind. simpl. apply Yields_await.
  intros r Hr. simpl in Hr. by subst.
Qed.

Ltac yields_step :=
  lazymatch goal with
  | |- Yields _ _ (bind (existsSync _) _) =>
      apply Yields_existsSync; cbv beta iota
  | |- Yields _ _ (bind _ _) =>
      apply (Yields_bind _ (λ _, True)); [|intros ? _]
  | |- Yields _ _ (forEach (readOne _ _) _ _) =>
      apply Yields_forEach; intros; apply readOne_yields
  | |- Yields _ _ (Do _ _) =>
      let Hr := fresh in
      apply Yields_await; intros ? Hr; simpl in Hr; try subst; simpl
  | |- Yields _ _ (lift _) => by apply Yields_lift
  | |- Yields _ _ (ret _) => by apply Yields_ret
  | |- Yields _ _ (textResult _) => by apply Yields_ret
  | |- Yields _ _ (let '(_, _) := ?x in _) => destruct x eqn:?
  | |- Yields _ _ (if negb ?b then _ else _) => destruct b; simpl
  end.

(** Rewrites with the facts that the paths of the request are allowed. *)
Ltac allowed_paths Hp :=
  simpl in Hp;
  repeat match type of Hp with
  | Forall _ (_ :: _) =>
      let Ha := fresh in
      apply Forall_cons in Hp as [Ha Hp]; rewrite ?Ha; clear Ha
  end.

(** Splits on the required arguments that [Hwf] says are present. *)
Ltac required_args Hwf :=
  vm_compute in Hwf;
  repeat match type of Hwf with
  | context [match ?x with _ => _ end] => is_var x; destruct x; try done
  end.

Lemma dispatch_yields req :
  wellFormed req = true →
  Forall (λ p, isPathAllowed dirs cwd p = true) (requestPaths req) →
  Yields succeeds (λ _, True) (dispatch dirs cwd req).
Proof.
  destruct req as [n a]. unfold wellFormed, requestPaths. simpl.
  destruct (findTool n) as [t|] eqn:Ht; [|done].
  assert (n ∈ toolNames) as Hn by (apply findTool_listed; eauto).
  in_cases Hn; vm_compute in Ht; injection Ht as <-;
    (destruct a as [a|]; [destruct a as [[p|] ps c e d s dst pat ex]|]);
    simpl; try done; intros Hwf Hp; required_args Hwf;
    unfold dispatch; simpl;
    unfold read_file, read_multiple_files, write_file, edit_file,
      create_directory, list_directory, move_file, search_files,
      get_file_info, list_allowed_directories, withArgs; simpl;
    allowed_paths Hp; simpl;
    unfold readFile, writeFile, mkdir, readdir, rename, stat, glob;
    repeat (yields_step; cbv zeta).
Qed.

(** C18: a request that carries what the schema of its tool requires, with
    every path argument inside the allowed directories, is answered with a
    result that is not an error on every run on which the host's calls
    succeed and the destination of a move does not exist. *)
Theorem callTool_succeeds req :
  wellFormed req = true →
  Forall (λ p, isPathAllowed dirs cwd p = true) (requestPaths req) →
  AllRetsIf succeeds (λ r, ∃ text, r = okResult text)
            (callTool dirs cwd req).
Proof.
  intros Hwf Hp. eapply AllRetsIf_io_bind; [by apply dispatch_yields|].
  intros r (text & -> & _). constructor. by exists text.
Qed.

End Success.

(** ** The theorems at concrete requests *)

Lemma callTool_listed_witness :
  AllRets (λ r, ∀ message, r ≠ Thrown MethodNotFound message)
    (callTool (H := nodeJsonText) ["/home/alice"] "/"
       (Request "get_file_info" (Some (pathArgs "/home/alice/a.txt")))).
Proof. apply callTool_listed. by do 8 right; left. Defined.

Lemma callTool_succeeds_witness :
  AllRetsIf succeeds (λ r, ∃ text, r = okResult text)
    (callTool (H := nodeJsonText) ["/home/alice"] "/"
       (Request "move_file"
          (Some (moveArgs "/home/alice/a.txt" "/home/alice/b/a.txt")))).
Proof.
  apply callTool_succeeds; [reflexivity | by repeat constructor].
Defined.
(* end of Tools *)
