(* ===== verification/Main.v ===== *)
(** * The process: start-up and [main]

    What the process does before it serves a request (index.ts 30-51 and
    617-630): the allowed directories are taken from the command line and
    checked, [main] connects the server to its transport, and every
    failure on the way is reported on the error stream and ends the
    process with exit code 1.

    The transport and [server.connect] belong to the SDK; here [connect]
    is what the call came to, fulfilled or rejected with a message.  A call
    of [console.error] is the list of its arguments. *)

From Stdlib Require Import String List Lia.
From stdpp Require Import base tactics option list strings.
From S2P Require Import Prelude JsString NodePath PathGuard Json.

(** Whether the process goes on to serve requests, or has exited. *)
Inductive status : Type :=
| Serving
| Exited (code : nat).

#[export] Instance status_eq_dec : EqDecision status.
Proof. solve_decision. Defined.

Definition usage : string :=
  "Usage: npx @modelcontextprotocol/server-filesystem <directory1> <directory2> ...".

(** [main()] with its [catch] (lines 620-630). *)
Definition main (connect : result string unit)
    (allowedDirectories : list string) : status * list (list json) :=
  match connect with
  | Ok _ =>
      (Serving,
       [[JStr "Filesystem MCP server running on stdio"];
        [JStr "Allowed directories:"; JArr (map JStr allowedDirectories)]])
  | Err error => (Exited 1, [[JStr "Server error:"; JStr error]])
  end.

(** The module from its first statement: the status of the process and
    what it has written on the error stream. *)
Definition process (cwd : string) (stat : stat_oracle) (argv : list string)
    (connect : result string unit) : status * list (list json) :=
  let dirs := allowedDirectories cwd argv in
  if Nat.eqb (length dirs) 0 then
    (Exited 1, [[JStr "Error: No allowed directories specified"]; [JStr usage]])
  else
    match validateDirectories stat dirs with
    | Err msg => (Exited 1, [[JStr msg]])
    | Ok _ => main connect dirs
    end.

Section Process.
Implicit Types (cwd : string) (stat : stat_oracle) (argv dirs : list string)
  (connect : result string unit).

Lemma main_status connect dirs :
  (main connect dirs).1 = if is_Ok connect then Serving else Exited 1.
Proof. by destruct connect. Qed.

(** The process is [startup] followed by [main]. *)
Lemma process_startup cwd stat argv connect :
  (process cwd stat argv connect).1 =
  match startup cwd stat argv with
  | Ok dirs => (main connect dirs).1
  | Err _ => Exited 1
  end.
Proof.
  unfold process, startup.
  destruct (Nat.eqb _ 0); [done|]. by destruct (validateDirectories _ _).
Qed.

(** The only exit code is 1. *)
Lemma process_exit cwd stat argv connect code :
  (process cwd stat argv connect).1 = Exited code → code = 1.
Proof.
  rewrite process_startup. destruct (startup _ _ _); [|congruence].
  rewrite main_status. destruct (is_Ok connect); congruence.
Qed.

(** C22: the process goes on to serve requests exactly when at least one
    directory is given on the command line, every one of them, resolved,
    is an existing directory, and the server connected to its transport;
    in every other case it has exited, with code 1. *)
Theorem process_serving cwd stat argv connect :
  (process cwd stat argv connect).1 = Serving ↔
  allowedDirectories cwd argv ≠ [] ∧
  Forall (λ dir, stat dir = Some true) (allowedDirectories cwd argv) ∧
  is_Ok connect = true.
Proof.
  rewrite process_startup.
  destruct (startup cwd stat argv) as [dirs|msg] eqn:Hs.
  - pose proof Hs as ->%startup_roots. rewrite main_status.
    unfold startup in Hs.
    destruct (allowedDirectories cwd argv) as [|d ds]; [done|].
    change (Nat.eqb (length (d :: ds)) 0) with false in Hs. cbv iota in Hs.
    destruct (validateDirectories stat (d :: ds)) as [[]|] eqn:Hv; [|done].
    apply validateDirectories_Ok in Hv.
    destruct (is_Ok connect); [by repeat split|].
    split; [done|by intros (_ & _ & ?)].
  - split; [done|]. intros (Hne & Hv%validateDirectories_Ok & _).
    unfold startup in Hs. rewrite Hv in Hs.
    by destruct (allowedDirectories cwd argv).
Qed.

(** What the process says when it serves. *)
Lemma process_banner cwd stat argv connect :
  (process cwd stat argv connect).1 = Serving →
  (process cwd stat argv connect).2 =
  [[JStr "Filesystem MCP server running on stdio"];
   [JStr "Allowed directories:";
    JArr (map JStr (allowedDirectories cwd argv))]].
Proof.
  unfold process. destruct (Nat.eqb _ 0); [done|].
  destruct (validateDirectories _ _); [|done]. by destruct connect.
Qed.

End Process.

(** With no directory on the command line. *)
Example process_no_roots :
  process "/" (λ _, Some true) ["node"; "index.js"] (Ok ()) =
  (Exited 1,
   [[JStr "Error: No allowed directories specified"]; [JStr usage]]).
Proof. reflexivity. Qed.

Example process_home_alice :
  (process "/" (λ _, Some true) ["node"; "index.js"; "/home/alice/"] (Ok ())).1
  = Serving.
Proof. reflexivity. Qed.
(* end of Main *)
