(* ===== verification/Behaviour.v ===== *)
(** * What the handlers do on a host

    The functional behaviour of the handlers of [Server], stated on runs:
    given any host (an instance of [Host]) and a state of it, what a request
    returns and in which state it leaves the host, in terms of what the host
    replies to the calls made.  Failures are part of the statements: a
    rejected promise is returned as a result marked [isError], an existing
    destination of a move is thrown as [InvalidRequest] after the one call
    that discovered it, and a missing [content] is discovered only after the
    parent directory has been created. *)

From Stdlib Require Import Ascii String List Lia.
From stdpp Require Import base tactics option list strings.
From S2P Require Import Prelude JsString NodePath PathGuard Diff Edit Json Host.
From S2P Require Import FlatHost Server.

(** The answer built from the reply to the last call of a handler. *)
Definition fromReply {A} (r : result string A) (text : A → string)
    : response :=
  match r with Ok a => okResult (text a) | Err m => errorResult m end.

(** The [path] of an element of the results of [read_multiple_files]. *)
Definition resultPath (r : fileResult) : string :=
  match r with FileContent p _ | FileError p _ => p end.

(** The text [edit_file] answers with (lines 427-433). *)
Definition editReport `{JsonText} (dryRun : bool) (filePath : string)
    (results : list editResult) (diff : string) : string :=
  stringify (JObj [
    ("dryRun", JBool dryRun);
    ("path", JStr filePath);
    ("results", JArr (map editResult_json results));
    ("diff", JStr diff);
    ("applied", JBool (negb dryRun))]).

(** What the client and the host see of a run: the response, and the calls
    made in order. *)
Definition observe {St} `{Host St} (t : io response) (s : St)
    : response * list call :=
  ((run t s).1, trace t s).

Section Runs.
Context `{JsonText} {St : Type} `{Host St}.
Context (dirs : list string) (cwd : string).
Implicit Types (a : args) (s : St).

(** [read_file] on an allowed path makes the one call [readFile] and
    answers with the content, or with the error of the host. *)
Lemma read_file_run a filePath s :
  arg_path a = Some filePath →
  isPathAllowed dirs cwd filePath = true →
  run (callTool dirs cwd (Request "read_file" (Some a))) s =
  let '(r, s') := exec (ReadFile filePath) s in (fromReply r id, s').
Proof.
  intros Ha Hp. unfold_handlers. rewrite Ha, checkPath_allowed by done.
  simpl. by destruct (exec _ s) as [[c|m] s'].
Qed.

(** [write_file] on an allowed path creates the parent directory, then
    writes the content; the first call that fails ends the handler. *)
Lemma write_file_run a filePath content s :
  arg_path a = Some filePath →
  arg_content a = Some content →
  isPathAllowed dirs cwd filePath = true →
  run (callTool dirs cwd (Request "write_file" (Some a))) s =
  let '(r, s1) := exec (Mkdir (dirname filePath)) s in
  match r with
  | Err m => (errorResult m, s1)
  | Ok _ =>
      let '(w, s2) := exec (WriteFile filePath content) s1 in
      (fromReply w (λ _, "Successfully wrote to " +:+ filePath), s2)
  end.
Proof.
  intros Ha Hc Hp. unfold_handlers. rewrite Ha, Hc, checkPath_allowed by done.
  simpl. destruct (exec _ s) as [[[]|m] s1]; simpl; [|done].
  by destruct (exec _ s1) as [[[]|m] s2].
Qed.

(** [edit_file] on an allowed path reads the file, applies the edits
    to what it read, and, unless [dryRun] is set, writes the edited content
    back; the answer reports the outcome of each edit and the diff. *)
Theorem edit_file_run a filePath edits s :
  arg_path a = Some filePath →
  arg_edits a = Some edits →
  isPathAllowed dirs cwd filePath = true →
  run (callTool dirs cwd (Request "edit_file" (Some a))) s =
  let '(r, s1) := exec (ReadFile filePath) s in
  match r with
  | Err m => (errorResult m, s1)
  | Ok originalContent =>
      let '(newContent, results) := applyEdits originalContent edits in
      let diff := generateDiff originalContent newContent in
      let dryRun := default false (arg_dryRun a) in
      let report := editReport dryRun filePath results diff in
      if dryRun then (okResult report, s1)
      else
        let '(w, s2) := exec (WriteFile filePath newContent) s1 in
        (fromReply w (λ _, report), s2)
  end.
Proof.
  intros Ha He Hp. unfold_handlers. rewrite Ha, He, checkPath_allowed by done.
  simpl. destruct (exec _ s) as [[original|m] s1]; simpl; [|done].
  unfold editContent. destruct (applyEdits original edits) as [new results].
  destruct (default false (arg_dryRun a)); simpl; [done|].
  by destruct (exec _ s1) as [[[]|m] s2].
Qed.

(** [create_directory], [list_directory] and [get_file_info] on an allowed
    path are one call each. *)
Lemma create_directory_run a dirPath s :
  arg_path a = Some dirPath →
  isPathAllowed dirs cwd dirPath = true →
  run (callTool dirs cwd (Request "create_directory" (Some a))) s =
  let '(r, s1) := exec (Mkdir dirPath) s in
  (fromReply r (λ _, "Directory " +:+ dirPath +:+ " created or already exists"),
   s1).
Proof.
  intros Ha Hp. unfold_handlers. rewrite Ha, checkPath_allowed by done.
  simpl. by destruct (exec _ s) as [[[]|m] s1].
Qed.
Lemma list_directory_run a dirPath s :
  arg_path a = Some dirPath →
  isPathAllowed dirs cwd dirPath = true →
  run (callTool dirs cwd (Request "list_directory" (Some a))) s =
  let '(r, s1) := exec (Readdir dirPath) s in
  (fromReply r (λ entries, jsJoin LF (map formatEntry entries)), s1).
Proof.
  intros Ha Hp. unfold_handlers. rewrite Ha, checkPath_allowed by done.
  simpl. by destruct (exec _ s) as [[entries|m] s1].
Qed.

Lemma get_file_info_run a filePath s :
  arg_path a = Some filePath →
  isPathAllowed dirs cwd filePath = true →
  run (callTool dirs cwd (Request "get_file_info" (Some a))) s =
  let '(r, s1) := exec (Stat filePath) s in
  (fromReply r (λ st, stringify (fileInfo filePath st)), s1).
Proof.
  intros Ha Hp. unfold_handlers. rewrite Ha, checkPath_allowed by done.
  simpl. by destruct (exec _ s) as [[st|m] s1].
Qed.
(** [move_file] on allowed paths, call by call: the test, the directory,
    the rename. *)
Lemma move_file_steps a source destination s :
  arg_source a = Some source →
  arg_destination a = Some destination →
  isPathAllowed dirs cwd source = true →
  isPathAllowed dirs cwd destination = true →
  run (callTool dirs cwd (Request "move_file" (Some a))) s =
  let '(taken, s0) := exec (ExistsSync destination) s in
  if taken : bool then
    (Thrown InvalidRequest
       ("Destination " +:+ destination +:+ " already exists"), s0)
  else
    let '(r, s1) := exec (Mkdir (dirname destination)) s0 in
    match r with
    | Err m => (errorResult m, s1)
    | Ok _ =>
        let '(w, s2) := exec (Rename source destination) s1 in
        (fromReply w (λ _, "Successfully moved " +:+ source +:+ " to " +:+
                            destination), s2)
    end.
Proof.
  intros Hs Hd Hps Hpd. unfold_handlers.
  rewrite Hs, Hd, !checkPath_allowed by done. simpl.
  destruct (exec _ s) as [[] s0]; simpl; [done|].
  destruct (exec _ s0) as [[[]|m] s1]; simpl; [|done].
  by destruct (exec _ s1) as [[[]|m] s2].
Qed.

(** [move_file] to a destination that exists throws [InvalidRequest]
    to the protocol layer; the one call made is [existsSync]. *)
Lemma move_file_exists a source destination s :
  arg_source a = Some source →
  arg_destination a = Some destination →
  isPathAllowed dirs cwd source = true →
  isPathAllowed dirs cwd destination = true →
  (exec (ExistsSync destination) s).1 = true →
  observe (callTool dirs cwd (Request "move_file" (Some a))) s =
  (Thrown InvalidRequest ("Destination " +:+ destination +:+ " already exists"),
   [ExistsSync destination]).
Proof.
  intros Hs Hd Hps Hpd He. unfold observe. unfold_handlers.
  rewrite Hs, Hd, !checkPath_allowed by done. simpl.
  destruct (exec _ s) as [b s1]. simpl in He. by subst b.
Qed.

(** [move_file] to a free destination creates the parent directory of
    the destination and renames. *)
Theorem move_file_run a source destination s :
  arg_source a = Some source →
  arg_destination a = Some destination →
  isPathAllowed dirs cwd source = true →
  isPathAllowed dirs cwd destination = true →
  (exec (ExistsSync destination) s).1 = false →
  run (callTool dirs cwd (Request "move_file" (Some a))) s =
  let s0 := (exec (ExistsSync destination) s).2 in
  let '(r, s1) := exec (Mkdir (dirname destination)) s0 in
  match r with
  | Err m => (errorResult m, s1)
  | Ok _ =>
      let '(w, s2) := exec (Rename source destination) s1 in
      (fromReply w (λ _, "Successfully moved " +:+ source +:+ " to " +:+
                          destination), s2)
  end.
Proof.
  intros Hs Hd Hps Hpd He. unfold_handlers.
  rewrite Hs, Hd, !checkPath_allowed by done. simpl.
  destruct (exec _ s) as [b s0]. simpl in *. subst b. simpl.
  destruct (exec _ s0) as [[[]|m] s1]; simpl; [|done].
  by destruct (exec _ s1) as [[[]|m] s2].
Qed.

(** [write_file] without [content] fails only after the parent
    directory has been created. *)
Lemma write_file_missing_content a filePath s :
  arg_path a = Some filePath →
  arg_content a = None →
  isPathAllowed dirs cwd filePath = true →
  is_Ok (exec (Mkdir (dirname filePath)) s).1 = true →
  observe (callTool dirs cwd (Request "write_file" (Some a))) s =
  (errorResult dataTypeError, [Mkdir (dirname filePath)]).
Proof.
  intros Ha Hc Hp Hm. unfold observe. unfold_handlers.
  rewrite Ha, Hc, checkPath_allowed by done. simpl.
  by destruct (exec _ s) as [[[]|m] s1].
Qed.

(** C31: [search_files] under an allowed directory makes the one call
    [glob], with the pattern put under the directory, and answers with
    those matches that pass [isPathAllowed] themselves: whatever the host
    matches, a path outside the allowed directories is not reported. *)
Theorem search_files_run a dirPath s :
  arg_path a = Some dirPath →
  isPathAllowed dirs cwd dirPath = true →
  let pattern := dirPath +:+ "/**/" +:+ default "undefined" (arg_pattern a) in
  let ignore := default [] (arg_excludePatterns a) in
  observe (callTool dirs cwd (Request "search_files" (Some a))) s =
  (fromReply (exec (Glob pattern ignore) s).1
     (λ matches,
        stringify
          (JArr (map JStr (List.filter (isPathAllowed dirs cwd) matches)))),
   [Glob pattern ignore]).
Proof.
  intros Ha Hp. unfold observe. unfold_handlers.
  rewrite Ha, checkPath_allowed by done. simpl.
  by destruct (exec _ s) as [[matches|m] s1].
Qed.

End Runs.

(** ** [read_multiple_files] *)

Section ReadMultiple.
Context `{JsonText}.
Context (dirs : list string) (cwd : string).

(** What an entry of the results says of its path. *)
Definition entrySpec (r : fileResult) : Prop :=
  if isPathAllowed dirs cwd (resultPath r) then True
  else r = FileError (resultPath r)
             ("Access to " +:+ resultPath r +:+ " is not allowed").

(** What the loop returns from the accumulator [acc] over [paths]. *)
Definition loopSpec (acc : list fileResult) (paths : list string)
    (r : result exn (list fileResult)) : Prop :=
  match r with
  | Ok results =>
      ∃ new, results = acc ++ new ∧ map resultPath new = paths ∧
             Forall entrySpec new
  | Err _ => False
  end.

Lemma readOne_spec acc filePath :
  AllRets (loopSpec acc [filePath]) (readOne dirs cwd acc filePath).
Proof.
  unfold readOne. destruct (isPathAllowed dirs cwd filePath) eqn:Hp; simpl.
  - constructor. intros [c|m]; constructor; eexists [_];
      repeat split; repeat constructor; unfold entrySpec; simpl; by rewrite Hp.
  - constructor. eexists [_]. repeat split; repeat constructor.
    unfold entrySpec; simpl. by rewrite Hp.
Qed.

Lemma forEach_readOne_spec paths acc :
  AllRets (loopSpec acc paths) (forEach (readOne dirs cwd) paths acc).
Proof.
  revert acc; induction paths as [|p paths IH]; intros acc; simpl.
  - constructor. exists []. by rewrite app_nil_r.
  - eapply AllRets_io_bind; [apply readOne_spec|].
    intros [acc'|e] Hr; [|done]. destruct Hr as (new & -> & Hn & Hs).
    eapply AllRets_mono; [|apply IH]. intros [results|e]; [|done].
    intros (new' & -> & <- & Hs'). exists (new ++ new').
    rewrite <- app_assoc, map_app, Hn. by rewrite Forall_app.
Qed.

(** [read_multiple_files] never fails as a whole: it answers with one
    entry per requested path, in the order of the request, and the entry of
    a path outside the allowed directories is the refusal. *)
Theorem read_multiple_files_total a paths :
  arg_paths a = Some paths →
  AllRets (λ r, ∃ results,
             map resultPath results = paths ∧ Forall entrySpec results ∧
             r = okResult (stringify (JArr (map fileResult_json results))))
    (callTool dirs cwd (Request "read_multiple_files" (Some a))).
Proof.
  intros Ha. unfold_handlers. rewrite Ha.
  apply (AllRets_io_bind (λ r, ∃ results,
    map resultPath results = paths ∧ Forall entrySpec results ∧
    r = Ok (stringify (JArr (map fileResult_json results))))).
  - eapply AllRets_io_bind; [apply forEach_readOne_spec|].
    intros [results|e] Hr; [|done]. constructor.
    destruct Hr as (new & -> & Hn & Hs). by exists new.
  - intros r (results & Hn & Hs & ->). constructor. by exists results.
Qed.

End ReadMultiple.

(** ** [read_multiple_files], entry by entry *)

Section ReadEntries.
Context `{JsonText} {St : Type} `{Host St}.
Context (dirs : list string) (cwd : string).
Context (Hreads : ∀ p (s : St), (exec (ReadFile p) s).2 = s).

(** The entry of the results for one path, in the state [s]. *)
Definition readEntry (s : St) (filePath : string) : fileResult :=
  if isPathAllowed dirs cwd filePath then
    match (exec (ReadFile filePath) s).1 with
    | Ok content => FileContent filePath content
    | Err m => FileError filePath ("Error reading file: " +:+ m)
    end
  else FileError filePath ("Access to " +:+ filePath +:+ " is not allowed").

(** One round of the loop adds the entry of its path. *)
Lemma readOne_run acc filePath s :
  run (readOne dirs cwd acc filePath) s = (Ok (acc ++ [readEntry s filePath]), s).
Proof.
  unfold readOne, readEntry.
  destruct (isPathAllowed dirs cwd filePath); simpl; [|done].
  specialize (Hreads filePath s).
  by destruct (exec (ReadFile filePath) s) as [[c|m] s']; simpl in *; subst.
Qed.

Lemma forEach_readOne_run paths acc s :
  run (forEach (readOne dirs cwd) paths acc) s =
  (Ok (acc ++ map (readEntry s) paths), s).
Proof.
  revert acc; induction paths as [|p paths IH]; intros acc; simpl.
  - by rewrite app_nil_r.
  - unfold bind. rewrite run_io_bind, readOne_run. simpl.
    by rewrite IH, <-app_assoc.
Qed.

(** C39: [read_multiple_files] on a host whose reads leave the state as it
    is: the answer lists, in the order of the request, the content of each
    allowed path that could be read, the error of the one that could not,
    and the refusal of each path outside the allowed directories; the
    batch never fails as a whole. *)
Theorem read_multiple_files_run a paths s :
  arg_paths a = Some paths →
  run (callTool dirs cwd (Request "read_multiple_files" (Some a))) s =
  (okResult (stringify (JArr (map fileResult_json (map (readEntry s) paths)))),
   s).
Proof.
  intros Ha. unfold_handlers. rewrite Ha. unfold bind.
  by rewrite !run_io_bind, forEach_readOne_run.
Qed.

End ReadEntries.

(** ** A sibling of an allowed directory *)

(** [write_file] into the sibling [/home/alice-evil] of the allowed directory
    [/home/alice] is not refused: its first call creates the sibling. *)
Example write_file_sibling `{JsonText} :
  ∃ k, callTool ["/home/alice"] "/"
         (Request "write_file"
            (Some (Args (Some "/home/alice-evil/notes.txt") None (Some "x")
                        None None None None None None))) =
       Do (Mkdir "/home/alice-evil") k.
Proof. eexists. reflexivity. Qed.

(** ** The scenario of the specification, on the flat host *)

Definition sandboxCall (toolName : string) (a : args) : io response :=
  callTool (H := nodeJsonText) ["/sandbox"] "/" (Request toolName (Some a)).

Definition sandboxWrite : io response :=
  sandboxCall "write_file"
    (Args (Some "/sandbox/a/b.txt") None (Some "hi") None None None None None
          None).

Definition sandboxRead (p : string) : io response :=
  sandboxCall "read_file" (Args (Some p) None None None None None None None None).

Definition sandboxEdit : io response :=
  sandboxCall "edit_file"
    (Args (Some "/sandbox/a/b.txt") None None (Some [Edit "hi" "bye"]) None
          None None None None).

(** with the one root [/sandbox], reading [/etc/passwd] is refused;
    writing [/sandbox/a/b.txt] creates [/sandbox/a], then the file, and a
    read returns what was written; the edit of [hi] into [bye] leaves [bye]
    in the file, and its diff is one removed and one added line. *)
Theorem sandbox_scenario :
  let s1 := (run sandboxWrite []).2 in
  let s2 := (run sandboxEdit s1).2 in
  sandboxRead "/etc/passwd" =
    Ret (Thrown PermissionDenied "Access to /etc/passwd is not allowed")
  ∧ trace sandboxWrite [] =
    [Mkdir "/sandbox/a"; WriteFile "/sandbox/a/b.txt" "hi"]
  ∧ (run (sandboxRead "/sandbox/a/b.txt") s1).1 = okResult "hi"
  ∧ (run (sandboxRead "/sandbox/a/b.txt") s2).1 = okResult "bye"
  ∧ (run sandboxEdit s1).1 =
    okResult (editReport (H := nodeJsonText) false "/sandbox/a/b.txt"
                [Match "hi" "bye"]
                ("- hi" +:+ LF +:+ "+ bye" +:+ LF)).
Proof. by vm_compute. Qed.

(** ** The theorems at concrete requests, on the flat host *)

Definition aliceStore : store :=
  [("/home/alice/a.txt", "one" +:+ LF +:+ "two");
   ("/home/alice/b.txt", "three")].

Definition aliceCall (toolName : string) (a : args) : io response :=
  callTool (H := nodeJsonText) ["/home/alice"] "/"
    (Request toolName (Some a)).

Lemma read_file_run_witness :
  run (aliceCall "read_file" (pathArgs "/home/alice/a.txt")) aliceStore =
  let '(r, s') := exec (ReadFile "/home/alice/a.txt") aliceStore in
  (fromReply r id, s').
Proof. unfold aliceCall. by apply read_file_run. Defined.

Definition writeArgs (p content : string) : args :=
  Args (Some p) None (Some content) None None None None None None.

Lemma write_file_run_witness :
  run (aliceCall "write_file" (writeArgs "/home/alice/c.txt" "new"))
      aliceStore =
  let '(r, s1) := exec (Mkdir (dirname "/home/alice/c.txt")) aliceStore in
  match r with
  | Err m => (errorResult m, s1)
  | Ok _ =>
      let '(w, s2) := exec (WriteFile "/home/alice/c.txt" "new") s1 in
      (fromReply w (λ _, "Successfully wrote to " +:+ "/home/alice/c.txt"), s2)
  end.
Proof. unfold aliceCall. by apply write_file_run. Defined.

Definition editArgs (p : string) (edits : list edit) (dryRun : option bool)
    : args :=
  Args (Some p) None None (Some edits) dryRun None None None None.

Lemma edit_file_run_witness :
  (run (aliceCall "edit_file"
          (editArgs "/home/alice/a.txt" [Edit "two" "2"] None))
       aliceStore).2 =
  put "/home/alice/a.txt" ("one" +:+ LF +:+ "2") aliceStore.
Proof.
  unfold aliceCall.
  rewrite (edit_file_run ["/home/alice"] "/" _ "/home/alice/a.txt"
             [Edit "two" "2"]) by done.
  reflexivity.
Defined.

Lemma move_file_exists_witness :
  observe (aliceCall "move_file"
             (moveArgs "/home/alice/a.txt" "/home/alice/b.txt")) aliceStore =
  (Thrown InvalidRequest
     ("Destination " +:+ "/home/alice/b.txt" +:+ " already exists"),
   [ExistsSync "/home/alice/b.txt"]).
Proof. unfold aliceCall. eapply move_file_exists; reflexivity. Defined.

Lemma move_file_run_witness :
  (run (aliceCall "move_file"
          (moveArgs "/home/alice/a.txt" "/home/alice/c.txt")) aliceStore).1 =
  okResult ("Successfully moved " +:+ "/home/alice/a.txt" +:+ " to " +:+
            "/home/alice/c.txt").
Proof.
  unfold aliceCall.
  rewrite (move_file_run ["/home/alice"] "/" _ "/home/alice/a.txt"
             "/home/alice/c.txt") by done.
  reflexivity.
Defined.

Lemma write_file_missing_content_witness :
  observe (aliceCall "write_file" (pathArgs "/home/alice/c.txt")) aliceStore =
  (errorResult dataTypeError, [Mkdir (dirname "/home/alice/c.txt")]).
Proof. unfold aliceCall. by apply write_file_missing_content. Defined.

Lemma read_multiple_files_total_witness :
  AllRets (λ r, ∃ results,
             map resultPath results = ["/home/alice/a.txt"; "/etc/passwd"] ∧
             Forall (entrySpec ["/home/alice"] "/") results ∧
             r = okResult (nodeJsonText (JArr (map fileResult_json results))))
    (aliceCall "read_multiple_files"
       (Args None (Some ["/home/alice/a.txt"; "/etc/passwd"]) None None None
             None None None None)).
Proof. unfold aliceCall. by apply read_multiple_files_total. Defined.

Lemma read_multiple_files_run_witness :
  run (aliceCall "read_multiple_files"
         (Args None (Some ["/home/alice/a.txt"; "/etc/passwd"]) None None None
               None None None None)) aliceStore =
  (okResult (nodeJsonText (JArr (map fileResult_json
     [FileContent "/home/alice/a.txt" ("one" +:+ LF +:+ "two");
      FileError "/etc/passwd" "Access to /etc/passwd is not allowed"]))),
   aliceStore).
Proof.
  unfold aliceCall.
  rewrite (read_multiple_files_run ["/home/alice"] "/"
             (λ p s, flatExec_readonly (ReadFile p) s eq_refl) _
             ["/home/alice/a.txt"; "/etc/passwd"]) by done.
  reflexivity.
Defined.

Lemma search_files_run_witness :
  observe (aliceCall "search_files"
             (Args (Some "/home/alice") None None None None None None
                   (Some "*.txt") None)) aliceStore =
  (fromReply (exec (Glob "/home/alice/**/*.txt" []) aliceStore).1
     (λ matches,
        nodeJsonText
          (JArr (map JStr
                   (List.filter (isPathAllowed ["/home/alice"] "/") matches)))),
   [Glob "/home/alice/**/*.txt" []]).
Proof.
  unfold aliceCall.
  apply (search_files_run (H := nodeJsonText) ["/home/alice"] "/"
           (Args (Some "/home/alice") None None None None None None
                 (Some "*.txt") None) "/home/alice"); reflexivity.
Defined.
(* end of Behaviour *)
