(* ===== verification/JsonParse.v ===== *)
(** * Reading the answers back

    Five tools answer with [JSON.stringify(value, null, 2)], which
    [Json.render] models.  This file defines a reader of JSON texts, the
    part of [JSON.parse] that the values of [Json.json] need (strings of
    code units below 256 with their escapes, naturals without a leading
    zero, the three literals, arrays and objects, white space between the
    tokens), and shows that it reads back every text [render] writes.

    - [readString], [readUint] and [readNumber] read a string literal and a
      number; [readString_escape] and [readNumber_decimal] are their round
      trips with [escape] and [decimal].
    - [parseValue] reads a value, [readMembers] and [readBlock] the members
      of an array or an object, [readField] a member of an object; [parse]
      reads a whole text.  The reader takes fuel, the length of the text,
      which is enough: a value has at most as many nodes as its text has
      characters ([jsize_length]).
    - [parseValue_render] and [parse_render]: the text of a value is read
      back as the value, so that two values with the same text are the
      same value ([render_inj]).
    - [callTool_json]: on any host, the answer of a tool of [jsonTools]
      that is not marked as an error is the text of a value, and the
      client recovers the value from it ([readAnswer]).

    The reader is a reference against which [render] is checked; it is not
    code of the server. *)

From Stdlib Require Import Ascii String List Lia NArith.
From Stdlib Require Import DecimalString DecimalPos DecimalN.
From stdpp Require Import base tactics option list strings.
From S2P Require Import Prelude JsString Json Host Server.

(** ** String literals *)

(** The code unit a two-character escape stands for. *)
Definition unescapeChar (e : ascii) : option ascii :=
  if Ascii.eqb e quoteChar then Some quoteChar
  else if Ascii.eqb e "\" then Some "\"%char
  else if Ascii.eqb e "/" then Some "/"%char
  else if Ascii.eqb e "b" then Some "008"%char
  else if Ascii.eqb e "t" then Some "009"%char
  else if Ascii.eqb e "n" then Some "010"%char
  else if Ascii.eqb e "f" then Some "012"%char
  else if Ascii.eqb e "r" then Some "013"%char
  else None.

(** The value of a hexadecimal digit. *)
Definition hexValue (c : ascii) : option N :=
  let n := N_of_ascii c in
  if (48 <=? n)%N && (n <=? 57)%N then Some (n - 48)%N
  else if (97 <=? n)%N && (n <=? 102)%N then Some (n - 87)%N
  else if (65 <=? n)%N && (n <=? 70)%N then Some (n - 55)%N
  else None.

(** One more code unit in front of what was read. *)
Definition consRead (c : ascii) (r : option (string * string))
    : option (string * string) :=
  match r with Some (s, rest) => Some (String c s, rest) | None => None end.

(** The body of a string literal after its opening quote, up to the
    closing quote: the string it denotes and the text after it. *)
Fixpoint readString (s : string) : option (string * string) :=
  match s with
  | EmptyString => None
  | String c rest =>
      if Ascii.eqb c quoteChar then Some ("", rest)
      else if Ascii.eqb c "\" then
        match rest with
        | String "u" (String "0" (String "0" (String h (String l rest')))) =>
            match hexValue h, hexValue l with
            | Some a, Some b =>
                consRead (ascii_of_N (16 * a + b)) (readString rest')
            | _, _ => None
            end
        | String e rest' =>
            match unescapeChar e with
            | Some d => consRead d (readString rest')
            | None => None
            end
        | EmptyString => None
        end
      else if (N_of_ascii c <? 32)%N then None
      else consRead c (readString rest)
  end.

Section Strings.
Implicit Types (s rest : string) (c : ascii).

(** The escape of a code unit is read back as the code unit. *)
Lemma readString_escapeChar c rest :
  readString (escapeChar c +:+ rest) = consRead c (readString rest).
Proof.
  destruct c as [[] [] [] [] [] [] [] []]; reflexivity.
Qed.

Lemma readString_escape s rest :
  readString (escape s +:+ String quoteChar rest) = Some (s, rest).
Proof.
  induction s as [|c s IH]; [done|]. simpl.
  by rewrite str_app_assoc, readString_escapeChar, IH.
Qed.

End Strings.

(** ** Numbers *)

(** The decimal digits at the head of a text, and the text after them. *)
Fixpoint readUint (s : string) : Decimal.uint * string :=
  match s with
  | String c rest =>
      let '(u, r) := readUint rest in
      if Ascii.eqb c "0" then (Decimal.D0 u, r)
      else if Ascii.eqb c "1" then (Decimal.D1 u, r)
      else if Ascii.eqb c "2" then (Decimal.D2 u, r)
      else if Ascii.eqb c "3" then (Decimal.D3 u, r)
      else if Ascii.eqb c "4" then (Decimal.D4 u, r)
      else if Ascii.eqb c "5" then (Decimal.D5 u, r)
      else if Ascii.eqb c "6" then (Decimal.D6 u, r)
      else if Ascii.eqb c "7" then (Decimal.D7 u, r)
      else if Ascii.eqb c "8" then (Decimal.D8 u, r)
      else if Ascii.eqb c "9" then (Decimal.D9 u, r)
      else (Decimal.Nil, s)
  | EmptyString => (Decimal.Nil, s)
  end.

Definition isDigit (c : ascii) : bool :=
  (48 <=? N_of_ascii c)%N && (N_of_ascii c <=? 57)%N.

(** A text that does not go on with a digit. *)
Definition endsNumber (s : string) : bool :=
  match s with String c _ => negb (isDigit c) | EmptyString => true end.

Section Numbers.
Implicit Types (rest : string) (u : Decimal.uint) (n : N).

Lemma readUint_end rest :
  endsNumber rest = true → readUint rest = (Decimal.Nil, rest).
Proof.
  destruct rest as [|c rest]; [done|]. simpl.
  destruct (readUint rest) as [u r].
  destruct c as [[] [] [] [] [] [] [] []]; done.
Qed.

Lemma readUint_string_of_uint u rest :
  endsNumber rest = true →
  readUint (NilEmpty.string_of_uint u +:+ rest) = (u, rest).
Proof.
  intros Hrest. induction u; simpl; rewrite ?IHu; try done.
  by apply readUint_end.
Qed.

Lemma to_uint_not_Nil n : N.to_uint n ≠ Decimal.Nil.
Proof.
  destruct n as [|p]; [done|]. apply DecimalPos.Unsigned.to_uint_nonnil.
Qed.

(** The digits of a number are read back as the number. *)
Lemma readUint_decimal n rest :
  endsNumber rest = true →
  readUint (decimal n +:+ rest) = (N.to_uint n, rest).
Proof.
  intros Hrest. unfold decimal, NilZero.string_of_uint.
  pose proof (to_uint_not_Nil n).
  destruct (N.to_uint n) eqn:E; try done;
    rewrite <-E; by apply readUint_string_of_uint.
Qed.


(** A number is written without a leading zero. *)
Definition readNumber (s : string) : option (json * string) :=
  let '(u, rest) := readUint s in
  if Decimal.uint_eq_dec (Decimal.unorm u) u
  then Some (JNum (N.of_uint u), rest) else None.

Lemma readNumber_decimal n rest :
  endsNumber rest = true → readNumber (decimal n +:+ rest) = Some (JNum n, rest).
Proof.
  intros Hrest. unfold readNumber. rewrite readUint_decimal by done.
  assert (Decimal.unorm (N.to_uint n) = N.to_uint n) as Hn.
  { rewrite <-DecimalN.Unsigned.to_of. by rewrite DecimalN.Unsigned.of_to. }
  rewrite DecimalN.Unsigned.of_to. by destruct (Decimal.uint_eq_dec _ _).
Qed.

End Numbers.

(** ** White space and literals *)

Definition isWs (c : ascii) : bool :=
  let n := N_of_ascii c in
  (n =? 32)%N || (n =? 9)%N || (n =? 10)%N || (n =? 13)%N.

Fixpoint skipWs (s : string) : string :=
  match s with
  | String c rest => if isWs c then skipWs rest else s
  | EmptyString => ""
  end.

(** A text of white space only. *)
Definition blank (s : string) : Prop := skipWs s = "".

Definition readLiteral (s : string) : option (json * string) :=
  if startsWith s "null" then Some (JNull, str_drop 4 s)
  else if startsWith s "true" then Some (JBool true, str_drop 4 s)
  else if startsWith s "false" then Some (JBool false, str_drop 5 s)
  else None.

(** ** Arrays and objects *)

Section Members.
Context {A : Type} (member : string → option (A * string)) (close : ascii).

(** The members of an array or an object after the first was seen to be
    there, up to the closing bracket. *)
Fixpoint readMembers (fuel : nat) (s : string) : option (list A * string) :=
  match fuel with
  | 0 => None
  | S fuel =>
      match member s with
      | Some (x, r) =>
          match skipWs r with
          | String c r' =>
              if Ascii.eqb c close then Some ([x], r')
              else if Ascii.eqb c "," then
                match readMembers fuel r' with
                | Some (xs, r'') => Some (x :: xs, r'')
                | None => None
                end
              else None
          | EmptyString => None
          end
      | None => None
      end
  end.

(** What follows the opening bracket. *)
Definition readBlock (fuel : nat) (s : string) : option (list A * string) :=
  match skipWs s with
  | String c r => if Ascii.eqb c close then Some ([], r) else readMembers fuel s
  | EmptyString => None
  end.

End Members.

(** A member of an object: the key, a colon and the value. *)
Definition readField (value : string → option (json * string)) (s : string)
    : option ((string * json) * string) :=
  match skipWs s with
  | String c r =>
      if Ascii.eqb c quoteChar then
        match readString r with
        | Some (k, r1) =>
            match skipWs r1 with
            | String c1 r2 =>
                if Ascii.eqb c1 ":" then
                  match value r2 with
                  | Some (v, r3) => Some ((k, v), r3)
                  | None => None
                  end
                else None
            | EmptyString => None
            end
        | None => None
        end
      else None
  | EmptyString => None
  end.

(** The value at the head of a text and the text after it.  The fuel bounds
    the depth of the value and the number of members of its blocks. *)
Fixpoint parseValue (fuel : nat) (s : string) : option (json * string) :=
  match fuel with
  | 0 => None
  | S fuel =>
      match skipWs s with
      | String c rest =>
          if Ascii.eqb c quoteChar then
            match readString rest with
            | Some (x, r) => Some (JStr x, r)
            | None => None
            end
          else if Ascii.eqb c "[" then
            match readBlock (parseValue fuel) "]" fuel rest with
            | Some (xs, r) => Some (JArr xs, r)
            | None => None
            end
          else if Ascii.eqb c "{" then
            match readBlock (readField (parseValue fuel)) "}" fuel rest with
            | Some (xs, r) => Some (JObj xs, r)
            | None => None
            end
          else if isDigit c then readNumber (String c rest)
          else readLiteral (String c rest)
      | EmptyString => None
      end
  end.

(** [JSON.parse] on the texts of the values of [json]: one value, and
    white space around it. *)
Definition parse (s : string) : option json :=
  match parseValue (String.length s) s with
  | Some (j, rest) => if String.eqb (skipWs rest) "" then Some j else None
  | None => None
  end.

(** The number of nodes of a value. *)
Fixpoint jsize (j : json) : nat :=
  match j with
  | JArr items => S (list_sum (map jsize items))
  | JObj fields => S (list_sum (map (λ '(_, v), jsize v) fields))
  | _ => 1
  end.

Example parse_object :
  parse ("{ " +:+ quote "a" +:+ " : [1, true , null],"
         +:+ quote "b\" +:+ ":{}}  ") =
  Some (JObj [("a", JArr [JNum 1; JBool true; JNull]); ("b\", JObj [])]).
Proof. by vm_compute. Qed.

Example parse_rejects :
  parse "[1,]" = None ∧ parse "01" = None ∧ parse "[1 2]" = None ∧
  parse "nul" = None ∧ parse "1 1" = None ∧ parse "" = None.
Proof. by vm_compute. Qed.

(** ** What is read back *)

Section WhiteSpace.
Implicit Types (s ws : string) (c : ascii).

Lemma skipWs_blank ws s : blank ws → skipWs (ws +:+ s) = skipWs s.
Proof.
  unfold blank. induction ws as [|c ws IH]; [done|]. simpl.
  by destruct (isWs c).
Qed.

Lemma blank_app ws ws' : blank ws → blank ws' → blank (ws +:+ ws').
Proof. intros H1 H2. unfold blank. by rewrite skipWs_blank. Qed.

Lemma skipWs_token c s : isWs c = false → skipWs (String c s) = String c s.
Proof. intros Hc. simpl. by rewrite Hc. Qed.

Lemma skipWs_skipWs s : skipWs (skipWs s) = skipWs s.
Proof.
  induction s as [|c s IH]; [done|]. simpl.
  destruct (isWs c) eqn:Hc; [done|]. by apply skipWs_token.
Qed.

Lemma parseValue_skipWs fuel s : parseValue fuel (skipWs s) = parseValue fuel s.
Proof. destruct fuel; [done|]. simpl. by rewrite skipWs_skipWs. Qed.

Lemma readField_skipWs value s : readField value (skipWs s) = readField value s.
Proof. unfold readField. by rewrite skipWs_skipWs. Qed.

End WhiteSpace.

Section Blocks.
Context {A : Type} (member : string → option (A * string)) (close : ascii).
Context (text : A → string).
Context (Hclose : close = "]"%char ∨ close = "}"%char).
Context (Hskip : ∀ s, member (skipWs s) = member s).
Context (Hnone : member "" = None).
Context (Hrefuse : ∀ r, member (String close r) = None).
Implicit Types (x : A) (xs : list A) (indent rest : string).

(** The member is read back from its text. *)
Definition reads x : Prop :=
  ∀ r, endsNumber r = true → member (text x +:+ r) = Some (x, r).

Lemma skipWs_close ws rest :
  blank ws → skipWs (ws +:+ String close rest) = String close rest.
Proof.
  intros Hws. rewrite skipWs_blank by done.
  by destruct Hclose as [-> | ->].
Qed.

Lemma member_indented x indent r :
  reads x → blank indent → endsNumber r = true →
  member (newline +:+ (indent +:+ "  " +:+ text x) +:+ r) = Some (x, r).
Proof.
  intros Hx Hind Hr. rewrite <-Hskip, !str_app_assoc.
  rewrite (skipWs_blank newline), (skipWs_blank indent), (skipWs_blank "  ")
    by done.
  by rewrite Hskip, Hx.
Qed.

Lemma readMembers_join indent xs rest fuel :
  xs ≠ [] → length xs ≤ fuel → blank indent → Forall reads xs →
  readMembers member close fuel
    (newline +:+
     jsJoin ("," +:+ newline) (map (λ m, indent +:+ "  " +:+ m) (map text xs))
     +:+ newline +:+ indent +:+ String close rest) = Some (xs, rest).
Proof.
  intros Hne Hlen Hind Hxs. revert fuel Hne Hlen.
  induction Hxs as [|x xs Hx Hxs IH]; intros fuel Hne Hlen; [done|].
  destruct fuel as [|fuel]; [simpl in Hlen; lia|]. cbn [readMembers].
  destruct xs as [|y ys].
  - cbn [map jsJoin]. rewrite member_indented by done.
    rewrite <-str_app_assoc, skipWs_close by by apply blank_app.
    by rewrite Ascii.eqb_refl.
  - change (jsJoin ?sep (map ?f (map text (x :: y :: ys))))
      with ((indent +:+ "  " +:+ text x) +:+ sep +:+
            jsJoin sep (map f (map text (y :: ys)))).
    rewrite (str_app_assoc (indent +:+ _)).
    rewrite member_indented by done.
    rewrite (str_app_assoc ("," +:+ newline)).
    change (("," +:+ newline) +:+ ?s) with (String "," (newline +:+ s)).
    rewrite skipWs_token by done.
    replace (Ascii.eqb "," close) with false by by destruct Hclose as [-> | ->].
    rewrite Ascii.eqb_refl, IH; [done..|]. simpl in *. lia.
Qed.

(** When there are members the block is its members. *)
Lemma readBlock_readMembers fuel s xs rest :
  readMembers member close fuel s = Some (xs, rest) →
  readBlock member close fuel s = Some (xs, rest).
Proof.
  intros Hm. unfold readBlock. destruct fuel as [|fuel]; [done|].
  cbn [readMembers] in Hm. rewrite <-Hskip in Hm.
  destruct (skipWs s) as [|c r] eqn:E; [by rewrite Hnone in Hm|].
  destruct (Ascii.eqb_spec c close) as [->|_]; [by rewrite Hrefuse in Hm|].
  cbn [readMembers]. by rewrite <-Hskip, E.
Qed.

(** The text of a block after its opening bracket is read back. *)
Lemma readBlock_block opening indent xs rest fuel :
  length xs ≤ fuel → blank indent → Forall reads xs →
  ∃ body,
    block (String opening "") (String close "") indent (map text xs) +:+ rest =
    String opening body ∧
    readBlock member close fuel body = Some (xs, rest).
Proof.
  intros Hlen Hind Hxs. destruct xs as [|x xs].
  - exists (String close rest). split; [done|]. unfold readBlock.
    pose proof (skipWs_close "" rest eq_refl) as Hs.
    change ("" +:+ ?s) with s in Hs. by rewrite Hs, Ascii.eqb_refl.
  - exists (newline +:+
            jsJoin ("," +:+ newline)
              (map (λ m, indent +:+ "  " +:+ m) (map text (x :: xs)))
            +:+ newline +:+ indent +:+ String close rest).
    split; [|by apply readBlock_readMembers, readMembers_join].
    unfold block. cbn [map]. by rewrite !str_app_assoc.
Qed.

End Blocks.

(** ** Induction on values and their size *)

Section Induction.
Context (P : json → Prop).
Context (Hnull : P JNull) (Hbool : ∀ b, P (JBool b)) (Hnum : ∀ n, P (JNum n)).
Context (Hstr : ∀ s, P (JStr s)).
Context (Harr : ∀ items, Forall P items → P (JArr items)).
Context (Hobj : ∀ fields, Forall (λ kv, P kv.2) fields → P (JObj fields)).

Fixpoint json_nested_ind (j : json) : P j :=
  match j with
  | JNull => Hnull
  | JBool b => Hbool b
  | JNum n => Hnum n
  | JStr s => Hstr s
  | JArr items =>
      Harr items
        ((fix go l : Forall P l :=
            match l with
            | [] => Forall_nil_2 P
            | x :: l => Forall_cons_2 P x l (json_nested_ind x) (go l)
            end) items)
  | JObj fields =>
      Hobj fields
        ((fix go l : Forall (λ kv, P kv.2) l :=
            match l with
            | [] => Forall_nil_2 _
            | (k, v) :: l =>
                Forall_cons_2 (λ kv, P kv.2) (k, v) l (json_nested_ind v) (go l)
            end) fields)
  end.

End Induction.

Section Sizes.
Context {A : Type}.
Implicit Types (f g : A → nat) (l : list A).

Lemma list_sum_le f g l :
  Forall (λ x, f x ≤ g x) l → list_sum (map f l) ≤ list_sum (map g l).
Proof. induction 1; simpl; lia. Qed.

Lemma list_sum_elem f l x : x ∈ l → f x ≤ list_sum (map f l).
Proof. induction 1; simpl; lia. Qed.

Lemma list_sum_length f l :
  (∀ x, 1 ≤ f x) → length l ≤ list_sum (map f l).
Proof. intros Hf. induction l as [|x l IH]; simpl; [done|]. specialize (Hf x). lia. Qed.

End Sizes.

Lemma jsize_pos j : 1 ≤ jsize j.
Proof. destruct j; simpl; lia. Qed.

Lemma length_jsJoin sep l :
  list_sum (map String.length l) ≤ String.length (jsJoin sep l).
Proof.
  induction l as [|w [|w' l] IH]; simpl in *; [lia..|].
  rewrite !str_length_app. lia.
Qed.

Lemma length_block opening closing indent members :
  String.length opening + list_sum (map String.length members) ≤
  String.length (block opening closing indent members).
Proof.
  unfold block. destruct members as [|m ms]; [rewrite str_length_app; simpl; lia|].
  rewrite !str_length_app.
  pose proof (length_jsJoin ("," +:+ newline)
                (map (λ m, indent +:+ "  " +:+ m) (m :: ms))) as Hj.
  rewrite map_map in Hj.
  pose proof (list_sum_le String.length
                (λ m, String.length (indent +:+ "  " +:+ m)) (m :: ms)) as Hle.
  rewrite Forall_forall in Hle.
  assert (∀ m, String.length m ≤ String.length (indent +:+ "  " +:+ m)) as Hm
    by (intros; rewrite !str_length_app; lia).
  specialize (Hle (λ x _, Hm x)). lia.
Qed.

Lemma decimal_head n : ∃ c s, decimal n = String c s ∧ isDigit c = true.
Proof.
  unfold decimal, NilZero.string_of_uint. pose proof (to_uint_not_Nil n).
  destruct (N.to_uint n); try done; by eexists _, _.
Qed.

(** A value has at most as many nodes as its text has characters. *)
Lemma jsize_length j : ∀ indent, jsize j ≤ String.length (render indent j).
Proof.
  induction j as [| [] | n | s | items IH | fields IH] using json_nested_ind;
    intros indent; cbn [render jsize]; try (simpl; lia).
  - destruct (decimal_head n) as (c & s & -> & _). simpl. lia.
  - etrans; [|apply (length_block "[")]. rewrite map_map. simpl.
    apply le_n_S, list_sum_le. eapply Forall_impl; [done|]. by intros x Hx.
  - etrans; [|apply (length_block "{")]. rewrite map_map. simpl.
    apply le_n_S, list_sum_le. eapply Forall_impl; [done|].
    intros [k v] Hv. simpl in *. rewrite !str_length_app.
    specialize (Hv (indent +:+ "  ")). lia.
Qed.

(** ** Every text that is written is read back *)

Section ReadBack.
Implicit Types (fuel : nat) (indent rest s : string) (j : json).

Lemma parseValue_string fuel s :
  parseValue (S fuel) (String quoteChar s) =
  match readString s with Some (x, r) => Some (JStr x, r) | None => None end.
Proof. reflexivity. Qed.

Lemma parseValue_array fuel s :
  parseValue (S fuel) (String "[" s) =
  match readBlock (parseValue fuel) "]" fuel s with
  | Some (xs, r) => Some (JArr xs, r)
  | None => None
  end.
Proof. reflexivity. Qed.

Lemma parseValue_object fuel s :
  parseValue (S fuel) (String "{" s) =
  match readBlock (readField (parseValue fuel)) "}" fuel s with
  | Some (xs, r) => Some (JObj xs, r)
  | None => None
  end.
Proof. reflexivity. Qed.

Lemma parseValue_digit fuel c s :
  isDigit c = true → parseValue (S fuel) (String c s) = readNumber (String c s).
Proof. destruct c as [[] [] [] [] [] [] [] []]; done. Qed.

Lemma parseValue_nil fuel : parseValue fuel "" = None.
Proof. by destruct fuel. Qed.

Lemma parseValue_close fuel c rest :
  c = "]"%char ∨ c = "}"%char → parseValue fuel (String c rest) = None.
Proof. intros [-> | ->]; by destruct fuel. Qed.

Lemma parseValue_decimal fuel n rest :
  endsNumber rest = true →
  parseValue (S fuel) (decimal n +:+ rest) = Some (JNum n, rest).
Proof.
  intros Hrest. destruct (decimal_head n) as (c & s & E & Hc).
  rewrite <-(readNumber_decimal n rest Hrest), E, str_app_cons.
  by apply parseValue_digit.
Qed.

(** A member of an object is read back when its value is. *)
Lemma readField_field value k vtext v r :
  (∀ s, value (skipWs s) = value s) → value (vtext +:+ r) = Some (v, r) →
  readField value ((quote k +:+ ": " +:+ vtext) +:+ r) = Some ((k, v), r).
Proof.
  intros Hskip Hv. unfold readField, quote.
  rewrite !str_app_cons, skipWs_token, Ascii.eqb_refl by done.
  rewrite !str_app_assoc, str_app_cons, readString_escape.
  change (skipWs _) with (skipWs (String ":" (" " +:+ vtext +:+ r))).
  rewrite skipWs_token, Ascii.eqb_refl by done.
  by rewrite <-Hskip, (skipWs_blank " "), Hskip, Hv by done.
Qed.

Lemma blank_indent indent : blank indent → blank (indent +:+ "  ").
Proof. intros Hind. by apply blank_app. Qed.

(** The text of a value, whatever follows it that is not a digit, is read
    back as the value. *)
Lemma parseValue_render j : ∀ fuel indent rest,
  jsize j ≤ fuel → blank indent → endsNumber rest = true →
  parseValue fuel (render indent j +:+ rest) = Some (j, rest).
Proof.
  induction j as [| [] | n | s | items IH | fields IH] using json_nested_ind;
    intros [|fuel] indent rest Hfuel Hind Hrest;
    try (pose proof (jsize_pos (JArr [])); simpl in Hfuel; lia); try done.
  - by apply parseValue_decimal.
  - cbn [render]. unfold quote.
    rewrite str_app_cons, str_app_assoc, str_app_cons, str_app_nil_l.
    by rewrite parseValue_string, readString_escape.
  - cbn [render jsize] in *. apply le_S_n in Hfuel.
    destruct (readBlock_block (parseValue fuel) "]"
                (render (indent +:+ "  ")) (or_introl eq_refl)
                (parseValue_skipWs fuel) (parseValue_nil fuel)
                (λ r, parseValue_close fuel _ r (or_introl eq_refl))
                "[" indent items rest fuel) as (body & -> & Hb);
      [|done| |by rewrite parseValue_array, Hb].
    + etrans; [apply (list_sum_length jsize), jsize_pos|done].
    + rewrite Forall_forall in IH. apply Forall_forall. intros x Hx r Hr.
      apply IH; [done| |by apply blank_indent|done].
      etrans; [by apply (list_sum_elem jsize)|done].
  - cbn [render jsize] in *. apply le_S_n in Hfuel.
    destruct (readBlock_block (readField (parseValue fuel)) "}"
                (λ '(k, v), quote k +:+ ": " +:+ render (indent +:+ "  ") v)
                (or_intror eq_refl)
                (readField_skipWs (parseValue fuel)) eq_refl (λ r, eq_refl)
                "{" indent fields rest fuel) as (body & -> & Hb);
      [|done| |by rewrite parseValue_object, Hb].
    + etrans; [apply (list_sum_length (λ '(_, v), jsize v))|done].
      intros [k v]. apply jsize_pos.
    + rewrite Forall_forall in IH. apply Forall_forall. intros [k v] Hx r Hr.
      apply readField_field; [apply parseValue_skipWs|].
      apply (IH _ Hx); [|by apply blank_indent|done].
      etrans; [|done]. by apply (list_sum_elem (λ '(_, v), jsize v) _ (k, v)).
Qed.

(** Every text [render] writes is read back as the value it was written
    from. *)
Theorem parse_render j : parse (render "" j) = Some j.
Proof.
  unfold parse. rewrite <-(str_app_nil_r (render "" j)) at 2.
  by rewrite parseValue_render by (done || apply jsize_length).
Qed.

(** Two values with the same text are the same value. *)
Corollary render_inj j j' : render "" j = render "" j' → j = j'.
Proof.
  intros E. apply (inj Some). by rewrite <-!parse_render, E.
Qed.

End ReadBack.

(** ** The answers of the tools *)

(** The tools that answer with [JSON.stringify]. *)
Definition jsonTools : list string :=
  ["read_multiple_files"; "edit_file"; "search_files"; "get_file_info";
   "list_allowed_directories"].

(** What a client reads in a response: the value of the text of a result
    that is not marked as an error. *)
Definition readAnswer (r : response) : option json :=
  match r with
  | Returned res => if isError res then None else parse (text res)
  | Thrown _ _ => None
  end.

(** [Gives Q m]: whatever the host replies, what [m] returns, when it does
    not throw, satisfies [Q]. *)
Definition Gives {A} (Q : A → Prop) (m : prog A) : Prop :=
  AllRets (λ r, match r with Ok a => Q a | Err _ => True end) m.

Lemma AllRets_True {A} (t : io A) : AllRets (λ _, True) t.
Proof. induction t; by constructor. Qed.

Section GivesRules.
Context {A B : Type}.
Implicit Types (Q : B → Prop).

Lemma Gives_ret Q b : Q b → Gives Q (ret b).
Proof. by constructor. Qed.

Lemma Gives_throw Q e : Gives Q (@throw B e).
Proof. by constructor. Qed.

(** What a program gives is what its last part gives. *)
Lemma Gives_bind Q (m : prog A) (f : A → prog B) :
  (∀ a, Gives Q (f a)) → Gives Q (bind m f).
Proof.
  intros Hf. eapply AllRets_io_bind; [apply AllRets_True|].
  intros [a|e] _; [apply Hf|by constructor].
Qed.

End GivesRules.

Ltac gives_step :=
  lazymatch goal with
  | |- Gives _ (bind _ _) => apply Gives_bind; intros ?
  | |- Gives _ (textResult _) => apply Gives_ret
  | |- Gives _ (ret _) => apply Gives_ret
  | |- Gives _ (throw _) => apply Gives_throw
  | |- Gives _ (match ?x with _ => _ end) => destruct x
  | |- Gives _ (let '(_, _) := ?x in _) => destruct x
  end.

Ltac gives := unfold withArgs; repeat (gives_step; cbv zeta).

Section Tools.
Context (dirs : list string) (cwd : string).
Implicit Types (req : request) (a : option args).

(** A text [render] has written. *)
Definition rendered (text : string) : Prop := ∃ j, text = render "" j.

Lemma dispatch_rendered req :
  name req ∈ jsonTools →
  Gives rendered (dispatch (H := nodeJsonText) dirs cwd req).
Proof.
  destruct req as [toolName a]. simpl. intros Hin.
  in_cases Hin; unfold dispatch; simpl;
    unfold read_multiple_files, edit_file, search_files, get_file_info,
      list_allowed_directories; gives; by eexists.
Qed.

(** C26: the answers of the five tools that answer with [JSON.stringify]
    are read back: on any host, whatever it replies, a result of such a
    tool that is not marked as an error is the text of a value, and the
    reader of JSON texts recovers that value from it. *)
Theorem callTool_json req :
  name req ∈ jsonTools →
  AllRets (λ r, match r with
                | Returned (ToolResult text false) =>
                    ∃ j, text = render "" j ∧ readAnswer r = Some j
                | _ => True
                end) (callTool (H := nodeJsonText) dirs cwd req).
Proof.
  intros Hin. eapply AllRets_io_bind; [by apply dispatch_rendered|].
  intros [text|[]] Hr; constructor; [|done..].
  destruct Hr as [j ->]. exists j. split; [done|]. apply parse_render.
Qed.

End Tools.

Lemma callTool_json_witness :
  AllRets (λ r, match r with
                | Returned (ToolResult text false) =>
                    ∃ j, text = render "" j ∧ readAnswer r = Some j
                | _ => True
                end)
    (callTool (H := nodeJsonText) ["/home/alice"] "/"
       (Request "get_file_info" (Some (pathArgs "/home/alice/a.txt")))).
Proof.
  apply callTool_json. unfold jsonTools. rewrite !elem_of_cons. tauto.
Defined.

(** The stat record of a file, read back from the answer. *)
Example get_file_info_readback :
  ∀ st, readAnswer (okResult (render "" (fileInfo "/home/alice/a.txt" st))) =
        Some (fileInfo "/home/alice/a.txt" st).
Proof. intros st. apply parse_render. Qed.

(* end of JsonParse *)
