(* ===== verification/TreeHost.v ===== *)
(** * A host with directories

    [Host.v] leaves open what the operating system does on a call.  This
    file gives one answer, the one the server is written for: a tree of
    directories and files without symbolic links, in which the system
    resolves a path by walking it component by component.  The state is a
    finite map from keys (the names from the root down) to nodes; [walk] is
    the path resolution of the system, which fails when a component it
    passes through does not exist or is a file; the calls of [Host.v] are
    defined on top of it with the error codes of POSIX and the messages of
    Node.

    [fs.mkdir] with [recursive: true] creates the missing directories in
    the order of the components of its argument, [..] included: this is
    what Node's implementation comes to, which retries on the parent text
    whenever the system reports a missing component.  A file in the way
    stops it: with [EEXIST] when the file is what the path names, with
    [ENOTDIR] when it is one of the directories to pass ([mkdirError]).

    Which files a glob pattern matches is a parameter ([matcher]). *)

From Stdlib Require Import Ascii String List Lia NArith.
From stdpp Require Import base tactics option list strings gmap.
From S2P Require Import Prelude JsString NodePath Host.

(** ** The tree *)

Inductive node : Type :=
| File (content : string)
| Dir.

#[export] Instance node_eq_dec : EqDecision node.
Proof. solve_decision. Defined.

(** A tree maps keys to nodes.  A key is the list of names from the root
    down to the node; [[]] is the root, which [emptyTree] holds alone. *)
Definition emptyTree : gmap (list string) node := {[ [] := Dir ]}.

Inductive errno : Type :=
| ENOENT | ENOTDIR | EISDIR | EEXIST | ENOTEMPTY | EINVAL | EBUSY.

#[export] Instance errno_eq_dec : EqDecision errno.
Proof. solve_decision. Defined.

(** The text before the comma in the message of a system error. *)
Definition describe (e : errno) : string :=
  match e with
  | ENOENT => "ENOENT: no such file or directory"
  | ENOTDIR => "ENOTDIR: not a directory"
  | EISDIR => "EISDIR: illegal operation on a directory"
  | EEXIST => "EEXIST: file already exists"
  | ENOTEMPTY => "ENOTEMPTY: directory not empty"
  | EINVAL => "EINVAL: invalid argument"
  | EBUSY => "EBUSY: resource busy or locked"
  end.

(** [error.message] of a failed call on one path. *)
Definition sysError (e : errno) (syscall p : string) : string :=
  describe e +:+ ", " +:+ syscall +:+ " '" +:+ p +:+ "'".

(** [error.message] of a failed call on an open file: it names no path. *)
Definition fdError (e : errno) (syscall : string) : string :=
  describe e +:+ ", " +:+ syscall.

(** [error.message] of a failed [rename]. *)
Definition renameError (e : errno) (source destination : string) : string :=
  describe e +:+ ", rename '" +:+ source +:+ "' -> '" +:+ destination +:+ "'".

(** ** Path resolution *)

(** The components of a path as the system reads it: a relative path starts
    in the working directory. *)
Definition pathComponents (cwd p : string) : list string :=
  if startsWith p "/" then jsSplit "/" p
  else jsSplit "/" cwd ++ jsSplit "/" p.

(** A component that names an entry: not empty, not [.], not [..]. *)
Definition isName (seg : string) : bool :=
  negb (String.eqb seg "") && negb (String.eqb seg ".") &&
  negb (String.eqb seg "..").

(** A component that moves: a name or [..]. *)
Definition moves (seg : string) : bool :=
  negb (String.eqb seg "") && negb (String.eqb seg ".").

(** One component of the walk.  [stack] is the key reached, the last name
    first.  A name must lead to a directory. *)
Definition walkStep (t : gmap (list string) node)
    (acc : result errno (list string)) (seg : string)
    : result errno (list string) :=
  match acc with
  | Err e => Err e
  | Ok stack =>
      let stack' := normStep false stack seg in
      if isName seg then
        match t !! rev stack' with
        | Some Dir => Ok stack'
        | Some (File _) => Err ENOTDIR
        | None => Err ENOENT
        end
      else Ok stack'
  end.

(** The walk through directories along [segs], from the root. *)
Definition walk (t : gmap (list string) node) (segs : list string)
    : result errno (list string) :=
  fold_left (walkStep t) segs (Ok []).

(** The key a path names: the walk through all components but the last,
    which need not exist. *)
Definition locate (t : gmap (list string) node) (segs : list string)
    : result errno (list string) :=
  match rev (List.filter moves segs) with
  | [] => Ok []
  | last :: before =>
      match walk t (rev before) with
      | Err e => Err e
      | Ok stack => Ok (rev (normStep false stack last))
      end
  end.

(** ** The calls *)

(** The entries of a directory. *)
Definition children (t : gmap (list string) node) (k : list string)
    : list dirent :=
  omap (λ '(k', n),
          match rev k' with
          | name :: parent =>
              if decide (rev parent = k)
              then Some (Dirent name (bool_decide (n = Dir)))
              else None
          | [] => None
          end)
       (map_to_list t).

Definition epoch : string := "1970-01-01T00:00:00.000Z".

(** [fs.stat] of a node.  The tree keeps no times: they read as the epoch. *)
Definition nodeStats (n : node) : stats :=
  match n with
  | File content =>
      Stats (N.of_nat (String.length content)) false true epoch epoch epoch
            33188
  | Dir => Stats 4096 true false epoch epoch epoch 16877
  end.

(** One component of [mkdir] with [recursive]: a missing name is created. *)
Definition mkdirStep
    (acc : result errno (list string) * gmap (list string) node) (seg : string)
    : result errno (list string) * gmap (list string) node :=
  match acc with
  | (Err e, t) => (Err e, t)
  | (Ok stack, t) =>
      let stack' := normStep false stack seg in
      if isName seg then
        match t !! rev stack' with
        | Some Dir => (Ok stack', t)
        | Some (File _) => (Err ENOTDIR, t)
        | None => (Ok stack', <[rev stack' := Dir]> t)
        end
      else (Ok stack', t)
  end.

Definition mkdirp (t : gmap (list string) node) (segs : list string)
    : result errno (list string) * gmap (list string) node :=
  fold_left mkdirStep segs (Ok [], t).

(** The code [mkdir] reports when it met a file, on the tree [t] it left:
    [EEXIST] when the file is what the path names, [ENOTDIR] when the file
    is on the way. *)
Definition mkdirError (t : gmap (list string) node) (segs : list string)
    (e : errno) : errno :=
  match locate t segs with
  | Ok k => match t !! k with Some (File _) => EEXIST | _ => e end
  | Err _ => e
  end.

(** Where a key goes when the subtree at [ks] moves to [kd]. *)
Definition rekey (ks kd k : list string) : list string :=
  if decide (ks `prefix_of` k) then kd ++ drop (length ks) k else k.

(** The tree after the subtree at [ks] has replaced what was at [kd]. *)
Definition moveTree (ks kd : list string) (t : gmap (list string) node)
    : gmap (list string) node :=
  list_to_map
    (prod_map (rekey ks kd) id <$>
       map_to_list (filter (λ e, ¬ kd `prefix_of` e.1) t)).

(** [rename(2)] on two located keys. *)
Definition renameKeys (t : gmap (list string) node) (ks kd : list string)
    : result errno unit * gmap (list string) node :=
  match t !! ks with
  | None => (Err ENOENT, t)
  | Some n =>
      if decide (ks = kd) then (Ok (), t)
      else if decide (ks = [] ∨ kd = []) then (Err EBUSY, t)
      else if decide (ks `prefix_of` kd) then (Err EINVAL, t)
      else
        match n, t !! kd with
        | File _, Some Dir => (Err EISDIR, t)
        | Dir, Some (File _) => (Err ENOTDIR, t)
        | Dir, Some Dir =>
            if bool_decide (children t kd = [])
            then (Ok (), moveTree ks kd t)
            else (Err ENOTEMPTY, t)
        | _, _ =>
            match t !! removelast kd with
            | Some Dir => (Ok (), moveTree ks kd t)
            | Some (File _) => (Err ENOTDIR, t)
            | None => (Err ENOENT, t)
            end
        end
  end.

Section Exec.
Context (cwd : string).
Context (matcher : string → list string → gmap (list string) node → list string).

(** The reply of a call that reads the node at a path. *)
Definition onNode {A : Type} (t : gmap (list string) node) (syscall p : string)
    (f : list string → node → result string A) : result string A :=
  match locate t (pathComponents cwd p) with
  | Err e => Err (sysError e syscall p)
  | Ok k =>
      match t !! k with
      | None => Err (sysError ENOENT syscall p)
      | Some n => f k n
      end
  end.

Definition treeExec (c : call) (t : gmap (list string) node)
    : reply c * gmap (list string) node :=
  match c as c' return reply c' * gmap (list string) node with
  | ReadFile p =>
      (onNode t "open" p (λ _ n,
         match n with
         | File content => Ok content
         | Dir => Err (fdError EISDIR "read")
         end), t)
  | WriteFile p content =>
      match locate t (pathComponents cwd p) with
      | Err e => (Err (sysError e "open" p), t)
      | Ok k =>
          match k, t !! k with
          | [], _ | _, Some Dir => (Err (sysError EISDIR "open" p), t)
          | _, _ => (Ok (), <[k := File content]> t)
          end
      end
  | Mkdir p =>
      match mkdirp t (List.filter moves (pathComponents cwd p)) with
      | (Ok _, t') => (Ok (), t')
      | (Err e, t') =>
          (Err (sysError
                  (mkdirError t' (List.filter moves (pathComponents cwd p)) e)
                  "mkdir" p), t')
      end
  | Readdir p =>
      (onNode t "scandir" p (λ k n,
         match n with
         | Dir => Ok (children t k)
         | File _ => Err (sysError ENOTDIR "scandir" p)
         end), t)
  | Rename source destination =>
      match locate t (pathComponents cwd source),
            locate t (pathComponents cwd destination) with
      | Ok ks, Ok kd =>
          match renameKeys t ks kd with
          | (Ok _, t') => (Ok (), t')
          | (Err e, t') => (Err (renameError e source destination), t')
          end
      | Err e, _ | _, Err e => (Err (renameError e source destination), t)
      end
  | Stat p => (onNode t "stat" p (λ _ n, Ok (nodeStats n)), t)
  | ExistsSync p =>
      (match locate t (pathComponents cwd p) with
       | Ok k => bool_decide (is_Some (t !! k))
       | Err _ => false
       end, t)
  | Glob pattern ignore => (Ok (matcher pattern ignore t), t)
  end.

End Exec.

(** The host of a process with working directory [cwd]. *)
Definition treeHost (cwd : string)
    (matcher : string → list string → gmap (list string) node → list string)
    : Host (gmap (list string) node) :=
  treeExec cwd matcher.

(** A matcher for examples: nothing matches. *)
Definition noMatches
    : string → list string → gmap (list string) node → list string :=
  λ _ _ _, [].

(** ** The walk against the lexical resolution *)

Section Lexical.
Implicit Types (t : gmap (list string) node) (segs stack : list string)
  (seg : string).

Lemma moves_false seg stack :
  moves seg = false → normStep false stack seg = stack.
Proof.
  unfold moves, normStep. by destruct (String.eqb seg ""), (String.eqb seg ".").
Qed.

(** Components that do not move can be dropped before normalising. *)
Lemma fold_normStep_filter segs stack :
  fold_left (normStep false) (List.filter moves segs) stack =
  fold_left (normStep false) segs stack.
Proof.
  revert stack; induction segs as [|seg segs IH]; intros stack; [done|].
  simpl. destruct (moves seg) eqn:Hm; simpl; [done|].
  by rewrite moves_false.
Qed.

Lemma walkStep_Ok t stack seg stack' :
  walkStep t (Ok stack) seg = Ok stack' → stack' = normStep false stack seg.
Proof.
  unfold walkStep. destruct (isName seg); [|by intros [= <-]].
  by destruct (t !! _) as [[]|]; intros [= <-].
Qed.

Lemma walkStep_Err t e seg : walkStep t (Err e) seg = Err e.
Proof. done. Qed.

Lemma fold_walkStep_Err t e segs : fold_left (walkStep t) segs (Err e) = Err e.
Proof. by induction segs. Qed.

(** A walk that arrives has followed the lexical normalisation. *)
Lemma fold_walkStep_lexical t segs stack stack' :
  fold_left (walkStep t) segs (Ok stack) = Ok stack' →
  stack' = fold_left (normStep false) segs stack.
Proof.
  revert stack; induction segs as [|seg segs IH]; intros stack;
    cbn [fold_left].
  - by intros [= <-].
  - destruct (walkStep t (Ok stack) seg) as [s|e] eqn:Hs.
    + apply walkStep_Ok in Hs as ->. apply IH.
    + by rewrite fold_walkStep_Err.
Qed.

(** Where the system finds a path is where the lexical normalisation of its
    components says. *)
Lemma locate_lexical t segs k :
  locate t segs = Ok k → k = normalizeSegments false segs.
Proof.
  unfold locate, normalizeSegments. rewrite <-(fold_normStep_filter segs).
  generalize (List.filter moves segs); intros names.
  destruct (rev names) as [|last before] eqn:Hn;
    apply (f_equal (@rev _)) in Hn; rewrite rev_involutive in Hn; subst names.
  { by intros [= <-]. }
  destruct (walk t (rev before)) as [stack|e] eqn:Hw; [|done].
  intros [= <-]. apply fold_walkStep_lexical in Hw as ->. simpl.
  by rewrite fold_left_app.
Qed.

Lemma normalizeSegments_snoc_empty segs :
  normalizeSegments false (segs ++ [""]) = normalizeSegments false segs.
Proof. unfold normalizeSegments. by rewrite fold_left_app. Qed.

(** [path.resolve] in terms of the components the system reads. *)
Lemma resolve_pathComponents cwd p :
  startsWith cwd "/" = true →
  resolve cwd p =
  "/" +:+ jsJoin "/" (normalizeSegments false (pathComponents cwd p)).
Proof.
  intros Hcwd. unfold pathComponents. destruct (startsWith p "/") eqn:Hp.
  - rewrite resolve_absolute_arg by done. unfold normalizeString.
    by rewrite jsSplit_trailing, normalizeSegments_snoc_empty.
  - destruct (decide (p = "")) as [->|Hne].
    + rewrite resolve_empty_arg by done. unfold normalizeString.
      by rewrite jsSplit_trailing.
    + rewrite resolve_relative_arg by done. unfold normalizeString.
      change (cwd +:+ "/" +:+ p +:+ "/")
        with (cwd +:+ String "/" (p +:+ "/")).
      rewrite jsSplit_app, jsSplit_trailing, app_assoc.
      by rewrite normalizeSegments_snoc_empty.
Qed.

End Lexical.

(** ** The invariant of the gmap (list string) node *)

(** The root is a directory, and every entry lies in a directory. *)
Definition wf (t : gmap (list string) node) : Prop :=
  t !! [] = Some Dir ∧
  ∀ k x n, t !! (k ++ [x]) = Some n → t !! k = Some Dir.

Section WellFormed.
Implicit Types (t : gmap (list string) node) (k segs stack : list string)
  (seg : string).

Lemma emptyTree_wf : wf emptyTree.
Proof.
  split; [done|]. intros k x n Hl. unfold emptyTree in Hl.
  apply lookup_singleton_Some in Hl as [E _]. by destruct k.
Qed.

Lemma wf_root t : wf t → t !! [] = Some Dir.
Proof. by intros [? _]. Qed.

Lemma wf_parent t k x n :
  wf t → t !! (k ++ [x]) = Some n → t !! k = Some Dir.
Proof. intros [_ H]. apply H. Qed.

(** The parent of a directory is a directory; the root is its own parent. *)
Lemma wf_tail t stack :
  wf t → t !! rev stack = Some Dir → t !! rev (tail stack) = Some Dir.
Proof.
  intros Hwf. destruct stack as [|x stack]; [done|]. simpl.
  by apply wf_parent.
Qed.

(** A directory has no entry unless it is a directory: writing a file over
    what is not a directory orphans nothing. *)
Lemma wf_insert_File t k content :
  wf t → k ≠ [] → t !! removelast k = Some Dir → t !! k ≠ Some Dir →
  wf (<[k := File content]> t).
Proof.
  intros Hwf Hk Hp Hd. split.
  - rewrite lookup_insert_ne by done. by apply wf_root.
  - intros j x n Hl. apply lookup_insert_Some in Hl as [[-> _]|[_ Hl]].
    + rewrite removelast_last in Hp. rewrite lookup_insert_ne; [done|].
      intros E. by apply (f_equal length) in E; rewrite length_app in E;
        simpl in E; lia.
    + apply (wf_parent _ _ _ _ Hwf) in Hl.
      rewrite lookup_insert_ne; [done|]. by intros ->.
Qed.

Lemma wf_insert_Dir t k :
  wf t → t !! removelast k = Some Dir → wf (<[k := Dir]> t).
Proof.
  intros Hwf Hp. split.
  - destruct (decide (k = [])) as [->|Hk]; [apply lookup_insert_eq|].
    rewrite lookup_insert_ne by done. by apply wf_root.
  - intros j x n Hl. destruct (decide (k = j)) as [<-|Hj].
    { apply lookup_insert_eq. }
    rewrite lookup_insert_ne by done.
    apply lookup_insert_Some in Hl as [[-> _]|[_ H]]; [|by eapply wf_parent].
    by rewrite removelast_last in Hp.
Qed.

Lemma isName_false seg :
  isName seg = false → seg = "" ∨ seg = "." ∨ seg = "..".
Proof.
  unfold isName. destruct (String.eqb_spec seg ""), (String.eqb_spec seg "."),
    (String.eqb_spec seg ".."); auto; done.
Qed.

(** The walk arrives at directories. *)
Lemma normStep_reaches_Dir t stack seg :
  wf t → isName seg = false → t !! rev stack = Some Dir →
  t !! rev (normStep false stack seg) = Some Dir.
Proof.
  intros Hwf [->|[->| ->]]%isName_false Hs; [done..|].
  destruct stack as [|top rest]; [done|]. unfold normStep. simpl String.eqb.
  cbv iota. destruct (String.eqb top ".."); [done|].
  by apply (wf_tail t (top :: rest)).
Qed.

Lemma walkStep_Dir t stack seg stack' :
  wf t → t !! rev stack = Some Dir →
  walkStep t (Ok stack) seg = Ok stack' → t !! rev stack' = Some Dir.
Proof.
  intros Hwf Hs. unfold walkStep. destruct (isName seg) eqn:Hn.
  - by destruct (t !! rev (normStep false stack seg)) as [[]|] eqn:Hl;
      intros [= <-].
  - intros [= <-]. by apply normStep_reaches_Dir.
Qed.

Lemma fold_walkStep_Dir t segs stack stack' :
  wf t → t !! rev stack = Some Dir →
  fold_left (walkStep t) segs (Ok stack) = Ok stack' →
  t !! rev stack' = Some Dir.
Proof.
  intros Hwf. revert stack; induction segs as [|seg segs IH]; intros stack Hs;
    cbn [fold_left].
  - by intros [= <-].
  - destruct (walkStep t (Ok stack) seg) as [s|e] eqn:Hstep.
    + apply IH. by eapply walkStep_Dir.
    + by rewrite fold_walkStep_Err.
Qed.

Lemma normStep_name stack seg :
  isName seg = true → normStep false stack seg = seg :: stack.
Proof.
  unfold isName, normStep. 
  destruct (String.eqb seg ""), (String.eqb seg "."), (String.eqb seg ".."); done.
Qed.

Lemma wf_removelast t k :
  wf t → t !! k = Some Dir → t !! removelast k = Some Dir.
Proof.
  intros Hwf. destruct k as [|x k _] using rev_ind; [done|].
  rewrite removelast_last. by apply wf_parent.
Qed.

Lemma walk_Dir t segs stack :
  wf t → walk t segs = Ok stack → t !! rev stack = Some Dir.
Proof. intros Hwf. apply fold_walkStep_Dir; [done|]. by apply wf_root. Qed.

Lemma locate_parent t segs k :
  wf t → locate t segs = Ok k → t !! removelast k = Some Dir.
Proof.
  intros Hwf. unfold locate.
  destruct (rev (List.filter moves segs)) as [|last before].
  { intros [= <-]. by apply wf_root. }
  destruct (walk t (rev before)) as [stack|e] eqn:Hw; [|done].
  apply walk_Dir in Hw; [|done]. intros [= <-].
  destruct (isName last) eqn:Hn.
  - rewrite normStep_name by done. simpl. by rewrite removelast_last.
  - by apply wf_removelast, normStep_reaches_Dir.
Qed.

Lemma mkdirStep_Err e t seg : mkdirStep (Err e, t) seg = (Err e, t).
Proof. done. Qed.

Lemma fold_mkdirStep_Err e t segs :
  fold_left mkdirStep segs (Err e, t) = (Err e, t).
Proof. by induction segs. Qed.

(** [mkdir] keeps the invariant, and stands in a directory. *)
Lemma mkdirStep_wf t stack seg :
  wf t → t !! rev stack = Some Dir →
  let '(r, t') := mkdirStep (Ok stack, t) seg in
  wf t' ∧ ∀ stack', r = Ok stack' → t' !! rev stack' = Some Dir.
Proof.
  intros Hwf Hs. unfold mkdirStep. destruct (isName seg) eqn:Hn.
  - rewrite normStep_name by done. simpl.
    destruct (t !! (rev stack ++ [seg])) as [[]|] eqn:Hl.
    + done.
    + split; [done|]. by intros ? [= <-].
    + split; [apply wf_insert_Dir; by rewrite ?removelast_last|].
      intros ? [= <-]. apply lookup_insert_eq.
  - split; [done|]. intros ? [= <-]. by apply normStep_reaches_Dir.
Qed.

Lemma fold_mkdirStep_wf t segs stack :
  wf t → t !! rev stack = Some Dir →
  wf (fold_left mkdirStep segs (Ok stack, t)).2.
Proof.
  revert t stack; induction segs as [|seg segs IH]; intros t stack Hwf Hs;
    cbn [fold_left]; [done|].
  pose proof (mkdirStep_wf t stack seg Hwf Hs) as H.
  destruct (mkdirStep (Ok stack, t) seg) as [[s|e] t'].
  - destruct H as [Hwf' Hs']. apply IH; auto.
  - rewrite fold_mkdirStep_Err. by destruct H.
Qed.

Lemma mkdirp_wf t segs : wf t → wf (mkdirp t segs).2.
Proof. intros Hwf. apply fold_mkdirStep_wf; [done|]. by apply wf_root. Qed.

End WellFormed.

(** ** Moving a subtree *)

Section Move.
Implicit Types (t : gmap (list string) node) (k ks kd j : list string).

Lemma rekey_under ks kd r : rekey ks kd (ks ++ r) = kd ++ r.
Proof.
  unfold rekey. rewrite decide_True by apply prefix_app_r, reflexivity.
  by rewrite drop_app_length.
Qed.

Lemma rekey_other ks kd k : ¬ ks `prefix_of` k → rekey ks kd k = k.
Proof. intros H. unfold rekey. by rewrite decide_False. Qed.

(** Outside the destination, two keys do not move to the same place. *)
Lemma rekey_inj ks kd k1 k2 :
  ¬ kd `prefix_of` k1 → ¬ kd `prefix_of` k2 →
  rekey ks kd k1 = rekey ks kd k2 → k1 = k2.
Proof.
  intros H1 H2. unfold rekey.
  destruct (decide (ks `prefix_of` k1)) as [[r1 ->]|],
    (decide (ks `prefix_of` k2)) as [[r2 ->]|];
    rewrite ?drop_app_length; intros E; simplify_list_eq; try done.
  - destruct H2. by eexists.
  - destruct H1. by eexists.
Qed.

Lemma lookup_moveTree ks kd t j n :
  moveTree ks kd t !! j = Some n ↔
  ∃ k, t !! k = Some n ∧ ¬ kd `prefix_of` k ∧ rekey ks kd k = j.
Proof.
  unfold moveTree. rewrite <-elem_of_list_to_map.
  - rewrite list_elem_of_fmap. split.
    + intros ([k n'] & [= -> ->] & Hin). exists k.
      by apply elem_of_map_to_list, map_lookup_filter_Some in Hin as [? ?].
    + intros (k & Hk & Hd & <-). exists (k, n). split; [done|].
      by apply elem_of_map_to_list, map_lookup_filter_Some.
  - rewrite <-list_fmap_compose. apply NoDup_fmap_2_strong.
    + intros [k1 n1] [k2 n2]
        [H1 Hd1]%elem_of_map_to_list%map_lookup_filter_Some
        [H2 Hd2]%elem_of_map_to_list%map_lookup_filter_Some E.
      simpl in *. apply rekey_inj in E as ->; [|done..]. congruence.
    + apply NoDup_map_to_list.
Qed.

Lemma moveTree_wf ks kd t :
  wf t → ks ≠ [] → kd ≠ [] → ¬ ks `prefix_of` kd →
  t !! removelast kd = Some Dir →
  wf (moveTree ks kd t).
Proof.
  intros Hwf Hks Hkd Hsd Hp. split.
  - apply lookup_moveTree. exists []. split; [by apply wf_root|].
    split; [by intros ->%prefix_nil_inv|]. apply rekey_other.
    by intros ->%prefix_nil_inv.
  - intros j x n (k & Hk & Hd & Hr)%lookup_moveTree. apply lookup_moveTree.
    destruct (decide (ks `prefix_of` k)) as [[r ->]|Hn].
    + rewrite rekey_under in Hr. destruct r as [|y r _] using rev_ind.
      * rewrite app_nil_r in Hr. subst kd. rewrite removelast_last in Hp.
        exists j. split; [done|]. split.
        -- intros [z E]. apply (f_equal length) in E.
           rewrite !length_app in E. simpl in E. lia.
        -- apply rekey_other. intros H. apply Hsd. by apply prefix_app_r.
      * rewrite !app_assoc in Hr, Hk, Hd. apply app_inj_tail in Hr as [<- <-].
        exists (ks ++ r). split; [by eapply wf_parent|].
        split; [|apply rekey_under].
        intros H. apply Hd. by apply prefix_app_r.
    + rewrite rekey_other in Hr by done. subst k. exists j.
      split; [by eapply wf_parent|]. split.
      * intros H. apply Hd. by apply prefix_app_r.
      * apply rekey_other. intros H. apply Hn. by apply prefix_app_r.
Qed.

Lemma renameKeys_wf t ks kd : wf t → wf (renameKeys t ks kd).2.
Proof.
  intros Hwf. unfold renameKeys. destruct (t !! ks) as [n|]; [|done].
  repeat case_decide; try done.
  assert (ks ≠ [] ∧ kd ≠ []) as [? ?] by tauto.
  destruct n, (t !! kd) as [[]|] eqn:Hd; try done;
    try (destruct (t !! removelast kd) as [[]|] eqn:Hp; try done;
         by apply moveTree_wf).
  case_bool_decide; [|done]. apply moveTree_wf; try done.
  by apply wf_removelast.
Qed.

End Move.

(** ** The walk after a file is written *)

Section Stable.
Implicit Types (t : gmap (list string) node) (k segs stack : list string)
  (seg : string).

(** The walk passes through directories only: a file written over what is
    not a directory is not on its way. *)
Lemma walkStep_insert_File t k content stack seg stack' :
  t !! k ≠ Some Dir →
  walkStep t (Ok stack) seg = Ok stack' →
  walkStep (<[k := File content]> t) (Ok stack) seg = Ok stack'.
Proof.
  intros Hk. unfold walkStep. destruct (isName seg); [|done].
  destruct (t !! rev (normStep false stack seg)) as [[]|] eqn:Hl; try done.
  intros [= <-]. rewrite lookup_insert_ne; [by rewrite Hl|]. congruence.
Qed.

Lemma fold_walkStep_insert_File t k content segs stack stack' :
  t !! k ≠ Some Dir →
  fold_left (walkStep t) segs (Ok stack) = Ok stack' →
  fold_left (walkStep (<[k := File content]> t)) segs (Ok stack) = Ok stack'.
Proof.
  intros Hk. revert stack; induction segs as [|seg segs IH]; intros stack;
    cbn [fold_left]; [done|].
  destruct (walkStep t (Ok stack) seg) as [s|e] eqn:Hs.
  - erewrite walkStep_insert_File by done. apply IH.
  - by rewrite fold_walkStep_Err.
Qed.

Lemma locate_insert_File t k content segs j :
  t !! k ≠ Some Dir →
  locate t segs = Ok j → locate (<[k := File content]> t) segs = Ok j.
Proof.
  intros Hk. unfold locate, walk.
  destruct (rev (List.filter moves segs)) as [|last before]; [done|].
  destruct (fold_left (walkStep t) (rev before) (Ok [])) as [stack|e] eqn:Hw;
    [|done].
  by erewrite fold_walkStep_insert_File.
Qed.

End Stable.

(** ** Every call keeps the invariant *)

Section ExecFacts.
Context (cwd : string).
Context (matcher : string → list string → gmap (list string) node → list string).
Implicit Types (t : gmap (list string) node) (c : call).

Lemma treeExec_wf c t : wf t → wf (treeExec cwd matcher c t).2.
Proof.
  intros Hwf. destruct c as [p|p content|p|p|s d|p|p|pat ign]; simpl; try done.
  - destruct (locate t (pathComponents cwd p)) as [k|e] eqn:Hk; [|done].
    apply locate_parent in Hk; [|done]. destruct k as [|x k]; [done|].
    destruct (t !! (x :: k)) as [[]|] eqn:Hl; simpl; try done;
      apply wf_insert_File; congruence.
  - pose proof (mkdirp_wf t (List.filter moves (pathComponents cwd p)) Hwf).
    by destruct (mkdirp t _) as [[] t'].
  - destruct (locate t (pathComponents cwd s)) as [ks|e]; [|done].
    destruct (locate t (pathComponents cwd d)) as [kd|e]; [|done].
    pose proof (renameKeys_wf t ks kd Hwf).
    by destruct (renameKeys t ks kd) as [[] t'].
Qed.

(** A call that does not write leaves the tree as it is. *)
Lemma treeExec_readonly c t :
  is_write c = false → (treeExec cwd matcher c t).2 = t.
Proof. by destruct c. Qed.

End ExecFacts.
(* end of TreeHost *)
