(* ===== verification/TreeFacts.v ===== *)
(** * Facts about the host with directories

    What the calls of [TreeHost] leave alone, when they succeed and what
    they have done when they succeeded, stated on the tree:

    - frames: [mkdir] with [recursive] only adds directories
      ([mkdirp_grows]) and, on names, only on its way ([mkdirp_names],
      [mkdirp_made]); [rename] touches nothing that is under neither of
      its keys ([renameKeys_frame]);
    - outcomes: a [rename] that succeeded had a source and has moved it
      ([renameKeys_Ok], [moveTree_destination], [moveTree_source],
      [mkdirp_renameKeys]); where the walk of a path of names arrives
      ([locate_parent_Dir], [locate_names]);
    - success: with no file in the way ([noFileAbove]) [mkdir] with
      [recursive] on names succeeds and the tree afterwards is known entry
      by entry ([mkdirp_Ok], [mkdirp_lookup]); a second [mkdir] changes
      nothing ([mkdirp_again]); [rename] to a free key in a directory
      moves ([renameKeys_free]); the walk then fails only where nothing is
      ([walk_Err], [locate_Err]);
    - failure: a file in the way ([noFileAbove_false]) stops the walk with
      [ENOTDIR] ([walk_file], [locate_file]) and [mkdir] with [recursive]
      before it has made anything ([mkdirp_file]); in a well-formed tree
      what is above an entry is a directory ([wf_parents],
      [wf_noFileAbove]) and nothing is below a file ([wf_below_file]);
    - [readdir] lists the entries one name below the directory
      ([elem_of_children]);
    - inversions of [treeExec] on the calls that succeeded. *)

From Stdlib Require Import Ascii String List Lia NArith.
From stdpp Require Import base tactics option list strings gmap.
From S2P Require Import Prelude JsString NodePath Host TreeHost.

(** ** What a call leaves alone *)

(** [grows k t t']: from [t] to [t'] the entry at [k] is as it was, or was
    not there and is now a directory. *)
Definition grows (k : list string) (t t' : gmap (list string) node) : Prop :=
  t' !! k = t !! k ∨ (t !! k = None ∧ t' !! k = Some Dir).

Section Frames.
Implicit Types (t : gmap (list string) node) (k : list string).

#[export] Instance grows_refl k : Reflexive (grows k).
Proof. by left. Qed.

#[export] Instance grows_trans k : Transitive (grows k).
Proof.
  intros t1 t2 t3 [E1|[E1 E1']] [E2|[E2 E2']]; unfold grows; try congruence.
  - left; congruence.
  - right; split; congruence.
  - right; split; congruence.
Qed.

(** [mkdir] changes nothing that exists: it only adds directories. *)
Lemma mkdirStep_grows k r t seg : grows k t (mkdirStep (r, t) seg).2.
Proof.
  destruct r as [stack|e]; simpl; [|done].
  repeat case_match; simpl; try done.
  destruct (decide (rev (normStep false stack seg) = k)) as [<-|Hk].
  - right. by rewrite lookup_insert_eq.
  - left. by rewrite lookup_insert_ne.
Qed.

Lemma fold_mkdirStep_grows k segs acc :
  grows k acc.2 (fold_left mkdirStep segs acc).2.
Proof.
  revert acc; induction segs as [|seg segs IH]; intros [r t]; simpl; [done|].
  etrans; [apply (mkdirStep_grows k r t seg)|apply IH].
Qed.

Lemma mkdirp_grows k t segs : grows k t (mkdirp t segs).2.
Proof. apply (fold_mkdirStep_grows k segs (Ok [], t)). Qed.

(** [rename] changes nothing outside the source and the destination. *)
Lemma moveTree_frame ks kd t k :
  ¬ ks `prefix_of` k → ¬ kd `prefix_of` k → moveTree ks kd t !! k = t !! k.
Proof.
  intros Hs Hd. apply option_eq; intros n. rewrite lookup_moveTree. split.
  - intros (j & Hj & _ & Hr). unfold rekey in Hr. case_decide; [|by subst].
    destruct Hd. subst k. by apply prefix_app_r.
  - intros Hk. exists k. by rewrite rekey_other.
Qed.

Lemma renameKeys_frame t ks kd k :
  ¬ ks `prefix_of` k → ¬ kd `prefix_of` k →
  (renameKeys t ks kd).2 !! k = t !! k.
Proof.
  intros Hs Hd. unfold renameKeys.
  repeat case_match; simpl; auto using moveTree_frame.
Qed.

End Frames.

(** ** [mkdir] along names *)

Section Names.
Implicit Types (t : gmap (list string) node) (k segs : list string).

(** Along names [mkdir] touches only the keys on its way. *)
Lemma fold_mkdirStep_names segs stack t k :
  forallb isName segs = true → ¬ k `prefix_of` (rev stack ++ segs) →
  (fold_left mkdirStep segs (Ok stack, t)).2 !! k = t !! k.
Proof.
  revert stack t; induction segs as [|seg segs IH]; intros stack t; [done|].
  simpl. intros [Hseg Hsegs]%andb_true_iff Hk.
  rewrite Hseg, normStep_name by done. simpl.
  assert (¬ k `prefix_of` rev (seg :: stack) ++ segs) as Hk'
    by (simpl; by rewrite <-app_assoc).
  assert (rev stack ++ [seg] ≠ k) as Hne.
  { intros <-. apply Hk. rewrite (app_assoc _ [seg] segs).
    by apply prefix_app_r. }
  destruct (t !! (rev stack ++ [seg])) as [[]|]; rewrite ?fold_mkdirStep_Err;
    [done|by apply IH|].
  rewrite IH by done. by rewrite lookup_insert_ne.
Qed.

Lemma mkdirp_names segs t k :
  forallb isName segs = true → ¬ k `prefix_of` segs →
  (mkdirp t segs).2 !! k = t !! k.
Proof. intros. by apply (fold_mkdirStep_names segs []). Qed.

Lemma proper_isName seg : proper_segment seg = true → isName seg = true.
Proof. unfold proper_segment, isName. by intros [? _]%andb_true_iff. Qed.

Lemma proper_names k :
  forallb proper_segment k = true → forallb isName k = true.
Proof. rewrite !forallb_forall. auto using proper_isName. Qed.

Lemma proper_removelast (k : list string) :
  forallb proper_segment k = true →
  forallb proper_segment (removelast k) = true.
Proof. eauto using forallb_prefix, prefix_removelast. Qed.

(** The components of a normal path that move are its segments. *)
Lemma moves_normal cwd segs :
  forallb proper_segment segs = true →
  List.filter moves (pathComponents cwd ("/" +:+ jsJoin "/" segs)) = segs.
Proof.
  intros Hsegs. unfold pathComponents.
  rewrite str_app_cons, str_app_nil_l. simpl startsWith. cbv iota.
  rewrite jsSplit_cons_sep. simpl.
  destruct segs as [|x segs]; [done|].
  rewrite jsSplit_join_proper by done.
  apply (filter_forallb _ proper_segment); [|done].
  intros seg. unfold proper_segment, moves.
  destruct (String.eqb seg ""), (String.eqb seg "."); done.
Qed.

(** In a well-formed tree what lies above an entry is there. *)
Lemma wf_prefix t k j :
  wf t → is_Some (t !! k) → j `prefix_of` k → is_Some (t !! j).
Proof.
  intros Hwf Hk [r ->]. induction r as [|x r IH] using rev_ind.
  - by rewrite app_nil_r in Hk.
  - apply IH. rewrite app_assoc in Hk. destruct Hk as [n Hk].
    eapply wf_parent in Hk; eauto.
Qed.

End Names.

#[export] Hint Resolve proper_names proper_removelast : fsguard.

(** ** What a call that succeeded has done *)

Section Outcomes.
Implicit Types (t : gmap (list string) node) (k ks kd : list string).

(** What [mkdir] changes is a missing key on its way. *)
Lemma mkdirp_made t segs k :
  forallb isName segs = true → (mkdirp t segs).2 !! k ≠ t !! k →
  k `prefix_of` segs ∧ t !! k = None.
Proof.
  intros Hsegs Hk. split.
  - destruct (decide (k `prefix_of` segs)); [done|].
    by rewrite mkdirp_names in Hk.
  - by destruct (mkdirp_grows k t segs) as [|[? _]].
Qed.

(** A directory with an entry has children. *)
Lemma children_nonempty t k x n : t !! (k ++ [x]) = Some n → children t k ≠ [].
Proof.
  intros Hl%elem_of_map_to_list Hnil. unfold children in Hnil.
  assert (Dirent x (bool_decide (n = Dir)) ∈
          omap (λ '(k', n), match rev k' with
                            | name :: parent =>
                                if decide (rev parent = k)
                                then Some (Dirent name (bool_decide (n = Dir)))
                                else None
                            | [] => None
                            end) (map_to_list t)) as Hin.
  { apply list_elem_of_omap. eexists. split; [exact Hl|]. simpl.
    rewrite rev_app_distr. simpl. by rewrite rev_involutive, decide_True. }
  rewrite Hnil in Hin. by apply elem_of_nil in Hin.
Qed.

(** What is above an entry is a directory. *)
Lemma wf_above t k j :
  wf t → is_Some (t !! k) → j `prefix_of` k → j ≠ k → t !! j = Some Dir.
Proof.
  intros Hwf Hk [r ->] Hne. destruct r as [|x r]; [by rewrite app_nil_r in Hne|].
  destruct (wf_prefix t (j ++ x :: r) (j ++ [x]) Hwf Hk) as [n Hn].
  { exists r. by rewrite <-app_assoc. }
  by eapply wf_parent.
Qed.

Lemma moveTree_destination ks kd t :
  ¬ kd `prefix_of` ks → moveTree ks kd t !! kd = t !! ks.
Proof.
  intros Hd. apply option_eq; intros n. rewrite lookup_moveTree. split.
  - intros (k & Hk & Hnk & Hr). unfold rekey in Hr. case_decide as Hp.
    + destruct Hp as [r ->]. rewrite drop_app_length in Hr.
      rewrite <-(app_nil_r kd) in Hr at 2. apply app_inv_head in Hr as ->.
      by rewrite app_nil_r in Hk.
    + subst k. by destruct Hnk.
  - intros Hk. exists ks. repeat split; [done..|].
    pose proof (rekey_under ks kd []) as E. by rewrite !app_nil_r in E.
Qed.

Lemma moveTree_source ks kd t :
  ¬ kd `prefix_of` ks → moveTree ks kd t !! ks = None.
Proof.
  intros Hd. apply eq_None_not_Some. intros [n Hn].
  apply lookup_moveTree in Hn as (k & Hk & Hnk & Hr).
  unfold rekey in Hr. case_decide as Hp.
  - apply Hd. rewrite <-Hr. by apply prefix_app_r.
  - subst k. by destruct Hp.
Qed.

(** When [rename] succeeds the source was there, and it has moved unless
    it is the destination. *)
Lemma renameKeys_Ok t ks kd t' :
  wf t → renameKeys t ks kd = (Ok (), t') →
  is_Some (t !! ks) ∧
  (ks = kd ∧ t' = t ∨
   ¬ ks `prefix_of` kd ∧ ¬ kd `prefix_of` ks ∧ t' = moveTree ks kd t).
Proof.
  intros Hwf Hr. unfold renameKeys in Hr.
  destruct (t !! ks) as [n|] eqn:Hs; [|done]. split; [by eexists|].
  revert Hr. repeat case_decide; [naive_solver|done|done|].
  assert (kd `prefix_of` ks → t !! kd = Some Dir ∧ children t kd ≠ []) as Hp.
  { intros Hp. split; [by eapply wf_above; eauto|].
    destruct Hp as [[|x r] ->]; [by rewrite app_nil_r in *|].
    destruct (wf_prefix t (kd ++ x :: r) (kd ++ [x]) Hwf) as [m Hm];
      [by eauto|exists r; by rewrite <-app_assoc|].
    by eapply children_nonempty. }
  intros Hr. right. split; [done|]. split.
  - intros [Hd Hc]%Hp. rewrite Hd in Hr. destruct n; [done|].
    by rewrite bool_decide_eq_false_2 in Hr.
  - repeat case_match; simplify_eq; done.
Qed.

(** The walk along names that are all there arrives. *)
Lemma walk_names t l :
  (∀ j, j `prefix_of` l → t !! j = Some Dir) →
  forallb isName l = true → walk t l = Ok (rev l).
Proof.
  unfold walk. induction l as [|x l IH] using rev_ind; intros Hdirs Hl;
    [done|].
  rewrite forallb_app in Hl. simpl in Hl.
  apply andb_true_iff in Hl as [Hl [Hx _]%andb_true_iff].
  rewrite fold_left_app, IH by (done || intros j Hj; apply Hdirs;
    by apply prefix_app_r). simpl.
  rewrite Hx, normStep_name by done. simpl. rewrite rev_involutive.
  by rewrite Hdirs, rev_app_distr.
Qed.

(** Where the parent is a directory the system finds the key of a path of
    names, whether the entry exists or not. *)
Lemma locate_parent_Dir t comps k :
  List.filter moves comps = k → forallb isName k = true →
  (∀ j, j `prefix_of` removelast k → t !! j = Some Dir) →
  locate t comps = Ok k.
Proof.
  intros <- Hn Hdirs. unfold locate.
  destruct (List.filter moves comps) as [|x l _] using rev_ind; [done|].
  rewrite rev_app_distr. simpl. rewrite rev_involutive.
  rewrite removelast_last in Hdirs. rewrite forallb_app in Hn. simpl in Hn.
  apply andb_true_iff in Hn as [Hl [Hx _]%andb_true_iff].
  rewrite walk_names by done.
  rewrite normStep_name by done. simpl. by rewrite rev_involutive.
Qed.

(** An entry of a well-formed tree is where the system looks for it. *)
Lemma locate_names t comps segs :
  wf t → List.filter moves comps = segs → forallb isName segs = true →
  is_Some (t !! segs) → locate t comps = Ok segs.
Proof.
  intros Hwf Hc Hn Hs. apply locate_parent_Dir; [done..|]. intros j Hj.
  destruct (decide (j = segs)) as [->|].
  - apply prefix_removelast_nil in Hj as ->. by apply wf_root.
  - eapply wf_above; eauto. etrans; [done|apply prefix_removelast].
Qed.

(** [mkdir] of the parent directory, then [rename] to a key that is free:
    the node moves. *)
Lemma mkdirp_renameKeys t ks kd t' :
  wf t → forallb isName kd = true → t !! kd = None →
  renameKeys (mkdirp t (removelast kd)).2 ks kd = (Ok (), t') →
  is_Some (t !! ks) ∧ t' !! kd = t !! ks ∧ t' !! ks = None.
Proof.
  intros Hwf Hkd Hfree Hr.
  assert (forallb isName (removelast kd) = true) as Hnames
    by eauto using forallb_prefix, prefix_removelast.
  pose proof (λ k, mkdirp_made t (removelast kd) k Hnames) as Hmade.
  apply renameKeys_Ok in Hr as [Hsome Hcases]; [|by apply mkdirp_wf].
  destruct Hcases as [[-> ->]|(Hn1 & Hn2 & ->)].
  - exfalso. destruct (decide ((mkdirp t (removelast kd)).2 !! kd = t !! kd))
      as [Eq|[->%prefix_removelast_nil Hnone]%Hmade].
    + rewrite Eq, Hfree in Hsome. by destruct Hsome.
    + by rewrite (wf_root _ Hwf) in Hnone.
  - assert ((mkdirp t (removelast kd)).2 !! ks = t !! ks) as Eq.
    { destruct (decide ((mkdirp t (removelast kd)).2 !! ks = t !! ks))
        as [|[Hp _]%Hmade]; [done|].
      destruct Hn1. etrans; [exact Hp|apply prefix_removelast]. }
    rewrite moveTree_destination, moveTree_source by done.
    by rewrite <-Eq.
Qed.

End Outcomes.

(** ** When a call succeeds *)

(** No prefix of [k], [k] included, is a file. *)
Definition noFileAbove (t : gmap (list string) node) (k : list string) : bool :=
  forallb (λ n, match t !! take n k with Some (File _) => false | _ => true end)
          (seq 0 (S (length k))).

Section Made.
Implicit Types (t : gmap (list string) node) (k j : list string).

Lemma noFileAbove_spec t k :
  noFileAbove t k = true ↔ ∀ j c, j `prefix_of` k → t !! j ≠ Some (File c).
Proof.
  unfold noFileAbove. rewrite forallb_forall. split.
  - intros Hk j c [r ->] Hj. specialize (Hk (length j)).
    rewrite take_app_length, Hj in Hk. discriminate Hk.
    apply in_seq. rewrite length_app. lia.
  - intros Hk n _. specialize (Hk (take n k)).
    destruct (t !! take n k) as [[c|]|]; [|done..].
    by destruct (Hk c); [apply prefix_take|].
Qed.

Lemma noFileAbove_prefix t k j c :
  noFileAbove t k = true → j `prefix_of` k → t !! j ≠ Some (File c).
Proof. rewrite noFileAbove_spec. eauto. Qed.

Lemma noFileAbove_mono t k j :
  j `prefix_of` k → noFileAbove t k = true → noFileAbove t j = true.
Proof.
  rewrite !noFileAbove_spec. intros Hj Hk i c Hi. apply Hk. by etrans.
Qed.

Lemma grows_Dir k t t' : grows k t t' → t !! k = Some Dir → t' !! k = Some Dir.
Proof. intros [->|[E _]] Hk; [done|congruence]. Qed.

(** One name of [mkdir]: unless a file is in the way the directory is
    there afterwards, and nothing else has changed. *)
Lemma mkdirStep_name stack t seg :
  isName seg = true → (∀ c, t !! (rev stack ++ [seg]) ≠ Some (File c)) →
  ∃ t1, mkdirStep (Ok stack, t) seg = (Ok (seg :: stack), t1) ∧
        t1 !! (rev stack ++ [seg]) = Some Dir ∧
        ∀ k, k ≠ rev stack ++ [seg] → t1 !! k = t !! k.
Proof.
  intros Hseg Hfile. simpl. rewrite Hseg, normStep_name by done. simpl.
  destruct (t !! (rev stack ++ [seg])) as [[c|]|] eqn:E.
  - by destruct (Hfile c).
  - by exists t.
  - eexists. split; [done|]. split; [by rewrite lookup_insert_eq|].
    intros k Hk. by rewrite lookup_insert_ne.
Qed.

Lemma fold_mkdirStep_Ok segs stack t :
  forallb isName segs = true →
  (∀ j c, j `prefix_of` segs → t !! (rev stack ++ j) ≠ Some (File c)) →
  (fold_left mkdirStep segs (Ok stack, t)).1 = Ok (rev segs ++ stack) ∧
  ∀ j, j ≠ [] → j `prefix_of` segs →
    (fold_left mkdirStep segs (Ok stack, t)).2 !! (rev stack ++ j) = Some Dir.
Proof.
  revert stack t; induction segs as [|seg segs IH]; intros stack t.
  { split; [done|]. by intros j Hj ->%prefix_nil_inv. }
  intros [Hseg Hsegs]%andb_true_iff Hfiles.
  destruct (mkdirStep_name stack t seg Hseg) as (t1 & E & Hdir & Hrest).
  { intros c. by apply Hfiles, prefix_cons, prefix_nil. }
  cbn [fold_left]. rewrite E.
  destruct (IH (seg :: stack) t1 Hsegs) as [IH1 IH2].
  { intros [|x j] c Hj; simpl; rewrite <-app_assoc; [simpl; congruence|].
    rewrite Hrest by (intros ?%app_inv_head; done).
    by apply Hfiles, prefix_cons. }
  split; [by rewrite IH1; simpl; rewrite <-app_assoc|].
  intros [|x [|y j]] Hj Hp; [done|..];
    apply prefix_cons_inv_1 in Hp as Hx; apply prefix_cons_inv_2 in Hp;
    subst x.
  - by apply (grows_Dir _ t1), Hdir; apply fold_mkdirStep_grows.
  - specialize (IH2 (y :: j)). simpl in IH2. rewrite <-app_assoc in IH2.
    by apply IH2.
Qed.

(** [mkdir] with [recursive] on names with no file in the way: it succeeds
    and every directory on the way is there. *)
Lemma mkdirp_Ok t segs :
  wf t → forallb isName segs = true → noFileAbove t segs = true →
  (mkdirp t segs).1 = Ok (rev segs) ∧
  ∀ j, j `prefix_of` segs → (mkdirp t segs).2 !! j = Some Dir.
Proof.
  intros Hwf Hsegs Hfiles.
  destruct (fold_mkdirStep_Ok segs [] t Hsegs) as [H1 H2].
  { intros j c. by apply noFileAbove_prefix. }
  split; [by rewrite app_nil_r in H1|]. intros [|x j] Hj; [|by apply H2].
  apply (grows_Dir _ t), wf_root; [apply mkdirp_grows|done].
Qed.

(** The tree after [mkdir] on names, entry by entry. *)
Lemma mkdirp_lookup t segs j :
  wf t → forallb isName segs = true → noFileAbove t segs = true →
  (mkdirp t segs).2 !! j =
  if decide (j `prefix_of` segs) then Some Dir else t !! j.
Proof.
  intros Hwf Hsegs Hfiles. case_decide.
  - by apply mkdirp_Ok.
  - by apply mkdirp_names.
Qed.

(** [mkdir] with [recursive] a second time changes nothing: it walks
    through the directories it made. *)
Lemma fold_mkdirStep_again segs stack t st t' t'' :
  fold_left mkdirStep segs (Ok stack, t) = (Ok st, t') →
  (∀ k, t' !! k = Some Dir → t'' !! k = Some Dir) →
  fold_left mkdirStep segs (Ok stack, t'') = (Ok st, t'').
Proof.
  revert stack t; induction segs as [|seg segs IH]; intros stack t;
    [by intros [= -> ->]|].
  cbn [fold_left]. intros Hfold Hdirs.
  destruct (mkdirStep (Ok stack, t) seg) as [[stack1|e] t1] eqn:E;
    [|by rewrite fold_mkdirStep_Err in Hfold].
  assert (mkdirStep (Ok stack, t'') seg = (Ok stack1, t'')) as ->;
    [|by eapply IH].
  pose proof (fold_mkdirStep_grows (rev (normStep false stack seg)) segs
                (Ok stack1, t1)) as Hg.
  rewrite Hfold in Hg. simpl in E, Hg |- *.
  destruct (isName seg); [|by simplify_eq].
  rewrite (Hdirs (rev (normStep false stack seg))).
  - by destruct (t !! rev (normStep false stack seg)) as [[]|]; simplify_eq.
  - apply (grows_Dir _ _ _ Hg).
    destruct (t !! rev (normStep false stack seg)) as [[]|] eqn:Et;
      simplify_eq; [done|]. by rewrite lookup_insert_eq.
Qed.

Lemma mkdirp_again t segs st :
  (mkdirp t segs).1 = Ok st →
  mkdirp (mkdirp t segs).2 segs = (Ok st, (mkdirp t segs).2).
Proof.
  intros Hst. apply (fold_mkdirStep_again segs [] t st (mkdirp t segs).2);
    [|done].
  rewrite <-Hst. unfold mkdirp. by destruct (fold_left _ _ _).
Qed.

Lemma fold_normStep_names l stack :
  forallb isName l = true → fold_left (normStep false) l stack = rev l ++ stack.
Proof.
  revert stack; induction l as [|x l IH]; intros stack; [done|].
  intros [Hx Hl]%andb_true_iff. simpl. rewrite normStep_name, IH by done.
  by rewrite <-app_assoc.
Qed.

(** With no file in the way the walk fails only where nothing is. *)
Lemma walk_Err t l e :
  forallb isName l = true → noFileAbove t l = true → walk t l = Err e →
  e = ENOENT.
Proof.
  unfold walk. induction l as [|x l IH] using rev_ind; [done|].
  rewrite forallb_app, fold_left_app. simpl.
  intros [Hl [Hx _]%andb_true_iff]%andb_true_iff Hfiles.
  destruct (fold_left (walkStep t) l (Ok [])) as [stack|e'] eqn:Hw.
  - apply fold_walkStep_lexical in Hw as ->.
    rewrite fold_normStep_names, app_nil_r by done. simpl.
    rewrite Hx, normStep_name by done. simpl. rewrite rev_involutive.
    destruct (t !! (l ++ [x])) as [[c|]|] eqn:E; [|done|congruence].
    by destruct (noFileAbove_prefix t (l ++ [x]) (l ++ [x]) c).
  - intros [= <-]. apply IH; [done| |done].
    eapply noFileAbove_mono; [|done]. by apply prefix_app_r.
Qed.

Lemma locate_Err t comps k e :
  List.filter moves comps = k → forallb isName k = true →
  noFileAbove t k = true → locate t comps = Err e → e = ENOENT.
Proof.
  intros <- Hn Hfiles. unfold locate.
  destruct (List.filter moves comps) as [|x l _] using rev_ind; [done|].
  rewrite rev_app_distr. simpl. rewrite rev_involutive.
  rewrite forallb_app in Hn. apply andb_true_iff in Hn as [Hl _].
  destruct (walk t l) as [stack|e'] eqn:Hw; [done|]. intros [= <-].
  apply walk_Err in Hw; [done..|].
  eapply noFileAbove_mono; [|done]. by apply prefix_app_r.
Qed.

(** [rename] of an entry to a free key in a directory moves it. *)
Lemma renameKeys_free t ks kd n :
  t !! ks = Some n → t !! kd = None → t !! removelast kd = Some Dir →
  ¬ ks `prefix_of` kd →
  renameKeys t ks kd = (Ok (), moveTree ks kd t).
Proof.
  intros Hs Hd Hp Hn. unfold renameKeys. rewrite Hs, Hd, Hp.
  repeat case_decide; [congruence| |done|by destruct n].
  destruct_or!; subst; [by destruct Hn; apply prefix_nil|simpl in *; congruence].
Qed.

(** The entries [readdir] lists are the entries of the directory. *)
Lemma elem_of_children t k e :
  e ∈ children t k ↔
  ∃ n, t !! (k ++ [d_name e]) = Some n ∧ d_isDirectory e = bool_decide (n = Dir).
Proof.
  unfold children. rewrite list_elem_of_omap. split.
  - intros ([k' n] & Hin%elem_of_map_to_list & He). exists n.
    destruct (rev k') as [|name parent] eqn:Hr; [done|].
    case_decide as Hp; [|done]. injection He as <-. simpl.
    assert (k' = k ++ [name]) as <-; [|done].
    by rewrite <-Hp, <-(rev_involutive k'), Hr.
  - intros (n & Hn%elem_of_map_to_list & Hd). eexists. split; [exact Hn|].
    simpl. rewrite rev_app_distr. simpl. rewrite rev_involutive, decide_True by done.
    destruct e. simpl in *. by subst.
Qed.

End Made.

(** ** A file in the way *)

Section InTheWay.
Implicit Types (t : gmap (list string) node) (k j l : list string).

(** [mkdir] walks through the directories that are there. *)
Lemma mkdirp_existing t l :
  (∀ j, j `prefix_of` l → t !! j = Some Dir) → forallb isName l = true →
  mkdirp t l = (Ok (rev l), t).
Proof.
  unfold mkdirp. induction l as [|x l IH] using rev_ind; intros Hdirs Hl;
    [done|].
  rewrite forallb_app in Hl. simpl in Hl.
  apply andb_true_iff in Hl as [Hl [Hx _]%andb_true_iff].
  rewrite fold_left_app, IH by (done || intros j Hj; apply Hdirs;
    by apply prefix_app_r).
  simpl. rewrite Hx, normStep_name by done. simpl. rewrite rev_involutive.
  by rewrite Hdirs, rev_app_distr.
Qed.

(** What is above the parent of an entry is a directory. *)
Lemma wf_above_parent t l x j :
  wf t → is_Some (t !! (l ++ [x])) → j `prefix_of` l → t !! j = Some Dir.
Proof.
  intros Hwf Hk Hj. eapply wf_above; [done..| |].
  - etrans; [done|]. by apply prefix_app_r.
  - intros ->. apply prefix_length in Hj. rewrite length_app in Hj.
    simpl in Hj. lia.
Qed.

(** The walk stops at a file with [ENOTDIR]. *)
Lemma walk_file t l j c :
  wf t → forallb isName l = true → j `prefix_of` l →
  t !! j = Some (File c) → walk t l = Err ENOTDIR.
Proof.
  intros Hwf. unfold walk.
  induction l as [|x l IH] using rev_ind; intros Hl Hj Hc.
  { apply prefix_nil_inv in Hj as ->. by rewrite (wf_root _ Hwf) in Hc. }
  rewrite forallb_app in Hl. simpl in Hl.
  apply andb_true_iff in Hl as [Hl [Hx _]%andb_true_iff].
  rewrite fold_left_app.
  apply prefix_snoc_inv in Hj as [->|Hj]; [|by rewrite IH].
  pose proof (walk_names t l) as Hw. unfold walk in Hw.
  rewrite Hw; [|by intros j' Hj'; eapply wf_above_parent; eauto|done].
  simpl. rewrite Hx, normStep_name by done. simpl.
  by rewrite rev_involutive, Hc.
Qed.

(** [mkdir] stops at a file with [ENOTDIR], and has made nothing. *)
Lemma mkdirp_file t l j c :
  wf t → forallb isName l = true → j `prefix_of` l →
  t !! j = Some (File c) → mkdirp t l = (Err ENOTDIR, t).
Proof.
  intros Hwf. unfold mkdirp.
  induction l as [|x l IH] using rev_ind; intros Hl Hj Hc.
  { apply prefix_nil_inv in Hj as ->. by rewrite (wf_root _ Hwf) in Hc. }
  rewrite forallb_app in Hl. simpl in Hl.
  apply andb_true_iff in Hl as [Hl [Hx _]%andb_true_iff].
  rewrite fold_left_app.
  apply prefix_snoc_inv in Hj as [->|Hj]; [|by rewrite IH].
  pose proof (mkdirp_existing t l) as Hw. unfold mkdirp in Hw.
  rewrite Hw; [|by intros j' Hj'; eapply wf_above_parent; eauto|done].
  simpl. rewrite Hx, normStep_name by done. simpl.
  by rewrite rev_involutive, Hc.
Qed.

(** The system does not find what is below a file. *)
Lemma locate_file t comps k j c :
  wf t → List.filter moves comps = k → forallb isName k = true →
  j `prefix_of` removelast k → t !! j = Some (File c) →
  locate t comps = Err ENOTDIR.
Proof.
  intros Hwf <- Hn Hj Hc. unfold locate.
  destruct (List.filter moves comps) as [|x l _] using rev_ind.
  { apply prefix_nil_inv in Hj as ->. by rewrite (wf_root _ Hwf) in Hc. }
  rewrite rev_app_distr. simpl. rewrite rev_involutive.
  rewrite removelast_last in Hj. rewrite forallb_app in Hn.
  apply andb_true_iff in Hn as [Hl _].
  by erewrite walk_file.
Qed.

Lemma filter_moves_names k :
  forallb isName k = true → List.filter moves k = k.
Proof.
  apply filter_forallb. intros seg. unfold isName, moves.
  by intros [? _]%andb_true_iff.
Qed.

(** The directories down to an entry are there. *)
Lemma wf_parents t k j :
  wf t → is_Some (t !! k) → j `prefix_of` removelast k → t !! j = Some Dir.
Proof.
  intros Hwf Hk Hj. destruct k as [|x k _] using rev_ind.
  - apply prefix_nil_inv in Hj as ->. by apply wf_root.
  - rewrite removelast_last in Hj. by eapply wf_above_parent.
Qed.

(** Above an entry there is no file. *)
Lemma wf_noFileAbove t k :
  wf t → is_Some (t !! k) → noFileAbove t (removelast k) = true.
Proof.
  intros Hwf Hk. apply noFileAbove_spec. intros j c Hj Hc.
  destruct k as [|x k _] using rev_ind.
  - apply prefix_nil_inv in Hj as ->. by rewrite (wf_root _ Hwf) in Hc.
  - rewrite removelast_last in Hj.
    by rewrite (wf_above_parent t k x j) in Hc.
Qed.

(** Nothing is below a file. *)
Lemma wf_below_file t k j c :
  wf t → j `prefix_of` removelast k → t !! j = Some (File c) → k ≠ [] →
  t !! k = None.
Proof.
  intros Hwf Hj Hc Hne. apply eq_None_not_Some. intros Hk.
  destruct k as [|x k _] using rev_ind; [done|].
  rewrite removelast_last in Hj.
  by rewrite (wf_above_parent t k x j) in Hc.
Qed.

Lemma noFileAbove_last t k :
  noFileAbove t (removelast k) = true → (∀ c, t !! k ≠ Some (File c)) →
  noFileAbove t k = true.
Proof.
  intros Hp Hk. apply noFileAbove_spec.
  intros j c [->|Hj]%prefix_removelast_inv; [done|].
  by eapply noFileAbove_prefix.
Qed.

(** [mkdir] of the directory of a key leaves the key as it is. *)
Lemma mkdirp_parent_lookup t k :
  forallb isName k = true → (mkdirp t (removelast k)).2 !! k = t !! k.
Proof.
  intros Hk. destruct (decide (k = [])) as [->|Hne]; [done|].
  apply mkdirp_names; [by eapply forallb_prefix, Hk; apply prefix_removelast|].
  by intros ?%prefix_removelast_nil.
Qed.

(** When the test fails a file is in the way. *)
Lemma noFileAbove_false t k :
  noFileAbove t k = false → ∃ j c, j `prefix_of` k ∧ t !! j = Some (File c).
Proof.
  intros (n & _ & Hn)%forallb_false.
  destruct (t !! take n k) as [[c|]|] eqn:E; [|done..].
  exists (take n k), c. split; [apply prefix_take|done].
Qed.

End InTheWay.

Section ExecOutcomes.
Context (cwd : string).
Context (matcher : string → list string → gmap (list string) node → list string).
Implicit Types (t : gmap (list string) node).

Lemma treeExec_ExistsSync_false p t t' :
  treeExec cwd matcher (ExistsSync p) t = (false, t') →
  t' = t ∧ ∀ k, locate t (pathComponents cwd p) = Ok k → t !! k = None.
Proof.
  simpl. intros [= Hb <-]. split; [done|]. intros k Hk. rewrite Hk in Hb.
  apply bool_decide_eq_false in Hb. by apply eq_None_not_Some.
Qed.

Lemma treeExec_Mkdir_Ok p t t' :
  treeExec cwd matcher (Mkdir p) t = (Ok (), t') →
  t' = (mkdirp t (List.filter moves (pathComponents cwd p))).2.
Proof. simpl. destruct (mkdirp _ _) as [[] ?]; by intros [= <-]. Qed.

Lemma treeExec_Rename_Ok s d t t' :
  treeExec cwd matcher (Rename s d) t = (Ok (), t') →
  ∃ ks kd, locate t (pathComponents cwd s) = Ok ks ∧
    locate t (pathComponents cwd d) = Ok kd ∧
    renameKeys t ks kd = (Ok (), t').
Proof.
  simpl. destruct (locate t (pathComponents cwd s)) as [ks|]; [|by destruct (locate _ _)].
  destruct (locate t (pathComponents cwd d)) as [kd|]; [|done].
  destruct (renameKeys t ks kd) as [[[]|] t''] eqn:E; intros [= <-]; eauto.
Qed.

Lemma treeExec_Mkdir_again p t :
  (treeExec cwd matcher (Mkdir p) t).1 = Ok () →
  treeExec cwd matcher (Mkdir p) (treeExec cwd matcher (Mkdir p) t).2 =
  treeExec cwd matcher (Mkdir p) t.
Proof.
  simpl. destruct (mkdirp t _) as [[st|e] t'] eqn:E; [|done]. intros _.
  pose proof (mkdirp_again t _ st ltac:(by rewrite E)) as Ha.
  rewrite E in Ha. simpl in Ha |- *. by rewrite Ha.
Qed.
End ExecOutcomes.
(* end of TreeFacts *)
