(* ===== verification/Sandbox.v ===== *)
(** * The server on a host with directories

    The handlers of [Server] run on the tree of [TreeHost]: what the guard,
    which reads the text of a path, means for the nodes the system reaches
    by walking it.

    - Every request leaves the tree well formed ([callTool_wf]).
    - When the system finds a path at a node, the guard has decided about
      the path of that node ([isPathAllowed_located]): without symbolic
      links the lexical resolution of [path.resolve] and the walk of the
      system agree wherever the walk arrives.
    - Outside the allowed directories a request changes nothing that
      exists; it can create directories there ([callTool_confined]).
    - A request whose path arguments are normal paths changes nothing
      outside at all, when the allowed directories are in the tree
      ([callTool_normal]).
    - The walk of [mkdir] with [recursive] does not only arrive: it creates
      what is missing on its way, and on a path with [..] its way leaves
      the allowed directories ([write_file_excursion]). *)

From Stdlib Require Import Ascii String List Lia NArith.
From stdpp Require Import base tactics option list strings gmap.
From S2P Require Import Prelude JsString NodePath PathGuard Diff Edit Json Host.
From S2P Require Import Server Behaviour TreeHost TreeFacts.

(** The path of a key. *)
Definition pathOf (k : list string) : string := "/" +:+ jsJoin "/" k.

(** The verdict of the guard on the path of a key. *)
Definition allowedKey (allowedDirectories : list string) (k : list string)
    : bool :=
  existsb (λ dir, startsWith (pathOf k) dir) allowedDirectories.

(** The key [path.resolve] gives a path. *)
Definition lexicalKey (cwd p : string) : list string :=
  normalizeSegments false (pathComponents cwd p).

(** [rootsReached dirs t]: what lies above the allowed directories, and is
    not itself allowed, is in the tree. *)
Definition rootsReached (dirs : list string) (t : gmap (list string) node)
    : Prop :=
  ∀ dir k, dir ∈ dirs → k `prefix_of` path_segments dir →
    allowedKey dirs k = false → is_Some (t !! k).

(** [outside dirs t t']: outside the allowed directories [t'] is [t]. *)
Definition outside (dirs : list string) (t t' : gmap (list string) node)
    : Prop :=
  ∀ k, allowedKey dirs k = false → t' !! k = t !! k.

(** From a tree in which the roots are reached to one in which they are,
    the same outside. *)
Definition keeps (dirs : list string) (t t' : gmap (list string) node)
    : Prop :=
  rootsReached dirs t → rootsReached dirs t' ∧ outside dirs t t'.

(** A result that is not marked as an error. *)
Definition succeeded (r : response) : bool :=
  match r with Returned (ToolResult _ false) => true | _ => false end.

Section Located.
Context (cwd : string) (Hcwd : startsWith cwd "/" = true).
Implicit Types (t : gmap (list string) node) (k : list string) (p : string).

Lemma resolve_lexicalKey p : resolve cwd p = pathOf (lexicalKey cwd p).
Proof. by apply resolve_pathComponents. Qed.

Lemma locate_lexicalKey t p k :
  locate t (pathComponents cwd p) = Ok k → k = lexicalKey cwd p.
Proof. apply locate_lexical. Qed.

(** The guard decides by the lexical key. *)
Lemma isPathAllowed_lexicalKey dirs p :
  isPathAllowed dirs cwd p = allowedKey dirs (lexicalKey cwd p).
Proof. unfold isPathAllowed, allowedKey. by rewrite resolve_lexicalKey. Qed.

(** C24: when the system finds the path [p] at the key [k], the verdict of
    [isPathAllowed] on [p] is its verdict on the path of [k]: the guard has
    decided about the node the call will touch. *)
Theorem isPathAllowed_located dirs t p k :
  locate t (pathComponents cwd p) = Ok k →
  isPathAllowed dirs cwd p = allowedKey dirs k.
Proof.
  intros ->%locate_lexicalKey. apply isPathAllowed_lexicalKey.
Qed.

End Located.

(** The directory of a normal path, by segments. *)
Lemma dirname_pathOf segs :
  forallb proper_segment segs = true →
  dirname (pathOf segs) = pathOf (removelast segs).
Proof.
  destruct segs as [|x segs _] using rev_ind; [done|]. intros Hs.
  unfold pathOf. by rewrite dirname_normal, removelast_last.
Qed.

Lemma lexicalKey_pathOf cwd segs :
  forallb proper_segment segs = true → lexicalKey cwd (pathOf segs) = segs.
Proof.
  intros Hs. unfold lexicalKey, pathComponents, pathOf.
  rewrite str_app_cons, str_app_nil_l. simpl startsWith. cbv iota.
  change (String "/" (jsJoin "/" segs)) with ("/" +:+ jsJoin "/" segs).
  by apply path_segments_normal.
Qed.

(** ** What a guarded call can change *)

(** The path of a key is a prefix of the paths of the keys below it. *)
Lemma pathOf_prefix k r : startsWith (pathOf (k ++ r)) (pathOf k) = true.
Proof.
  unfold pathOf. destruct k as [|x k], r as [|y r];
    rewrite ?app_nil_r; auto using startsWith_refl, startsWith_app.
  rewrite jsJoin_app, <-str_app_assoc by done. apply startsWith_app.
Qed.

(** What lies below an allowed key is allowed. *)
Lemma allowedKey_prefix dirs k k' :
  k `prefix_of` k' → allowedKey dirs k = true → allowedKey dirs k' = true.
Proof.
  intros [r ->]. unfold allowedKey. rewrite !existsb_exists.
  intros (dir & Hin & Hs). exists dir. split; [done|].
  eapply startsWith_trans; [apply pathOf_prefix|done].
Qed.

Section Confined.
Context (dirs : list string) (cwd : string) (Hcwd : startsWith cwd "/" = true).
Context (matcher : string → list string → gmap (list string) node → list string).
Implicit Types (t : gmap (list string) node) (k : list string).

Lemma located_allowed t p k :
  isPathAllowed dirs cwd p = true →
  locate t (pathComponents cwd p) = Ok k → allowedKey dirs k = true.
Proof.
  intros Hp ->%locate_lexicalKey. by rewrite <-isPathAllowed_lexicalKey.
Qed.

(** [writeFile] on an allowed path changes nothing outside. *)
Lemma writeFile_outside p content t k :
  isPathAllowed dirs cwd p = true → allowedKey dirs k = false →
  (treeExec cwd matcher (WriteFile p content) t).2 !! k = t !! k.
Proof.
  intros Hp Hk. simpl. destruct (locate _ _) as [j|e] eqn:Hj; [|done].
  assert (j ≠ k)
    by (intros ->; apply (located_allowed _ _ _ Hp) in Hj; congruence).
  repeat case_match; simpl; try done; by rewrite lookup_insert_ne.
Qed.

(** [rename] between allowed paths changes nothing outside. *)
Lemma rename_outside s d t k :
  isPathAllowed dirs cwd s = true → isPathAllowed dirs cwd d = true →
  allowedKey dirs k = false →
  (treeExec cwd matcher (Rename s d) t).2 !! k = t !! k.
Proof.
  intros Hs Hd Hk. simpl.
  destruct (locate _ (pathComponents cwd s)) as [ks|e] eqn:Hks; [|done].
  destruct (locate _ (pathComponents cwd d)) as [kd|e] eqn:Hkd; [|done].
  pose proof (renameKeys_frame t ks kd k) as Hf.
  destruct (renameKeys _ _ _) as [[] ?]; apply Hf; intros Hpre;
    eapply allowedKey_prefix in Hpre; eauto using located_allowed;
    congruence.
Qed.

(** A call on paths that passed the guard leaves every entry outside the
    allowed directories as it was, or creates it as a directory. *)
Lemma treeExec_confined c t k :
  guarded dirs cwd c → allowedKey dirs k = false →
  grows k t (treeExec cwd matcher c t).2.
Proof.
  intros Hc Hk. destruct c as [p|p content|p|p|s d|p|p|pat ign];
    try reflexivity.
  - apply Forall_cons_1 in Hc as [Hp _]. left. by apply writeFile_outside.
  - pose proof (mkdirp_grows k t (List.filter moves (pathComponents cwd p))).
    simpl. by destruct (mkdirp _ _) as [[] ?].
  - apply Forall_cons_1 in Hc as [Hs [Hd _]%Forall_cons_1]. left.
    by apply rename_outside.
Qed.

End Confined.

(** ** Requests on normal paths *)

Lemma allowedKey_false dirs k dir :
  allowedKey dirs k = false → dir ∈ dirs → startsWith (pathOf k) dir = false.
Proof.
  unfold allowedKey. intros Hk Hin. apply not_true_iff_false. intros Hs.
  apply not_true_iff_false in Hk. apply Hk, existsb_exists.
  exists dir. by rewrite <-list_elem_of_In.
Qed.

(** Above a root: a key on the way to an allowed path that no root is a
    prefix of lies on the way to the root. *)
Lemma above_root segs dsegs a :
  forallb proper_segment segs = true → forallb proper_segment dsegs = true →
  startsWith (pathOf segs) (pathOf dsegs) = true →
  a `prefix_of` segs → startsWith (pathOf a) (pathOf dsegs) = false →
  a `prefix_of` dsegs.
Proof.
  intros Hs Hd Hp [r ->] Ha.
  destruct (decide (String.length (pathOf dsegs) ≤ String.length (pathOf a)))
    as [Hle|Hlt].
  { rewrite (startsWith_comparable _ _ _ (pathOf_prefix a r) Hp Hle) in Ha.
    done. }
  destruct a as [|x a]; [apply prefix_nil|].
  destruct r as [|y r]; [by rewrite app_nil_r, Ha in Hp|].
  rewrite forallb_app in Hs. apply andb_true_iff in Hs as [Hs _].
  assert (startsWith (pathOf dsegs) (pathOf (x :: a) +:+ "/") = true) as Hin.
  { apply (startsWith_comparable (pathOf ((x :: a) ++ y :: r))); [done| |].
    - unfold pathOf. rewrite jsJoin_app by done.
      rewrite <-!str_app_assoc. apply startsWith_app.
    - rewrite str_length_app. change (String.length "/") with 1. lia. }
  assert (isPathInside (pathOf (x :: a)) (pathOf dsegs) = true) as Hi.
  { apply isPathInside_text; [by exists (x :: a)|by exists dsegs|auto]. }
  unfold isPathInside, pathOf in Hi.
  by rewrite bool_decide_eq_true, !path_segments_normal in Hi.
Qed.

(** A normal path and its directory, by segments. *)
Lemma made_normal q p :
  normal_path q → p = q ∨ p = dirname q →
  ∃ segs segs', forallb proper_segment segs = true ∧ q = pathOf segs ∧
    segs' `prefix_of` segs ∧ p = pathOf segs'.
Proof.
  intros (segs & Hs & ->) [->| ->]; [by exists segs, segs|].
  destruct segs as [|x segs _] using rev_ind; [by exists [], []|].
  rewrite dirname_normal by done.
  exists (segs ++ [x]), segs. repeat split; [done|by apply prefix_app_r].
Qed.

Section Strict.
Context `{JsonText}.
Context (dirs : list string) (cwd : string) (Hcwd : startsWith cwd "/" = true).
Context (matcher : string → list string → gmap (list string) node → list string).
Context (Hdirs : Forall normal_path dirs).
Implicit Types (t : gmap (list string) node) (k : list string).

(** [planned req c]: the call [c] changes the tree only at paths of the
    request that passed the guard; the directory [mkdir] is asked for is
    such a path or its [dirname]. *)
Definition planned (req : request) (c : call) : Prop :=
  match c with
  | WriteFile p _ => isPathAllowed dirs cwd p = true
  | Rename s d =>
      isPathAllowed dirs cwd s = true ∧ isPathAllowed dirs cwd d = true
  | Mkdir p =>
      ∃ q, q ∈ requestPaths req ∧ isPathAllowed dirs cwd q = true ∧
           (p = q ∨ p = dirname q)
  | _ => True
  end.

Lemma dispatch_planned req : AllCalls (planned req) (dispatch dirs cwd req).
Proof.
  unfold dispatch. repeat case_match; try constructor;
    unfold_handlers; calls; simpl; try done;
    eauto 8 using requestPaths_path, requestPaths_destination.
  apply AllCalls_forEach. intros. unfold readOne. by calls.
Qed.

(** A missing key on the way to an allowed path is allowed, when what
    lies above the roots is there. *)
Lemma missing_allowed t segs k :
  rootsReached dirs t → forallb proper_segment segs = true →
  isPathAllowed dirs cwd (pathOf segs) = true →
  k `prefix_of` segs → allowedKey dirs k = false → is_Some (t !! k).
Proof.
  intros Ht Hs (dir & rest & Hin & Hr)%isPathAllowed_exists Hpre Hk.
  rewrite resolve_normal_id in Hr by (by exists segs).
  destruct (proj1 (Forall_forall _ _) Hdirs dir Hin) as (dsegs & Hd & ->).
  apply (Ht _ k Hin); [|done]. fold (pathOf dsegs).
  unfold pathOf at 1. rewrite path_segments_normal by done.
  apply (above_root segs);
    [done|done| |done|by apply (allowedKey_false dirs)].
  rewrite Hr. apply startsWith_app.
Qed.

(** A planned call of a request on normal paths changes nothing outside. *)
Lemma treeExec_strict req c t k :
  Forall normal_path (requestPaths req) → rootsReached dirs t →
  planned req c → allowedKey dirs k = false →
  (treeExec cwd matcher c t).2 !! k = t !! k.
Proof.
  intros Hreq Ht Hc Hk.
  destruct c as [p|p content|p|p|s d|p|p|pat ign]; try done;
    [by apply (writeFile_outside dirs)| |
     by destruct Hc; apply (rename_outside dirs)].
  destruct Hc as (q & Hq & Hallowed & Hp).
  destruct (made_normal q p) as (segs & segs' & Hs & -> & Hpre & ->);
    [by eapply Forall_forall|done|].
  unfold treeExec, pathOf.
  rewrite moves_normal by eauto using forallb_prefix.
  assert ((mkdirp t segs').2 !! k = t !! k) as E;
    [|by destruct (mkdirp t segs') as [[] ?]].
  destruct (decide (k `prefix_of` segs')) as [Hk'|Hk'].
  - destruct (mkdirp_grows k t segs') as [|[Hnone _]]; [done|].
    destruct (missing_allowed t segs k) as [n Hn]; [done..|by etrans|done|].
    congruence.
  - apply mkdirp_names; [|done].
    eapply forallb_prefix in Hs; [|done].
    by apply proper_names.
Qed.

#[export] Instance keeps_refl : Reflexive (keeps dirs).
Proof. by intros t Ht. Qed.

#[export] Instance keeps_trans : Transitive (keeps dirs).
Proof.
  intros t1 t2 t3 H12 H23 [H2 E12]%H12. destruct (H23 H2) as [H3 E23].
  split; [done|]. intros k Hk. by rewrite E23, E12.
Qed.

Lemma rootsReached_outside t t' :
  rootsReached dirs t → outside dirs t t' → rootsReached dirs t'.
Proof. intros Ht Ho dir k Hin Hpre Hk. rewrite Ho by done. eauto. Qed.

(** In a well-formed tree in which the roots are, what lies above them is. *)
Lemma roots_reached t :
  wf t → Forall (λ dir, is_Some (t !! path_segments dir)) dirs →
  rootsReached dirs t.
Proof.
  intros Hwf Hroots dir k Hin Hpre _. eapply wf_prefix; [done| |done].
  by apply (proj1 (Forall_forall _ _) Hroots).
Qed.

(** A call of a request on normal paths keeps the tree outside. *)
Lemma treeExec_keeps req c t :
  Forall normal_path (requestPaths req) → planned req c →
  keeps dirs t (treeExec cwd matcher c t).2.
Proof.
  intros Hreq Hc Ht.
  assert (outside dirs t (treeExec cwd matcher c t).2)
    by (intros j Hj; by apply (treeExec_strict req)).
  eauto using rootsReached_outside.
Qed.

End Strict.

(** ** Runs on the tree *)

Section TreeRuns.
Context `{JsonText}.
Context (dirs : list string) (cwd : string).
Context (matcher : string → list string → gmap (list string) node → list string).
Implicit Types (t : gmap (list string) node) (req : request).

#[local] Instance sandboxHost : Host (gmap (list string) node) :=
  treeHost cwd matcher.

(** Every request leaves the tree well formed: the root is a
    directory and every entry lies in a directory, whatever the request and
    whether it succeeds or fails. *)
Lemma callTool_wf req t :
  wf t → wf (run (callTool dirs cwd req) t).2.
Proof. apply run_invariant. intros c s. apply treeExec_wf. Qed.

(** Outside the allowed directories a request changes nothing that
    exists: whatever the tool and its arguments, an entry whose path has no
    allowed directory as a prefix is after the request what it was before,
    or was not there and is now a directory (one that [mkdir] with
    [recursive] made on its way).  No file outside is created, written,
    moved or removed. *)
Lemma callTool_confined req t k :
  startsWith cwd "/" = true →
  allowedKey dirs k = false →
  grows k t (run (callTool dirs cwd req) t).2.
Proof.
  intros Hcwd Hk.
  apply AllCalls_run_rel with (P := guarded dirs cwd); try apply _.
  - intros c s Hc. by apply (treeExec_confined dirs cwd Hcwd matcher).
  - apply AllCalls_catchAll, dispatch_guarded.
Qed.

(** C3: a request on normal paths changes nothing outside the allowed
    directories.  When the allowed directories are in the tree, as the
    start-up checked, and the path arguments of the request are absolute
    and in normal form, every entry whose path has no allowed directory as
    a prefix is after the request what it was before: nothing outside is
    created, changed or removed. *)
Theorem callTool_normal req t k :
  startsWith cwd "/" = true → Forall normal_path dirs →
  Forall normal_path (requestPaths req) →
  wf t → Forall (λ dir, is_Some (t !! path_segments dir)) dirs →
  allowedKey dirs k = false →
  (run (callTool dirs cwd req) t).2 !! k = t !! k.
Proof.
  intros Hcwd Hdirs Hreq Hwf Hroots Hk.
  assert (keeps dirs t (run (callTool dirs cwd req) t).2) as Hkeeps.
  { apply AllCalls_run_rel with (P := planned dirs cwd req); try apply _.
    - intros c s Hc. by apply (treeExec_keeps dirs cwd Hcwd matcher Hdirs req).
    - apply AllCalls_catchAll, dispatch_planned. }
  apply Hkeeps; [by apply roots_reached|done].
Qed.

End TreeRuns.

(** ** Examples on a small tree *)

(** The directories [/home] and [/home/alice], nothing else. *)
Definition homeTree : gmap (list string) node :=
  (mkdirp emptyTree ["home"; "alice"]).2.

Definition homeHost : Host (gmap (list string) node) := treeHost "/" noMatches.

Definition homeCall (toolName : string) (a : args) : io response :=
  callTool (H := nodeJsonText) ["/home/alice"] "/"
    (Request toolName (Some a)).

(** The same with the file [a.txt] in [/home/alice]. *)
Definition aliceTree : gmap (list string) node :=
  <[["home"; "alice"; "a.txt"] := File ("a" +:+ LF +:+ "b")]> homeTree.

Lemma aliceTree_wf : wf aliceTree.
Proof.
  apply wf_insert_File; [apply mkdirp_wf, emptyTree_wf|done..].
Qed.

(** A path the guard accepts, since it resolves to [/home/alice/notes.txt],
    and whose text passes through [/home/bob]. *)
Definition excursion : string := "/home/alice/../bob/../alice/notes.txt".

(** [write_file] on that path writes the file inside the allowed directory,
    and on its way creates the directory [/home/bob] beside it. *)
Example write_file_excursion :
  let t := (run (H := homeHost)
              (homeCall "write_file" (writeArgs excursion "x")) homeTree).2 in
  isPathAllowed ["/home/alice"] "/" excursion = true ∧
  homeTree !! ["home"; "bob"] = None ∧
  t !! ["home"; "bob"] = Some Dir ∧
  t !! ["home"; "alice"; "notes.txt"] = Some (File "x") ∧
  allowedKey ["/home/alice"] ["home"; "bob"] = false.
Proof. by vm_compute. Qed.

Lemma isPathAllowed_located_witness :
  isPathAllowed ["/home/alice"] "/" excursion =
  allowedKey ["/home/alice"] ["home"; "alice"; "notes.txt"].
Proof.
  apply (isPathAllowed_located "/" eq_refl ["/home/alice"]
           (<[["home"; "bob"] := Dir]> homeTree)).
  by vm_compute.
Defined.

Lemma callTool_wf_witness :
  wf (run (H := homeHost)
        (homeCall "write_file" (writeArgs excursion "x")) homeTree).2.
Proof.
  apply (callTool_wf (H := nodeJsonText)). apply mkdirp_wf, emptyTree_wf.
Defined.

Lemma callTool_confined_witness :
  grows ["home"; "bob"] homeTree
    (run (H := homeHost)
       (homeCall "write_file" (writeArgs excursion "x")) homeTree).2.
Proof.
  apply (callTool_confined (H := nodeJsonText) ["/home/alice"] "/" noMatches);
    reflexivity.
Defined.

Lemma callTool_normal_witness :
  (run (H := homeHost)
     (homeCall "write_file" (writeArgs "/home/alice/a/notes.txt" "x"))
     homeTree).2 !! ["home"; "bob"] = homeTree !! ["home"; "bob"].
Proof.
  apply (callTool_normal (H := nodeJsonText) ["/home/alice"] "/" noMatches);
    [reflexivity | apply normal_home_alice | | apply mkdirp_wf, emptyTree_wf
    | | reflexivity ].
  - repeat constructor. by apply normal_pathb_spec.
  - constructor; [exists Dir; by vm_compute|constructor].
Defined.

(* end of Sandbox *)
