(* ===== verification/Search.v ===== *)
(** * What the filter of [search_files] removes

    [search_files] hands the pattern [dirPath/**/pattern] to glob and puts
    every match through [isPathAllowed] again (lines 518-524).  The guard
    reads the text of a path: a match whose text continues the searched
    directory by names passes it ([isPathAllowed_below]), whatever the
    entries on the way are.  So the filter removes nothing that glob found
    below the directory ([search_files_below]); what it can remove are
    matches that glob reports from elsewhere, which happens when the
    pattern climbs with [..] or when the directory is the empty text, for
    which glob searches from the root ([search_files_empty_path]). *)

From Stdlib Require Import Ascii String List Lia NArith.
From stdpp Require Import base tactics option list strings gmap.
From S2P Require Import Prelude JsString NodePath PathGuard Diff Edit Json Host.
From S2P Require Import Server Behaviour TreeHost TreeFacts Sandbox.

(** The path of what lies [rel] below the directory [dirPath], as glob
    reports a match of a pattern that starts with [dirPath]. *)
Definition below (dirPath : string) (rel : list string) : string :=
  dirPath +:+ "/" +:+ jsJoin "/" rel.

Section Below.
Context (cwd : string) (Hcwd : startsWith cwd "/" = true).
Implicit Types (p : string) (rel : list string).

Lemma startsWith_below p rel :
  p ≠ "" → startsWith (below p rel) "/" = startsWith p "/".
Proof.
  intros Hp. destruct p as [|c p]; [done|]. unfold below.
  rewrite str_app_cons. unfold startsWith. simpl. by destruct (Ascii.eqb c "/").
Qed.

Lemma jsSplit_below p rel :
  forallb proper_segment rel = true →
  List.filter moves (jsSplit "/" (below p rel)) =
  List.filter moves (jsSplit "/" p) ++ rel.
Proof.
  intros Hrel. unfold below.
  change ("/" +:+ jsJoin "/" rel) with (String "/" (jsJoin "/" rel)).
  rewrite jsSplit_app, List.filter_app. f_equal.
  destruct rel as [|x rel]; [done|].
  rewrite jsSplit_join_proper by done.
  apply (filter_forallb _ proper_segment); [|done].
  intros seg. unfold proper_segment, moves.
  destruct (String.eqb seg ""), (String.eqb seg "."); done.
Qed.

(** The key of a path below a directory is below the key of the
    directory. *)
Lemma lexicalKey_below p rel :
  p ≠ "" → forallb proper_segment rel = true →
  lexicalKey cwd (below p rel) = lexicalKey cwd p ++ rel.
Proof.
  intros Hp Hrel. unfold lexicalKey, normalizeSegments.
  rewrite <-(fold_normStep_filter (pathComponents cwd (below p rel))),
    <-(fold_normStep_filter (pathComponents cwd p)).
  unfold pathComponents.
  rewrite startsWith_below by done.
  assert (List.filter moves
            (if startsWith p "/" then jsSplit "/" (below p rel)
             else jsSplit "/" cwd ++ jsSplit "/" (below p rel)) =
          List.filter moves
            (if startsWith p "/" then jsSplit "/" p
             else jsSplit "/" cwd ++ jsSplit "/" p) ++ rel) as ->.
  { destruct (startsWith p "/"); rewrite ?List.filter_app, jsSplit_below by done;
      by rewrite ?app_assoc. }
  by rewrite fold_left_app, fold_normStep_proper, rev_app_distr, rev_involutive.
Qed.

End Below.

(** ** The filter *)

Section Filter.
Context `{JsonText} {St : Type} `{Host St}.
Context (dirs : list string) (cwd : string) (Hcwd : startsWith cwd "/" = true).
Implicit Types (a : args) (s : St) (dirPath : string) (rel : list string).

(** The second check of [search_files] reads the text of a match: a
    match that continues the searched directory by names passes
    [isPathAllowed] whenever the directory did. *)
Lemma isPathAllowed_below dirPath rel :
  dirPath ≠ "" → forallb proper_segment rel = true →
  isPathAllowed dirs cwd dirPath = true →
  isPathAllowed dirs cwd (below dirPath rel) = true.
Proof.
  intros Hp Hrel. rewrite !isPathAllowed_lexicalKey, lexicalKey_below by done.
  apply allowedKey_prefix. by apply prefix_app_r.
Qed.

(** [matchesBelow dirPath matches]: every match lies below the directory. *)
Definition matchesBelow dirPath (matches : list string) : Prop :=
  Forall (λ m, ∃ rel, forallb proper_segment rel = true ∧ m = below dirPath rel)
         matches.

Lemma filter_matchesBelow dirPath matches :
  dirPath ≠ "" → isPathAllowed dirs cwd dirPath = true →
  matchesBelow dirPath matches →
  List.filter (isPathAllowed dirs cwd) matches = matches.
Proof.
  intros Hp Hd Hm. induction Hm as [|m matches (rel & Hrel & ->) _ IH]; [done|].
  simpl. by rewrite isPathAllowed_below, IH.
Qed.

(** C32: when glob reports matches below the searched directory,
    [search_files] answers with all of them: the filter through
    [isPathAllowed] has removed none, whatever the entries on the way to
    a match are. *)
Theorem search_files_below a dirPath matches s :
  arg_path a = Some dirPath → dirPath ≠ "" →
  isPathAllowed dirs cwd dirPath = true →
  (exec (Glob (dirPath +:+ "/**/" +:+ default "undefined" (arg_pattern a))
           (default [] (arg_excludePatterns a))) s).1 = Ok matches →
  matchesBelow dirPath matches →
  (run (callTool dirs cwd (Request "search_files" (Some a))) s).1 =
  okResult (stringify (JArr (map JStr matches))).
Proof.
  intros Ha Hne Hp Hg Hm. unfold_handlers.
  rewrite Ha, checkPath_allowed by done. simpl.
  destruct (exec _ s) as [[matches'|m] s1]; simpl in *; [|done].
  injection Hg as ->. by rewrite (filter_matchesBelow dirPath).
Qed.

End Filter.

(** ** On the small tree of [Sandbox] *)

(** A request of [search_files]. *)
Definition searchArgs (p pattern : string) : args :=
  Args (Some p) None None None None None None (Some pattern) None.

(** A glob that finds one entry through a link in [/home/alice] and one
    entry by climbing out of it. *)
Definition linkMatches
    : string → list string → gmap (list string) node → list string :=
  λ _ _ _, ["/home/alice/link/passwd"; "/home/alice/../bob/passwd"].

(** The filter removes the match that climbs and keeps the one through
    the link, whatever the link points to. *)
Example search_files_link :
  (run (H := treeHost "/" linkMatches)
     (homeCall "search_files" (searchArgs "/home/alice" "passwd"))
     homeTree).1 =
  okResult (render "" (JArr [JStr "/home/alice/link/passwd"])).
Proof. by vm_compute. Qed.

(** With the empty text as the directory, which the guard resolves to the
    working directory, glob is asked to search from the root. *)
Example search_files_empty_path :
  isPathAllowed ["/home/alice"] "/home/alice" "" = true ∧
  trace (H := treeHost "/home/alice" noMatches)
    (callTool (H := nodeJsonText) ["/home/alice"] "/home/alice"
       (Request "search_files" (Some (searchArgs "" "passwd"))))
    homeTree =
  [Glob "/**/passwd" []].
Proof. by vm_compute. Qed.

(** A glob that finds one entry, through a link in [/home/alice]. *)
Definition linkMatch
    : string → list string → gmap (list string) node → list string :=
  λ _ _ _, [below "/home/alice" ["link"; "passwd"]].

Lemma search_files_below_witness :
  (run (H := treeHost "/" linkMatch)
     (homeCall "search_files" (searchArgs "/home/alice" "passwd"))
     homeTree).1 =
  okResult (render "" (JArr (map JStr [below "/home/alice" ["link"; "passwd"]]))).
Proof.
  apply (search_files_below (H := nodeJsonText) (H0 := treeHost "/" linkMatch)
           ["/home/alice"] "/" eq_refl
           (searchArgs "/home/alice" "passwd") "/home/alice");
    [reflexivity|done|reflexivity|reflexivity|].
  repeat constructor. by exists ["link"; "passwd"].
Defined.
(* end of Search *)
