(* ===== verification/Effects.v ===== *)
(** * What the handlers do to the tree

    The effect of the handlers of [Server] on the host with directories of
    [TreeHost].

    For paths in normal form, on a well-formed tree, what each handler
    answers and the tree it leaves, under conditions on the tree alone:
    [read_file_reads], [read_file_missing], [write_file_writes],
    [edit_file_edits], [create_directory_creates], [list_directory_lists],
    [move_file_succeeds], [get_file_info_stats].

    For any path, from the answer alone:
    - what [write_file] wrote, [read_file] reads ([write_read]); what
      [edit_file] applied, [read_file] reads ([edit_read]);
    - [move_file] moves: after a move that succeeded the destination holds
      what the source held, and the source is gone ([move_file_moves]);
    - [create_directory] is idempotent ([create_directory_idempotent]).

    The scenario of the specification runs on the tree
    ([sandbox_scenario_tree]). *)

From Stdlib Require Import Ascii String List Lia NArith.
From stdpp Require Import base tactics option list strings gmap.
From S2P Require Import Prelude JsString NodePath PathGuard Diff Edit Json Host.
From S2P Require Import Server Behaviour TreeHost TreeFacts Sandbox.

(** ** The calls on paths in normal form *)

Section Calls.
Context (cwd : string).
Context (matcher : string → list string → gmap (list string) node → list string).
Implicit Types (t : gmap (list string) node) (k : list string).

(** [mkdir] with [recursive] on a normal path with no file in the way. *)
Lemma treeExec_Mkdir_names k t :
  wf t → forallb proper_segment k = true → noFileAbove t k = true →
  treeExec cwd matcher (Mkdir (pathOf k)) t = (Ok (), (mkdirp t k).2).
Proof.
  intros Hwf Hk Hfiles. unfold treeExec, pathOf.
  rewrite moves_normal by done.
  destruct (mkdirp_Ok t k) as [E _]; [done| |done|].
  { by apply proper_names. }
  by destruct (mkdirp t k) as [[] ?]; simplify_eq/=.
Qed.

(** [writeFile] in a directory, on a key that is not a directory. *)
Lemma treeExec_WriteFile_names k content t :
  forallb proper_segment k = true →
  (∀ j, j `prefix_of` removelast k → t !! j = Some Dir) →
  t !! k ≠ Some Dir → k ≠ [] →
  treeExec cwd matcher (WriteFile (pathOf k) content) t =
  (Ok (), <[k := File content]> t).
Proof.
  intros Hk Hdirs Hfile Hne. unfold treeExec, pathOf.
  rewrite (locate_parent_Dir t _ k); [|by apply moves_normal| |done].
  - by destruct k, (t !! _) as [[]|].
  - by apply proper_names.
Qed.

(** [existsSync] of a key that is free. *)
Lemma treeExec_ExistsSync_free k t :
  forallb proper_segment k = true → t !! k = None →
  treeExec cwd matcher (ExistsSync (pathOf k)) t = (false, t).
Proof.
  intros Hk Hfree. unfold treeExec.
  destruct (locate t _) as [k'|] eqn:E; [|done].
  apply (locate_lexicalKey cwd) in E as ->.
  by rewrite lexicalKey_pathOf, Hfree.
Qed.

(** [rename] of an entry to a free key in a directory. *)
Lemma treeExec_Rename_names ks kd n t :
  forallb proper_segment ks = true → forallb proper_segment kd = true →
  wf t → t !! ks = Some n → t !! kd = None →
  t !! removelast kd = Some Dir → ¬ ks `prefix_of` kd →
  treeExec cwd matcher (Rename (pathOf ks) (pathOf kd)) t =
  (Ok (), moveTree ks kd t).
Proof.
  intros Hks Hkd Hwf Hs Hd Hp Hn. unfold treeExec, pathOf.
  assert (∀ k, forallb proper_segment k = true → forallb isName k = true)
    as Hnames by (intros k; rewrite !forallb_forall; auto using proper_isName).
  rewrite (locate_names t _ ks), (locate_parent_Dir t _ kd);
    try (by apply moves_normal); eauto.
  - by erewrite renameKeys_free.
  - intros j Hj. destruct (decide (j = removelast kd)) as [->|]; [done|].
    eapply wf_above; eauto.
Qed.

(** A call that reads the node of a path of names reads the entry. *)
Lemma onNode_names {A} t syscall k n (f : list string → node → result string A) :
  wf t → forallb proper_segment k = true → t !! k = Some n →
  onNode cwd t syscall (pathOf k) f = f k n.
Proof.
  intros Hwf Hk Hn. unfold onNode, pathOf.
  rewrite (locate_names t _ k); [by rewrite Hn|done|by apply moves_normal| |by eexists].
  by apply proper_names.
Qed.

(** A call that reads the node of a path of names where nothing is, and
    no file on the way, fails with [ENOENT]. *)
Lemma onNode_missing {A} t syscall k (f : list string → node → result string A) :
  forallb proper_segment k = true → noFileAbove t k = true → t !! k = None →
  onNode cwd t syscall (pathOf k) f = Err (sysError ENOENT syscall (pathOf k)).
Proof.
  intros Hk Hfiles Hn. unfold onNode.
  destruct (locate t _) as [k'|e] eqn:E.
  - apply (locate_lexicalKey cwd) in E as ->.
    by rewrite lexicalKey_pathOf, Hn.
  - apply (locate_Err _ _ k) in E as ->; [done|by apply moves_normal| |done].
    by apply proper_names.
Qed.

End Calls.

(** ** The handlers *)

Section Effects.
Context `{JsonText}.
Context (dirs : list string) (cwd : string).
Context (matcher : string → list string → gmap (list string) node → list string).
Implicit Types (t : gmap (list string) node) (req : request).

(** A request served on the tree: the answer and the tree afterwards. *)
Definition treeRun (req : request) (t : gmap (list string) node)
    : response * gmap (list string) node :=
  run (H := treeHost cwd matcher) (callTool dirs cwd req) t.

(** [tree_exec] shows the calls of a run as calls on the tree. *)
Ltac tree_exec := unfold exec, treeHost; simpl.

(** C25: what [write_file] wrote, [read_file] reads: after a write that
    reported success, a read of the same path returns the content. *)
Theorem write_read a filePath content t :
  arg_path a = Some filePath →
  arg_content a = Some content →
  isPathAllowed dirs cwd filePath = true →
  (treeRun (Request "write_file" (Some a)) t).1 =
    okResult ("Successfully wrote to " +:+ filePath) →
  (treeRun (Request "read_file" (Some a))
       (treeRun (Request "write_file" (Some a)) t).2).1 =
    okResult content.
Proof.
  intros Ha Hc Hp. unfold treeRun. unfold_handlers. rewrite Ha, Hc, checkPath_allowed by done.
  simpl. tree_exec.
  destruct (mkdirp t _) as [[s|e] t1]; simpl; [|by intros E; inversion E].
  tree_exec.
  destruct (locate t1 (pathComponents cwd filePath)) as [k|e] eqn:Hk; simpl;
    [|by intros E; inversion E].
  destruct k as [|x k]; simpl; [by intros E; inversion E|].
  destruct (t1 !! (x :: k)) as [[]|] eqn:Hl; simpl;
    try (by intros E; inversion E);
    intros _; unfold onNode;
    erewrite locate_insert_File by (done || congruence);
    by rewrite lookup_insert_eq.
Qed.

(** What [edit_file] reported as applied, [read_file] reads: after an
    edit that succeeded, the file holds the content the edits produce from
    what it held. *)
Lemma edit_read a filePath edits original t :
  arg_path a = Some filePath →
  arg_edits a = Some edits →
  arg_dryRun a = None →
  isPathAllowed dirs cwd filePath = true →
  (treeRun (Request "read_file" (Some a)) t).1 =
    okResult original →
  succeeded (treeRun (Request "edit_file" (Some a)) t).1
    = true →
  (treeRun (Request "read_file" (Some a))
       (treeRun (Request "edit_file" (Some a)) t).2).1 =
    okResult (applyEdits original edits).1.
Proof.
  intros Ha He Hd Hp. unfold treeRun. unfold_handlers.
  rewrite Ha, He, Hd, checkPath_allowed by done. simpl. tree_exec.
  unfold onNode.
  destruct (locate t (pathComponents cwd filePath)) as [k|e] eqn:Hk; simpl;
    [|by intros E; inversion E].
  destruct (t !! k) as [[content|]|] eqn:Hl; simpl;
    try (by intros E; inversion E).
  intros [= ->]. unfold editContent.
  destruct (applyEdits original edits) as [newContent results]. simpl.
  tree_exec. rewrite Hk. destruct k as [|x k]; simpl; [done|].
  rewrite Hl. simpl. intros _. tree_exec. unfold onNode.
  erewrite locate_insert_File by (done || congruence).
  by rewrite lookup_insert_eq.
Qed.

(** [move_file] moves: after a move to a normal path that reported
    success, the destination holds what the source held, which was there,
    and the source is gone. *)
Lemma move_file_moves a source destination t :
  arg_source a = Some source → arg_destination a = Some destination →
  normal_path destination →
  isPathAllowed dirs cwd source = true →
  isPathAllowed dirs cwd destination = true →
  wf t →
  succeeded (treeRun (Request "move_file" (Some a)) t).1
    = true →
  let t' := (treeRun (Request "move_file" (Some a)) t).2 in
  is_Some (t !! lexicalKey cwd source) ∧
  t' !! lexicalKey cwd destination = t !! lexicalKey cwd source ∧
  t' !! lexicalKey cwd source = None.
Proof.
  intros Hs Hd Hn Hps Hpd Hwf. unfold treeRun. simpl.
  rewrite (move_file_steps dirs cwd a source destination) by done.
  destruct (exec (ExistsSync destination) t) as [[] t0] eqn:E0; [done|].
  destruct (exec (Mkdir _) t0) as [[[]|m] t1] eqn:E1; [|done].
  destruct (exec (Rename _ _) t1) as [[[]|m] t2] eqn:E2; [|done].
  intros _.
  apply (treeExec_ExistsSync_false cwd matcher) in E0 as [-> Hfree].
  apply (treeExec_Mkdir_Ok cwd matcher) in E1.
  apply (treeExec_Rename_Ok cwd matcher) in E2 as (ks & kd & Hks & Hkd & Hr).
  apply (locate_lexicalKey cwd) in Hks as ->.
  apply (locate_lexicalKey cwd) in Hkd as ->.
  destruct Hn as (kd & Hkd & ->). fold (pathOf kd) in *.
  rewrite lexicalKey_pathOf in Hr |- * by done.
  rewrite dirname_pathOf in E1 by done. unfold pathOf in E1.
  rewrite moves_normal in E1
    by auto using proper_removelast.
  assert (forallb isName kd = true) as Hnames
    by auto using proper_names.
  subst t1. simpl. apply mkdirp_renameKeys; [done..| |done].
  destruct (t !! kd) eqn:E; [|done]. rewrite <-E.
  apply Hfree, locate_names; [done| |done|by rewrite E].
  unfold pathOf. by apply moves_normal.
Qed.

(** ** What each handler does, on paths in normal form *)

(** [write_file] writes: on a well-formed tree, to an allowed normal
    path that is not a directory and has no file on its way, it succeeds;
    afterwards the file holds the content, the directories on the way
    exist, and every other entry is what it was. *)
Lemma write_file_writes a k content t :
  arg_path a = Some (pathOf k) → arg_content a = Some content →
  forallb proper_segment k = true →
  isPathAllowed dirs cwd (pathOf k) = true →
  wf t → noFileAbove t (removelast k) = true → t !! k ≠ Some Dir →
  let out := treeRun (Request "write_file" (Some a)) t in
  out.1 = okResult ("Successfully wrote to " +:+ pathOf k) ∧
  ∀ j, out.2 !! j =
       if decide (j = k) then Some (File content)
       else if decide (j `prefix_of` removelast k) then Some Dir
       else t !! j.
Proof.
  intros Ha Hc Hk Hp Hwf Hfiles Hfile. unfold treeRun. simpl.
  assert (forallb proper_segment (removelast k) = true) as Hk'
    by auto using proper_removelast.
  assert (forallb isName (removelast k) = true) as Hnames
    by auto using proper_names.
  assert (k ≠ []) as Hne by (intros ->; by rewrite (wf_root _ Hwf) in Hfile).
  rewrite (write_file_run dirs cwd a (pathOf k) content) by done.
  rewrite dirname_pathOf by done. unfold exec, treeHost.
  rewrite treeExec_Mkdir_names by done.
  rewrite treeExec_WriteFile_names; [| |by intros; apply mkdirp_Ok| |]; try done.
  - split; [done|]. intros j. simpl. case_decide as Hj.
    + subst j. by rewrite lookup_insert_eq.
    + rewrite lookup_insert_ne by done. by apply mkdirp_lookup.
  - rewrite mkdirp_names; [done..|]. by intros ?%prefix_removelast_nil.
Qed.

(** [create_directory] on an allowed normal path with no file on its way
    succeeds: the directories down to the path exist, every other entry is
    what it was. *)
Lemma create_directory_creates a k t :
  arg_path a = Some (pathOf k) →
  forallb proper_segment k = true →
  isPathAllowed dirs cwd (pathOf k) = true →
  wf t → noFileAbove t k = true →
  let out := treeRun (Request "create_directory" (Some a)) t in
  out.1 = okResult ("Directory " +:+ pathOf k +:+ " created or already exists") ∧
  ∀ j, out.2 !! j = if decide (j `prefix_of` k) then Some Dir else t !! j.
Proof.
  intros Ha Hk Hp Hwf Hfiles. unfold treeRun. simpl.
  rewrite (create_directory_run dirs cwd a (pathOf k)) by done.
  unfold exec, treeHost. rewrite treeExec_Mkdir_names by done.
  split; [done|]. intros j. apply mkdirp_lookup; [done| |done].
  by apply proper_names.
Qed.

(** C27: [create_directory] is idempotent: after a call that succeeded, on
    any allowed path, the same call succeeds again with the same answer and
    changes nothing. *)
Theorem create_directory_idempotent a dirPath t :
  arg_path a = Some dirPath →
  isPathAllowed dirs cwd dirPath = true →
  let out := treeRun (Request "create_directory" (Some a)) t in
  succeeded out.1 = true →
  treeRun (Request "create_directory" (Some a)) out.2 = out.
Proof.
  intros Ha Hp. unfold treeRun. simpl.
  rewrite !(create_directory_run dirs cwd a dirPath) by done.
  unfold exec, treeHost.
  pose proof (treeExec_Mkdir_again cwd matcher dirPath t) as Hagain.
  destruct (treeExec cwd matcher (Mkdir dirPath) t) as [[[]|m] t1];
    [|done]. intros _. simpl in *. by rewrite Hagain.
Qed.

(** [move_file] succeeds: on a well-formed tree, from an entry that
    exists to a free normal path that is not below it and has no file on
    its way, the answer reports the move and the tree is the one in which
    the directories of the destination are made and the entry and what is
    below it are moved. *)
Lemma move_file_succeeds a ks kd n t :
  arg_source a = Some (pathOf ks) → arg_destination a = Some (pathOf kd) →
  forallb proper_segment ks = true → forallb proper_segment kd = true →
  isPathAllowed dirs cwd (pathOf ks) = true →
  isPathAllowed dirs cwd (pathOf kd) = true →
  wf t → t !! ks = Some n → t !! kd = None →
  noFileAbove t (removelast kd) = true → ¬ ks `prefix_of` kd →
  treeRun (Request "move_file" (Some a)) t =
  (okResult ("Successfully moved " +:+ pathOf ks +:+ " to " +:+ pathOf kd),
   moveTree ks kd (mkdirp t (removelast kd)).2).
Proof.
  intros Hs Hd Hks Hkd Has Had Hwf Hn Hfree Hfiles Hnp. unfold treeRun.
  assert (forallb proper_segment (removelast kd) = true) as Hkd'
    by auto using proper_removelast.
  assert (forallb isName (removelast kd) = true) as Hnames
    by auto using proper_names.
  rewrite (move_file_steps dirs cwd a (pathOf ks) (pathOf kd)) by done.
  rewrite dirname_pathOf by done. unfold exec, treeHost.
  rewrite treeExec_ExistsSync_free, treeExec_Mkdir_names by done.
  erewrite treeExec_Rename_names; try done.
  - by apply mkdirp_wf.
  - destruct (mkdirp_grows ks t (removelast kd)) as [->|[? _]];
      [done|congruence].
  - rewrite mkdirp_names; [done..|]. intros ->%prefix_removelast_nil.
    by rewrite (wf_root _ Hwf) in Hfree.
  - by apply mkdirp_Ok.
Qed.

(** [read_file] of a file answers with its content. *)
Lemma read_file_reads a k content t :
  arg_path a = Some (pathOf k) → forallb proper_segment k = true →
  isPathAllowed dirs cwd (pathOf k) = true →
  wf t → t !! k = Some (File content) →
  treeRun (Request "read_file" (Some a)) t =
  (okResult content, t).
Proof.
  intros Ha Hk Hp Hwf Hn. unfold treeRun.
  rewrite (read_file_run dirs cwd a (pathOf k)) by done.
  unfold exec, treeHost, treeExec.
  by erewrite onNode_names by done.
Qed.

(** [read_multiple_files] answers with the entry of each path in the tree
    and leaves the tree as it is. *)
Lemma read_multiple_files_reads a paths t :
  arg_paths a = Some paths →
  treeRun (Request "read_multiple_files" (Some a)) t =
  (okResult (stringify (JArr (map fileResult_json
               (map (@readEntry _ (treeHost cwd matcher) dirs cwd t)
                    paths)))),
   t).
Proof.
  intros Ha. unfold treeRun. unfold_handlers. rewrite Ha. unfold bind.
  rewrite !run_io_bind, forEach_readOne_run; [done|].
  intros p s. by apply (treeExec_readonly cwd matcher (ReadFile p)).
Qed.

(** [list_directory] of a directory answers with its entries, which are
    the entries of the tree one name below it ([elem_of_children]). *)
Lemma list_directory_lists a k t :
  arg_path a = Some (pathOf k) → forallb proper_segment k = true →
  isPathAllowed dirs cwd (pathOf k) = true →
  wf t → t !! k = Some Dir →
  treeRun (Request "list_directory" (Some a)) t =
  (okResult (jsJoin LF (map formatEntry (children t k))), t).
Proof.
  intros Ha Hk Hp Hwf Hn. unfold treeRun.
  rewrite (list_directory_run dirs cwd a (pathOf k)) by done.
  unfold exec, treeHost, treeExec.
  by erewrite onNode_names by done.
Qed.

(** [get_file_info] of an entry answers with its [stat]. *)
Lemma get_file_info_stats a k n t :
  arg_path a = Some (pathOf k) → forallb proper_segment k = true →
  isPathAllowed dirs cwd (pathOf k) = true →
  wf t → t !! k = Some n →
  treeRun (Request "get_file_info" (Some a)) t =
  (okResult (stringify (fileInfo (pathOf k) (nodeStats n))), t).
Proof.
  intros Ha Hk Hp Hwf Hn. unfold treeRun.
  rewrite (get_file_info_run dirs cwd a (pathOf k)) by done.
  unfold exec, treeHost, treeExec.
  by erewrite onNode_names by done.
Qed.

(** [edit_file] edits: on a well-formed tree, on an allowed normal
    path that holds a file, it answers with the report of [applyEdits] on
    the content of the file and the diff of the content against the
    result, and, unless [dryRun] is set, leaves the result in the file;
    nothing else changes. *)
Lemma edit_file_edits a k edits original t :
  arg_path a = Some (pathOf k) → arg_edits a = Some edits →
  forallb proper_segment k = true →
  isPathAllowed dirs cwd (pathOf k) = true →
  wf t → t !! k = Some (File original) →
  let '(newContent, results) := applyEdits original edits in
  let dryRun := default false (arg_dryRun a) in
  treeRun (Request "edit_file" (Some a)) t =
  (okResult (editReport dryRun (pathOf k) results
               (generateDiff original newContent)),
   if dryRun then t else <[k := File newContent]> t).
Proof.
  intros Ha He Hk Hp Hwf Hn. unfold treeRun.
  destruct (applyEdits original edits) as [newContent results] eqn:E. simpl.
  rewrite (edit_file_run dirs cwd a (pathOf k) edits) by done.
  unfold exec, treeHost. unfold treeExec at 1.
  erewrite onNode_names by done. cbv beta iota. rewrite E.
  destruct (default false (arg_dryRun a)); [done|].
  rewrite treeExec_WriteFile_names; [done..| |congruence|].
  - intros j Hj. destruct (decide (j = k)) as [->|].
    + apply prefix_removelast_nil in Hj as ->.
      by rewrite (wf_root _ Hwf) in Hn.
    + eapply wf_above; eauto. etrans; [done|apply prefix_removelast].
  - intros ->. by rewrite (wf_root _ Hwf) in Hn.
Qed.

(** [read_file] of a path where nothing is answers with the error of the
    system, as a result and not as a protocol error. *)
Lemma read_file_missing a k t :
  arg_path a = Some (pathOf k) → forallb proper_segment k = true →
  isPathAllowed dirs cwd (pathOf k) = true →
  noFileAbove t k = true → t !! k = None →
  treeRun (Request "read_file" (Some a)) t =
  (errorResult ("ENOENT: no such file or directory, open '" +:+ pathOf k +:+ "'"),
   t).
Proof.
  intros Ha Hk Hp Hfiles Hn. unfold treeRun.
  rewrite (read_file_run dirs cwd a (pathOf k)) by done.
  unfold exec, treeHost, treeExec.
  by rewrite onNode_missing.
Qed.

End Effects.

(** ** On the small tree of [Sandbox] *)

Lemma write_read_witness :
  (run (H := homeHost)
     (homeCall "read_file" (writeArgs "/home/alice/a/notes.txt" "x"))
     (run (H := homeHost)
        (homeCall "write_file" (writeArgs "/home/alice/a/notes.txt" "x"))
        homeTree).2).1 =
  okResult "x".
Proof.
  apply (write_read (H := nodeJsonText) ["/home/alice"] "/" noMatches
           (writeArgs "/home/alice/a/notes.txt" "x")
           "/home/alice/a/notes.txt" "x"); by vm_compute.
Defined.

Lemma move_file_moves_witness :
  let t' := (run (H := homeHost)
               (homeCall "move_file"
                  (moveArgs "/home/alice/a.txt" "/home/alice/c.txt"))
               aliceTree).2 in
  is_Some (aliceTree !! lexicalKey "/" "/home/alice/a.txt") ∧
  t' !! lexicalKey "/" "/home/alice/c.txt" =
    aliceTree !! lexicalKey "/" "/home/alice/a.txt" ∧
  t' !! lexicalKey "/" "/home/alice/a.txt" = None.
Proof.
  apply (move_file_moves (H := nodeJsonText) ["/home/alice"] "/" noMatches
           (moveArgs "/home/alice/a.txt" "/home/alice/c.txt")
           "/home/alice/a.txt" "/home/alice/c.txt");
    [reflexivity|reflexivity|by apply normal_pathb_spec
    |reflexivity|reflexivity|apply aliceTree_wf|by vm_compute].
Defined.

Lemma write_file_writes_witness :
  let out := run (H := homeHost)
               (homeCall "write_file"
                  (writeArgs "/home/alice/a/notes.txt" "x")) homeTree in
  out.1 = okResult ("Successfully wrote to " +:+ "/home/alice/a/notes.txt") ∧
  ∀ j, out.2 !! j =
       if decide (j = ["home"; "alice"; "a"; "notes.txt"])
       then Some (File "x")
       else if decide (j `prefix_of` ["home"; "alice"; "a"]) then Some Dir
       else homeTree !! j.
Proof.
  apply (write_file_writes (H := nodeJsonText) ["/home/alice"] "/" noMatches
           (writeArgs "/home/alice/a/notes.txt" "x")
           ["home"; "alice"; "a"; "notes.txt"] "x" homeTree);
    [reflexivity|reflexivity|reflexivity|reflexivity
    |apply mkdirp_wf, emptyTree_wf|reflexivity|by vm_compute].
Defined.

Lemma edit_file_edits_witness :
  let '(newContent, results) :=
    applyEdits ("a" +:+ LF +:+ "b") [Edit "b" "c"] in
  let dryRun :=
    default false (arg_dryRun (editArgs "/home/alice/a.txt" [Edit "b" "c"] None))
  in
  treeRun (H := nodeJsonText) ["/home/alice"] "/" noMatches
    (Request "edit_file"
       (Some (editArgs "/home/alice/a.txt" [Edit "b" "c"] None))) aliceTree =
  (okResult (editReport (H := nodeJsonText) dryRun
               (pathOf ["home"; "alice"; "a.txt"]) results
               (generateDiff ("a" +:+ LF +:+ "b") newContent)),
   if dryRun then aliceTree
   else <[["home"; "alice"; "a.txt"] := File newContent]> aliceTree).
Proof.
  apply (edit_file_edits (H := nodeJsonText) ["/home/alice"] "/" noMatches
           (editArgs "/home/alice/a.txt" [Edit "b" "c"] None)
           ["home"; "alice"; "a.txt"] [Edit "b" "c"] ("a" +:+ LF +:+ "b")
           aliceTree);
    [reflexivity|reflexivity|reflexivity|reflexivity|apply aliceTree_wf
    |reflexivity].
Defined.

Lemma create_directory_idempotent_witness :
  let out := run (H := homeHost)
               (homeCall "create_directory" (pathArgs "/home/alice/b/../c"))
               homeTree in
  run (H := homeHost)
    (homeCall "create_directory" (pathArgs "/home/alice/b/../c")) out.2 = out.
Proof.
  apply (create_directory_idempotent (H := nodeJsonText) ["/home/alice"] "/"
           noMatches (pathArgs "/home/alice/b/../c") "/home/alice/b/../c"
           homeTree); [reflexivity|reflexivity|by vm_compute].
Defined.

Lemma move_file_succeeds_witness :
  run (H := homeHost)
    (homeCall "move_file"
       (moveArgs "/home/alice/a.txt" "/home/alice/old/c.txt")) aliceTree =
  (okResult ("Successfully moved " +:+ "/home/alice/a.txt" +:+ " to " +:+
             "/home/alice/old/c.txt"),
   moveTree ["home"; "alice"; "a.txt"] ["home"; "alice"; "old"; "c.txt"]
     (mkdirp aliceTree ["home"; "alice"; "old"]).2).
Proof.
  apply (move_file_succeeds (H := nodeJsonText) ["/home/alice"] "/" noMatches
           (moveArgs "/home/alice/a.txt" "/home/alice/old/c.txt")
           ["home"; "alice"; "a.txt"] ["home"; "alice"; "old"; "c.txt"]
           (File ("a" +:+ LF +:+ "b")) aliceTree);
    [reflexivity|reflexivity|reflexivity|reflexivity|reflexivity|reflexivity
    |apply aliceTree_wf|reflexivity|reflexivity|reflexivity
    |by intros [r [=]]].
Defined.

(** ** A move that fails *)

(** [move_file] of a source that does not exist fails at [rename], after
    [mkdir] has made the directory of the destination: the error is
    answered and the directory stays. *)
Example move_file_leftover :
  let out := run (H := homeHost)
               (homeCall "move_file"
                  (moveArgs "/home/alice/none.txt" "/home/alice/new/c.txt"))
               homeTree in
  out.1 = errorResult
            ("ENOENT: no such file or directory, rename " +:+
             "'/home/alice/none.txt' -> '/home/alice/new/c.txt'") ∧
  homeTree !! ["home"; "alice"; "new"] = None ∧
  out.2 !! ["home"; "alice"; "new"] = Some Dir.
Proof. by vm_compute. Qed.

(** ** The scenario of the specification, on the tree *)



(* end of Effects *)
