(* ===== verification/Failures.v ===== *)
(** * What a request that fails leaves behind

    A handler of [Server] makes its calls one after the other and stops at
    the first that is rejected.  This file shows what that means for the
    state of the host.

    [Settles quiet final ok m] is the shape all ten handlers have: [m] makes
    calls that are [quiet], and a call that is not is the last one, after
    which [m] returns, with a success when the call succeeded.  On a host on
    which quiet calls and rejected calls move the state along a preorder
    [R], a run that does not end in a success has moved the state along [R]
    ([Settles_run]).

    On the tree of [TreeHost] this gives, for every request and every tree:
    - a request that is refused or fails has destroyed nothing and changed
      no file: all it can have done is create directories
      ([callTool_failure_grows]);
    - for the tools that call no [mkdir], it has changed nothing
      ([callTool_failure_unchanged]).

    The three tools that call [mkdir] can fail after it and leave a
    directory ([mkdirTools_leftover]).  What the handlers answer on the
    branches where the system refuses is stated in [Answers]. *)

From Stdlib Require Import Ascii String List Lia NArith.
From stdpp Require Import base tactics option list strings gmap.
From S2P Require Import Prelude JsString NodePath PathGuard Diff Edit Json Host.
From S2P Require Import Server Behaviour TreeHost TreeFacts Sandbox Effects.

(** ** Programs that settle with their last call *)

(** [Settles quiet final ok m]: on every path through [m] the calls are
    [quiet], up to at most one [final] call, which is the last: [m] returns
    whatever the reply, with a value that is [ok] when the call succeeded. *)
Inductive Settles {A} (quiet final : call → Prop) (ok : A → Prop)
    : io A → Prop :=
| Settles_Ret a : Settles quiet final ok (Ret a)
| Settles_quiet c k :
    quiet c → (∀ r, Settles quiet final ok (k r)) →
    Settles quiet final ok (Do c k)
| Settles_final c k :
    final c → (∀ r, ∃ a, k r = Ret a ∧ (succeeds c r → ok a)) →
    Settles quiet final ok (Do c k).

(** A response that is not a success: a result marked as an error, or an
    error thrown to the protocol layer. *)
Definition failed (r : response) : bool := negb (succeeded r).

(** The calls that replace or move content. *)
Definition commits (c : call) : bool :=
  match c with WriteFile _ _ | Rename _ _ => true | _ => false end.

(** The tools that call [mkdir]. *)
Definition mkdirTools : list string :=
  ["write_file"; "create_directory"; "move_file"].

Section SettleRules.
Context {A B : Type}.
Context (quiet final : call → Prop).
Implicit Types (ok : A → Prop) (m : io A).

Lemma AllCalls_Settles ok m : AllCalls quiet m → Settles quiet final ok m.
Proof. induction 1; [constructor|by apply Settles_quiet]. Qed.

(** Quiet calls first. *)
Lemma Settles_io_bind_quiet (ok' : B → Prop) m (f : A → io B) :
  AllCalls quiet m → (∀ a, Settles quiet final ok' (f a)) →
  Settles quiet final ok' (io_bind m f).
Proof. intros Hm Hf. induction Hm; simpl; [done|by apply Settles_quiet]. Qed.

(** Nothing but a return after the last call. *)
Lemma Settles_io_bind_ret ok (ok' : B → Prop) m (f : A → io B) :
  Settles quiet final ok m →
  (∀ a, ∃ b, f a = Ret b ∧ (ok a → ok' b)) →
  Settles quiet final ok' (io_bind m f).
Proof.
  intros Hm Hf. induction Hm as [a|c k Hc _ IH|c k Hc Hk]; simpl.
  - destruct (Hf a) as (b & -> & _). constructor.
  - by apply Settles_quiet.
  - apply Settles_final; [done|]. intros r.
    destruct (Hk r) as (a & -> & Ha), (Hf a) as (b & Hb & Hok).
    exists b. split; [done|]. auto.
Qed.

End SettleRules.

(** On a host on which quiet calls and rejected final calls move the state
    along [R], a run that does not end well has moved the state along
    [R]. *)
Section SettleRun.
Context {St : Type} `{Host St} {A : Type}.
Context (quiet final : call → Prop) (ok : A → Prop).
Context (R : relation St) `{!PreOrder R}.
Context (Hquiet : ∀ c s, quiet c → R s (exec c s).2).
Context (Hfinal : ∀ c s, final c → ¬ succeeds c (exec c s).1 →
                         R s (exec c s).2).

Lemma Settles_run (m : io A) s :
  Settles quiet final ok m → ¬ ok (run m s).1 → R s (run m s).2.
Proof.
  intros Hm. revert s.
  induction Hm as [a|c k Hc _ IH|c k Hc Hk]; intros s; simpl.
  - done.
  - pose proof (Hquiet c s Hc) as Hs. destruct (exec c s) as [r s1].
    intros Hr. etrans; [exact Hs|]. by apply IH.
  - pose proof (Hfinal c s Hc) as Hs. destruct (exec c s) as [r s1].
    destruct (Hk r) as (a & -> & Ha). simpl. intros Hr. apply Hs. tauto.
Qed.

End SettleRun.

(** ** The handlers settle *)

Section Handlers.
Context `{JsonText}.
Context (dirs : list string) (cwd : string).
Context (quiet final : call → Prop).
Context (Hread : ∀ c, is_write c = false → quiet c).
Context (Hcommits : ∀ c, commits c = true → final c).
Implicit Types (a : option args) (req : request).

Local Abbreviation settles := (Settles quiet final (λ r : result exn _, is_Ok r = true)).

Lemma Settles_bind_quiet {A B} (m : prog A) (f : A → prog B) :
  AllCalls quiet m → (∀ x, settles (f x)) → settles (bind m f).
Proof.
  intros Hm Hf. apply Settles_io_bind_quiet; [done|].
  intros [x|e]; [done|constructor].
Qed.

Lemma Settles_bind_ret {A B} (m : prog A) (g : A → B) :
  settles m → settles (bind m (λ x, ret (g x))).
Proof.
  intros Hm. eapply Settles_io_bind_ret; [done|].
  intros [x|e]; eexists; (split; [done|]); done.
Qed.

Lemma Settles_withArgs {A} prop a (body : args → prog A) :
  (∀ x, settles (body x)) → settles (withArgs prop a body).
Proof. intros Hb. destruct a; simpl; [done|constructor]. Qed.

Lemma Settles_checkPath {A} p (k : string → prog A) :
  (∀ filePath, settles (k filePath)) → settles (bind (checkPath dirs cwd p) k).
Proof.
  intros Hk. apply Settles_bind_quiet; [|done].
  unfold checkPath. repeat case_match; constructor.
Qed.

Lemma Settles_writeFile p content :
  final (WriteFile p content) → settles (writeFile p content).
Proof.
  intros Hc. apply Settles_final; [done|].
  intros [[]|m]; eexists; (split; [done|]); done.
Qed.

Lemma Settles_rename source destination :
  final (Rename source destination) → settles (rename source destination).
Proof.
  intros Hc. apply Settles_final; [done|].
  intros [[]|m]; eexists; (split; [done|]); done.
Qed.

(** [quiet_calls] shows that the calls of a program are quiet, the reading
    calls by [Hread]. *)
Ltac quiet_calls :=
  calls; first [by apply Hread | by constructor | done].

Ltac settles_step :=
  lazymatch goal with
  | |- Settles _ _ _ (withArgs _ _ _) => apply Settles_withArgs; intros ?
  | |- Settles _ _ _ (bind (checkPath _ _ _) _) =>
      apply Settles_checkPath; intros ?
  | |- Settles _ _ _ (bind (writeFile _ _) _) =>
      apply Settles_bind_ret, Settles_writeFile; by apply Hcommits
  | |- Settles _ _ _ (bind (rename _ _) _) =>
      apply Settles_bind_ret, Settles_rename; by apply Hcommits
  | |- Settles _ _ _ (bind (match ?x with _ => _ end) _) => destruct x
  | |- Settles _ _ _ (bind (throw _) _) => apply Settles_Ret
  | |- Settles _ _ _ (bind (ret _) _) => rewrite bind_ret
  | |- Settles _ _ _ (bind _ _) =>
      apply Settles_bind_quiet; [by quiet_calls|intros ?]
  | |- Settles _ _ _ (ret _) => apply Settles_Ret
  | |- Settles _ _ _ (throw _) => apply Settles_Ret
  | |- Settles _ _ _ (match ?x with _ => _ end) => destruct x
  | |- Settles _ _ _ (let '(_, _) := ?x in _) => destruct x
  end.

Ltac settles_handler := unfold textResult; repeat (settles_step; cbv zeta).

Lemma read_file_settles a : settles (read_file dirs cwd a).
Proof. unfold read_file. settles_handler. Qed.

Lemma read_multiple_files_settles a :
  settles (read_multiple_files dirs cwd a).
Proof.
  unfold read_multiple_files. apply AllCalls_Settles. calls.
  apply AllCalls_forEach. intros. unfold readOne. quiet_calls.
Qed.

Lemma edit_file_settles a : settles (edit_file dirs cwd a).
Proof. unfold edit_file. settles_handler. Qed.

Lemma list_directory_settles a : settles (list_directory dirs cwd a).
Proof. unfold list_directory. settles_handler. Qed.

Lemma search_files_settles a : settles (search_files dirs cwd a).
Proof. unfold search_files. settles_handler. Qed.

Lemma get_file_info_settles a : settles (get_file_info dirs cwd a).
Proof. unfold get_file_info. settles_handler. Qed.

Section Mkdir.
Context (Hmkdir : ∀ p, quiet (Mkdir p)).

Lemma write_file_settles a : settles (write_file dirs cwd a).
Proof. unfold write_file. settles_handler. Qed.

Lemma create_directory_settles a : settles (create_directory dirs cwd a).
Proof. unfold create_directory. settles_handler. Qed.

Lemma move_file_settles a : settles (move_file dirs cwd a).
Proof. unfold move_file. settles_handler. Qed.

End Mkdir.

Lemma dispatch_settles req :
  (name req ∈ mkdirTools → ∀ p, quiet (Mkdir p)) →
  settles (dispatch dirs cwd req).
Proof.
  intros Hmk. unfold dispatch.
  repeat case_match;
    eauto using read_file_settles, read_multiple_files_settles,
      edit_file_settles, list_directory_settles, search_files_settles,
      get_file_info_settles; try constructor.
  all: match goal with
       | E : (name _ =? _)%string = true |- _ => apply String.eqb_eq in E
       end.
  all: first [apply write_file_settles | apply create_directory_settles
             | apply move_file_settles]; apply Hmk.
  all: match goal with E : name _ = _ |- _ => rewrite E end; set_solver.
Qed.

(** The handler settles: what it calls last decides its answer. *)
Lemma callTool_settles req :
  (name req ∈ mkdirTools → ∀ p, quiet (Mkdir p)) →
  Settles quiet final (λ r, failed r = false) (callTool dirs cwd req).
Proof.
  intros Hmk. unfold callTool.
  eapply Settles_io_bind_ret; [by apply dispatch_settles|].
  intros [text|[code msg|msg]]; eexists; (split; [done|]); done.
Qed.

End Handlers.

(** ** On the tree *)

Section Tree.
Context `{JsonText}.
Context (dirs : list string) (cwd : string).
Context (matcher : string → list string → gmap (list string) node → list string).
Implicit Types (t : gmap (list string) node) (c : call) (req : request).

(** [onlyGrows t t']: [t'] is [t] with directories added. *)
Definition onlyGrows (t t' : gmap (list string) node) : Prop :=
  ∀ k, grows k t t'.

#[export] Instance onlyGrows_preorder : PreOrder onlyGrows.
Proof.
  split; [by intros t k|]. intros t1 t2 t3 H12 H23 k.
  etrans; [apply H12|apply H23].
Qed.

(** A call that is not a write or a rename adds directories at most. *)
Lemma treeExec_onlyGrows c t :
  commits c = false → onlyGrows t (treeExec cwd matcher c t).2.
Proof.
  intros Hc k. destruct c; try done; simpl; try reflexivity.
  pose proof (mkdirp_grows k t (List.filter moves (pathComponents cwd path))).
  by destruct (mkdirp t _) as [[] ?].
Qed.

(** A call other than [mkdir] that is rejected has changed nothing. *)
Lemma treeExec_rejected c t :
  (∀ p, c ≠ Mkdir p) → ¬ succeeds c (treeExec cwd matcher c t).1 →
  (treeExec cwd matcher c t).2 = t.
Proof.
  intros Hc Hr. destruct c; try done; simpl in *.
  - repeat case_match; simpl in *; congruence.
  - by destruct (Hc path).
  - unfold renameKeys in *. repeat case_match; simpl in *; congruence.
Qed.

(** C5: a request that is refused or fails has destroyed nothing and has
    changed no file: whatever the request and the tree, every entry of the
    tree is as it was, or is a directory that was not there. *)
Theorem callTool_failure_grows req t k :
  failed (treeRun dirs cwd matcher req t).1 = true →
  grows k t (treeRun dirs cwd matcher req t).2.
Proof.
  intros Hf. revert k.
  apply (Settles_run (H := treeHost cwd matcher) (λ c, commits c = false)
           (λ _, True) (λ r, failed r = false) onlyGrows).
  - intros c s. apply treeExec_onlyGrows.
  - intros c s _ Hr. destruct (commits c) eqn:Hc.
    + unfold exec, treeHost. rewrite treeExec_rejected; [done| |done].
      by intros p ->.
    + by apply treeExec_onlyGrows.
  - apply callTool_settles; [by intros []|done|done].
  - unfold treeRun in Hf. by rewrite Hf.
Qed.

(** C6: a request of a tool that calls no [mkdir] (all but [write_file],
    [create_directory] and [move_file]) that is refused or fails leaves
    the tree as it was. *)
Theorem callTool_failure_unchanged req t :
  name req ∉ mkdirTools →
  failed (treeRun dirs cwd matcher req t).1 = true →
  (treeRun dirs cwd matcher req t).2 = t.
Proof.
  intros Hn Hf. symmetry.
  apply (Settles_run (H := treeHost cwd matcher) (λ c, is_write c = false)
           (λ c, commits c = true) (λ r, failed r = false) eq).
  - intros c s Hc. symmetry. by apply treeExec_readonly.
  - intros c s Hc Hr. symmetry. apply treeExec_rejected; [|done].
    by intros p ->.
  - by apply callTool_settles.
  - unfold treeRun in Hf. by rewrite Hf.
Qed.

End Tree.

(** ** On the small tree of [Sandbox] *)

(** A move of a file that is not there fails, and leaves the directory it
    made for the destination. *)
Lemma callTool_failure_grows_witness :
  grows ["home"; "alice"; "new"] homeTree
    (treeRun (H := nodeJsonText) ["/home/alice"] "/" noMatches
       (Request "move_file"
          (Some (moveArgs "/home/alice/none.txt" "/home/alice/new/c.txt")))
       homeTree).2.
Proof.
  apply (callTool_failure_grows (H := nodeJsonText)). by vm_compute.
Defined.

(** An edit of a file that is not there fails, and changes nothing. *)
Lemma callTool_failure_unchanged_witness :
  (treeRun (H := nodeJsonText) ["/home/alice"] "/" noMatches
     (Request "edit_file"
        (Some (editArgs "/home/alice/none.txt" [Edit "b" "c"] None)))
     aliceTree).2 = aliceTree.
Proof.
  apply (callTool_failure_unchanged (H := nodeJsonText)); [|by vm_compute].
  unfold mkdirTools. rewrite !not_elem_of_cons.
  repeat split; [done..|apply not_elem_of_nil].
Defined.

(** The three tools that call [mkdir] can fail and leave directories:
    [write_file] without content, [move_file] of a source that is not
    there, [create_directory] through a directory to make and back to a
    file. *)
Example mkdirTools_leftover :
  let run_on t toolName a :=
    treeRun (H := nodeJsonText) ["/home/alice"] "/" noMatches
      (Request toolName (Some a)) t in
  let made (out : response * gmap (list string) node) :=
    (failed out.1, out.2 !! ["home"; "alice"; "new"]) in
  aliceTree !! ["home"; "alice"; "new"] = None ∧
  made (run_on aliceTree "write_file" (pathArgs "/home/alice/new/b.txt")) =
    (true, Some Dir) ∧
  made (run_on aliceTree "move_file"
          (moveArgs "/home/alice/none.txt" "/home/alice/new/c.txt")) =
    (true, Some Dir) ∧
  made (run_on aliceTree "create_directory"
          (pathArgs "/home/alice/new/../a.txt/x")) =
    (true, Some Dir).
Proof. by vm_compute. Qed.
(* end of Failures *)
