(* ===== verification/Answers.v ===== *)
(** * The answers of the handlers, branch by branch

    For a path in normal form on a well-formed tree, what each handler
    answers and the tree it leaves, on every branch: the success and each
    refusal of the system, with the code and the message of Node.

    [entryAt t k] is what the system finds at a key: the entry, [ENOENT]
    where nothing is, [ENOTDIR] when a file is on the way.  The calls are
    stated against it ([onNode_entryAt], [treeExec_Mkdir_answers],
    [treeExec_WriteFile_answers], [treeExec_ExistsSync_answers],
    [treeExec_Rename_answers]), and the handlers against the calls
    ([read_file_answers], [write_file_answers], [edit_file_answers],
    [create_directory_answers], [list_directory_answers],
    [move_file_answers], [get_file_info_answers]). *)

From Stdlib Require Import Ascii String List Lia NArith.
From stdpp Require Import base tactics option list strings gmap.
From S2P Require Import Prelude JsString NodePath PathGuard Diff Edit Json Host.
From S2P Require Import Server Behaviour TreeHost TreeFacts Sandbox Effects.

(** ** What the system finds at a key *)

(** The entry at a key of names: [ENOTDIR] when a file is on the way to it,
    [ENOENT] when nothing is there. *)
Definition entryAt (t : gmap (list string) node) (k : list string)
    : result errno node :=
  if noFileAbove t (removelast k) then
    match t !! k with Some n => Ok n | None => Err ENOENT end
  else Err ENOTDIR.

(** The code of [mkdir] with [recursive] for a key it cannot make: the key
    is a file, or a file is on the way. *)
Definition inTheWay (t : gmap (list string) node) (k : list string) : errno :=
  match t !! k with Some (File _) => EEXIST | _ => ENOTDIR end.

Section Calls.
Context (cwd : string).
Context (matcher : string → list string → gmap (list string) node → list string).
Implicit Types (t : gmap (list string) node) (k j : list string).

(** In a well-formed tree an entry is found where it is. *)
Lemma entryAt_Some t k n : wf t → t !! k = Some n → entryAt t k = Ok n.
Proof.
  intros Hwf Hk. unfold entryAt. by rewrite wf_noFileAbove, Hk.
Qed.

(** A call that reads the node of a path of names. *)
Lemma onNode_entryAt {A} t syscall k (f : list string → node → result string A) :
  wf t → forallb proper_segment k = true →
  onNode cwd t syscall (pathOf k) f =
  match entryAt t k with
  | Ok n => f k n
  | Err e => Err (sysError e syscall (pathOf k))
  end.
Proof.
  intros Hwf Hk. unfold entryAt.
  destruct (noFileAbove t (removelast k)) eqn:Hf.
  - destruct (t !! k) as [n|] eqn:Hn; [by apply onNode_names|].
    apply onNode_missing; [done| |done].
    apply noFileAbove_last; [done|]. congruence.
  - apply noFileAbove_false in Hf as (j & c & Hj & Hc).
    unfold onNode, pathOf.
    by rewrite (locate_file t _ k j c)
      by auto using moves_normal, proper_names.
Qed.

(** [mkdir] with [recursive] on a path of names. *)
Lemma treeExec_Mkdir_answers k t :
  wf t → forallb proper_segment k = true →
  treeExec cwd matcher (Mkdir (pathOf k)) t =
  if noFileAbove t k then (Ok (), (mkdirp t k).2)
  else (Err (sysError (inTheWay t k) "mkdir" (pathOf k)), t).
Proof.
  intros Hwf Hk. destruct (noFileAbove t k) eqn:Hf;
    [by apply treeExec_Mkdir_names|].
  apply noFileAbove_false in Hf as (j & c & Hj & Hc).
  assert (forallb isName k = true) as Hn by by apply proper_names.
  unfold treeExec, pathOf. rewrite moves_normal by done.
  rewrite (mkdirp_file t k j c) by done. do 3 f_equal.
  unfold mkdirError, inTheWay.
  apply prefix_removelast_inv in Hj as [->|Hj].
  - by rewrite (locate_names t k k), Hc by auto using filter_moves_names.
  - rewrite (locate_file t k k j c) by auto using filter_moves_names.
    rewrite (wf_below_file t k j c); [done..|].
    intros ->. apply prefix_nil_inv in Hj as ->.
    by rewrite (wf_root _ Hwf) in Hc.
Qed.

(** [writeFile] on a path of names whose directory exists. *)
Lemma treeExec_WriteFile_answers k content t :
  forallb proper_segment k = true →
  (∀ j, j `prefix_of` removelast k → t !! j = Some Dir) →
  treeExec cwd matcher (WriteFile (pathOf k) content) t =
  match t !! k with
  | Some Dir => (Err (sysError EISDIR "open" (pathOf k)), t)
  | _ => (Ok (), <[k := File content]> t)
  end.
Proof.
  intros Hk Hdirs.
  destruct (decide (t !! k = Some Dir)) as [Hd|Hd].
  - rewrite Hd. unfold treeExec, pathOf.
    rewrite (locate_parent_Dir t _ k);
      auto using moves_normal, proper_names.
    destruct k; [done|by rewrite Hd].
  - rewrite treeExec_WriteFile_names; [by destruct (t !! k) as [[]|]|done..|].
    intros ->. apply Hd, Hdirs. done.
Qed.

(** [existsSync] on a path of names. *)
Lemma treeExec_ExistsSync_answers k t :
  wf t → forallb proper_segment k = true →
  treeExec cwd matcher (ExistsSync (pathOf k)) t =
  (bool_decide (is_Some (t !! k)), t).
Proof.
  intros Hwf Hk. destruct (t !! k) as [n|] eqn:Hn.
  - unfold treeExec, pathOf.
    rewrite (locate_names t _ k), Hn;
      eauto using moves_normal, proper_names.
  - rewrite treeExec_ExistsSync_free by done.
    by rewrite bool_decide_eq_false_2 by by intros [].
Qed.

(** The reply of [rename] from the outcome on the keys. *)
Definition renameReply (source destination : string)
    (out : result errno unit * gmap (list string) node)
    : result string unit * gmap (list string) node :=
  match out with
  | (Ok _, t') => (Ok (), t')
  | (Err e, t') => (Err (renameError e source destination), t')
  end.

(** [rename] between paths of names, to a directory that exists. *)
Lemma treeExec_Rename_answers ks kd t :
  wf t → forallb proper_segment ks = true → forallb proper_segment kd = true →
  (∀ j, j `prefix_of` removelast kd → t !! j = Some Dir) →
  treeExec cwd matcher (Rename (pathOf ks) (pathOf kd)) t =
  renameReply (pathOf ks) (pathOf kd)
    match entryAt t ks with
    | Ok _ => renameKeys t ks kd
    | Err e => (Err e, t)
    end.
Proof.
  intros Hwf Hks Hkd Hdirs. unfold treeExec.
  rewrite (locate_parent_Dir t (pathComponents cwd (pathOf kd)) kd);
    [|by apply moves_normal|by apply proper_names|done].
  unfold entryAt. destruct (noFileAbove t (removelast ks)) eqn:Hf.
  - destruct (t !! ks) as [n|] eqn:Hn.
    + rewrite (locate_names t _ ks); eauto using moves_normal, proper_names.
    + destruct (locate t (pathComponents cwd (pathOf ks))) as [k'|e] eqn:E.
      * apply (locate_lexicalKey cwd) in E as ->.
        rewrite lexicalKey_pathOf by done. unfold renameKeys. by rewrite Hn.
      * apply (locate_Err _ _ ks) in E as ->;
          [done|by apply moves_normal|by apply proper_names|].
        apply noFileAbove_last; [done|congruence].
  - apply noFileAbove_false in Hf as (j & c & Hj & Hc). unfold pathOf.
    by rewrite (locate_file t _ ks j c)
      by auto using moves_normal, proper_names.
Qed.

End Calls.

(** ** The handlers *)

Section Handlers.
Context `{JsonText}.
Context (dirs : list string) (cwd : string).
Context (matcher : string → list string → gmap (list string) node → list string).
Implicit Types (t : gmap (list string) node) (k : list string) (a : args).

Lemma entryAt_Ok t k n : entryAt t k = Ok n → t !! k = Some n.
Proof. unfold entryAt. repeat case_match; naive_solver. Qed.

(** [read_file] on an allowed normal path answers with the content of
    the file that is there; with [EISDIR] for a directory, [ENOENT] where
    nothing is and [ENOTDIR] below a file, as results marked as errors; the
    tree is as it was. *)
Lemma read_file_answers a k t :
  arg_path a = Some (pathOf k) → forallb proper_segment k = true →
  isPathAllowed dirs cwd (pathOf k) = true → wf t →
  treeRun dirs cwd matcher (Request "read_file" (Some a)) t =
  (match entryAt t k with
   | Ok (File content) => okResult content
   | Ok Dir => errorResult (fdError EISDIR "read")
   | Err e => errorResult (sysError e "open" (pathOf k))
   end, t).
Proof.
  intros Ha Hk Hp Hwf. unfold treeRun.
  rewrite (read_file_run dirs cwd a (pathOf k)) by done.
  unfold exec, treeHost, treeExec. rewrite onNode_entryAt by done.
  by destruct (entryAt t k) as [[]|].
Qed.

(** [list_directory] on an allowed normal path answers with the entries of
    the directory that is there; with [ENOTDIR] for a file or below one and
    [ENOENT] where nothing is. *)
Lemma list_directory_answers a k t :
  arg_path a = Some (pathOf k) → forallb proper_segment k = true →
  isPathAllowed dirs cwd (pathOf k) = true → wf t →
  treeRun dirs cwd matcher (Request "list_directory" (Some a)) t =
  (match entryAt t k with
   | Ok Dir => okResult (jsJoin LF (map formatEntry (children t k)))
   | Ok (File _) => errorResult (sysError ENOTDIR "scandir" (pathOf k))
   | Err e => errorResult (sysError e "scandir" (pathOf k))
   end, t).
Proof.
  intros Ha Hk Hp Hwf. unfold treeRun.
  rewrite (list_directory_run dirs cwd a (pathOf k)) by done.
  unfold exec, treeHost, treeExec. rewrite onNode_entryAt by done.
  by destruct (entryAt t k) as [[]|].
Qed.

(** [get_file_info] on an allowed normal path answers with the [stat] of
    the entry that is there; with [ENOENT] where nothing is and [ENOTDIR]
    below a file. *)
Lemma get_file_info_answers a k t :
  arg_path a = Some (pathOf k) → forallb proper_segment k = true →
  isPathAllowed dirs cwd (pathOf k) = true → wf t →
  treeRun dirs cwd matcher (Request "get_file_info" (Some a)) t =
  (match entryAt t k with
   | Ok n => okResult (stringify (fileInfo (pathOf k) (nodeStats n)))
   | Err e => errorResult (sysError e "stat" (pathOf k))
   end, t).
Proof.
  intros Ha Hk Hp Hwf. unfold treeRun.
  rewrite (get_file_info_run dirs cwd a (pathOf k)) by done.
  unfold exec, treeHost, treeExec. rewrite onNode_entryAt by done.
  by destruct (entryAt t k) as [|].
Qed.

(** C16: [edit_file] on an allowed normal path: where a file is, it
    answers with the report of the edits on its content and, unless
    [dryRun] is set, leaves the result in the file; for a directory, a
    missing entry or a file on the way it answers with the error of the
    system and leaves the tree as it was. *)
Theorem edit_file_answers a k edits t :
  arg_path a = Some (pathOf k) → arg_edits a = Some edits →
  forallb proper_segment k = true →
  isPathAllowed dirs cwd (pathOf k) = true → wf t →
  treeRun dirs cwd matcher (Request "edit_file" (Some a)) t =
  match entryAt t k with
  | Ok (File original) =>
      let '(newContent, results) := applyEdits original edits in
      let dryRun := default false (arg_dryRun a) in
      (okResult (editReport dryRun (pathOf k) results
                   (generateDiff original newContent)),
       if dryRun then t else <[k := File newContent]> t)
  | Ok Dir => (errorResult (fdError EISDIR "read"), t)
  | Err e => (errorResult (sysError e "open" (pathOf k)), t)
  end.
Proof.
  intros Ha He Hk Hp Hwf.
  destruct (entryAt t k) as [[original|]|e] eqn:E.
  - apply entryAt_Ok in E.
    pose proof (edit_file_edits dirs cwd matcher a k edits original t) as Hrun.
    destruct (applyEdits original edits). by apply Hrun.
  - unfold treeRun. rewrite (edit_file_run dirs cwd a (pathOf k) edits) by done.
    unfold exec, treeHost. unfold treeExec at 1.
    by rewrite onNode_entryAt, E by done.
  - unfold treeRun. rewrite (edit_file_run dirs cwd a (pathOf k) edits) by done.
    unfold exec, treeHost. unfold treeExec at 1.
    by rewrite onNode_entryAt, E by done.
Qed.

(** [create_directory] on an allowed normal path makes the
    directories down to the path and answers that it is created or exists
    already; when the path is a file it answers with [EEXIST], when a file
    is on the way with [ENOTDIR], as results marked as errors, and has made
    nothing. *)
Lemma create_directory_answers a k t :
  arg_path a = Some (pathOf k) → forallb proper_segment k = true →
  isPathAllowed dirs cwd (pathOf k) = true → wf t →
  treeRun dirs cwd matcher (Request "create_directory" (Some a)) t =
  if noFileAbove t k then
    (okResult ("Directory " +:+ pathOf k +:+ " created or already exists"),
     (mkdirp t k).2)
  else (errorResult (sysError (inTheWay t k) "mkdir" (pathOf k)), t).
Proof.
  intros Ha Hk Hp Hwf. unfold treeRun.
  rewrite (create_directory_run dirs cwd a (pathOf k)) by done.
  unfold exec, treeHost. rewrite treeExec_Mkdir_answers by done.
  by destruct (noFileAbove t k).
Qed.

(** C15: [write_file] on an allowed normal path makes the directories of
    the path and leaves the content in the file; onto a directory it
    answers with [EISDIR]; when the directory of the path is a file, or
    a file is on the way to it, with the error of [mkdir]; in both cases
    the tree is as it was. *)
Theorem write_file_answers a k content t :
  arg_path a = Some (pathOf k) → arg_content a = Some content →
  forallb proper_segment k = true →
  isPathAllowed dirs cwd (pathOf k) = true → wf t →
  treeRun dirs cwd matcher (Request "write_file" (Some a)) t =
  if noFileAbove t (removelast k) then
    match t !! k with
    | Some Dir => (errorResult (sysError EISDIR "open" (pathOf k)), t)
    | _ =>
        (okResult ("Successfully wrote to " +:+ pathOf k),
         <[k := File content]> (mkdirp t (removelast k)).2)
    end
  else
    (errorResult (sysError (inTheWay t (removelast k)) "mkdir"
                    (pathOf (removelast k))), t).
Proof.
  intros Ha Hc Hk Hp Hwf. unfold treeRun.
  assert (forallb proper_segment (removelast k) = true) as Hk'
    by auto using proper_removelast.
  rewrite (write_file_run dirs cwd a (pathOf k) content) by done.
  rewrite dirname_pathOf by done. unfold exec, treeHost.
  rewrite treeExec_Mkdir_answers by done.
  destruct (noFileAbove t (removelast k)) eqn:Hf; [|done].
  rewrite treeExec_WriteFile_answers;
    [|done|by intros; apply mkdirp_Ok; auto using proper_names].
  rewrite mkdirp_parent_lookup by by apply proper_names.
  destruct (t !! k) as [[]|] eqn:E; try done.
  rewrite mkdirp_existing; [done| |by apply proper_names].
  intros j Hj. eapply wf_parents; eauto.
Qed.

(** What [move_file] answers from the reply of [rename]. *)
Definition moved (source destination : string)
    (out : result string unit * gmap (list string) node)
    : response * gmap (list string) node :=
  (fromReply out.1
     (λ _, "Successfully moved " +:+ source +:+ " to " +:+ destination),
   out.2).

(** C17: [move_file] between allowed normal paths: a destination that
    exists is refused with [InvalidRequest]; a file in the way of the
    directory of the destination is the error of [mkdir]; otherwise the
    directories of the destination are made, and the answer is that of
    [rename] on the tree with them: the move, or its error (a source that
    does not exist, a destination below the source) with the directories
    left behind. *)
Theorem move_file_answers a ks kd t :
  arg_source a = Some (pathOf ks) → arg_destination a = Some (pathOf kd) →
  forallb proper_segment ks = true → forallb proper_segment kd = true →
  isPathAllowed dirs cwd (pathOf ks) = true →
  isPathAllowed dirs cwd (pathOf kd) = true → wf t →
  treeRun dirs cwd matcher (Request "move_file" (Some a)) t =
  if bool_decide (is_Some (t !! kd)) then
    (Thrown InvalidRequest
       ("Destination " +:+ pathOf kd +:+ " already exists"), t)
  else if noFileAbove t (removelast kd) then
    let t1 := (mkdirp t (removelast kd)).2 in
    moved (pathOf ks) (pathOf kd)
      (renameReply (pathOf ks) (pathOf kd)
         match entryAt t1 ks with
         | Ok _ => renameKeys t1 ks kd
         | Err e => (Err e, t1)
         end)
  else
    (errorResult (sysError (inTheWay t (removelast kd)) "mkdir"
                    (pathOf (removelast kd))), t).
Proof.
  intros Hs Hd Hks Hkd Has Had Hwf. unfold treeRun.
  assert (forallb proper_segment (removelast kd) = true) as Hkd'
    by auto using proper_removelast.
  rewrite (move_file_steps dirs cwd a (pathOf ks) (pathOf kd)) by done.
  rewrite dirname_pathOf by done. unfold exec, treeHost.
  rewrite treeExec_ExistsSync_answers by done.
  destruct (bool_decide (is_Some (t !! kd))); [done|].
  rewrite treeExec_Mkdir_answers by done.
  destruct (noFileAbove t (removelast kd)) eqn:Hf; [|done].
  rewrite treeExec_Rename_answers;
    [|by apply mkdirp_wf|done|done
     |by intros; apply mkdirp_Ok; auto using proper_names].
  unfold moved. cbv zeta.
  by destruct (renameReply _ _ _) as [[[]|] ?].
Qed.

End Handlers.

(** ** On the small tree of [Sandbox] *)

Definition aliceRun (toolName : string) (a : args)
    : response * gmap (list string) node :=
  treeRun (H := nodeJsonText) ["/home/alice"] "/" noMatches
    (Request toolName (Some a)) aliceTree.

(** The refusals of the system, as the client reads them: the tree holds
    the file [/home/alice/a.txt] in the directory [/home/alice]. *)
Example aliceTree_refusals :
  let refused toolName a message :=
    (aliceRun toolName a).1 = errorResult message in
  refused "read_file" (pathArgs "/home/alice")
    "EISDIR: illegal operation on a directory, read" ∧
  refused "read_file" (pathArgs "/home/alice/b.txt")
    "ENOENT: no such file or directory, open '/home/alice/b.txt'" ∧
  refused "read_file" (pathArgs "/home/alice/a.txt/b.txt")
    "ENOTDIR: not a directory, open '/home/alice/a.txt/b.txt'" ∧
  refused "write_file" (writeArgs "/home/alice" "x")
    "EISDIR: illegal operation on a directory, open '/home/alice'" ∧
  refused "write_file" (writeArgs "/home/alice/a.txt/b.txt" "x")
    "EEXIST: file already exists, mkdir '/home/alice/a.txt'" ∧
  refused "create_directory" (pathArgs "/home/alice/a.txt")
    "EEXIST: file already exists, mkdir '/home/alice/a.txt'" ∧
  refused "create_directory" (pathArgs "/home/alice/a.txt/b")
    "ENOTDIR: not a directory, mkdir '/home/alice/a.txt/b'" ∧
  refused "list_directory" (pathArgs "/home/alice/a.txt")
    "ENOTDIR: not a directory, scandir '/home/alice/a.txt'" ∧
  refused "get_file_info" (pathArgs "/home/alice/b.txt")
    "ENOENT: no such file or directory, stat '/home/alice/b.txt'" ∧
  refused "move_file" (moveArgs "/home/alice/b.txt" "/home/alice/c.txt")
    ("ENOENT: no such file or directory, rename " +:+
     "'/home/alice/b.txt' -> '/home/alice/c.txt'") ∧
  refused "edit_file" (editArgs "/home/alice" [Edit "a" "b"] None)
    "EISDIR: illegal operation on a directory, read".
Proof. by vm_compute. Qed.

Lemma read_file_answers_witness :
  aliceRun "read_file" (pathArgs "/home/alice/a.txt/b.txt") =
  (match entryAt aliceTree ["home"; "alice"; "a.txt"; "b.txt"] with
   | Ok (File content) => okResult content
   | Ok Dir => errorResult (fdError EISDIR "read")
   | Err e =>
       errorResult
         (sysError e "open" (pathOf ["home"; "alice"; "a.txt"; "b.txt"]))
   end, aliceTree).
Proof.
  apply (read_file_answers (H := nodeJsonText) ["/home/alice"] "/" noMatches
           (pathArgs "/home/alice/a.txt/b.txt"));
    [reflexivity|reflexivity|reflexivity|apply aliceTree_wf].
Defined.

Lemma write_file_answers_witness :
  let k := ["home"; "alice"; "a.txt"; "b.txt"] in
  aliceRun "write_file" (writeArgs "/home/alice/a.txt/b.txt" "x") =
  if noFileAbove aliceTree (removelast k) then
    match aliceTree !! k with
    | Some Dir => (errorResult (sysError EISDIR "open" (pathOf k)), aliceTree)
    | _ =>
        (okResult ("Successfully wrote to " +:+ pathOf k),
         <[k := File "x"]> (mkdirp aliceTree (removelast k)).2)
    end
  else
    (errorResult (sysError (inTheWay aliceTree (removelast k)) "mkdir"
                    (pathOf (removelast k))), aliceTree).
Proof.
  apply (write_file_answers (H := nodeJsonText) ["/home/alice"] "/" noMatches
           (writeArgs "/home/alice/a.txt/b.txt" "x"));
    [reflexivity|reflexivity|reflexivity|reflexivity|apply aliceTree_wf].
Defined.

Lemma edit_file_answers_witness :
  let k := ["home"; "alice"] in
  let a := editArgs "/home/alice" [Edit "a" "b"] None in
  aliceRun "edit_file" a =
  match entryAt aliceTree k with
  | Ok (File original) =>
      let '(newContent, results) := applyEdits original [Edit "a" "b"] in
      let dryRun := default false (arg_dryRun a) in
      (okResult (editReport (H := nodeJsonText) dryRun (pathOf k) results
                   (generateDiff original newContent)),
       if dryRun then aliceTree else <[k := File newContent]> aliceTree)
  | Ok Dir => (errorResult (fdError EISDIR "read"), aliceTree)
  | Err e => (errorResult (sysError e "open" (pathOf k)), aliceTree)
  end.
Proof.
  apply (edit_file_answers (H := nodeJsonText) ["/home/alice"] "/" noMatches
           (editArgs "/home/alice" [Edit "a" "b"] None));
    [reflexivity|reflexivity|reflexivity|reflexivity|apply aliceTree_wf].
Defined.

Lemma create_directory_answers_witness :
  let k := ["home"; "alice"; "a.txt"] in
  aliceRun "create_directory" (pathArgs "/home/alice/a.txt") =
  if noFileAbove aliceTree k then
    (okResult ("Directory " +:+ pathOf k +:+ " created or already exists"),
     (mkdirp aliceTree k).2)
  else (errorResult (sysError (inTheWay aliceTree k) "mkdir" (pathOf k)),
        aliceTree).
Proof.
  apply (create_directory_answers (H := nodeJsonText) ["/home/alice"] "/"
           noMatches (pathArgs "/home/alice/a.txt"));
    [reflexivity|reflexivity|reflexivity|apply aliceTree_wf].
Defined.

Lemma move_file_answers_witness :
  let ks := ["home"; "alice"; "b.txt"] in
  let kd := ["home"; "alice"; "new"; "c.txt"] in
  aliceRun "move_file" (moveArgs "/home/alice/b.txt" "/home/alice/new/c.txt") =
  if bool_decide (is_Some (aliceTree !! kd)) then
    (Thrown InvalidRequest
       ("Destination " +:+ pathOf kd +:+ " already exists"), aliceTree)
  else if noFileAbove aliceTree (removelast kd) then
    let t1 := (mkdirp aliceTree (removelast kd)).2 in
    moved (pathOf ks) (pathOf kd)
      (renameReply (pathOf ks) (pathOf kd)
         match entryAt t1 ks with
         | Ok _ => renameKeys t1 ks kd
         | Err e => (Err e, t1)
         end)
  else
    (errorResult (sysError (inTheWay aliceTree (removelast kd)) "mkdir"
                    (pathOf (removelast kd))), aliceTree).
Proof.
  apply (move_file_answers (H := nodeJsonText) ["/home/alice"] "/" noMatches
           (moveArgs "/home/alice/b.txt" "/home/alice/new/c.txt"));
    [reflexivity|reflexivity|reflexivity|reflexivity|reflexivity|reflexivity
    |apply aliceTree_wf].
Defined.
(* end of Answers *)
