(* ===== verification/Disjoint.v ===== *)
(** * Requests that do not interfere

    [Concurrent.v] shows what can go wrong when two requests in flight
    work on the same file.  This file shows when nothing does: requests of
    [read_file], [write_file] and [edit_file] for pairwise different files
    whose directories exist.  The calls of such a handler read and write
    its own file only ([fileRequest_onFile]); calls on different files are
    independent ([onFile_indep]) and keep the directories in place
    ([onFile_filesIn]); so every interleaving of the handlers is equivalent
    to serving the requests one after the other ([serve_disjoint], by
    [steps_runAll] of [Pool.v]). *)

From Stdlib Require Import Ascii String List Lia NArith.
From stdpp Require Import base tactics option list strings gmap.
From S2P Require Import Prelude JsString NodePath PathGuard Diff Edit Json Host.
From S2P Require Import Pool Server Behaviour TreeHost TreeFacts Sandbox Effects.
From S2P Require Import Concurrent.

(** The tools that work on one file. *)
Definition fileTools : list string := ["read_file"; "write_file"; "edit_file"].

(** The calls of a handler of a file tool on the file at [k]. *)
Definition onFile (k : list string) (c : call) : Prop :=
  match c with
  | ReadFile p | WriteFile p _ => p = pathOf k
  | Mkdir p => p = pathOf (removelast k)
  | _ => False
  end.

(** Every key of [ks] is the place of a file in a directory that exists:
    nothing or a file is there. *)
Definition filesIn (ks : list (list string)) (t : gmap (list string) node)
    : Prop :=
  wf t ∧
  ∀ k, k ∈ ks →
    forallb proper_segment k = true ∧ t !! removelast k = Some Dir ∧
    t !! k ≠ Some Dir.

Section Files.
Context (cwd : string).
Context (matcher : string → list string → gmap (list string) node → list string).
Context (ks : list (list string)).
Implicit Types (t : gmap (list string) node) (k : list string).

#[local] Instance filesHost : Host (gmap (list string) node) :=
  treeHost cwd matcher.

Lemma filesIn_above t k j :
  filesIn ks t → k ∈ ks → j `prefix_of` removelast k → t !! j = Some Dir.
Proof.
  intros [Hwf Hks] Hk Hj. destruct (Hks k Hk) as (_ & Hd & _).
  destruct (decide (j = removelast k)) as [->|]; [done|].
  eapply wf_above; eauto.
Qed.

Lemma filesIn_nonempty t k : filesIn ks t → k ∈ ks → k ≠ [].
Proof.
  intros [Hwf Hks] Hk ->. destruct (Hks [] Hk) as (_ & _ & Hd).
  by rewrite (wf_root _ Hwf) in Hd.
Qed.

(** What [readFile] replies for an entry. *)
Definition readReply (p : string) (n : option node) : result string string :=
  match n with
  | Some (File content) => Ok content
  | Some Dir => Err (fdError EISDIR "read")
  | None => Err (sysError ENOENT "open" p)
  end.

Lemma exec_ReadFile t k :
  filesIn ks t → k ∈ ks →
  exec (ReadFile (pathOf k)) t = (readReply (pathOf k) (t !! k), t).
Proof.
  intros Ht Hk. pose proof Ht as [Hwf Hks]. destruct (Hks k Hk) as (Hp & Hd & Hf).
  unfold exec, filesHost, treeHost, treeExec.
  destruct (t !! k) as [n|] eqn:E.
  - by erewrite onNode_names by done.
  - rewrite onNode_missing; [done..| |done]. apply noFileAbove_spec.
    intros j c Hj Hc. destruct (decide (j = k)) as [->|]; [congruence|].
    assert (j `prefix_of` removelast k) as Hj'.
    { destruct Hj as [r ->]. destruct r as [|x r _] using rev_ind;
        [by rewrite app_nil_r in *|].
      rewrite app_assoc, removelast_last. by apply prefix_app_r. }
    by rewrite (filesIn_above t k j) in Hc.
Qed.

Lemma exec_WriteFile t k content :
  filesIn ks t → k ∈ ks →
  exec (WriteFile (pathOf k) content) t = (Ok (), <[k := File content]> t).
Proof.
  intros Ht Hk. pose proof Ht as [Hwf Hks]. destruct (Hks k Hk) as (Hp & Hd & Hf).
  apply treeExec_WriteFile_names; eauto using filesIn_above, filesIn_nonempty.
Qed.

Lemma exec_Mkdir t k :
  filesIn ks t → k ∈ ks → exec (Mkdir (pathOf (removelast k))) t = (Ok (), t).
Proof.
  intros Ht Hk. pose proof Ht as [Hwf Hks]. destruct (Hks k Hk) as (Hp & Hd & Hf).
  assert (noFileAbove t (removelast k) = true) as Hfiles.
  { apply noFileAbove_spec. intros j c Hj.
    by rewrite (filesIn_above t k j). }
  unfold exec, filesHost, treeHost.
  rewrite treeExec_Mkdir_names by auto using proper_removelast. f_equal.
  apply map_eq. intros j.
  rewrite mkdirp_lookup by auto using proper_names, proper_removelast.
  case_decide; [|done]. by rewrite (filesIn_above t k j).
Qed.

Lemma filesIn_insert t k content :
  filesIn ks t → k ∈ ks → filesIn ks (<[k := File content]> t).
Proof.
  intros Ht Hk. pose proof Ht as [Hwf Hks]. destruct (Hks k Hk) as (Hp & Hd & Hf).
  split.
  - apply wf_insert_File; eauto using filesIn_nonempty.
  - intros k' Hk'. destruct (Hks k' Hk') as (Hp' & Hd' & Hf').
    split; [done|]. split.
    + rewrite lookup_insert_ne; [done|]. intros ->. congruence.
    + destruct (decide (k = k')) as [->|]; [by rewrite lookup_insert_eq|].
      by rewrite lookup_insert_ne.
Qed.

(** The calls on a file of [ks] keep [filesIn ks]. *)
Lemma onFile_filesIn k c t :
  k ∈ ks → onFile k c → filesIn ks t → filesIn ks (exec c t).2.
Proof.
  intros Hk Hc Ht. destruct c; simpl in Hc; try done; subst.
  - rewrite exec_WriteFile by done. by apply filesIn_insert.
  - by rewrite exec_Mkdir.
Qed.

(** Calls on different files of [ks] do not see each other. *)
Lemma onFile_indep k1 k2 c1 c2 :
  k1 ∈ ks → k2 ∈ ks → k1 ≠ k2 → onFile k1 c1 → onFile k2 c2 →
  indep (filesIn ks) c1 c2.
Proof.
  intros Hk1 Hk2 Hne H1 H2 t Ht.
  pose proof (onFile_filesIn k1 c1 t Hk1 H1 Ht) as Ht1.
  pose proof (onFile_filesIn k2 c2 t Hk2 H2 Ht) as Ht2.
  destruct c1; simpl in H1; try done; subst;
    destruct c2; simpl in H2; try done; subst;
    rewrite ?exec_ReadFile, ?exec_WriteFile, ?exec_Mkdir in * by done;
    simpl in *;
    rewrite ?exec_ReadFile, ?exec_WriteFile, ?exec_Mkdir by done;
    simpl; rewrite ?lookup_insert_ne by done; try done.
  repeat split. by apply insert_insert_ne.
Qed.

End Files.

Section Disjoint.
Context `{JsonText}.
Context (dirs : list string) (cwd : string).
Context (matcher : string → list string → gmap (list string) node → list string).
Implicit Types (t : gmap (list string) node) (k : list string)
  (ks : list (list string)) (req : request) (reqs : list request).

#[local] Instance disjointHost : Host (gmap (list string) node) :=
  treeHost cwd matcher.

(** A request of a file tool for the file at [k]. *)
Definition fileRequest req k : Prop :=
  name req ∈ fileTools ∧
  ∃ a, arguments req = Some a ∧ arg_path a = Some (pathOf k).

(** The handler of a file tool makes calls on its file only. *)
Lemma fileRequest_onFile req k :
  forallb proper_segment k = true → fileRequest req k →
  AllCalls (onFile k) (callTool dirs cwd req).
Proof.
  intros Hk [Hin (a & Ha & Hp)]. destruct req as [toolName a'].
  simpl in *. subst a'. unfold fileTools in Hin.
  in_cases Hin; unfold callTool, dispatch; simpl;
    unfold read_file, write_file, edit_file; calls; simpl;
    repeat case_match; calls; simpl; try congruence.
  simplify_eq. by apply dirname_pathOf.
Qed.

Lemma runAll_serve reqs t :
  runAll (serve dirs cwd reqs) t = serveAll dirs cwd reqs t.
Proof.
  revert t; induction reqs as [|req reqs IH]; intros t; simpl; [done|].
  destruct (run _ t) as [r t']. by rewrite IH.
Qed.

Lemma serve_keepsInv ks reqs ks' :
  Forall2 fileRequest reqs ks' → ks' ⊆ ks →
  (∀ k, k ∈ ks → forallb proper_segment k = true) →
  Forall (keepsInv (filesIn ks)) (serve dirs cwd reqs).
Proof.
  intros Hreqs Hsub Hks.
  induction Hreqs as [|req k reqs ks' Hreq _ IH]; [constructor|].
  constructor; [|apply IH; set_solver].
  eapply AllCalls_mono; [|apply (fileRequest_onFile req k); auto].
  - intros c Hc t. apply (onFile_filesIn cwd matcher ks k); [set_solver|done].
  - apply Hks. set_solver.
Qed.

(** The handlers of two file requests for different files are apart. *)
Lemma fileRequest_apart ks req k req' k' :
  k ∈ ks → k' ∈ ks → k ≠ k' →
  (∀ k, k ∈ ks → forallb proper_segment k = true) →
  fileRequest req k → fileRequest req' k' →
  apart (filesIn ks) (callTool dirs cwd req) (callTool dirs cwd req').
Proof.
  intros Hk Hk' Hne Hks Hreq Hreq'.
  eapply AllCalls_mono; [|apply (fileRequest_onFile req k); auto].
  intros c1 Hc1.
  eapply AllCalls_mono; [|apply (fileRequest_onFile req' k'); auto].
  intros c2 Hc2. by apply (onFile_indep cwd matcher ks k k').
Qed.

Lemma serve_allApart ks reqs ks' :
  Forall2 fileRequest reqs ks' → ks' ⊆ ks → NoDup ks' →
  (∀ k, k ∈ ks → forallb proper_segment k = true) →
  allApart (filesIn ks) (serve dirs cwd reqs).
Proof.
  intros Hreqs Hsub Hnd Hks.
  induction Hreqs as [|req k reqs ks' Hreq Hreqs IH]; [done|].
  apply NoDup_cons in Hnd as [Hk Hnd].
  split; [|apply IH; [set_solver|done]].
  apply Forall_map. eapply Forall2_Forall_l; [exact Hreqs|].
  apply Forall_forall. intros k' Hk' req' Hreq'.
  apply (fileRequest_apart ks req k req' k'); [set_solver..|done|done|done].
Qed.

(** C13: requests of the file tools for different files, in directories
    that exist, do not interfere: every interleaving of their handlers
    gives the answers and leaves the tree that serving them one after the
    other does. *)
Theorem serve_disjoint reqs ks t cs cfg :
  Forall2 fileRequest reqs ks → NoDup ks → filesIn ks t →
  steps (serve dirs cwd reqs, t) cs cfg → finished cfg.1 = true →
  (results cfg.1, cfg.2) = serveAll dirs cwd reqs t.
Proof.
  intros Hreqs Hnd Ht Hsteps Hfin. rewrite <-runAll_serve.
  assert (∀ k, k ∈ ks → forallb proper_segment k = true) as Hks
    by (intros k Hk; by apply Ht).
  eapply (steps_runAll (filesIn ks)); eauto using serve_allApart, serve_keepsInv.
Qed.

End Disjoint.

(** ** An edit and a write in flight *)

Lemma serve_disjoint_witness :
  let cfg := (schedule (H := homeHost) [0; 1; 0; 1]
                (flight [editA; writeC], aliceTree)).2 in
  (results cfg.1, cfg.2) = inOrder [editA; writeC].
Proof.
  apply (serve_disjoint (H := nodeJsonText) ["/home/alice"] "/" noMatches
           [editA; writeC]
           [["home"; "alice"; "a.txt"]; ["home"; "alice"; "c.txt"]]
           aliceTree
           (schedule (H := homeHost) [0; 1; 0; 1]
              (flight [editA; writeC], aliceTree)).1).
  - repeat constructor; by eexists.
  - apply NoDup_cons. split; [|apply NoDup_singleton].
    intros Hin%list_elem_of_In. by destruct Hin as [[=]|[]].
  - split; [apply aliceTree_wf|].
    intros k [->|[->|[]%elem_of_nil]%elem_of_cons]%elem_of_cons;
      by vm_compute.
  - apply schedule_steps.
  - by vm_compute.
Defined.
(* end of Disjoint *)
